(* ===== verification/_CoqProject ===== *)
-Q . S2P
Prelude.v
Coalesce.v
CoalesceProofs.v
GoStrings.v
KV.v
MemDB.v
MemRefine.v
Ledger.v
LedgerProofs.v
Records.v
Regex.v
Types.v
GitHubApi.v
Trivial.v
TrivialProofs.v
Titles.v
Trust.v
Filters.v
SizeGate.v
Commands.v
World.v
Code.v
Concurrent.v
Publisher.v
CursorFile.v
Watcher.v
WatcherFacts.v
DemoEnv.v
WatcherProofs.v
Scanner.v
Tame.v
PollCycles.v
ScannerProofs.v
RetryGuard.v
Executor.v
ExecutorProofs.v
Producers.v
Crypto.v
Handlers.v
HandlersProofs.v
GoPath.v
GitHubClient.v
ClientProofs.v
Metrics.v
Transport.v
Config.v
Process.v
RelyGuarantee.v
Safety.v
Goroutines.v
ProcessProofs.v
Interleaving.v
Messages.v
HeldHeads.v
Schedules.v
ProcessExamples.v
