(* ===== verification/Prelude.v ===== *)
(** * github-pr-watcher: a verification development

    The program (src/) watches the open pull requests of one GitHub owner and
    turns them into tasks on Kafka: reviews for a reviewer agent, overrides
    that approve without one, and tasks a human must release. It is one
    process of three loops over shared state. A ticker runs a poll: search,
    filter, side effects (update-branch, auto-merge, closing superseded bumps,
    labelling trivial bumps), then at most one task per pull request, then the
    scan for reviews that never came. An HTTP server takes GitHub's webhooks
    and an operator's trigger and turns them into commands on Kafka. A
    consumer takes those commands back and publishes reviews or posts the
    merge-gate commit status. They share a coalescer (bursts of pushes become
    two reviews), two ledgers in an in-memory store (what was published lately),
    the GitHub client and the metrics.

    ** How the model is built

    Prelude holds the generic part: 64-bit integers, times and durations as
    nanoseconds (a difference saturates, as time.Sub does), Go errors as their
    sentinel, the notations, tactics and hint databases. GoStrings, GoPath,
    Regex and Crypto are the parts of Go's standard library the code uses,
    executable and checked on examples; the regular expressions have a proved
    matcher.

    World gives the code as trees of atomic actions: a request of the
    surroundings (the clock, the context, GitHub, Kafka, the cursor file, the
    metrics), a step on the goroutine's own variables, a method of the
    coalescer, a lock, an access to what a lock guards. [runM] runs a tree
    alone: it passes a world along and appends each request with its answer to
    the trace. [wp m Q w] speaks of every way [m] may go from [w] and of the
    segment of the trace it adds; what it may meet at each action is the class
    [Sched]. The instance [solo] is the run alone, in an environment, which is
    any state that answers requests; in the instance [among] a request is
    answered by anything, failures included, and other goroutines may have
    changed whatever no lock of this one protects. Most theorems on the poll,
    the scan, the consumer and the handlers are proved for any [Sched], so
    they say at once what a part does alone and in any company. Code has the
    coarser reading: what a tree can never do ([every]).

    Concurrent runs many trees: a pool of goroutines, each with its tree,
    takes one action of any of them at a time, over the store behind its
    read-write mutex, the coalescer with the runtime's clock and timers, and
    the scanner's maps behind theirs. Process says which goroutines there are:
    the poll loop, one per HTTP request, the consumer with each command inside
    one update of the store, one per timer that goes off. RelyGuarantee and
    Safety are the logic for it: [wpc] verifies a goroutine against what the
    others may do between its steps, and [pool_sound] carries it to every
    interleaving. Goroutines verifies the code of the parts with it.
    Interleaving joins the two: the pool is no worse company than [among], so
    what [wp] says of a computation holds of it in every interleaving.

    Interfaces are classes. KV is the store the ledgers are written against
    (MemDB implements it); TaskPublisher is what a publish promises the poll
    and the scan (Publisher implements it); FileEnv is the file system under
    the cursor; PayloadLaws and CursorCodecLaws are the round trips of the
    encodings. Library code is a parameter: the UUID hash, the gitignore
    engine, the PR URL parser, the JSON codecs, the Unicode tables.

    ** The parts, and the files that model them

    - Coalesce, CoalesceProofs: pkg/coalesce/coalesce.go. Every method over the
      map of entries, the scheduler's timers, the dispatches in flight and the
      runtime clock; fire is split where it drops the mutex, and runs
      interleave all steps freely.
    - KV, MemDB, MemRefine: pkg/memdb.go. Buckets are references into a heap.
    - Ledger, LedgerProofs: pkg/override_ledger.go and the ledger half of
      pkg/retry_guard.go. RetryGuard: its decision.
    - Trivial, TrivialProofs: pkg/trivial.go. Titles: pkg/taskid.go and
      pkg/filename.go. Trust: pkg/trust. Filters: pkg/filter and pkg/filter.go.
      SizeGate: pkg/reviewignore and the size gate of pkg/watcher.go. Commands:
      the three task builders of pkg/watcher.go, byte for byte.
    - Types, GitHubApi: the data of pkg/githubclient.go and the calls it makes.
      GitHubClient, ClientProofs: its methods; [client_env] turns the client
      into an environment, so the properties of the other parts hold over it.
    - Publisher: the task publisher of pkg/watcher.go. CursorFile: pkg/cursor.go.
    - Watcher, WatcherFacts, WatcherProofs: the poll of pkg/watcher.go. The maps
      Go passes by reference are fields of the world.
    - Scanner, ScannerProofs: pkg/unreviewed_scanner.go. Tame: what poll and
      scan never do. PollCycles: whole polls, one after another, through the
      cursor file.
    - Executor, ExecutorProofs: pkg/command. Producers: all paths that publish,
      in any order, over the two ledgers; Records: what they keep there.
    - Handlers, HandlersProofs: pkg/handler and pkg/factory/webhook.go.
    - Transport: the HTTP transport of pkg/githubclient.go with
      pkg/github_api_metrics.go and pkg/non2xx_log.go. Metrics: pkg/metrics.go.
    - Config: main.go up to the start of the loops, and the watcher's factory.
    - Process: main.go from there on (pollOnce, runPollLoop, createHTTPServer,
      the three-way run), the consumer of pkg/factory, and the goroutines of
      the coalescer's timers. ProcessProofs, Interleaving, Messages, HeldHeads:
      what holds of every interleaving of them.
    - DemoEnv: a concrete surrounding for the examples and the instances.
      Schedules: an executable scheduler; ProcessExamples: schedules of a
      small process, the instances of the theorems on interleavings among them.

    ** What the theorems show

    - One pull request, one task: processing it sends at most one task, under
      the identifier of the head GitHub answered for it, only with the label or behind the
      mechanical gate for an override; a batch publishes no identifier twice;
      every write to GitHub is on that pull request and has its reasons; the
      cursor never passes a deferred one; deferrals are bounded (WatcherProofs).
      The next poll, after a restart too, publishes nothing a poll published
      that saved its cursor, the scan's retries apart (PollCycles).
    - Across the producers, one publish after another: an override owns its
      head for an hour, a forced command duplicates no review in flight. A
      consumed command sends a review only past every gate, a deferred head is
      given back, and a command consumed twice names its task alike unless it
      is forced (Producers, ExecutorProofs).
    - The running process, in every interleaving of polls, requests, commands
      and timers: nothing deadlocks and nothing races; whoever sends a review
      looked its head up in the same publish and, if an override was on the
      ledger by then, after its hour; a command has the store to itself from
      the look-up to the record, so nothing comes between; the coalescer makes
      only steps of its own transition system, and a held head reaches its
      dispatch; a goroutine left alone runs to its end and does what [runM]
      says; every command handed to Kafka is one the consumer can decode and
      acts on; and the theorems on single computations above and below hold of
      them wherever they run (ProcessProofs, HeldHeads, Messages,
      Interleaving).
    - Webhooks: only a signed delivery acts, an acknowledged one is not lost,
      the label decides the merge gate, and a status GitHub did not take is
      retried unless no retry can help (HandlersProofs, ClientProofs).
    - The coalescer: emissions keep their distance in every interleaving, a
      held head has exactly one live timer and is dispatched, a settled head
      is a claimed one (CoalesceProofs).
    - The ledgers answer exactly by what was recorded within their windows, for
      any conforming store, and the in-memory store refines a map of maps
      (LedgerProofs, MemRefine).
    - The classifier decides a declarative notion of mechanical change and
      never panics; titles, identifiers, trust, filters, the size gate and the
      task bodies meet their specifications.
    - The scan stays within its retry budget and its gauge is exact, the size
      gate included; a scrape shows the last scan (ScannerProofs, Metrics).
    - The client makes the write it is asked for and no other, its listings are
      complete and end, the transport hands on answers, errors and broken bodies
      as they came and its accounts are exact;
      the process starts exactly on a sound configuration (ClientProofs,
      Transport, Config).

    ** Bounds and fuel

    Paginated searches and listings take a bound on the pages, since GitHub may
    announce pages for ever; [None] says it was reached. [fetch_complete] shows
    that this happens only after that many pages announced another, and
    [listing_complete] that a listing GitHub numbers upwards to [n] needs
    [n + 1]. The other loops recurse on their data or on a fuel that is the
    number of bytes or keys left, and one step consumes one at least; Go's own
    binary search gets the length of its range.

    ** Not modelled

    - The library code the goroutines sit in: the ticker, the HTTP router and
      listener, the background runner of /check (which skips a check while one
      runs: here any number may), the Kafka consumer's fetching and offsets (a
      parameter that leaves the ledgers' buckets alone), the three-way run. A
      request, a tick or a command may come at any time. A reader takes the
      store's mutex whenever no writer has it; Go also lets a waiting writer
      go first, which allows less. Weak memory is out: [race_free] is why
      steps one at a time are enough. The mutexes of the client and of the
      metrics guard single calls.
    - A poll whose cursor file was not written, or was lost, may publish
      again: [polls_publish_once] is about polls that saved it. Producers
      composes the paths one after another; what of it interleavings keep is
      in ProcessProofs.
    - Theorems on interleavings that rely on the runtime giving a started
      timer its turn within a hold window say so ([timely]).
    - Branches for collaborators main.go always supplies (a nil store, guard,
      recorder or ledger), log lines and what only feeds them (such as the name
      of the filter that skipped), constant response bodies, tracing and the
      registration of metrics. The clock of a ledger query is read at the start
      of its transaction.
    - The libraries themselves: go-github's decoding, Prometheus, the CQRS
      framework, maintainerconfig, prurl, repoallowlist. *)
From stdpp Require Export base tactics decidable list option gmap strings.
From Stdlib Require Export ZArith Lia.

(** ** Machine integers

    Go's [int] and [int64] are 64-bit two's complement on every platform the
    program is built for. Sums and differences wrap around; a
    [time.Time.Sub] saturates instead. *)
Definition int_min : Z := (- 2 ^ 63)%Z.
Definition int_max : Z := (2 ^ 63 - 1)%Z.

Definition wrap64 (x : Z) : Z := ((x + 2 ^ 63) mod 2 ^ 64 - 2 ^ 63)%Z.

Definition sat64 (x : Z) : Z := Z.max int_min (Z.min int_max x).

Definition in_int64 (x : Z) : Prop := (int_min <= x <= int_max)%Z.

(** A window length: every bound the program compares an age with (a
    positive configured duration or one hour) satisfies it. *)
Definition window (d : Z) : Prop := (0 <= d < int_max)%Z.

Section int64_facts.
Local Open Scope Z_scope.

Lemma wrap64_id x : in_int64 x -> wrap64 x = x.
Proof.
  unfold in_int64, int_min, int_max, wrap64. intros H.
  rewrite Z.mod_small; lia.
Qed.

Lemma wrap64_range x : in_int64 (wrap64 x).
Proof.
  unfold in_int64, int_min, int_max, wrap64.
  pose proof (Z.mod_pos_bound (x + 2 ^ 63) (2 ^ 64) eq_refl) as H.
  change (2 ^ 64) with (2 * 2 ^ 63) in *. revert H.
  generalize ((x + 2 ^ 63) mod (2 * 2 ^ 63)). generalize (2 ^ 63). intros. lia.
Qed.

(** A saturated difference compares with a window length exactly as the
    unsaturated one does: this is what lets window tests be reasoned about
    on plain integers. *)
Lemma sat64_le_r x d : window d -> (d <=? sat64 x) = (d <=? x).
Proof.
  unfold window, sat64, int_min, int_max. intros.
  apply eq_true_iff_eq. rewrite ?Z.leb_le, ?Z.ltb_lt. lia.
Qed.

Lemma sat64_lt_l x d : window d -> (sat64 x <? d) = (x <? d).
Proof.
  unfold window, sat64, int_min, int_max. intros.
  apply eq_true_iff_eq. rewrite ?Z.leb_le, ?Z.ltb_lt. lia.
Qed.

Lemma sat64_le_l x d : window d -> (sat64 x <=? d) = (x <=? d).
Proof.
  unfold window, sat64, int_min, int_max. intros.
  apply eq_true_iff_eq. rewrite ?Z.leb_le, ?Z.ltb_lt. lia.
Qed.

Lemma sat64_lt_r x d : window d -> (d <? sat64 x) = (d <? x).
Proof.
  unfold window, sat64, int_min, int_max. intros.
  apply eq_true_iff_eq. rewrite ?Z.leb_le, ?Z.ltb_lt. lia.
Qed.

Lemma sat64_ge_iff x d : window d -> d <= sat64 x <-> d <= x.
Proof. unfold window, sat64, int_min, int_max. lia. Qed.

Lemma sat64_lt_iff x d : window d -> sat64 x < d <-> x < d.
Proof. unfold window, sat64, int_min, int_max. lia. Qed.

(** The same for an age computed by [time.Time.Sub]. *)
Lemma dt_Sub_ge_iff (a b : Z) d : window d -> d <= sat64 (a - b) <-> b + d <= a.
Proof. intros. rewrite sat64_ge_iff by done. lia. Qed.

Lemma dt_Sub_lt_iff (a b : Z) d : window d -> sat64 (a - b) < d <-> a < b + d.
Proof. intros. rewrite sat64_lt_iff by done. lia. Qed.
End int64_facts.

(** ** Time

    An instant is a number of nanoseconds since Go's zero [time.Time]
    (January 1 of the year 1, UTC), so [IsZero] is equality with 0. A
    duration is an [int64] of nanoseconds. *)
Definition DateTime : Type := Z.
Definition Duration : Type := Z.

Definition dt_zero : DateTime := 0%Z.
Definition dt_IsZero (t : DateTime) : bool := (t =? 0)%Z.
Definition dt_Before (a b : DateTime) : bool := (a <? b)%Z.
Definition dt_After (a b : DateTime) : bool := (b <? a)%Z.
Definition dt_Equal (a b : DateTime) : bool := (a =? b)%Z.
Definition dt_Sub (a b : DateTime) : Duration := sat64 (a - b).
Definition dt_Add (a : DateTime) (d : Duration) : DateTime := (a + d)%Z.

Definition Second : Duration := (10 ^ 9)%Z.
Definition Minute : Duration := (60 * Second)%Z.
Definition Hour : Duration := (60 * Minute)%Z.

(** ** Errors

    A Go error is kept as the sentinel [errors.Is] finds in its chain: the
    code wraps errors with messages and only ever branches on the sentinel. *)
Inductive error : Type :=
| ErrCommandObjectSkipped
| ErrPermanent
| BucketNotFoundError
| BucketAlreadyExistsError
| ErrOther (msg : string).

#[export] Instance error_eq_dec : EqDecision error.
Proof. solve_decision. Defined.

Inductive result (A : Type) : Type :=
| Ok (a : A)
| Err (e : error).
Arguments Ok {A} a.
Arguments Err {A} e.

Definition is_Ok {A} (r : result A) : bool :=
  match r with Ok _ => true | Err _ => false end.

(** ** Notations of the development *)
Declare Scope watcher_scope.
Delimit Scope watcher_scope with watcher.

Notation "'let_ok' x ':=' r 'in' k" :=
  (match r with Ok x => k | Err e => Err e end)
  (at level 10, x pattern, r at level 100, k at level 200) : watcher_scope.
Notation "a =?s b" := (String.eqb a b) (at level 70) : watcher_scope.
#[global] Open Scope watcher_scope.
#[global] Open Scope stdpp_scope.

(** [slices.Contains] on strings. *)
Definition slices_Contains (l : list string) (x : string) : bool :=
  existsb (fun y => y =?s x) l.

(** ** Automation *)
Create HintDb watcher.
Create Rewrite HintDb sat64.

(** Turn boolean tests in the context and the goal into propositions. *)
Ltac bool_props :=
  repeat match goal with
  | H : (_ =?s _) = true |- _ => apply String.eqb_eq in H
  | H : (_ =?s _) = false |- _ => apply String.eqb_neq in H
  | H : andb _ _ = true |- _ => apply andb_true_iff in H; destruct H
  | H : orb _ _ = false |- _ => apply orb_false_iff in H; destruct H
  | H : negb _ = true |- _ => apply negb_true_iff in H
  | H : negb _ = false |- _ => apply negb_false_iff in H
  | H : (_ =? _)%Z = true |- _ => apply Z.eqb_eq in H
  | H : (_ =? _)%Z = false |- _ => apply Z.eqb_neq in H
  | H : (_ <=? _)%Z = true |- _ => apply Z.leb_le in H
  | H : (_ <=? _)%Z = false |- _ => apply Z.leb_gt in H
  | H : (_ <? _)%Z = true |- _ => apply Z.ltb_lt in H
  | H : (_ <? _)%Z = false |- _ => apply Z.ltb_ge in H
  end.

(** Case analysis on the scrutinee of the first [match] or [if] found. *)
Ltac case_on t := destruct t eqn:?; simpl in *.
Ltac case_goal :=
  match goal with
  | |- context [match ?x with _ => _ end] =>
      lazymatch x with
      | context [match _ with _ => _ end] => fail
      | _ => destruct x eqn:?
      end
  end.
Ltac case_hyp H :=
  match type of H with
  | context [match ?x with _ => _ end] =>
      lazymatch x with
      | context [match _ with _ => _ end] => fail
      | _ => destruct x eqn:?
      end
  end.

(** ** Shared facts on lists, options and strings *)
Lemma slices_Contains_spec l x : slices_Contains l x = true <-> x ∈ l.
Proof.
  unfold slices_Contains. rewrite existsb_exists, list_elem_of_In.
  split.
  - intros (y & Hy & E). bool_props. by subst.
  - intros H. exists x. split; [done |]. apply String.eqb_refl.
Qed.

Lemma slices_Contains_snoc l x : slices_Contains (l ++ [x]) x = true.
Proof. apply slices_Contains_spec. apply elem_of_app. right. by left. Qed.

Lemma existsb_false_forall {A} (f : A -> bool) l :
  existsb f l = false <-> Forall (fun x => f x = false) l.
Proof.
  induction l as [|x l IH]; simpl; [by split|].
  rewrite orb_false_iff, Forall_cons, IH. done.
Qed.

Lemma forallb_true_forall {A} (f : A -> bool) l :
  forallb f l = true <-> Forall (fun x => f x = true) l.
Proof.
  induction l as [|x l IH]; simpl; [by split|].
  rewrite andb_true_iff, Forall_cons, IH. done.
Qed.

(** Lookup in a map filtered by a boolean test of the value. *)
Lemma lookup_filter_bool {A} (f : A -> bool) (m : gmap string A) k :
  filter (fun kv => f (snd kv) = true) m !! k =
  match m !! k with Some v => if f v then Some v else None | None => None end.
Proof.
  destruct (m !! k) as [v|] eqn:Hk.
  - destruct (f v) eqn:Hf; [by apply map_lookup_filter_Some|].
    apply map_lookup_filter_None. right. intros x Hx. simplify_eq. simpl. congruence.
  - apply map_lookup_filter_None. by left.
Qed.

(** [String.append] does not simplify under stdpp; this equation is the
    step the string lemmas rewrite with. *)
Lemma string_app_cons c (s t : string) : String c s +:+ t = String c (s +:+ t).
Proof. reflexivity. Qed.

Lemma string_app_nil_l (s : string) : "" +:+ s = s.
Proof. reflexivity. Qed.

Lemma string_app_length (s t : string) :
  String.length (s +:+ t) = (String.length s + String.length t)%nat.
Proof.
  induction s as [|c s IH]; [done|]. rewrite string_app_cons. simpl. by rewrite IH.
Qed.

Lemma string_app_assoc (s t u : string) : (s +:+ t) +:+ u = s +:+ (t +:+ u).
Proof.
  induction s as [|c s IH]; [done|]. rewrite !string_app_cons. by rewrite IH.
Qed.

Lemma string_app_nil_r (s : string) : s +:+ "" = s.
Proof. induction s as [|c s IH]; [done|]. rewrite string_app_cons. by rewrite IH. Qed.

Lemma string_app_inj_l (s t u : string) : s +:+ t = s +:+ u -> t = u.
Proof. apply (inj (String.append s)). Qed.

Lemma list_of_string_app (s t : string) :
  String.list_ascii_of_string (s +:+ t) =
  String.list_ascii_of_string s ++ String.list_ascii_of_string t.
Proof. induction s as [|c s IH]; [done|]. rewrite string_app_cons. simpl. by rewrite IH. Qed.

Lemma string_of_list_app l k :
  String.string_of_list_ascii (l ++ k) =
  String.string_of_list_ascii l +:+ String.string_of_list_ascii k.
Proof. induction l as [|c l IH]; [done|]. simpl. rewrite string_app_cons. by rewrite IH. Qed.

Lemma list_of_string_inj s t :
  String.list_ascii_of_string s = String.list_ascii_of_string t -> s = t.
Proof.
  intros H. rewrite <- (String.string_of_list_ascii_of_string s),
    <- (String.string_of_list_ascii_of_string t). by rewrite H.
Qed.

Lemma length_list_of_string s :
  length (String.list_ascii_of_string s) = String.length s.
Proof. induction s as [|c s IH]; [done|]. simpl. by rewrite IH. Qed.

#[export] Hint Resolve wrap64_range : watcher.
#[export] Hint Rewrite sat64_le_r sat64_lt_l sat64_le_l sat64_lt_r
  using (unfold window, int_max in *; lia) : sat64.
