(* ===== verification/Coalesce.v ===== *)
(** * Coalesce: the trailing coalescer (pkg/coalesce/coalesce.go)

    The state of [coalescer] is the map of per-PR entries; the runtime's
    timers, the dispatches in flight and the runtime clock are part of the
    model because [Scheduler.AfterFunc], [Timer.Stop] and the unlocked middle
    of [fire] are what makes the component delicate. Every method is one
    function of the state (the mutex makes it atomic), [fire] is two: the
    critical section before the dispatch and the one after it. *)
From S2P Require Import Prelude.
Local Open Scope Z_scope.

(** ** Data *)

Record Key : Type := mkKey { k_Owner : string; k_Repo : string; k_Number : Z }.

#[export] Instance Key_eq_dec : EqDecision Key.
Proof. solve_decision. Defined.
#[export] Instance Key_countable : Countable Key.
Proof.
  refine (inj_countable' (fun k => (k_Owner k, k_Repo k, k_Number k))
            (fun '(o, r, n) => mkKey o r n) _). by intros [].
Defined.

Inductive Decision : Type := Emit | Hold | Settled.

#[export] Instance Decision_eq_dec : EqDecision Decision.
Proof. solve_decision. Defined.

(** The handle [Scheduler.AfterFunc] returns. *)
Definition timer_id : Type := nat.

Record entry : Type := mkEntry {
  lastEmitAt : DateTime;
  lastHead : string;
  lastPushAt : DateTime;
  pendingHead : string;
  pendingURL : string;
  generation : Z;
  timer : option timer_id }.

(** [&entry{}]: every field has its zero value. *)
Definition zero_entry : entry := mkEntry dt_zero "" dt_zero "" "" 0 None.

Definition set_lastPushAt (t : DateTime) (e : entry) : entry :=
  mkEntry (lastEmitAt e) (lastHead e) t (pendingHead e) (pendingURL e) (generation e) (timer e).
Definition set_claim (t : DateTime) (h : string) (e : entry) : entry :=
  mkEntry t h (lastPushAt e) (pendingHead e) (pendingURL e) (generation e) (timer e).
Definition set_pending (h u : string) (e : entry) : entry :=
  mkEntry (lastEmitAt e) (lastHead e) (lastPushAt e) h u (generation e) (timer e).
Definition set_generation (g : Z) (e : entry) : entry :=
  mkEntry (lastEmitAt e) (lastHead e) (lastPushAt e) (pendingHead e) (pendingURL e) g (timer e).
Definition set_timer (t : option timer_id) (e : entry) : entry :=
  mkEntry (lastEmitAt e) (lastHead e) (lastPushAt e) (pendingHead e) (pendingURL e) (generation e) t.

(** [generation] is a [uint64]: its increment wraps. *)
Definition next_generation (g : Z) : Z := (g + 1) mod 2 ^ 64.

(** A closure handed to [AfterFunc]. [cb_due] is the earliest instant the
    runtime may run it at; [cb_started] says its goroutine has been launched,
    after which [Timer.Stop] no longer prevents it. *)
Record callback : Type := mkCallback {
  cb_key : Key;
  cb_url : string;
  cb_generation : Z;
  cb_due : DateTime;
  cb_started : bool }.

(** A dispatch between the two critical sections of [fire], which the
    callback of timer [fl_timer] is making. *)
Record flight : Type := mkFlight {
  fl_timer : timer_id; fl_key : Key; fl_url : string; fl_head : string }.

#[export] Instance flight_eq_dec : EqDecision flight.
Proof. solve_decision. Defined.

Record coalescer : Type := mkCoalescer {
  entries : gmap Key entry;
  timers : gmap timer_id callback;
  next_timer : timer_id;
  flights : list flight;
  clock : DateTime }.

Definition set_entries (es : gmap Key entry) (c : coalescer) : coalescer :=
  mkCoalescer es (timers c) (next_timer c) (flights c) (clock c).
Definition set_timers (ts : gmap timer_id callback) (c : coalescer) : coalescer :=
  mkCoalescer (entries c) ts (next_timer c) (flights c) (clock c).
Definition set_flights (fs : list flight) (c : coalescer) : coalescer :=
  mkCoalescer (entries c) (timers c) (next_timer c) fs (clock c).
Definition set_clock (t : DateTime) (c : coalescer) : coalescer :=
  mkCoalescer (entries c) (timers c) (next_timer c) (flights c) t.
Definition store (k : Key) (e : entry) (c : coalescer) : coalescer :=
  set_entries (<[k := e]> (entries c)) c.

(** [NewCoalescer]: no entry, no timer. *)
Definition NewCoalescer (now : DateTime) : coalescer := mkCoalescer ∅ ∅ 0%nat [] now.

Definition maxEntries : nat := 4096.
Definition MaxHold : Duration := Hour.

(** [ValidateHold]. *)
Definition ValidateHold (hold : Duration) : result unit :=
  if hold <=? 0 then Err (ErrOther "coalesce hold must be positive")
  else if MaxHold <? hold then Err (ErrOther "coalesce hold must not exceed MaxHold")
  else Ok tt.

(** ** The runtime's scheduler *)

(** [AfterFunc(d, f)]: a one-shot timer due [d] from now. *)
Definition AfterFunc (d : Duration) (k : Key) (u : string) (g : Z) (c : coalescer)
  : coalescer * timer_id :=
  (mkCoalescer (entries c)
     (<[next_timer c := mkCallback k u g (clock c + d) false]> (timers c))
     (S (next_timer c)) (flights c) (clock c),
   next_timer c).

(** [Timer.Stop]: removes a timer that has not started; a started callback
    still runs. *)
Definition Stop (t : timer_id) (c : coalescer) : coalescer :=
  match timers c !! t with
  | Some cb => if cb_started cb then c else set_timers (delete t (timers c)) c
  | None => c
  end.

(** The timer expired: its callback's goroutine is launched. *)
Definition start (cb : callback) : callback :=
  mkCallback (cb_key cb) (cb_url cb) (cb_generation cb) (cb_due cb) true.

(** ** Methods *)
Section methods.
Context (hold : Duration).

(** [stopTimer] *)
Definition stopTimer (e : entry) (c : coalescer) : entry * coalescer :=
  match timer e with
  | Some t => (set_timer None e, Stop t c)
  | None => (e, c)
  end.

(** [clearPending] *)
Definition clearPending (e : entry) (c : coalescer) : entry * coalescer :=
  let '(e, c) := stopTimer e c in
  (set_generation (next_generation (generation e)) (set_pending "" "" e), c).

(** [schedule] *)
Definition schedule (e : entry) (k : Key) (head url : string) (c : coalescer)
  : entry * coalescer :=
  let e := set_pending head url e in
  let '(e, c) := stopTimer e c in
  let e := set_generation (next_generation (generation e)) e in
  let '(c, t) := AfterFunc hold k url (generation e) c in
  (set_timer (Some t) e, c).

(** [prune]: an entry survives when a dispatch is outstanding for it or its
    last publish is younger than the hold window. *)
Definition prune_keeps (now : DateTime) (e : entry) : bool :=
  negb (pendingURL e =?s "") || negb (hold <=? dt_Sub now (lastEmitAt e)).

Definition prune (now : DateTime) (c : coalescer) : coalescer :=
  if (size (entries c) <=? maxEntries)%nat then c
  else set_entries (filter (fun ke => prune_keeps now (snd ke) = true) (entries c)) c.

(** [entry]: the state for a key, created on first use. *)
Definition entry_of (k : Key) (c : coalescer) : entry :=
  default zero_entry (entries c !! k).

(** [Push] *)
Definition Push (k : Key) (head url : string) (now : DateTime) (c : coalescer)
  : bool * coalescer :=
  let c := prune now c in
  let e := entry_of k c in
  if negb (head =?s "") && (head =?s lastHead e) then (false, store k e c)
  else
    let leading :=
      dt_IsZero (lastEmitAt e)
      || ((hold <=? dt_Sub now (lastPushAt e)) && (hold <=? dt_Sub now (lastEmitAt e))) in
    let e :=
      if dt_IsZero (lastPushAt e) || dt_After now (lastPushAt e)
      then set_lastPushAt now e else e in
    if leading then
      let '(e, c) := clearPending e c in (true, store k e c)
    else
      let '(e, c) := schedule e k head url c in (false, store k e c).

(** [Admit] *)
Definition Admit (k : Key) (head : string) (pushAt now : DateTime) (c : coalescer)
  : Decision * coalescer :=
  let c := prune now c in
  let e := entry_of k c in
  let e :=
    if negb (dt_IsZero pushAt)
       && (dt_IsZero (lastPushAt e) || dt_After pushAt (lastPushAt e))
    then set_lastPushAt pushAt e else e in
  let decision :=
    if head =?s "" then Hold
    else if head =?s lastHead e then Settled
    else if negb (pendingURL e =?s "") then Hold
    else if dt_IsZero (lastEmitAt e) then Emit
    else if negb (dt_IsZero (lastPushAt e)) && (dt_Sub now (lastPushAt e) <? hold)
    then Hold
    else if dt_Sub now (lastEmitAt e) <? hold then Hold
    else Emit in
  (decision, store k e c).

(** [MarkEmitted] *)
Definition MarkEmitted (k : Key) (head : string) (now : DateTime) (c : coalescer)
  : coalescer :=
  let e := set_claim now head (entry_of k c) in
  let '(e, c) := clearPending e c in
  store k e c.

(** [Release] *)
Definition Release (k : Key) (head : string) (c : coalescer) : coalescer :=
  match entries c !! k with
  | Some e => if lastHead e =?s head then store k (set_claim dt_zero "" e) c else c
  | None => c
  end.

(** [Close]: every entry's timer is stopped and forgotten. *)
Definition Close (c : coalescer) : coalescer :=
  let c' := map_fold (fun _ e acc => match timer e with Some t => Stop t acc | None => acc end)
              c (entries c) in
  set_entries (set_timer None <$> entries c) c'.

(** [fire], up to the dispatch: the head to publish, unless superseded. *)
Definition fire_begin (k : Key) (g : Z) (c : coalescer) : option string * coalescer :=
  match entries c !! k with
  | None => (None, c)
  | Some e =>
      if negb (generation e =? g) then (None, c)
      else (Some (pendingHead e), store k (set_timer None (set_pending "" "" e)) c)
  end.

(** [fire], after the dispatch returned: [ok] says it returned no error and
    [now] is the clock reading of the success path. *)
Definition fire_end (k : Key) (url head : string) (ok : bool) (now : DateTime)
  (c : coalescer) : coalescer :=
  if ok then MarkEmitted k head now c
  else
    match entries c !! k with
    | Some e =>
        if pendingURL e =?s "" then
          let '(e, c) := schedule e k head url c in store k e c
        else c
    | None => c
    end.

(** The two critical sections with the runtime's bookkeeping: the callback of
    timer [t] leaves the timers for the flights, and the flights at the end. *)
Definition fire_enter (t : timer_id) (cb : callback) (c : coalescer) : option string * coalescer :=
  let '(r, c') := fire_begin (cb_key cb) (cb_generation cb) (set_timers (delete t (timers c)) c) in
  (r, match r with
      | Some h => set_flights (mkFlight t (cb_key cb) (cb_url cb) h :: flights c') c'
      | None => c'
      end).

Fixpoint land (fl : flight) (fls : list flight) : list flight :=
  match fls with
  | [] => []
  | x :: fls' => if decide (x = fl) then fls' else x :: land fl fls'
  end.

Definition fire_leave (fl : flight) (ok : bool) (now : DateTime) (c : coalescer) : coalescer :=
  fire_end (fl_key fl) (fl_url fl) (fl_head fl) ok now
    (set_flights (land fl (flights c)) c).
End methods.
