(* ===== verification/CoalesceProofs.v ===== *)
(** * CoalesceProofs: the coalescer as a transition system, and what holds of it *)
From S2P Require Import Prelude Coalesce.
Local Open Scope Z_scope.

(** ** Transition system

    One constructor per atomic step: a method call, a timer whose time has
    come, the two halves of [fire], and the passage of time. *)
Inductive label : Type :=
| LPush (k : Key) (head url : string) (now : DateTime) (leading : bool)
| LAdmit (k : Key) (head : string) (pushAt now : DateTime) (d : Decision)
| LMark (k : Key) (head : string) (now : DateTime)
| LRelease (k : Key) (head : string)
| LExpire (t : timer_id)
| LFireBegin (t : timer_id) (head : option string)
| LFireEnd (fl : flight) (ok : bool) (now : DateTime)
| LTick (now : DateTime).

(** Scheduling assumption of the [Push] and [Admit] steps: a timer goroutine
    the runtime has started gets the mutex before its PR's entry is pruned.
    [prune] runs only above [maxEntries] and keeps entries younger than the
    hold window, so the goroutine would have to be delayed by a full window. *)
Definition prompt (hold now : Z) (c : coalescer) : Prop :=
  forall t cb, timers c !! t = Some cb -> cb_started cb = true ->
    is_Some (entries c !! cb_key cb) ->
    is_Some (entries (prune hold now c) !! cb_key cb).

Section system.
Context (hold : Duration).

Inductive step : coalescer -> label -> coalescer -> Prop :=
| step_Push c k head url now b c' :
    url <> "" -> now <= clock c -> prompt hold now c ->
    Push hold k head url now c = (b, c') ->
    step c (LPush k head url now b) c'
| step_Admit c k head pushAt now d c' :
    now <= clock c -> prompt hold now c ->
    Admit hold k head pushAt now c = (d, c') ->
    step c (LAdmit k head pushAt now d) c'
| step_Mark c k head now :
    now <= clock c ->
    step c (LMark k head now) (MarkEmitted k head now c)
| step_Release c k head :
    step c (LRelease k head) (Release k head c)
| step_Expire c t cb :
    timers c !! t = Some cb -> cb_started cb = false -> cb_due cb <= clock c ->
    step c (LExpire t) (set_timers (<[t := start cb]> (timers c)) c)
| step_FireBegin c t cb c' :
    timers c !! t = Some cb -> cb_started cb = true ->
    fire_begin (cb_key cb) (cb_generation cb) (set_timers (delete t (timers c)) c) = (None, c') ->
    step c (LFireBegin t None) c'
| step_FireBegin_dispatch c t cb h c' :
    timers c !! t = Some cb -> cb_started cb = true ->
    fire_begin (cb_key cb) (cb_generation cb) (set_timers (delete t (timers c)) c) = (Some h, c') ->
    step c (LFireBegin t (Some h))
      (set_flights (mkFlight t (cb_key cb) (cb_url cb) h :: flights c') c')
| step_FireEnd c l1 l2 fl ok now :
    flights c = l1 ++ fl :: l2 -> now <= clock c ->
    step c (LFireEnd fl ok now)
      (fire_end hold (fl_key fl) (fl_url fl) (fl_head fl) ok now (set_flights (l1 ++ l2) c))
| step_Tick c now :
    clock c <= now -> step c (LTick now) (set_clock now c).

(** Runs from an empty coalescer; the trace is newest first. *)
Inductive run : list label -> coalescer -> Prop :=
| run_nil now : 0 <= now -> run [] (NewCoalescer now)
| run_step tr c l c' : run tr c -> step c l c' -> run (l :: tr) c'.
End system.

(** ** Well-formedness *)

(** A live callback is either the one its entry points at, or a started
    leftover whose generation the entry has moved past. *)
Definition live_ok (t : timer_id) (cb : callback) (e : entry) : Prop :=
  (timer e = Some t /\ generation e = cb_generation cb /\ pendingURL e = cb_url cb) \/
  (cb_started cb = true /\ timer e <> Some t /\ cb_generation cb < generation e).

Definition entry_ok (n : Z) (ts : gmap timer_id callback) (k : Key) (e : entry) : Prop :=
  0 <= generation e <= n /\
  match timer e with
  | Some t => pendingURL e <> "" /\ exists cb, ts !! t = Some cb /\ cb_key cb = k
  | None => pendingURL e = ""
  end.

Record Inv (n : Z) (c : coalescer) : Prop := mkInv {
  inv_live t cb : timers c !! t = Some cb ->
    (t < next_timer c)%nat /\
    exists e, entries c !! cb_key cb = Some e /\ live_ok t cb e;
  inv_entry k e : entries c !! k = Some e -> entry_ok n (timers c) k e;
  inv_flights : Forall (fun fl => fl_url fl <> "") (flights c) }.

Lemma Inv_mono n m c : n <= m -> Inv n c -> Inv m c.
Proof.
  intros Hle [Hl He Hf]. split; [done| |done]. intros k e H.
  destruct (He k e H) as [? ?]. split; [lia | done].
Qed.

Lemma next_generation_small g : 0 <= g < 2 ^ 64 - 1 -> next_generation g = g + 1.
Proof. intros. unfold next_generation. rewrite Z.mod_small; lia. Qed.

(** Fields the scheduling invariant looks at. *)
Definition same_sched (e e0 : entry) : Prop :=
  timer e = timer e0 /\ generation e = generation e0 /\ pendingURL e = pendingURL e0.

Lemma entry_of_ok n c k : 0 <= n -> Inv n c -> entry_ok n (timers c) k (entry_of k c).
Proof.
  intros Hn HI. unfold entry_of. destruct (entries c !! k) as [e|] eqn:E; simpl.
  - by apply HI.
  - split; simpl; [lia | done].
Qed.

Lemma inv_store_same n c k e :
  0 <= n -> Inv n c -> same_sched e (entry_of k c) -> Inv n (store k e c).
Proof.
  intros Hn HI (Ht & Hg & Hu). split; simpl.
  - intros t cb H. destruct (inv_live _ _ HI t cb H) as (Hlt & e1 & He1 & Hok).
    split; [done|]. destruct (decide (k = cb_key cb)) as [->|Hne].
    + exists e. rewrite lookup_insert_eq. split; [done|].
      unfold entry_of in *. rewrite He1 in *. simpl in *.
      unfold live_ok. rewrite Ht, Hg, Hu. exact Hok.
    + exists e1. by rewrite lookup_insert_ne.
  - intros k' e' [[<- <-]|[? ?]]%lookup_insert_Some; [|by apply HI].
    pose proof (entry_of_ok n c k Hn HI) as Hok.
    unfold entry_ok in *. by rewrite Ht, Hg, Hu.
  - apply HI.
Qed.

(** ** The two helpers that touch timers *)

Lemma clearPending_eq e c :
  clearPending e c =
  (set_generation (next_generation (generation e)) (set_pending "" "" (set_timer None e)),
   match timer e with Some t => Stop t c | None => c end).
Proof. unfold clearPending, stopTimer. destruct e as [? ? ? ? ? ? [t|]]; reflexivity. Qed.

Lemma schedule_eq hold e k head url c :
  schedule hold e k head url c =
  let c1 := match timer e with Some t => Stop t c | None => c end in
  (set_timer (Some (next_timer c1))
     (set_generation (next_generation (generation e)) (set_pending head url (set_timer None e))),
   mkCoalescer (entries c1)
     (<[next_timer c1 :=
        mkCallback k url (next_generation (generation e)) (clock c1 + hold) false]> (timers c1))
     (S (next_timer c1)) (flights c1) (clock c1)).
Proof.
  unfold schedule, stopTimer. destruct e as [? ? ? ? ? ? [t|]]; simpl; [|reflexivity].
  unfold AfterFunc. reflexivity.
Qed.

Lemma Stop_entries t c : entries (Stop t c) = entries c.
Proof. unfold Stop. destruct (timers c !! t) as [cb|]; [destruct (cb_started cb)|]; done. Qed.
Lemma Stop_next t c : next_timer (Stop t c) = next_timer c.
Proof. unfold Stop. destruct (timers c !! t) as [cb|]; [destruct (cb_started cb)|]; done. Qed.
Lemma Stop_flights t c : flights (Stop t c) = flights c.
Proof. unfold Stop. destruct (timers c !! t) as [cb|]; [destruct (cb_started cb)|]; done. Qed.
Lemma Stop_clock t c : clock (Stop t c) = clock c.
Proof. unfold Stop. destruct (timers c !! t) as [cb|]; [destruct (cb_started cb)|]; done. Qed.

Lemma Stop_lookup t c t' cb :
  timers (Stop t c) !! t' = Some cb <->
  timers c !! t' = Some cb /\ (t' = t -> cb_started cb = true).
Proof.
  unfold Stop. destruct (timers c !! t) as [cb0|] eqn:E0.
  - destruct (cb_started cb0) eqn:Es; simpl.
    + split; [intros H; split; [done | intros ->; congruence] | tauto].
    + rewrite lookup_delete_Some. split.
      * intros [? ?]. split; [done | congruence].
      * intros [H1 H2]. split; [|done]. intros <-. specialize (H2 eq_refl). congruence.
  - split; [intros H; split; [done | intros ->; congruence] | tauto].
Qed.

Create Rewrite HintDb coalesce.
#[local] Hint Rewrite Stop_entries Stop_next Stop_flights Stop_clock : coalesce.

Lemma Stop_opt_store (o : option timer_id) k e c :
  match o with Some t => Stop t (store k e c) | None => store k e c end =
  store k e (match o with Some t => Stop t c | None => c end).
Proof.
  destruct o as [t|]; [|done]. unfold Stop. simpl.
  destruct (timers c !! t) as [cb|]; [destruct (cb_started cb)|]; done.
Qed.

Lemma store_store k e e' c : store k e (store k e' c) = store k e c.
Proof. unfold store, set_entries. simpl. by rewrite insert_insert_eq. Qed.

Lemma store_clear_pre k e c :
  store k (fst (clearPending e c)) (snd (clearPending e c)) =
  store k (fst (clearPending e (store k e c))) (snd (clearPending e (store k e c))).
Proof. rewrite !clearPending_eq. simpl. by rewrite Stop_opt_store, store_store. Qed.

(** Dropping the pending dispatch, or replacing it, of an entry that is in
    the map keeps the system well formed. [n] bounds every generation, so the
    64-bit counter has not wrapped. *)
Section helpers.
Context (hold n : Z).

(** What stopping the entry's own timer leaves of a live callback. *)
Lemma live_after_stop c k e t cb g tm u :
  Inv n c -> entries c !! k = Some e ->
  timers (match timer e with Some t => Stop t c | None => c end) !! t = Some cb ->
  cb_key cb = k -> generation e < g -> tm <> Some t ->
  forall e', timer e' = tm -> generation e' = g -> pendingURL e' = u -> live_ok t cb e'.
Proof.
  intros HI He Ht Hk Hg Htm e' <- <- <-.
  assert (timers c !! t = Some cb /\ (timer e = Some t -> cb_started cb = true)) as [Hc Hs].
  { destruct (timer e) as [t0|]; [|by split].
    apply Stop_lookup in Ht as [? ?]. split; [done|]. intros [= ->]. auto. }
  destruct (inv_live _ _ HI t cb Hc) as (_ & e1 & He1 & Hok).
  rewrite Hk in He1. simplify_eq.
  right. destruct Hok as [(? & ? & _)|(? & ? & ?)].
  - split; [by apply Hs|]. split; [done | lia].
  - split; [done|]. split; [done | lia].
Qed.

(** The other PRs do not notice. *)
Lemma other_after_stop c k e k' e' :
  Inv n c -> entries c !! k = Some e -> k <> k' -> entries c !! k' = Some e' ->
  entry_ok n (timers (match timer e with Some t => Stop t c | None => c end)) k' e'.
Proof.
  intros HI He Hne He'. destruct (inv_entry _ _ HI k' e' He') as [? Hok].
  split; [done|]. destruct (timer e') as [t'|] eqn:Et'; [|done].
  destruct Hok as (? & cb & Hcb & Hk). split; [done|]. exists cb. split; [|done].
  destruct (timer e) as [t|] eqn:Et; [|done]. apply Stop_lookup. split; [done|].
  intros <-. exfalso. destruct (inv_entry _ _ HI k e He) as [_ Hok].
  rewrite Et in Hok. destruct Hok as (_ & cb' & ? & ?). simplify_eq.
Qed.

Lemma stop_timers_sub (o : option timer_id) c t cb :
  timers (match o with Some t => Stop t c | None => c end) !! t = Some cb ->
  timers c !! t = Some cb.
Proof. destruct o; [|done]. intros [? _]%Stop_lookup. done. Qed.

Lemma stop_entries (o : option timer_id) c :
  entries (match o with Some t => Stop t c | None => c end) = entries c.
Proof. destruct o; [apply Stop_entries | done]. Qed.
Lemma stop_flights (o : option timer_id) c :
  flights (match o with Some t => Stop t c | None => c end) = flights c.
Proof. destruct o; [apply Stop_flights | done]. Qed.
Lemma stop_next (o : option timer_id) c :
  next_timer (match o with Some t => Stop t c | None => c end) = next_timer c.
Proof. destruct o; [apply Stop_next | done]. Qed.

Lemma clearPending_inv c k e :
  n < 2 ^ 64 - 1 -> Inv n c -> entries c !! k = Some e ->
  let '(e', c') := clearPending e c in Inv (n + 1) (store k e' c').
Proof.
  intros Hn HI He. rewrite clearPending_eq.
  pose proof (inv_entry _ _ HI k e He) as [Hg _].
  pose proof (next_generation_small (generation e) ltac:(lia)) as Hng.
  split; simpl; rewrite ?stop_entries, ?stop_next, ?stop_flights; [| |apply HI].
  - intros t cb Ht. pose proof (stop_timers_sub _ _ _ _ Ht) as Hc.
    destruct (inv_live _ _ HI t cb Hc) as (Hlt & e1 & He1 & Hok). split; [done|].
    destruct (decide (k = cb_key cb)) as [Hk|Hne].
    + subst k. rewrite lookup_insert_eq. eexists. split; [done|].
      eapply (live_after_stop c (cb_key cb) e t cb (generation e + 1) None "");
        eauto; simpl; try done; lia.
    + rewrite lookup_insert_ne by done. eauto.
  - intros k' e' [[<- <-]|[Hne He']]%lookup_insert_Some.
    + split; simpl; [lia | done].
    + destruct (other_after_stop c k e k' e' HI He Hne He') as [? ?].
      split; [lia | done].
Qed.

Lemma schedule_inv c k e head url :
  n < 2 ^ 64 - 1 -> url <> "" -> Inv n c -> entries c !! k = Some e ->
  let '(e', c') := schedule hold e k head url c in Inv (n + 1) (store k e' c').
Proof.
  intros Hn Hurl HI He. rewrite schedule_eq.
  pose proof (inv_entry _ _ HI k e He) as [Hg _].
  pose proof (next_generation_small (generation e) ltac:(lia)) as Hng.
  split; simpl; rewrite ?stop_entries, ?stop_next, ?stop_flights; [| |apply HI].
  - intros t cb [[<- <-]|[Hnt Ht]]%lookup_insert_Some.
    + split; [lia|]. simpl. rewrite lookup_insert_eq. eexists. split; [done|].
      left. done.
    + pose proof (stop_timers_sub _ _ _ _ Ht) as Hc.
      destruct (inv_live _ _ HI t cb Hc) as (Hlt & e1 & He1 & Hok). split; [lia|].
      destruct (decide (k = cb_key cb)) as [Hk|Hne].
      * subst k. rewrite lookup_insert_eq. eexists. split; [done|].
        eapply (live_after_stop c (cb_key cb) e t cb (generation e + 1)
                  (Some (next_timer c)) url); eauto; simpl; try done; try lia.
        intros [= Heq]. lia.
      * rewrite lookup_insert_ne by done. eauto.
  - intros k' e' [[<- <-]|[Hne He']]%lookup_insert_Some.
    + split; simpl; [lia|]. split; [done|]. eexists. by rewrite lookup_insert_eq.
    + destruct (other_after_stop c k e k' e' HI He Hne He') as [? Hok].
      split; [lia|]. destruct (timer e') as [t'|]; [|done].
      destruct Hok as (? & cb & Hcb & ?). split; [done|]. exists cb.
      rewrite lookup_insert_ne; [done|].
      apply stop_timers_sub in Hcb. apply (inv_live _ _ HI) in Hcb as [? _]. lia.
Qed.
End helpers.

(** ** Every step preserves well-formedness *)
Section preservation.
Context (hold n : Z) (Hn0 : 0 <= n).

Lemma prune_keep c now k e :
  entries (prune hold now c) !! k = Some e -> entries c !! k = Some e.
Proof.
  unfold prune. destruct (_ <=? _)%nat; [done|]. simpl.
  by intros [? _]%map_lookup_filter_Some.
Qed.

Lemma prune_timers c now : timers (prune hold now c) = timers c.
Proof. unfold prune. by destruct (_ <=? _)%nat. Qed.
Lemma prune_next c now : next_timer (prune hold now c) = next_timer c.
Proof. unfold prune. by destruct (_ <=? _)%nat. Qed.
Lemma prune_flights c now : flights (prune hold now c) = flights c.
Proof. unfold prune. by destruct (_ <=? _)%nat. Qed.
Lemma prune_clock c now : clock (prune hold now c) = clock c.
Proof. unfold prune. by destruct (_ <=? _)%nat. Qed.

(** An entry with an outstanding dispatch is never pruned. *)
Lemma prune_pending c now k e :
  entries c !! k = Some e -> pendingURL e <> "" ->
  entries (prune hold now c) !! k = Some e.
Proof.
  intros He Hp. unfold prune. destruct (_ <=? _)%nat; [done|]. simpl.
  apply map_lookup_filter_Some. split; [done|]. simpl. unfold prune_keeps.
  apply orb_true_iff. left. apply negb_true_iff. by apply String.eqb_neq.
Qed.

Lemma prune_inv c now : prompt hold now c -> Inv n c -> Inv n (prune hold now c).
Proof.
  intros Hp HI. split; [| |rewrite prune_flights; apply HI].
  - intros t cb. rewrite prune_timers, prune_next. intros Ht.
    destruct (inv_live _ _ HI t cb Ht) as (? & e & He & Hok). split; [done|].
    enough (entries (prune hold now c) !! cb_key cb = Some e) by eauto.
    destruct Hok as [(Htm & ?)|(? & _)].
    + apply prune_pending; [done|].
      pose proof (inv_entry _ _ HI _ _ He) as [_ Hok]. rewrite Htm in Hok. tauto.
    + destruct (Hp t cb) as [e' He']; [done..|].
      pose proof (prune_keep _ _ _ _ He'). congruence.
  - intros k e He. rewrite prune_timers. apply HI. by eapply prune_keep.
Qed.

Lemma entry_of_store k e c : entry_of k (store k e c) = e.
Proof. unfold entry_of, store. simpl. by rewrite lookup_insert_eq. Qed.

Lemma store_lookup k e c : entries (store k e c) !! k = Some e.
Proof. unfold store. simpl. apply lookup_insert_eq. Qed.

(** A claim update or a push time leaves the scheduling fields alone. *)
Lemma claim_inv c k t h :
  Inv n c -> Inv n (store k (set_claim t h (entry_of k c)) c).
Proof. intros. apply inv_store_same; [done..|by repeat split]. Qed.

Lemma clear_stored_inv c k e :
  n < 2 ^ 64 - 1 -> Inv n (store k e c) ->
  Inv (n + 1) (store k (fst (clearPending e c)) (snd (clearPending e c))).
Proof.
  intros Hn HI. rewrite store_clear_pre.
  pose proof (clearPending_inv n (store k e c) k e Hn HI (store_lookup _ _ _)) as H.
  destruct (clearPending e (store k e c)). exact H.
Qed.

Lemma schedule_stored_inv c k e head url :
  n < 2 ^ 64 - 1 -> url <> "" -> Inv n (store k e c) ->
  Inv (n + 1) (store k (fst (schedule hold e k head url c)) (snd (schedule hold e k head url c))).
Proof.
  intros Hn Hu HI.
  pose proof (schedule_inv hold n (store k e c) k e head url Hn Hu HI (store_lookup _ _ _)) as H.
  rewrite schedule_eq in *. simpl in *. rewrite Stop_opt_store in H.
  unfold store, set_entries in *. simpl in *. by rewrite insert_insert_eq in H.
Qed.

Lemma Push_inv c k head url now :
  n < 2 ^ 64 - 1 -> url <> "" -> prompt hold now c -> Inv n c ->
  Inv (n + 1) (snd (Push hold k head url now c)).
Proof.
  intros Hn Hu Hp HI. apply (prune_inv c now Hp) in HI. unfold Push.
  set (c0 := prune hold now c) in *. set (e := entry_of k c0).
  destruct (negb (head =?s "") && (head =?s lastHead e)); simpl.
  { apply (Inv_mono n); [lia|]. apply inv_store_same; [done..|by repeat split]. }
  set (e1 := if _ || _ then set_lastPushAt now e else e).
  assert (HI1 : Inv n (store k e1 c0)).
  { apply inv_store_same; [done..|]. unfold e1. destruct (_ || _); by repeat split. }
  clearbody e1. destruct (_ || _).
  - pose proof (clear_stored_inv c0 k e1 Hn HI1) as H.
    destruct (clearPending e1 c0). exact H.
  - pose proof (schedule_stored_inv c0 k e1 head url Hn Hu HI1) as H.
    destruct (schedule hold e1 k head url c0). exact H.
Qed.

Lemma Admit_inv c k head pushAt now :
  prompt hold now c -> Inv n c -> Inv n (snd (Admit hold k head pushAt now c)).
Proof.
  intros Hp HI. apply (prune_inv c now Hp) in HI. unfold Admit. simpl.
  apply inv_store_same; [done..|]. destruct (_ && _); by repeat split.
Qed.

Lemma MarkEmitted_inv c k head now :
  n < 2 ^ 64 - 1 -> Inv n c -> Inv (n + 1) (MarkEmitted k head now c).
Proof.
  intros Hn HI. unfold MarkEmitted.
  pose proof (clear_stored_inv c k _ Hn (claim_inv c k now head HI)) as H.
  destruct (clearPending _ c). exact H.
Qed.

Lemma Release_inv c k head : Inv n c -> Inv n (Release k head c).
Proof.
  intros HI. unfold Release. destruct (entries c !! k) as [e|] eqn:He; [|done].
  destruct (_ =?s _); [|done]. apply inv_store_same; [done..|].
  unfold entry_of. rewrite He. by repeat split.
Qed.

Lemma expire_inv c t cb :
  timers c !! t = Some cb -> Inv n c ->
  Inv n (set_timers (<[t := start cb]> (timers c)) c).
Proof.
  intros Ht HI. split; simpl; [| |apply HI].
  - intros t' cb' [[<- <-]|[? ?]]%lookup_insert_Some; [|by apply HI].
    destruct (inv_live _ _ HI t cb Ht) as (? & e & He & Hok). split; [done|].
    exists e. split; [done|]. unfold live_ok in *. simpl. tauto.
  - intros k e He. destruct (inv_entry _ _ HI k e He) as [? Hok]. split; [done|].
    destruct (timer e) as [t'|]; [|done]. destruct Hok as (? & cb' & ? & ?).
    split; [done|]. destruct (decide (t = t')) as [->|].
    + exists (start cb). rewrite lookup_insert_eq. simplify_eq. done.
    + exists cb'. by rewrite lookup_insert_ne.
Qed.

Lemma fire_begin_inv c t cb :
  timers c !! t = Some cb -> Inv n c ->
  Inv n (snd (fire_begin (cb_key cb) (cb_generation cb) (set_timers (delete t (timers c)) c))).
Proof.
  intros Ht HI. destruct (inv_live _ _ HI t cb Ht) as (_ & e & He & Hok).
  unfold fire_begin. simpl. rewrite He.
  destruct (Z.eqb_spec (generation e) (cb_generation cb)) as [Hg|Hg]; simpl.
  - destruct Hok as [(Htm & _ & _)|(_ & _ & ?)]; [|lia]. split; simpl; [| |apply HI].
    + intros t' cb' [Hne Ht']%lookup_delete_Some.
      destruct (inv_live _ _ HI t' cb' Ht') as (Hlt & e' & He' & Hok'). split; [done|].
      destruct (decide (cb_key cb = cb_key cb')) as [Hk|Hk].
      * rewrite <- Hk in *. simplify_eq. rewrite lookup_insert_eq. eexists.
        split; [done|]. right. simpl.
        destruct Hok' as [(? & _)|(? & _ & ?)]; [congruence | done].
      * rewrite lookup_insert_ne by done. eauto.
    + intros k' e' [[<- <-]|[Hne He']]%lookup_insert_Some.
      * destruct (inv_entry _ _ HI _ _ He) as [? _]. by split.
      * destruct (inv_entry _ _ HI _ _ He') as [? Hok']. split; [done|].
        destruct (timer e') as [t'|]; [|done]. destruct Hok' as (? & cb' & ? & ?).
        split; [done|]. exists cb'. rewrite lookup_delete_ne; [done|]. congruence.
  - destruct Hok as [(? & ? & _)|(_ & Htm & _)]; [done|]. split; simpl; [| |apply HI].
    + intros t' cb' [? ?]%lookup_delete_Some. by apply HI.
    + intros k' e' He'. destruct (inv_entry _ _ HI _ _ He') as [? Hok']. split; [done|].
      destruct (timer e') as [t'|] eqn:Et'; [|done]. destruct Hok' as (? & cb' & ? & ?).
      split; [done|]. exists cb'. rewrite lookup_delete_ne; [done|].
      intros <-. simplify_eq.
Qed.

(** A callback that dispatches is the current one of its entry, and
    publishes what the entry holds. *)
Lemma fire_begin_Some c t cb h c' :
  timers c !! t = Some cb -> Inv n c ->
  fire_begin (cb_key cb) (cb_generation cb) (set_timers (delete t (timers c)) c) = (Some h, c') ->
  exists e, entries c !! cb_key cb = Some e /\ timer e = Some t /\
    generation e = cb_generation cb /\ pendingURL e = cb_url cb /\ pendingHead e = h.
Proof.
  intros Ht HI. destruct (inv_live _ _ HI t cb Ht) as (_ & e & He & Hok).
  unfold fire_begin. simpl. rewrite He.
  destruct (Z.eqb_spec (generation e) (cb_generation cb)) as [Hg|Hg]; simpl; [|done].
  intros [= <- <-]. exists e. destruct Hok as [?|(_ & _ & ?)]; [tauto | lia].
Qed.

Lemma fire_begin_url c t cb h c' :
  timers c !! t = Some cb -> Inv n c ->
  fire_begin (cb_key cb) (cb_generation cb) (set_timers (delete t (timers c)) c) = (Some h, c') ->
  cb_url cb <> "".
Proof.
  intros Ht HI E. destruct (fire_begin_Some _ _ _ _ _ Ht HI E) as (e & He & Htm & _ & <- & _).
  pose proof (inv_entry _ _ HI _ _ He) as [_ Hok]. rewrite Htm in Hok. tauto.
Qed.

Lemma fire_end_inv c k url head ok now :
  n < 2 ^ 64 - 1 -> url <> "" -> Inv n c -> Inv (n + 1) (fire_end hold k url head ok now c).
Proof.
  intros Hn Hu HI. unfold fire_end. destruct ok; [by apply MarkEmitted_inv|].
  assert (Inv (n + 1) c) by (eapply Inv_mono; [|done]; lia).
  destruct (entries c !! k) as [e|] eqn:He; [|done].
  destruct (_ =?s _); [|done].
  pose proof (schedule_inv hold n c k e head url Hn Hu HI He) as H1.
  destruct (schedule hold e k head url c). exact H1.
Qed.
End preservation.

Lemma step_inv hold n c l c' :
  0 <= n < 2 ^ 64 - 1 -> step hold c l c' -> Inv n c -> Inv (n + 1) c'.
Proof.
  intros Hn Hs HI. assert (Hup : forall c, Inv n c -> Inv (n + 1) c).
  { intros c0. apply Inv_mono. lia. }
  destruct Hs as [c k head url now b c' Hu Hnow Hp E|c k head pushAt now d c' Hnow Hp E
    |c k head now Hnow|c k head|c t cb Ht Hst Hd|c t cb c' Ht Hst E|c t cb h c' Ht Hst E
    |c l1 l2 fl ok now Hf Hnow|c now Hc].
  - pose proof (Push_inv hold n ltac:(lia) c k head url now ltac:(lia) Hu Hp HI). by rewrite E in *.
  - pose proof (Admit_inv hold n ltac:(lia) c k head pushAt now Hp HI). rewrite E in *. auto.
  - apply MarkEmitted_inv; [lia..|done].
  - apply Hup, Release_inv; [lia|done].
  - apply Hup, expire_inv; [|done]. done.
  - pose proof (fire_begin_inv n c t cb Ht HI). rewrite E in *. auto.
  - pose proof (fire_begin_inv n c t cb Ht HI) as H. rewrite E in H. apply Hup.
    destruct H as [? ? Hfl]. split; [done..|]. simpl. constructor; [|done]. simpl.
    eapply fire_begin_url; eauto.
  - destruct HI as [Hl He Hfl]. rewrite Hf, Forall_app, Forall_cons in Hfl.
    apply fire_end_inv; [lia..|tauto|]. split; [done..|]. simpl. apply Forall_app. tauto.
  - apply Hup. destruct HI. by split.
Qed.

Lemma run_inv hold tr c :
  run hold tr c -> Z.of_nat (length tr) < 2 ^ 64 -> Inv (Z.of_nat (length tr)) c.
Proof.
  induction 1 as [now Hnow|tr c l c' Hr IH Hs]; simpl length; intros Hlen.
  - split; simpl; [intros t cb|intros k e|done]; by rewrite lookup_empty.
  - replace (Z.of_nat (S (length tr))) with (Z.of_nat (length tr) + 1) by lia.
    eapply step_inv; [|done|]; [lia|]. apply IH. lia.
Qed.

(** ** Claims and spacing

    The claim of a PR on a trace: the head last recorded as emitted and when,
    unless released since. *)
Fixpoint claim_of (tr : list label) (k : Key) : DateTime * string :=
  match tr with
  | [] => (dt_zero, "")
  | l :: tr' =>
      match l with
      | LMark k' h now => if decide (k' = k) then (now, h) else claim_of tr' k
      | LFireEnd fl true now =>
          if decide (fl_key fl = k) then (now, fl_head fl) else claim_of tr' k
      | LRelease k' h =>
          if decide (k' = k) then
            if snd (claim_of tr' k) =?s h then (dt_zero, "") else claim_of tr' k
          else claim_of tr' k
      | _ => claim_of tr' k
      end
  end.

(** The emission a label authorises, if any. *)
Definition authorises (c : coalescer) (l : label) (k : Key) : Prop :=
  match l with
  | LPush k' _ _ _ leading => k' = k /\ leading = true
  | LAdmit k' _ _ _ d => k' = k /\ d = Emit
  | LFireBegin t (Some _) => exists cb, timers c !! t = Some cb /\ cb_key cb = k
  | _ => False
  end.

Section spacing.
Context (hold : Duration) (Hhold : window hold).

(** What an entry remembers of the trace: the claim itself, or nothing once
    the claim is older than the hold window. A current timer is never due
    within the window of the claim. *)
Record remembers (tr : list label) (c : coalescer) (k : Key) : Prop := mkRemembers {
  rem_claim :
    (lastEmitAt (entry_of k c), lastHead (entry_of k c)) = claim_of tr k \/
    ((lastEmitAt (entry_of k c), lastHead (entry_of k c)) = (dt_zero, "") /\
     fst (claim_of tr k) + hold <= clock c);
  rem_past : 0 <= clock c /\ fst (claim_of tr k) <= clock c;
  rem_due t cb : timer (entry_of k c) = Some t -> timers c !! t = Some cb ->
    hold <= cb_due cb /\ fst (claim_of tr k) + hold <= cb_due cb;
  rem_started t cb : timers c !! t = Some cb -> cb_started cb = true ->
    cb_due cb <= clock c }.

(** The current timer of a PR after a step is the one before it, or was
    armed by the step. *)
Definition timer_from (c c' : coalescer) (k : Key) : Prop :=
  forall t cb, timer (entry_of k c') = Some t -> timers c' !! t = Some cb ->
    (timer (entry_of k c) = Some t /\
     exists cb0, timers c !! t = Some cb0 /\ cb_due cb0 = cb_due cb) \/
    cb_due cb = clock c + hold.

Definition started_from (c c' : coalescer) : Prop :=
  forall t cb, timers c' !! t = Some cb -> cb_started cb = true ->
    cb_due cb <= clock c' \/ timers c !! t = Some cb.

Lemma rem_frame tr tr' c c' k :
  remembers tr c k -> claim_of tr' k = claim_of tr k -> clock c <= clock c' ->
  (lastEmitAt (entry_of k c') = lastEmitAt (entry_of k c) /\
   lastHead (entry_of k c') = lastHead (entry_of k c)) ->
  timer_from c c' k -> started_from c c' ->
  remembers tr' c' k.
Proof.
  intros [Hc Hp Hd Hst] Hcl Hclk [He Hh] Ht Hs. split; rewrite ?Hcl, ?He, ?Hh.
  - destruct Hc as [?|[? ?]]; [by left | right; split; [done | lia]].
  - lia.
  - intros t cb H1 H2. destruct (Ht t cb H1 H2) as [(H3 & cb0 & H4 & <-)| Hdue]; [|lia].
    by apply (Hd t cb0).
  - intros t cb H1 H2. destruct (Hs t cb H1 H2) as [|H3]; [done|].
    specialize (Hst t cb H3 H2). lia.
Qed.

(** Pruning forgets only claims older than the window. *)
Lemma prune_entry_of c now k :
  entry_of k (prune hold now c) = entry_of k c \/
  (entry_of k (prune hold now c) = zero_entry /\
   lastEmitAt (entry_of k c) + hold <= now).
Proof.
  unfold prune, entry_of. destruct (_ <=? _)%nat; [by left|]. simpl.
  destruct (entries c !! k) as [e|] eqn:He.
  - destruct (prune_keeps hold now e) eqn:Hk.
    + left. erewrite (proj2 (map_lookup_filter_Some _ _ _ _)); [done|]. done.
    + right. rewrite (proj2 (map_lookup_filter_None _ _ _)).
      2: { right. intros x Hx. simplify_eq. simpl. congruence. }
      split; [done|]. unfold prune_keeps in Hk. bool_props. simpl.
      unfold dt_Sub in *. apply Z.leb_le in H0. rewrite sat64_le_r in H0 by done.
      bool_props. lia.
  - left. by rewrite (proj2 (map_lookup_filter_None _ _ _)); [|left].
Qed.

Lemma rem_prune tr c now k :
  now <= clock c -> remembers tr c k -> remembers tr (prune hold now c) k.
Proof.
  intros Hn [Hc Hp Hd Hs].
  split; rewrite ?prune_clock, ?prune_timers; try done.
  - destruct (prune_entry_of c now k) as [->|[-> Ho]]; [done|]. right. split; [done|].
    destruct Hc as [Hc|[? ?]]; [|done]. rewrite <- Hc. simpl. lia.
  - intros t cb H. destruct (prune_entry_of c now k) as [He|[He _]]; rewrite He in H; [|done].
    by apply Hd.
Qed.

Lemma entry_of_store_ne k k' e c : k <> k' -> entry_of k' (store k e c) = entry_of k' c.
Proof. intros. unfold entry_of, store. simpl. by rewrite lookup_insert_ne. Qed.

Lemma rem_clear tr tr' c k e k' :
  remembers tr c k' -> claim_of tr' k' = claim_of tr k' ->
  (k = k' -> lastEmitAt e = lastEmitAt (entry_of k c) /\ lastHead e = lastHead (entry_of k c)) ->
  remembers tr' (store k (fst (clearPending e c)) (snd (clearPending e c))) k'.
Proof.
  intros HR Hcl He. rewrite clearPending_eq. simpl.
  apply (rem_frame tr tr' c); simpl; try done.
  - destruct (timer e); rewrite ?Stop_clock; lia.
  - destruct (decide (k = k')) as [<-|Hne]; [by rewrite entry_of_store; apply He|].
    rewrite entry_of_store_ne by done. unfold entry_of. by rewrite stop_entries.
  - intros t cb H1 H2%stop_timers_sub. left.
    destruct (decide (k = k')) as [<-|Hne]; [by rewrite entry_of_store in H1|].
    rewrite entry_of_store_ne in H1 by done. unfold entry_of in *. rewrite stop_entries in H1.
    eauto.
  - intros t cb H1%stop_timers_sub H2. by right.
Qed.

Lemma rem_schedule tr tr' c k e head url k' :
  remembers tr c k' -> claim_of tr' k' = claim_of tr k' ->
  lastEmitAt e = lastEmitAt (entry_of k c) -> lastHead e = lastHead (entry_of k c) ->
  remembers tr' (store k (fst (schedule hold e k head url c))
                   (snd (schedule hold e k head url c))) k'.
Proof.
  intros HR Hcl He Hh. rewrite schedule_eq. simpl.
  assert (Hclk : clock (match timer e with Some t => Stop t c | None => c end) = clock c).
  { destruct (timer e); [apply Stop_clock | done]. }
  apply (rem_frame tr tr' c); simpl; try done; [lia| | |].
  - destruct (decide (k = k')) as [<-|Hne]; [by rewrite entry_of_store|].
    rewrite entry_of_store_ne by done. unfold entry_of. simpl. by rewrite stop_entries.
  - intros t cb H1 H2. simpl in H2.
    apply lookup_insert_Some in H2 as [[<- <-]|[Hnt H2]]; [right; simpl; lia|].
    left. apply stop_timers_sub in H2. destruct (decide (k = k')) as [<-|Hne].
    + rewrite entry_of_store in H1. simpl in H1. congruence.
    + rewrite entry_of_store_ne in H1 by done. unfold entry_of in *. simpl in H1.
      rewrite stop_entries in H1. eauto.
  - intros t cb H1 H2. simpl in H1.
    apply lookup_insert_Some in H1 as [[<- <-]|[Hnt H1%stop_timers_sub]]; [done|]. by right.
Qed.

Lemma rem_store tr tr' c k e k' :
  remembers tr c k' -> claim_of tr' k' = claim_of tr k' ->
  lastEmitAt e = lastEmitAt (entry_of k c) -> lastHead e = lastHead (entry_of k c) ->
  timer e = timer (entry_of k c) \/ timer e = None ->
  remembers tr' (store k e c) k'.
Proof.
  intros HR Hcl He Hh Ht. apply (rem_frame tr tr' c); try done.
  - destruct (decide (k = k')) as [<-|Hne]; [by rewrite entry_of_store|].
    by rewrite entry_of_store_ne.
  - intros t cb H1 H2. left. destruct (decide (k = k')) as [<-|Hne].
    + rewrite entry_of_store in H1. destruct Ht as [Ht|Ht]; rewrite Ht in H1; [|done].
      eauto.
    + rewrite entry_of_store_ne in H1 by done. eauto.
  - intros t cb H1 H2. by right.
Qed.

Lemma rem_mark tr c k head now tr' k' :
  now <= clock c -> remembers tr c k' ->
  claim_of tr' k' = (if decide (k = k') then (now, head) else claim_of tr k') ->
  remembers tr' (MarkEmitted k head now c) k'.
Proof.
  intros Hn HR Hcl. unfold MarkEmitted.
  destruct (clearPending _ c) as [e' c'] eqn:E.
  replace e' with (fst (clearPending (set_claim now head (entry_of k c)) c)) by by rewrite E.
  replace c' with (snd (clearPending (set_claim now head (entry_of k c)) c)) by by rewrite E.
  clear E. destruct (decide (k = k')) as [<-|Hne]; [|by eapply rem_clear].
  rewrite clearPending_eq. simpl.
  assert (Hclk : clock (match timer (entry_of k c) with Some t => Stop t c | None => c end)
                 = clock c) by (destruct (timer _); [apply Stop_clock | done]).
  destruct HR as [_ [Hp _] _ Hs].
  split; rewrite ?entry_of_store, ?Hcl; simpl; rewrite ?Hclk; [by left|lia|done|].
  intros t cb H1%stop_timers_sub H2. by eapply Hs.
Qed.

Lemma Release_entry_of k head c k' :
  entry_of k' (Release k head c) =
  if decide (k = k') then
    if lastHead (entry_of k c) =?s head then set_claim dt_zero "" (entry_of k c)
    else entry_of k c
  else entry_of k' c.
Proof.
  unfold Release. destruct (entries c !! k) as [e|] eqn:He.
  - assert (entry_of k c = e) as Hk by (unfold entry_of; by rewrite He).
    destruct (decide (k = k')) as [<-|Hne]; rewrite ?Hk.
    + destruct (_ =?s _); [apply entry_of_store | done].
    + destruct (_ =?s _); [by apply entry_of_store_ne | done].
  - destruct (decide (k = k')) as [<-|Hne]; [|done].
    unfold entry_of. rewrite He. simpl. by destruct head.
Qed.

Lemma Release_timers k head c : timers (Release k head c) = timers c.
Proof. unfold Release. destruct (entries c !! k) as [e|]; [by destruct (_ =?s _)|done]. Qed.
Lemma Release_clock k head c : clock (Release k head c) = clock c.
Proof. unfold Release. destruct (entries c !! k) as [e|]; [by destruct (_ =?s _)|done]. Qed.

Lemma rem_release tr c k head k' :
  remembers tr c k' ->
  remembers (LRelease k head :: tr) (Release k head c) k'.
Proof.
  intros [Hc Hp Hd Hs].
  split; rewrite ?Release_entry_of, ?Release_timers, ?Release_clock; try done; simpl;
    destruct (decide (k = k')) as [<-|Hne]; try done.
  - destruct Hc as [Hc|[Hc ?]].
    + left. rewrite <- Hc. simpl. by destruct (_ =?s _).
    + injection Hc as He Hh. rewrite Hh. destruct (snd _ =?s head) eqn:E1.
      * left. destruct ("" =?s head); simpl; [done|]. by rewrite He, Hh.
      * right. split; [|done]. destruct ("" =?s head); simpl; [done|]. by rewrite He, Hh.
  - destruct (_ =?s _); simpl; [unfold dt_zero|]; lia.
  - intros t cb H1 H2.
    assert (timer (entry_of k c) = Some t) as H3 by (by destruct (_ =?s _)).
    specialize (Hd t cb H3 H2). destruct (snd _ =?s _); simpl; [unfold dt_zero|]; lia.
Qed.

Lemma rem_set_flights tr c fs k : remembers tr c k -> remembers tr (set_flights fs c) k.
Proof. intros [? ? ? ?]. by split. Qed.

Lemma rem_delete tr c t k :
  remembers tr c k -> remembers tr (set_timers (delete t (timers c)) c) k.
Proof.
  intros [Hc Hp Hd Hs]. split; try done; simpl.
  - intros t' cb H1 [_ H2]%lookup_delete_Some. eauto.
  - intros t' cb [_ H2]%lookup_delete_Some. eauto.
Qed.

Lemma rem_relabel tr tr' c k :
  claim_of tr' k = claim_of tr k -> remembers tr c k -> remembers tr' c k.
Proof. intros Hcl [? ? ? ?]. split; by rewrite ?Hcl. Qed.

Lemma rem_expire tr c t cb k :
  timers c !! t = Some cb -> cb_due cb <= clock c -> remembers tr c k ->
  remembers tr (set_timers (<[t := start cb]> (timers c)) c) k.
Proof.
  intros Ht Hdue [Hc Hp Hd Hs]. split; try done; simpl.
  - intros t' cb' H1 [[<- <-]|[_ H2]]%lookup_insert_Some; [|eauto].
    simpl. by apply (Hd t).
  - intros t' cb' [[<- <-]|[_ H2]]%lookup_insert_Some; [done|eauto].
Qed.

Lemma rem_fire_begin tr c k g k' :
  remembers tr c k' -> remembers tr (snd (fire_begin k g c)) k'.
Proof.
  intros HR. unfold fire_begin. destruct (entries c !! k) as [e|] eqn:He; [|done].
  destruct (negb _); [done|]. simpl.
  assert (entry_of k c = e) as Hk by (unfold entry_of; by rewrite He).
  eapply rem_store; [done|done|..]; rewrite Hk; try done. by right.
Qed.

Lemma rem_fire_end tr c fl ok now k' :
  now <= clock c -> remembers tr c k' ->
  remembers (LFireEnd fl ok now :: tr)
    (fire_end hold (fl_key fl) (fl_url fl) (fl_head fl) ok now c) k'.
Proof.
  intros Hn HR. unfold fire_end. destruct ok; [by eapply rem_mark|].
  apply (rem_relabel tr); [done|].
  destruct (entries c !! fl_key fl) as [e|] eqn:He; [|done].
  destruct (_ =?s _); [|done].
  assert (entry_of (fl_key fl) c = e) as Hk by (unfold entry_of; by rewrite He).
  pose proof (rem_schedule tr tr c (fl_key fl) e (fl_head fl) (fl_url fl) k' HR eq_refl
    ltac:(by rewrite Hk) ltac:(by rewrite Hk)) as H.
  destruct (schedule hold e _ _ _ c). exact H.
Qed.

Lemma rem_push tr c k head url now k' :
  now <= clock c -> remembers tr c k' ->
  remembers tr (snd (Push hold k head url now c)) k'.
Proof.
  intros Hn HR. apply (rem_prune tr c now k' Hn) in HR. unfold Push.
  set (c0 := prune hold now c) in *. clearbody c0.
  destruct (negb (head =?s "") && _); simpl.
  { by eapply rem_store; eauto. }
  set (e := if _ || _ then set_lastPushAt now _ else _).
  assert (lastEmitAt e = lastEmitAt (entry_of k c0) /\ lastHead e = lastHead (entry_of k c0))
    as [He Hh] by (unfold e; by destruct (_ || _)).
  clearbody e. destruct (_ || _).
  - pose proof (rem_clear tr tr c0 k e k' HR eq_refl (fun _ => conj He Hh)) as H.
    destruct (clearPending e c0). exact H.
  - pose proof (rem_schedule tr tr c0 k e head url k' HR eq_refl He Hh) as H.
    destruct (schedule hold e k head url c0). exact H.
Qed.

Lemma rem_admit tr c k head pushAt now k' :
  now <= clock c -> remembers tr c k' ->
  remembers tr (snd (Admit hold k head pushAt now c)) k'.
Proof.
  intros Hn HR. apply (rem_prune tr c now k' Hn) in HR. unfold Admit. simpl.
  eapply rem_store; [done|done|..]; destruct (_ && _); try done; by left.
Qed.

Lemma rem_step tr c l c' k :
  step hold c l c' -> remembers tr c k -> remembers (l :: tr) c' k.
Proof.
  destruct 1 as [c k0 head url now b c' Hu Hnow Hp E|c k0 head pushAt now d c' Hnow Hp E
    |c k0 head now Hnow|c k0 head|c t cb Ht Hst Hd|c t cb c' Ht Hst E|c t cb h c' Ht Hst E
    |c l1 l2 fl ok now Hf Hnow|c now Hc]; intros HR.
  - pose proof (rem_push tr c k0 head url now k Hnow HR) as H. rewrite E in H.
    by apply (rem_relabel tr).
  - pose proof (rem_admit tr c k0 head pushAt now k Hnow HR) as H. rewrite E in H.
    by apply (rem_relabel tr).
  - by eapply rem_mark.
  - by apply rem_release.
  - apply (rem_relabel tr); [done|]. by apply rem_expire.
  - pose proof (rem_fire_begin tr _ (cb_key cb) (cb_generation cb) k (rem_delete tr c t k HR)) as H.
    rewrite E in H. by apply (rem_relabel tr).
  - pose proof (rem_fire_begin tr _ (cb_key cb) (cb_generation cb) k (rem_delete tr c t k HR)) as H.
    rewrite E in H. apply rem_set_flights. by apply (rem_relabel tr).
  - by apply rem_fire_end, rem_set_flights.
  - apply (rem_relabel tr); [done|]. destruct HR as [Hcl Hp Hdd Hs]. split; try done; simpl.
    + destruct Hcl as [?|[? ?]]; [by left | right; split; [done|lia]].
    + lia.
    + intros t cb H1 H2. specialize (Hs t cb H1 H2). lia.
Qed.

Lemma run_remembers tr c k : run hold tr c -> remembers tr c k.
Proof.
  induction 1 as [now Hnow|tr c l c' Hr IH Hs]; [|by eapply rem_step].
  split; simpl; unfold dt_zero; [by left|lia| |].
  - intros *. by rewrite lookup_empty.
  - intros *. by rewrite lookup_empty.
Qed.

(** When the entry's last claim is absent or a window old, so is the
    trace's. *)
Lemma remembers_spaced tr c k :
  remembers tr c k ->
  lastEmitAt (entry_of k c) = dt_zero \/ lastEmitAt (entry_of k c) + hold <= clock c ->
  fst (claim_of tr k) = dt_zero \/ fst (claim_of tr k) + hold <= clock c.
Proof. intros [[<-|[_ ?]] _ _ _]; simpl; tauto. Qed.
End spacing.

Lemma ValidateHold_window hold : ValidateHold hold = Ok tt -> window hold.
Proof.
  unfold ValidateHold, window, MaxHold, Hour, Minute, Second, int_max.
  repeat case_match; try done; intros _; bool_props; lia.
Qed.

(** ** Executable schedules

    A schedule names the next step; [exec] performs it, reading the clock of
    the state, and refuses a step that is not enabled. *)
Inductive action : Type :=
| DoPush (k : Key) (head url : string)
| DoAdmit (k : Key) (head : string) (pushAt : DateTime)
| DoMark (k : Key) (head : string)
| DoRelease (k : Key) (head : string)
| DoExpire (t : timer_id)
| DoFire (t : timer_id)
| DoEnd (i : nat) (ok : bool)
| DoTick (d : Z).

Definition exec (hold : Duration) (c : coalescer) (a : action) : option (label * coalescer) :=
  let now := clock c in
  match a with
  | DoPush k head url =>
      if (url =?s "") || (4096 <? Z.of_nat (size (entries c))) then None
      else let '(b, c') := Push hold k head url now c in Some (LPush k head url now b, c')
  | DoAdmit k head pushAt =>
      if (4096 <? Z.of_nat (size (entries c))) then None
      else let '(d, c') := Admit hold k head pushAt now c in
           Some (LAdmit k head pushAt now d, c')
  | DoMark k head => Some (LMark k head now, MarkEmitted k head now c)
  | DoRelease k head => Some (LRelease k head, Release k head c)
  | DoExpire t =>
      match timers c !! t with
      | Some cb =>
          if cb_started cb || (now <? cb_due cb) then None
          else Some (LExpire t, set_timers (<[t := start cb]> (timers c)) c)
      | None => None
      end
  | DoFire t =>
      match timers c !! t with
      | Some cb =>
          if cb_started cb then
            match fire_begin (cb_key cb) (cb_generation cb) (set_timers (delete t (timers c)) c) with
            | (None, c') => Some (LFireBegin t None, c')
            | (Some h, c') =>
                Some (LFireBegin t (Some h),
                      set_flights (mkFlight t (cb_key cb) (cb_url cb) h :: flights c') c')
            end
          else None
      | None => None
      end
  | DoEnd i ok =>
      match flights c !! i with
      | Some fl =>
          Some (LFireEnd fl ok now,
                fire_end hold (fl_key fl) (fl_url fl) (fl_head fl) ok now
                  (set_flights (take i (flights c) ++ drop (S i) (flights c)) c))
      | None => None
      end
  | DoTick d => if 0 <=? d then Some (LTick (now + d), set_clock (now + d) c) else None
  end.

Fixpoint exec_all (hold : Duration) (tr : list label) (c : coalescer) (acts : list action)
  : option (list label * coalescer) :=
  match acts with
  | [] => Some (tr, c)
  | a :: acts' =>
      match exec hold c a with
      | Some (l, c') => exec_all hold (l :: tr) c' acts'
      | None => None
      end
  end.

Lemma prompt_small hold now c :
  Z.of_nat (size (entries c)) <= 4096 -> prompt hold now c.
Proof.
  intros Hs t cb _ _ He. unfold prune.
  replace (size (entries c) <=? maxEntries)%nat with true; [done|].
  symmetry. apply Nat.leb_le. unfold maxEntries. lia.
Qed.

Lemma exec_step hold c a l c' : exec hold c a = Some (l, c') -> step hold c l c'.
Proof.
  destruct a; unfold exec; intros E.
  - destruct (_ || _) eqn:Eg; [done|]. bool_props.
    destruct (Push _ _ _ _ _ _) as [b c1] eqn:Ep. simplify_eq.
    constructor; [done|lia|by apply prompt_small|done].
  - destruct (_ <? _) eqn:Eg; [done|]. bool_props.
    destruct (Admit _ _ _ _ _ _) as [b c1] eqn:Ep. simplify_eq.
    constructor; [lia|by apply prompt_small|done].
  - simplify_eq. constructor. lia.
  - simplify_eq. constructor.
  - repeat case_match; try done; simplify_eq; bool_props. apply step_Expire; [done..|lia].
  - repeat case_match; simplify_eq; [by apply step_FireBegin_dispatch|by eapply step_FireBegin].
  - repeat case_match; simplify_eq. apply step_FireEnd; [|lia]. by rewrite take_drop_middle.
  - repeat case_match; simplify_eq; bool_props. constructor. lia.
Qed.

Lemma exec_all_run hold tr c acts tr' c' :
  run hold tr c -> exec_all hold tr c acts = Some (tr', c') -> run hold tr' c'.
Proof.
  revert tr c. induction acts as [|a acts IH]; simpl; intros tr c Hr E; [by simplify_eq|].
  destruct (exec hold c a) as [[l c1]|] eqn:Ea; [|done].
  eapply IH; [|done]. eapply run_step; [done|]. by eapply exec_step.
Qed.

(** ** Properties *)

(** (C3) Rate limit of the coalescer. In every interleaving of webhook
    pushes, poll admissions, claims, releases, timer firings and dispatch
    completions, an emission the coalescer authorises for a PR (a leading
    push, an admission [Emit], a trailing dispatch) comes at least one hold
    window after the PR's last recorded, unreleased emission. *)
Theorem emission_spacing hold tr c l c' k :
  ValidateHold hold = Ok tt ->
  run hold tr c -> Z.of_nat (length tr) < 2 ^ 64 -> step hold c l c' ->
  authorises c l k ->
  fst (claim_of tr k) = dt_zero \/ fst (claim_of tr k) + hold <= clock c.
Proof.
  intros Hw%ValidateHold_window Hr Hlen Hs Ha.
  pose proof (run_remembers hold Hw tr c k Hr) as HR. pose proof (run_inv hold tr c Hr Hlen) as HI.
  destruct Hs as [c k0 head url now b c' Hu Hnow Hp E|c k0 head pushAt now d c' Hnow Hp E
    |c k0 head now Hnow|c k0 head|c t cb Ht Hst Hd|c t cb c' Ht Hst E|c t cb h c' Ht Hst E
    |c l1 l2 fl ok now Hf Hnow|c now Hc]; simpl in Ha; try done.
  - destruct Ha as [-> ->]. pose proof (rem_prune hold Hw tr c now k Hnow HR) as HR0.
    pose proof (remembers_spaced hold tr _ k HR0) as Hsp. rewrite prune_clock in Hsp.
    apply Hsp. unfold Push in E. set (e := entry_of k (prune hold now c)) in *.
    destruct (negb (head =?s "") && _); [done|].
    destruct (dt_IsZero (lastEmitAt e)) eqn:Ez; [left; by apply Z.eqb_eq|].
    destruct (_ && _) eqn:El; simpl in E; [|by destruct (schedule _ _ _ _ _ _)].
    right. bool_props. unfold dt_Sub in *.
    match goal with H : hold <= sat64 (_ - lastEmitAt _) |- _ => apply dt_Sub_ge_iff in H; [|done] end.
    lia.
  - destruct Ha as [-> ->]. pose proof (rem_prune hold Hw tr c now k Hnow HR) as HR0.
    pose proof (remembers_spaced hold tr _ k HR0) as Hsp. rewrite prune_clock in Hsp.
    apply Hsp. unfold Admit in E. set (e := entry_of k (prune hold now c)) in *.
    injection E as Ed _. set (e1 := if _ && _ then _ else _) in Ed.
    assert (lastEmitAt e = lastEmitAt e1) as He by (unfold e1; by destruct (_ && _)).
    rewrite He. clearbody e1. repeat case_match; try done; [left; by apply Z.eqb_eq|right].
    bool_props. unfold dt_Sub in *.
    match goal with H : hold <= sat64 (_ - lastEmitAt _) |- _ => apply dt_Sub_ge_iff in H; [|done] end.
    lia.
  - destruct Ha as (cb' & Hcb' & <-). simplify_eq.
    destruct (fire_begin_Some _ c t cb h c' Ht HI E) as (e & He & Htm & _).
    assert (entry_of (cb_key cb) c = e) as Hk by (unfold entry_of; by rewrite He).
    right. destruct (rem_due _ _ _ _ HR t cb) as [_ ?]; [by rewrite Hk|done|].
    pose proof (rem_started _ _ _ _ HR t cb Ht Hst). lia.
Qed.
(** (C22) What the poll's admission of a head means. [Settled] is answered
    only for the head of the PR's last recorded, unreleased emission (so a
    failed or released publish stays claimable), and always for that head
    while the emission is younger than the hold window. *)
Theorem settled_is_claimed hold tr c k head pushAt now d c' :
  ValidateHold hold = Ok tt ->
  run hold tr c -> step hold c (LAdmit k head pushAt now d) c' ->
  (d = Settled -> head <> "" /\ snd (claim_of tr k) = head) /\
  (head <> "" -> snd (claim_of tr k) = head -> clock c < fst (claim_of tr k) + hold ->
   d = Settled).
Proof.
  intros Hw%ValidateHold_window Hr Hs. inversion Hs as [|? ? ? ? ? ? ? Hnow _ E| | | | | | |]; subst.
  pose proof (rem_prune hold Hw tr c now k Hnow (run_remembers hold Hw tr c k Hr)) as HR.
  unfold Admit in E. set (e := entry_of k (prune hold now c)) in *.
  injection E as Ed _. set (e1 := if _ && _ then _ else _) in Ed.
  assert (lastHead e = lastHead e1) as He by (unfold e1; by destruct (_ && _)).
  clearbody e1. pose proof (rem_claim _ _ _ _ HR) as Hcl. fold e in Hcl.
  rewrite prune_clock, He in Hcl. split.
  - intros ->. destruct (head =?s "") eqn:E1; [done|].
    destruct (head =?s lastHead e1) eqn:E2; [|by repeat case_match].
    bool_props. split; [done|]. destruct Hcl as [<-|[[= _ Hh] _]]; [done|]. congruence.
  - intros Hne Hh Hfresh. destruct Hcl as [Hcl|[_ ?]]; [|lia].
    rewrite <- Hcl in Hh. simpl in Hh. apply String.eqb_neq in Hne. rewrite Hne in Ed.
    rewrite Hh, String.eqb_refl in Ed. done.
Qed.

(** A held head and the timer that carries it. *)
Lemma held_timer hold tr c k :
  run hold tr c -> Z.of_nat (length tr) < 2 ^ 64 ->
  (pendingURL (entry_of k c) <> "" <->
   exists t cb, timer (entry_of k c) = Some t /\ timers c !! t = Some cb /\ cb_key cb = k /\
     cb_url cb = pendingURL (entry_of k c) /\ cb_generation cb = generation (entry_of k c)) /\
  (forall t cb, timers c !! t = Some cb -> cb_key cb = k ->
     fst (fire_begin k (cb_generation cb) c) =
     if decide (timer (entry_of k c) = Some t) then Some (pendingHead (entry_of k c)) else None).
Proof.
  intros Hr Hlen. pose proof (run_inv hold tr c Hr Hlen) as HI. split.
  - pose proof (entry_of_ok (Z.of_nat (length tr)) c k ltac:(lia) HI) as [_ Hok].
    destruct (timer (entry_of k c)) as [t|] eqn:Ht; [|split; [done|by intros (?&?&?&?)]].
    destruct Hok as (Hu & cb & Hcb & Hk). split; [intros _|done].
    exists t, cb. split_and!; try done;
    destruct (inv_live _ _ HI t cb Hcb) as (_ & e & He & Hok); rewrite Hk in He;
      unfold entry_of in *; rewrite He in *; simpl in *;
      destruct Hok as [(?&?&?)|(_&?&_)]; congruence.
  - intros t cb Hcb Hk. destruct (inv_live _ _ HI t cb Hcb) as (_ & e & He & Hok).
    rewrite Hk in He. unfold fire_begin, entry_of. rewrite He. simpl.
    destruct Hok as [(? & -> & ?)|(_ & ? & ?)].
    + rewrite decide_True, Z.eqb_refl by done. done.
    + rewrite decide_False by done. destruct (Z.eqb_spec (generation e) (cb_generation cb)); [lia|done].
Qed.


(** Passing time and starting the due timer leads to the dispatch. *)
Definition quiet (l : label) : Prop :=
  match l with LTick _ | LExpire _ => True | _ => False end.

(** A held head is dispatched: from every reachable state, if the PR
    stays untouched, letting time pass up to the timer's due instant makes
    its current timer dispatch exactly the held head and URL. *)
Theorem held_head_dispatched hold tr c k :
  run hold tr c -> Z.of_nat (length tr) < 2 ^ 64 -> pendingURL (entry_of k c) <> "" ->
  exists t quiets c', Forall quiet quiets /\
    run hold (LFireBegin t (Some (pendingHead (entry_of k c))) :: quiets ++ tr) c' /\
    flights c' = mkFlight t k (pendingURL (entry_of k c)) (pendingHead (entry_of k c)) :: flights c.
Proof.
  intros Hr Hlen Hp. destruct (held_timer hold tr c k Hr Hlen) as [[Hex _] Hf].
  destruct (Hex Hp) as (t & cb & Ht & Hcb & Hk & Hu & Hg).
  specialize (Hf t cb Hcb Hk). rewrite decide_True in Hf by done.
  set (now := Z.max (clock c) (cb_due cb)).
  set (c1 := set_clock now c).
  set (c2 := if cb_started cb then c1 else set_timers (<[t := start cb]> (timers c1)) c1).
  set (cb2 := if cb_started cb then cb else start cb).
  assert (exists ls, Forall quiet ls /\ run hold (ls ++ tr) c2) as (ls & Hls & Hr2).
  { assert (run hold (LTick now :: tr) c1) as Hr1.
    { eapply run_step; [done|]. apply step_Tick. lia. }
    unfold c2. destruct (cb_started cb) eqn:Es.
    - exists [LTick now]. split; [by repeat constructor|done].
    - exists [LExpire t; LTick now]. split; [by repeat constructor|].
      eapply run_step; [done|]. apply step_Expire; [done..|]. simpl. lia. }
  exists t, ls.
  destruct (fire_begin k (cb_generation cb) (set_timers (delete t (timers c2)) c2))
    as [o c'] eqn:E.
  assert (o = Some (pendingHead (entry_of k c)) /\ flights c' = flights c) as [-> Hfl].
  { assert (entries (set_timers (delete t (timers c2)) c2) = entries c) as Hent
      by (unfold c2; by destruct (cb_started cb)).
    assert (flights (set_timers (delete t (timers c2)) c2) = flights c) as Hfl
      by (unfold c2; by destruct (cb_started cb)).
    unfold fire_begin in E, Hf. rewrite Hent in E.
    destruct (entries c !! k) as [e|]; [|done]. destruct (negb _); [done|].
    simplify_eq. done. }
  exists (set_flights (mkFlight t k (pendingURL (entry_of k c)) (pendingHead (entry_of k c)) :: flights c) c').
  split; [done|]. split; [|done]. eapply run_step; [done|].
  rewrite <- Hfl, <- Hu.
  replace k with (cb_key cb2) by (unfold cb2; by destruct (cb_started cb)).
  replace (cb_url cb) with (cb_url cb2) by (unfold cb2; by destruct (cb_started cb)).
  apply step_FireBegin_dispatch.
  - unfold c2, cb2. destruct (cb_started cb); simpl; [done|]. apply lookup_insert_eq.
  - unfold cb2. by destruct (cb_started cb) eqn:Es.
  - replace (cb_key cb2) with k by (unfold cb2; by destruct (cb_started cb)).
    replace (cb_generation cb2) with (cb_generation cb)
      by (unfold cb2; by destruct (cb_started cb)).
    exact E.
Qed.

(** [Close] silences the component: after any run, a callback that
    survives it is one whose goroutine the runtime had already started. *)
Theorem Close_stops hold tr c t cb :
  run hold tr c -> Z.of_nat (length tr) < 2 ^ 64 ->
  timers (Close c) !! t = Some cb -> timers c !! t = Some cb /\ cb_started cb = true.
Proof.
  intros Hr Hlen. pose proof (run_inv hold tr c Hr Hlen) as HI.
  unfold Close. simpl.
  set (f := fun (_ : Key) (e : entry) (acc : coalescer) =>
    match timer e with Some t => Stop t acc | None => acc end).
  assert (Hfold : forall t cb, timers (map_fold f c (entries c)) !! t = Some cb ->
    timers c !! t = Some cb /\
    (forall k e, entries c !! k = Some e -> timer e = Some t -> cb_started cb = true)).
  { apply (map_fold_weak_ind (fun acc es => forall t cb, timers acc !! t = Some cb ->
      timers c !! t = Some cb /\
      (forall k e, es !! k = Some e -> timer e = Some t -> cb_started cb = true))).
    - intros t0 cb0 H. split; [done|]. intros k e. by rewrite lookup_empty.
    - intros k e es acc Hk IH t0 cb0 H. unfold f in H.
      assert (timers acc !! t0 = Some cb0 /\ (timer e = Some t0 -> cb_started cb0 = true))
        as [H1 H2].
      { destruct (timer e) as [t1|]; [|by split].
        apply Stop_lookup in H as [? H]. split; [done|]. intros [= ->]. auto. }
      destruct (IH t0 cb0 H1) as [? IH2]. split; [done|].
      intros k' e' [[<- <-]|[_ ?]]%lookup_insert_Some; eauto. }
  intros H. destruct (Hfold t cb H) as [Hc Hs]. split; [done|].
  destruct (inv_live _ _ HI t cb Hc) as (_ & e & He & [(Ht & _)|(? & _)]); [|done].
  by eapply Hs.
Qed.

(** ** Schedules used as evidence *)

Definition demo_key : Key := mkKey "bborbe" "repo" 7.
Definition demo_url : string := "https://github.com/bborbe/repo/pull/7".
Definition demo_hold : Duration := 60 * Second.
Definition demo_run (acts : list action) : option (list label * coalescer) :=
  exec_all demo_hold [] (NewCoalescer Hour) acts.

Lemma demo_run_run acts tr c : demo_run acts = Some (tr, c) -> run demo_hold tr c.
Proof. apply exec_all_run. constructor. unfold Hour, Minute, Second. lia. Qed.

Definition demo_state (acts : list action) : list label * coalescer :=
  default ([], NewCoalescer Hour) (demo_run acts).

Lemma demo_state_run acts :
  bool_decide (is_Some (demo_run acts)) = true ->
  run demo_hold (fst (demo_state acts)) (snd (demo_state acts)).
Proof.
  intros H%bool_decide_eq_true. destruct H as [[tr c] E]. unfold demo_state. rewrite E. simpl.
  by apply (demo_run_run acts).
Qed.

(** A leading push published and claimed, a second push held, its timer
    started. *)
Definition demo_burst : list action :=
  [DoPush demo_key "a" demo_url; DoMark demo_key "a"; DoTick Second;
   DoPush demo_key "b" demo_url; DoTick demo_hold; DoExpire 0%nat].

Lemma emission_spacing_witness :
  exists l c', step demo_hold (snd (demo_state demo_burst)) l c' /\
    authorises (snd (demo_state demo_burst)) l demo_key /\
    fst (claim_of (fst (demo_state demo_burst)) demo_key) + demo_hold
      <= clock (snd (demo_state demo_burst)).
Proof.
  destruct (exec demo_hold (snd (demo_state demo_burst)) (DoFire 0%nat)) as [[l c']|] eqn:E;
    [|vm_compute in E; discriminate E].
  assert (Ha : authorises (snd (demo_state demo_burst)) l demo_key).
  { vm_compute in E. injection E as <- _. vm_compute. eauto. }
  exists l, c'. split; [by apply exec_step in E|]. split; [exact Ha|].
  destruct (emission_spacing demo_hold (fst (demo_state demo_burst)) (snd (demo_state demo_burst))
    l c' demo_key) as [H|H]; [reflexivity|by apply demo_state_run; vm_compute|reflexivity
    |by apply exec_step in E|exact Ha|vm_compute in H; discriminate H|exact H].
Defined.

Lemma settled_is_claimed_witness :
  exists d c',
    step demo_hold (snd (demo_state demo_burst)) (LAdmit demo_key "a" 0
      (clock (snd (demo_state demo_burst))) d) c' /\
    (d = Settled -> snd (claim_of (fst (demo_state demo_burst)) demo_key) = "a").
Proof.
  destruct (exec demo_hold (snd (demo_state demo_burst)) (DoAdmit demo_key "a" 0))
    as [[l c']|] eqn:E; [|vm_compute in E; discriminate E].
  apply exec_step in E as Hs. unfold exec in E.
  destruct (_ <? _); [discriminate E|]. destruct (Admit _ _ _ _ _ _) as [d c0].
  injection E as <- <-. exists d, c0. split; [exact Hs|]. intros Hd.
  apply (settled_is_claimed demo_hold (fst (demo_state demo_burst)) _ _ _ _ _ _ _ eq_refl
    (demo_state_run demo_burst ltac:(by vm_compute)) Hs). exact Hd.
Defined.


Lemma held_head_dispatched_witness :
  exists t tr' c',
    run demo_hold (LFireBegin t (Some "b") :: tr') c' /\
    flights c' = [mkFlight t demo_key demo_url "b"].
Proof.
  destruct (held_head_dispatched demo_hold (fst (demo_state demo_burst))
    (snd (demo_state demo_burst)) demo_key (demo_state_run demo_burst ltac:(by vm_compute)) eq_refl)
    as (t & q & c' & _ & Hr & Hf); [by vm_compute|].
  exists t, (q ++ fst (demo_state demo_burst)), c'. split; [exact Hr|]. exact Hf.
Defined.

Lemma Close_stops_witness :
  exists cb, timers (snd (demo_state demo_burst)) !! 0%nat = Some cb /\ cb_started cb = true.
Proof.
  eexists. eapply (Close_stops demo_hold (fst (demo_state demo_burst))).
  - by apply demo_state_run; vm_compute.
  - reflexivity.
  - vm_compute. reflexivity.
Defined.

(** Head "b" is in flight when "c" (leading, claimed) and then "d" (held) are
    pushed; the completion of "b" clears the held "d": no timer is left, "d"
    was never published, and the claim moves back to "b". *)
Definition demo_inflight : list action :=
  demo_burst ++ [DoFire 0%nat; DoPush demo_key "c" demo_url; DoMark demo_key "c";
                 DoTick Second; DoPush demo_key "d" demo_url].

Lemma inflight_claim_drops_newer_head :
  let before := snd (demo_state demo_inflight) in
  let after := snd (demo_state (demo_inflight ++ [DoEnd 0%nat true])) in
  pendingHead (entry_of demo_key before) = "d" /\
  timers after = ∅ /\ lastHead (entry_of demo_key after) = "b" /\
  pendingURL (entry_of demo_key after) = "".
Proof. vm_compute. repeat split. Qed.

(** Two pushes before the first is claimed are both leading. *)
Lemma two_leading_pushes :
  fst (demo_state [DoPush demo_key "a" demo_url; DoTick 1; DoPush demo_key "b" demo_url]) =
  [LPush demo_key "b" demo_url (Hour + 1) true; LTick (Hour + 1);
   LPush demo_key "a" demo_url Hour true].
Proof. vm_compute. reflexivity. Qed.
