(* ===== verification/GoStrings.v ===== *)
(** * GoStrings: the string functions of Go's standard library the code uses

    Go strings are byte sequences; so are Coq's. The functions below follow
    the standard library's definitions on bytes, and decode UTF-8 where Go
    does ([strings.ToLower], [for range]). *)
From S2P Require Import Prelude.
From Stdlib Require Import DecimalString DecimalZ DecimalFacts.
From Stdlib Require Import Ascii.

Abbreviation bytes_of := String.list_ascii_of_string (only parsing).
Abbreviation of_bytes := String.string_of_list_ascii (only parsing).

(** ** Affixes *)

Definition HasPrefix (s prefix : string) : bool := String.prefix prefix s.

(** [s[n:]] for [n <= len(s)]. *)
Fixpoint drop_string (n : nat) (s : string) : string :=
  match n, s with
  | O, _ => s
  | S n', String _ s' => drop_string n' s'
  | S _, EmptyString => EmptyString
  end.

(** [s[:n]] for [n <= len(s)]. *)
Fixpoint take_string (n : nat) (s : string) : string :=
  match n, s with
  | O, _ => EmptyString
  | S n', String c s' => String c (take_string n' s')
  | S _, EmptyString => EmptyString
  end.

Definition HasSuffix (s suffix : string) : bool :=
  (String.length suffix <=? String.length s)%nat &&
  (drop_string (String.length s - String.length suffix) s =?s suffix).

Definition TrimSuffix (s suffix : string) : string :=
  if HasSuffix s suffix then take_string (String.length s - String.length suffix) s else s.

Lemma prefix_cons c d p s :
  String.prefix (String c p) (String d s) =
  if ascii_dec c d then String.prefix p s else false.
Proof. reflexivity. Qed.

Lemma HasPrefix_spec s p : HasPrefix s p = true <-> exists t, s = p +:+ t.
Proof.
  unfold HasPrefix. revert s. induction p as [|c p IH]; intros s.
  - split; [intros _; by exists s|intros _; by destruct s].
  - destruct s as [|d s]; [split; [done|intros [t Ht]; by rewrite string_app_cons in Ht]|].
    rewrite prefix_cons. destruct (ascii_dec c d) as [<-|Hne].
    + rewrite IH. split; intros [t Ht]; exists t; rewrite string_app_cons in *; congruence.
    + split; [done|]. intros [t Ht]. rewrite string_app_cons in Ht. congruence.
Qed.

Lemma drop_string_app s t : drop_string (String.length s) (s +:+ t) = t.
Proof. induction s as [|c s IH]; [done|]. rewrite string_app_cons. exact IH. Qed.
Lemma take_string_app s t : take_string (String.length s) (s +:+ t) = s.
Proof. induction s as [|c s IH]; [done|]. rewrite string_app_cons. simpl. by rewrite IH. Qed.
Lemma take_drop_string n s : take_string n s +:+ drop_string n s = s.
Proof.
  revert s. induction n as [|n IH]; intros s; [done|]. destruct s as [|c s]; [done|].
  simpl. rewrite string_app_cons. by rewrite IH.
Qed.
Lemma take_string_length n s : String.length (take_string n s) = Nat.min n (String.length s).
Proof. revert s. induction n; intros [|c s]; simpl; auto. Qed.
Lemma take_string_all n s : (String.length s <= n)%nat -> take_string n s = s.
Proof.
  revert s. induction n as [|n IH]; intros [|c s]; simpl; intros; try done; [lia|].
  f_equal. apply IH. lia.
Qed.

Lemma HasSuffix_spec s t : HasSuffix s t = true <-> exists p, s = p +:+ t.
Proof.
  unfold HasSuffix. split.
  - intros H. bool_props. exists (take_string (String.length s - String.length t) s).
    pose proof (take_drop_string (String.length s - String.length t) s) as Hs.
    by rewrite H0 in Hs.
  - intros [p ->]. rewrite string_app_length. apply andb_true_iff. split.
    + apply Nat.leb_le. lia.
    + replace (_ + _ - _)%nat with (String.length p) by lia.
      rewrite drop_string_app. apply String.eqb_refl.
Qed.

Lemma TrimSuffix_app p t : TrimSuffix (p +:+ t) t = p.
Proof.
  unfold TrimSuffix. rewrite (proj2 (HasSuffix_spec _ _)) by eauto.
  rewrite string_app_length. replace (_ + _ - _)%nat with (String.length p) by lia.
  apply take_string_app.
Qed.

(** ** [strings.Split] on a one-byte separator, [strings.Join] *)

Fixpoint Split (s : string) (sep : ascii) : list string :=
  match s with
  | EmptyString => [EmptyString]
  | String c s' =>
      if Ascii.eqb c sep then EmptyString :: Split s' sep
      else match Split s' sep with
           | [] => [String c EmptyString]
           | w :: ws => String c w :: ws
           end
  end.

Definition Join (l : list string) (sep : string) : string := String.concat sep l.

Definition newline : ascii := "010"%char.

Definition nl : string := String newline "".

Lemma Split_nonempty s sep : Split s sep <> [].
Proof. destruct s as [|c s]; simpl; [done|]. destruct (Ascii.eqb c sep); [done|]. by destruct (Split s sep). Qed.

Lemma Split_no_sep s sep : Forall (fun w => ~ In sep (bytes_of w)) (Split s sep).
Proof.
  induction s as [|c s IH]; simpl; [by apply Forall_singleton; intros []|].
  destruct (Ascii.eqb_spec c sep) as [->|Hne]; [by constructor; [intros []|]|].
  destruct (Split s sep) as [|w ws]; simpl.
  - constructor; [|done]. simpl. tauto.
  - inversion IH; subst. constructor; [|done]. simpl. tauto.
Qed.

(** Splitting and joining are inverse. *)
Lemma Split_Join s sep : Join (Split s sep) (String sep "") = s.
Proof.
  unfold Join. induction s as [|c s IH]; simpl; [done|].
  destruct (Ascii.eqb_spec c sep) as [->|Hne].
  - destruct (Split s sep) as [|w ws] eqn:E; [by destruct (Split_nonempty s sep)|].
    change (String.concat (String sep "") (EmptyString :: w :: ws)) with
      (EmptyString +:+ String sep "" +:+ String.concat (String sep "") (w :: ws)).
    rewrite IH. done.
  - destruct (Split s sep) as [|w ws] eqn:E; [by destruct (Split_nonempty s sep)|].
    destruct ws as [|w' ws]; simpl in *; [by rewrite IH|].
    rewrite string_app_cons. by rewrite IH.
Qed.

(** ** White space

    [unicode.IsSpace] on the bytes of a string: the six ASCII blanks and the
    UTF-8 encodings of the other code points with the White_Space property. *)
Definition byte (n : Z) : ascii := ascii_of_N (Z.to_N n).

Definition space_encodings : list (list ascii) :=
  [[byte 9]; [byte 10]; [byte 11]; [byte 12]; [byte 13]; [byte 32];
   [byte 194; byte 133]; [byte 194; byte 160]; [byte 225; byte 154; byte 128];
   [byte 226; byte 128; byte 168]; [byte 226; byte 128; byte 169];
   [byte 226; byte 128; byte 175]; [byte 226; byte 129; byte 159];
   [byte 227; byte 128; byte 128]] ++
  map (fun i => [byte 226; byte 128; byte (128 + i)%Z]) [0;1;2;3;4;5;6;7;8;9;10]%Z.

Fixpoint strip_prefix (p l : list ascii) : option (list ascii) :=
  match p, l with
  | [], _ => Some l
  | a :: p', b :: l' => if Ascii.eqb a b then strip_prefix p' l' else None
  | _ :: _, [] => None
  end.

Fixpoint strip_any (ps : list (list ascii)) (l : list ascii) : option (list ascii) :=
  match ps with
  | [] => None
  | p :: ps' => match strip_prefix p l with Some r => Some r | None => strip_any ps' l end
  end.

(** The rest after one leading white-space code point. *)
Definition strip_space (l : list ascii) : option (list ascii) := strip_any space_encodings l.

Fixpoint trim_left (fuel : nat) (l : list ascii) : list ascii :=
  match fuel with
  | O => l
  | S f => match strip_space l with Some r => trim_left f r | None => l end
  end.

(** The same from the right, on the reversed bytes. *)
Definition strip_space_rev (l : list ascii) : option (list ascii) :=
  strip_any (map (@rev ascii) space_encodings) l.

Fixpoint trim_right_rev (fuel : nat) (l : list ascii) : list ascii :=
  match fuel with
  | O => l
  | S f => match strip_space_rev l with Some r => trim_right_rev f r | None => l end
  end.

Definition TrimSpace (s : string) : string :=
  let l := trim_left (String.length s) (bytes_of s) in
  of_bytes (rev (trim_right_rev (length l) (rev l))).

(** [strings.Fields]: the maximal runs of non-space code points. *)
Fixpoint fields_loop (fuel : nat) (word : list ascii) (l : list ascii) : list string :=
  let flush := match word with [] => [] | _ => [of_bytes (rev word)] end in
  match fuel with
  | O => flush
  | S f =>
      match l with
      | [] => flush
      | c :: l' =>
          match strip_space l with
          | Some r => flush ++ fields_loop f [] r
          | None => fields_loop f (c :: word) l'
          end
      end
  end.

Definition Fields (s : string) : list string :=
  fields_loop (String.length s) [] (bytes_of s).

(** ** Decimal numbers ([strconv.Itoa], [%d]) *)

Definition Itoa (z : Z) : string := NilZero.string_of_int (Z.to_int z).

Lemma Itoa_inj a b : Itoa a = Itoa b -> a = b.
Proof.
  unfold Itoa. intros H. apply (f_equal NilZero.int_of_string) in H.
  rewrite !NilZero.isi in H.
  - injection H as H. apply (f_equal Z.of_int) in H. by rewrite !DecimalZ.of_to in H.
  - by destruct b as [|p|p]; simpl; try done; intros [=]; destruct (DecimalPos.Unsigned.to_uint_nonnil p).
  - by destruct b as [|p|p]; simpl; try done; intros [=]; destruct (DecimalPos.Unsigned.to_uint_nonnil p).
  - by destruct a as [|p|p]; simpl; try done; intros [=]; destruct (DecimalPos.Unsigned.to_uint_nonnil p).
  - by destruct a as [|p|p]; simpl; try done; intros [=]; destruct (DecimalPos.Unsigned.to_uint_nonnil p).
Qed.

Definition is_digit (c : ascii) : bool :=
  (48 <=? Z.of_N (N_of_ascii c))%Z && (Z.of_N (N_of_ascii c) <=? 57)%Z.

Definition dash : ascii := "-"%char.

Lemma uint_digits d : Forall (fun c => is_digit c = true) (bytes_of (NilEmpty.string_of_uint d)).
Proof. induction d; simpl; constructor; auto. Qed.

Lemma Itoa_chars z : Forall (fun c => is_digit c = true \/ c = dash) (bytes_of (Itoa z)).
Proof.
  assert (Hu : forall d, Forall (fun c => is_digit c = true \/ c = dash)
    (bytes_of (NilZero.string_of_uint d))).
  { intros d. apply (Forall_impl (fun c => is_digit c = true)); [|intros c Hc; by left].
    destruct d; [|apply uint_digits..]. constructor; [reflexivity|constructor]. }
  unfold Itoa, NilZero.string_of_int. destruct (Z.to_int z); [apply Hu|].
  simpl. constructor; [by right|apply Hu].
Qed.

Lemma Itoa_avoids z c : is_digit c = false -> c <> dash -> ~ In c (bytes_of (Itoa z)).
Proof.
  intros Hd Hc Hin. pose proof (Itoa_chars z) as H. rewrite List.Forall_forall in H.
  destruct (H c Hin); congruence.
Qed.

(** A separator absent from both heads makes concatenation injective. *)
Lemma app_sep_inj a a' c b b' :
  ~ In c (bytes_of a) -> ~ In c (bytes_of a') ->
  a +:+ String c b = a' +:+ String c b' -> a = a' /\ b = b'.
Proof.
  revert a'. induction a as [|x a IH]; intros [|y a'] Ha Ha' H;
    rewrite ?string_app_cons, ?string_app_nil_l in H; simpl in *.
  - by injection H.
  - injection H as Hx _. exfalso. apply Ha'. by left.
  - injection H as Hx _. exfalso. apply Ha. by left.
  - injection H as -> H. destruct (IH a') as [-> ->]; tauto.
Qed.

(** [strings.Cut] at the first occurrence of a one-byte separator. *)
Fixpoint Cut (s : string) (sep : ascii) : option (string * string) :=
  match s with
  | EmptyString => None
  | String c s' =>
      if Ascii.eqb c sep then Some (EmptyString, s')
      else match Cut s' sep with
           | Some (b, a) => Some (String c b, a)
           | None => None
           end
  end.

Lemma Cut_app b c a : ~ In c (bytes_of b) -> Cut (b +:+ String c a) c = Some (b, a).
Proof.
  induction b as [|x b IH]; intros Hb; rewrite ?string_app_cons, ?string_app_nil_l; simpl in *.
  - by rewrite Ascii.eqb_refl.
  - destruct (Ascii.eqb_spec x c) as [->|_]; [tauto|]. rewrite IH; tauto.
Qed.

Lemma Cut_Some s c b a : Cut s c = Some (b, a) -> s = b +:+ String c a /\ ~ In c (bytes_of b).
Proof.
  revert b. induction s as [|x s IH]; intros b; simpl; [done|].
  destruct (Ascii.eqb_spec x c) as [->|Hne].
  - intros [= <- <-]. split; [done|]. intros [].
  - destruct (Cut s c) as [[b' a']|]; [|done]. intros [= <- <-].
    destruct (IH b' eq_refl) as [-> ?]. rewrite string_app_cons. split; [done|]. simpl. tauto.
Qed.

(** ** UTF-8 ([for range] over a string, [strings.ToLower]) *)

Definition bcode (c : ascii) : Z := Z.of_N (N_of_ascii c).
Definition RuneError : Z := 65533.
Definition cont (lo hi : Z) (c : ascii) : bool := (lo <=? bcode c)%Z && (bcode c <=? hi)%Z.
Definition low6 (c : ascii) : Z := Z.land (bcode c) 63.

(** [utf8.DecodeRune]: the code point and its width; an invalid sequence is
    [RuneError] of width one. *)
Definition decode_rune (l : list ascii) : Z * nat :=
  match l with
  | [] => (RuneError, 0%nat)
  | b0 :: t =>
      let x := bcode b0 in
      if (x <? 128)%Z then (x, 1%nat)
      else if (194 <=? x)%Z && (x <=? 223)%Z then
        match t with
        | b1 :: _ =>
            if cont 128 191 b1 then (Z.lor (Z.shiftl (Z.land x 31) 6) (low6 b1), 2%nat)
            else (RuneError, 1%nat)
        | _ => (RuneError, 1%nat)
        end
      else if (224 <=? x)%Z && (x <=? 239)%Z then
        match t with
        | b1 :: b2 :: _ =>
            if cont (if (x =? 224)%Z then 160 else 128) (if (x =? 237)%Z then 159 else 191) b1 &&
               cont 128 191 b2
            then (Z.lor (Z.shiftl (Z.land x 15) 12) (Z.lor (Z.shiftl (low6 b1) 6) (low6 b2)), 3%nat)
            else (RuneError, 1%nat)
        | _ => (RuneError, 1%nat)
        end
      else if (240 <=? x)%Z && (x <=? 244)%Z then
        match t with
        | b1 :: b2 :: b3 :: _ =>
            if cont (if (x =? 240)%Z then 144 else 128) (if (x =? 244)%Z then 143 else 191) b1 &&
               cont 128 191 b2 && cont 128 191 b3
            then (Z.lor (Z.shiftl (Z.land x 7) 18)
                    (Z.lor (Z.shiftl (low6 b1) 12) (Z.lor (Z.shiftl (low6 b2) 6) (low6 b3))), 4%nat)
            else (RuneError, 1%nat)
        | _ => (RuneError, 1%nat)
        end
      else (RuneError, 1%nat)
  end.

(** The runes of [for _, r := range s]; each step consumes a byte at least,
    so the number of bytes is fuel enough. *)
Fixpoint runes_loop (fuel : nat) (l : list ascii) : list Z :=
  match fuel, l with
  | O, _ => []
  | S f, [] => []
  | S f, _ => let '(r, w) := decode_rune l in r :: runes_loop f (drop w l)
  end.
Definition runes (s : string) : list Z := runes_loop (String.length s) (bytes_of s).

(** [utf8.AppendRune] *)
Definition encode_rune (r : Z) : list ascii :=
  let r := if (r <? 0)%Z || (1114111 <? r)%Z || ((55296 <=? r)%Z && (r <=? 57343)%Z)
           then RuneError else r in
  let tail n := byte (Z.lor 128 (Z.land (Z.shiftr r n) 63)) in
  if (r <=? 127)%Z then [byte r]
  else if (r <=? 2047)%Z then [byte (Z.lor 192 (Z.shiftr r 6)); tail 0%Z]
  else if (r <=? 65535)%Z then [byte (Z.lor 224 (Z.shiftr r 12)); tail 6%Z; tail 0%Z]
  else [byte (Z.lor 240 (Z.shiftr r 18)); tail 12%Z; tail 6%Z; tail 0%Z].

(** The tables of the [unicode] package beyond ASCII, the only part of it that
    is data: lower case, and printable code points. *)
Class UnicodeTables : Type := { lower_table : Z -> Z; print_table : Z -> bool }.

Section lower.
Context `{UnicodeTables}.

Definition lower_rune (r : Z) : Z :=
  if (r <? 128)%Z then (if (65 <=? r)%Z && (r <=? 90)%Z then r + 32 else r)%Z
  else lower_table r.

Definition ToLower (s : string) : string :=
  if forallb (fun c => (bcode c <? 128)%Z) (bytes_of s)
  then of_bytes (map (fun c => byte (lower_rune (bcode c))) (bytes_of s))
  else of_bytes (concat (map (fun r => encode_rune (lower_rune r)) (runes s))).
End lower.

(** [strings.TrimRight] and [strings.Trim] with a one-byte cutset. *)
Fixpoint drop_while (c : ascii) (l : list ascii) : list ascii :=
  match l with
  | x :: l' => if Ascii.eqb x c then drop_while c l' else l
  | [] => []
  end.
Definition trim_right_bytes (c : ascii) (l : list ascii) : list ascii :=
  rev (drop_while c (rev l)).
Definition TrimRight (s : string) (c : ascii) : string := of_bytes (trim_right_bytes c (bytes_of s)).
Definition Trim (s : string) (c : ascii) : string :=
  of_bytes (trim_right_bytes c (drop_while c (bytes_of s))).

(** [strconv.Quote], the [%q] verb. *)
Definition hex_digit (n : Z) : ascii := byte (if (n <? 10)%Z then 48 + n else 87 + n).
Fixpoint hex_digits (width : nat) (n : Z) : list ascii :=
  match width with
  | O => []
  | S w => hex_digits w (Z.shiftr n 4) ++ [hex_digit (Z.land n 15)]
  end.

Section quote.
Context `{UnicodeTables}.

Definition is_print (r : Z) : bool :=
  if (r <? 128)%Z then (32 <=? r)%Z && (r <? 127)%Z else print_table r.

Definition backslash : ascii := "092"%char.
Definition dquote : ascii := "034"%char.

(** One rune; [b] is the byte it starts with and [w] its width. *)
Definition quote_rune (r : Z) (w : nat) (b : ascii) : list ascii :=
  if (r =? RuneError)%Z && (w =? 1)%nat then backslash :: "x"%char :: hex_digits 2 (bcode b)
  else if (r =? 34)%Z || (r =? 92)%Z then [backslash; byte r]
  else if is_print r then encode_rune r
  else if (r =? 7)%Z then [backslash; "a"%char]
  else if (r =? 8)%Z then [backslash; "b"%char]
  else if (r =? 12)%Z then [backslash; "f"%char]
  else if (r =? 10)%Z then [backslash; "n"%char]
  else if (r =? 13)%Z then [backslash; "r"%char]
  else if (r =? 9)%Z then [backslash; "t"%char]
  else if (r =? 11)%Z then [backslash; "v"%char]
  else if (r <? 32)%Z || (r =? 127)%Z then backslash :: "x"%char :: hex_digits 2 r
  else if (r <? 65536)%Z then backslash :: "u"%char :: hex_digits 4 r
  else backslash :: "U"%char :: hex_digits 8 r.

Fixpoint quote_loop (fuel : nat) (l : list ascii) : list ascii :=
  match fuel, l with
  | O, _ | _, [] => []
  | S f, b :: _ => let '(r, w) := decode_rune l in quote_rune r w b ++ quote_loop f (drop w l)
  end.

Definition Quote (s : string) : string :=
  of_bytes (dquote :: quote_loop (String.length s) (bytes_of s) ++ [dquote]).
End quote.

(** Sanity checks of the decoder on one, two, three and four byte runes and
    on an invalid byte. *)
Example runes_examples :
  map runes ["aZ"; of_bytes [byte 195; byte 164]; of_bytes [byte 226; byte 130; byte 172];
             of_bytes [byte 240; byte 159; byte 152; byte 128]; of_bytes [byte 255; byte 97]] =
  [[97; 90]; [228]; [8364]; [128512]; [RuneError; 97]]%Z.
Proof. vm_compute. reflexivity. Qed.
