(* ===== verification/KV.v ===== *)
(** * KV: the key-value interface the ledgers are written against

    The code talks to its store through [libkv]'s interfaces (database,
    transaction, bucket, iterator, item). The class below is that interface
    for an open store, with what the clients rely on stated over an abstract
    view, a map from bucket names to their records. The in-memory
    implementation is the instance of file MemDB. *)
From S2P Require Import Prelude.

(** A key with its value; a missing value and an empty one are both the nil
    slice, so they are one. *)
Record item : Type := mkItem { i_Key : string; i_Value : string }.

Definition i_Exists (i : item) : bool := negb (i_Value i =?s "").

Abbreviation buckets_view := (gmap string (gmap string string)).

(** [kv_names s h n]: the handle [h] gives access to the bucket [n] of [s].
    [kv_pos it h ks]: the iterator [it] over the bucket behind [h] still has
    the keys [ks] to visit. *)
Class KV (S H I : Type) := mkKV {
  kv_CreateBucketIfNotExists : string -> S -> option (result H * S);
  kv_Bucket : string -> S -> result H;
  kv_Get : H -> string -> S -> result item;
  kv_Put : H -> string -> string -> S -> result unit * S;
  kv_Delete : H -> string -> S -> result unit * S;
  kv_Iterator : H -> S -> I;
  kv_Rewind : I -> I;
  kv_Valid : I -> bool;
  kv_Next : I -> I;
  kv_Item : I -> S -> item;
  kv_steps : I -> nat;

  kv_ok : S -> Prop;
  kv_view : S -> buckets_view;
  kv_names : S -> H -> string -> Prop;
  kv_pos : I -> H -> list string -> Prop;

  kv_create_spec s n : kv_ok s ->
    exists h s', kv_CreateBucketIfNotExists n s = Some (Ok h, s') /\ kv_ok s' /\
      kv_names s' h n /\
      kv_view s' = <[n := default ∅ (kv_view s !! n)]> (kv_view s);
  kv_bucket_found s n m : kv_ok s -> kv_view s !! n = Some m ->
    exists h, kv_Bucket n s = Ok h /\ kv_names s h n;
  kv_bucket_missing s n : kv_ok s -> kv_view s !! n = None ->
    kv_Bucket n s = Err BucketNotFoundError;
  kv_get_spec s h n m k : kv_ok s -> kv_names s h n -> kv_view s !! n = Some m ->
    kv_Get h k s = Ok (mkItem k (default "" (m !! k)));
  kv_put_spec s h n m k v : kv_ok s -> kv_names s h n -> kv_view s !! n = Some m ->
    exists s', kv_Put h k v s = (Ok tt, s') /\ kv_ok s' /\ kv_names s' h n /\
      kv_view s' = <[n := <[k := v]> m]> (kv_view s);
  kv_delete_spec s h n m k : kv_ok s -> kv_names s h n -> kv_view s !! n = Some m ->
    exists s', kv_Delete h k s = (Ok tt, s') /\ kv_ok s' /\ kv_names s' h n /\
      kv_view s' = <[n := delete k m]> (kv_view s);
  kv_iter_spec s h n m : kv_ok s -> kv_names s h n -> kv_view s !! n = Some m ->
    exists ks, kv_pos (kv_Rewind (kv_Iterator h s)) h ks /\ NoDup ks /\
      (forall k, k ∈ ks <-> is_Some (m !! k));
  kv_pos_valid it h ks : kv_pos it h ks -> kv_Valid it = bool_decide (ks <> []);
  kv_pos_steps it h ks : kv_pos it h ks -> kv_steps it = length ks;
  kv_pos_next it h k ks : kv_pos it h (k :: ks) -> kv_pos (kv_Next it) h ks;
  kv_pos_item s it h n m k ks : kv_ok s -> kv_names s h n -> kv_view s !! n = Some m ->
    kv_pos it h (k :: ks) -> kv_Item it s = mkItem k (default "" (m !! k)) }.
