(* ===== verification/MemDB.v ===== *)
(** * MemDB: the in-memory store (pkg/memdb.go)

    Go maps are references: a bucket handle is the location of its map in a
    heap, so a handle obtained before a bucket is deleted keeps its own map,
    and all handles of one bucket share one. A closed database has a nil
    bucket map: reads see nothing, writing to it panics. The mutex around
    [Update] and [View] is [db_Update] and [db_View] of World. *)
From S2P Require Import Prelude KV.
From stdpp Require Import sorting.
From Stdlib Require Import Sorted.

(** ** State *)

Definition loc : Type := nat.

(** [d.buckets] (or nil after [Close]) and the maps it refers to. *)
Record memDB : Type := mkMemDB {
  buckets : option (gmap string loc);
  heap : gmap loc (gmap string string);
  next_loc : loc }.

Definition NewMemDB : memDB := mkMemDB (Some ∅) ∅ 0.

Definition heap_map (h : loc) (d : memDB) : gmap string string := default ∅ (heap d !! h).

(** ** Database methods *)

(** [Update] runs the function under the write lock; nothing is rolled back
    when it returns an error. *)
Definition Update {A} (fn : memDB -> A * memDB) (d : memDB) : A * memDB := fn d.

(** [View] runs it under the read lock. *)
Definition View {A} (fn : memDB -> A) (d : memDB) : A := fn d.

Definition MemDB_Close (d : memDB) : memDB := mkMemDB None (heap d) (next_loc d).
Definition MemDB_Remove (d : memDB) : memDB := MemDB_Close d.
Definition Sync (d : memDB) : result unit * memDB := (Ok tt, d).

(** ** Transaction methods; [None] is the panic of a write to a nil map *)

Definition Bucket (name : string) (d : memDB) : result loc :=
  match buckets d with
  | None => Err BucketNotFoundError
  | Some bs =>
      match bs !! name with
      | Some h => Ok h
      | None => Err BucketNotFoundError
      end
  end.

(** [t.db.buckets[name] = make(map[string][]byte)] *)
Definition make_bucket (name : string) (d : memDB) : option memDB :=
  match buckets d with
  | None => None
  | Some bs =>
      Some (mkMemDB (Some (<[name := next_loc d]> bs))
              (<[next_loc d := ∅]> (heap d)) (S (next_loc d)))
  end.

Definition CreateBucket (name : string) (d : memDB) : option (result loc * memDB) :=
  match default ∅ (buckets d) !! name with
  | Some _ => Some (Err BucketAlreadyExistsError, d)
  | None =>
      match make_bucket name d with
      | Some d' => Some (Ok (next_loc d), d')
      | None => None
      end
  end.

Definition CreateBucketIfNotExists (name : string) (d : memDB)
  : option (result loc * memDB) :=
  match default ∅ (buckets d) !! name with
  | Some h => Some (Ok h, d)
  | None =>
      match make_bucket name d with
      | Some d' => Some (Ok (next_loc d), d')
      | None => None
      end
  end.

Definition DeleteBucket (name : string) (d : memDB) : memDB :=
  mkMemDB (delete name <$> buckets d) (heap d) (next_loc d).

(** Names and keys are listed in byte order ([sort.Strings]). *)
Definition sort_Strings (l : list string) : list string := merge_sort String.le l.

Definition ListBucketNames (d : memDB) : list string :=
  sort_Strings (map fst (map_to_list (default ∅ (buckets d)))).

(** ** Bucket methods *)

(** [append([]byte(nil), value...)]: the empty value is stored as nil. *)
Definition Put (h : loc) (key value : string) (d : memDB) : result unit * memDB :=
  (Ok tt, mkMemDB (buckets d) (<[h := <[key := value]> (heap_map h d)]> (heap d)) (next_loc d)).

Definition Get (h : loc) (key : string) (d : memDB) : result item :=
  match heap_map h d !! key with
  | None => Ok (mkItem key "")
  | Some v => Ok (mkItem key v)
  end.

Definition Delete (h : loc) (key : string) (d : memDB) : result unit * memDB :=
  (Ok tt, mkMemDB (buckets d) (<[h := delete key (heap_map h d)]> (heap d)) (next_loc d)).

(** ** Iterators: a snapshot of the keys over the live map *)

Record memIterator : Type := mkIterator {
  keys : list string;
  values : loc;
  reverse : bool;
  index : nat }.

Definition newMemIterator (h : loc) (rev : bool) (d : memDB) : memIterator :=
  let ks := sort_Strings (map fst (map_to_list (heap_map h d))) in
  mkIterator (if rev then List.rev ks else ks) h rev 0.

Definition Iterator (h : loc) (d : memDB) : memIterator := newMemIterator h false d.
Definition IteratorReverse (h : loc) (d : memDB) : memIterator := newMemIterator h true d.

Definition Valid (it : memIterator) : bool := (index it <? length (keys it))%nat.

Definition Item (it : memIterator) (d : memDB) : item :=
  if negb (Valid it) then mkItem "" ""
  else
    let key := nth (index it) (keys it) "" in
    mkItem key (default "" (heap_map (values it) d !! key)).

Definition set_index (i : nat) (it : memIterator) : memIterator :=
  mkIterator (keys it) (values it) (reverse it) i.
Definition Next (it : memIterator) : memIterator := set_index (S (index it)) it.
Definition Rewind (it : memIterator) : memIterator := set_index 0 it.

(** [sort.Search]: binary search for the least index in [i, j) the predicate
    holds at; [fuel] bounds the number of halvings. *)
Fixpoint search (fuel i j : nat) (f : nat -> bool) : nat :=
  match fuel with
  | O => i
  | S fuel' =>
      if (i <? j)%nat then
        let h := Nat.div2 (i + j) in
        if negb (f h) then search fuel' (S h) j f else search fuel' i h f
      else i
  end.
Definition sort_Search (n : nat) (f : nat -> bool) : nat := search n 0 n f.

Definition Seek (key : string) (it : memIterator) : memIterator :=
  set_index
    (sort_Search (length (keys it))
       (fun n => if reverse it then (nth n (keys it) "" <=? key)%string
                 else (key <=? nth n (keys it) "")%string))
    it.

(** ** The binary search *)

(** With enough fuel the search returns the boundary of a monotone
    predicate. *)
Lemma search_spec f i j fuel :
  (i <= j)%nat -> (j - i <= fuel)%nat ->
  (forall a b, (a <= b)%nat -> f a = true -> f b = true) ->
  let r := search fuel i j f in
  (i <= r <= j)%nat /\
  (forall a, (i <= a < r)%nat -> f a = false) /\
  (forall a, (r <= a < j)%nat -> f a = true).
Proof.
  intros Hij Hfuel Hmono. revert i j Hij Hfuel.
  induction fuel as [|fuel IH]; intros i j Hij Hfuel; simpl.
  - split; [lia|]. split; intros; lia.
  - destruct (Nat.ltb_spec i j) as [Hlt|Hge]; [|split; [lia|]; split; intros; lia].
    assert (i <= Nat.div2 (i + j) < j)%nat as Hh.
    { rewrite Nat.div2_div. split; [apply Nat.div_le_lower_bound; lia|].
      apply Nat.Div0.div_lt_upper_bound; lia. }
    destruct (f (Nat.div2 (i + j))) eqn:Hf; simpl.
    + destruct (IH i (Nat.div2 (i + j))) as (? & Hlo & Hhi); [lia..|].
      split; [lia|]. split; [done|]. intros a Ha.
      destruct (Nat.lt_ge_cases a (Nat.div2 (i + j))); [apply Hhi; lia|].
      by eapply Hmono; [|done].
    + destruct (IH (S (Nat.div2 (i + j))) j) as (? & Hlo & Hhi); [lia..|].
      split; [lia|]. split; [|done]. intros a Ha.
      destruct (Nat.lt_ge_cases (Nat.div2 (i + j)) a); [apply Hlo; lia|].
      destruct (f a) eqn:Hfa; [|done]. rewrite (Hmono a (Nat.div2 (i + j))) in Hf; [done|lia|done].
Qed.

(** Filtering a list by a predicate that fails up to an index and holds from
    it on drops the prefix. *)
Lemma filter_boundary {A} (P : A -> Prop) `{!forall x, Decision (P x)} (l : list A) r :
  (r <= length l)%nat ->
  (forall a x, (a < r)%nat -> l !! a = Some x -> ~ P x) ->
  (forall a x, (r <= a)%nat -> l !! a = Some x -> P x) ->
  filter P l = drop r l.
Proof.
  revert r. induction l as [|x l IH]; intros r Hr Hlo Hhi; [by destruct r|].
  destruct r as [|r]; simpl.
  - rewrite filter_cons_True by (by apply (Hhi 0%nat); [lia|]). f_equal.
    rewrite (IH 0%nat); [done|lia|intros; lia|]. intros a y _ Hy. by apply (Hhi (S a)); [lia|].
  - rewrite filter_cons_False by (by apply (Hlo 0%nat); [lia|]).
    apply IH; [simpl in Hr; lia| |]; intros a y Ha Hy.
    + by apply (Hlo (S a)); [lia|].
    + by apply (Hhi (S a)); [lia|].
Qed.

(** ** Well-formed open stores *)

Record open_ok (d : memDB) : Prop := mkOpenOk {
  ok_open : is_Some (buckets d);
  ok_alloc n h : default ∅ (buckets d) !! n = Some h ->
    (h < next_loc d)%nat /\ is_Some (heap d !! h);
  ok_inj n n' h : default ∅ (buckets d) !! n = Some h ->
    default ∅ (buckets d) !! n' = Some h -> n = n' }.

Definition view (d : memDB) : buckets_view :=
  (fun h => heap_map h d) <$> default ∅ (buckets d).

Definition names (d : memDB) (h : loc) (n : string) : Prop :=
  default ∅ (buckets d) !! n = Some h.

Definition pos (it : memIterator) (h : loc) (ks : list string) : Prop :=
  values it = h /\ drop (index it) (keys it) = ks.

Definition steps_left (it : memIterator) : nat := (length (keys it) - index it)%nat.

Lemma NewMemDB_ok : open_ok NewMemDB.
Proof. by split; simpl; [eexists|intros ? ?|intros ? ? ?]. Qed.

Lemma view_lookup d n : view d !! n = (fun h => heap_map h d) <$> (default ∅ (buckets d) !! n).
Proof. apply lookup_fmap. Qed.

(** Replacing the map behind a handle changes the named bucket alone. *)
Lemma write_spec d h n m :
  open_ok d -> names d h n ->
  let d' := mkMemDB (buckets d) (<[h := m]> (heap d)) (next_loc d) in
  open_ok d' /\ names d' h n /\ view d' = <[n := m]> (view d).
Proof.
  intros [Ho Ha Hi] Hn. split_and!; simpl; [|done|].
  - split; simpl; [done| |done]. intros n' h' Hh'. destruct (Ha n' h' Hh') as [? ?].
    split; [done|]. destruct (decide (h = h')) as [<-|]; [by rewrite lookup_insert_eq|].
    by rewrite lookup_insert_ne.
  - apply map_eq. intros n'. rewrite view_lookup. simpl.
    destruct (decide (n = n')) as [<-|Hne].
    + unfold names in Hn. rewrite lookup_insert_eq, Hn. simpl. unfold heap_map. simpl.
      by rewrite lookup_insert_eq.
    + rewrite lookup_insert_ne by done. rewrite view_lookup.
      destruct (default ∅ (buckets d) !! n') as [h'|] eqn:Hh'; simpl; [|done].
      unfold heap_map. simpl. rewrite lookup_insert_ne; [done|].
      intros <-. apply Hne. by apply (Hi n n' h).
Qed.

Lemma create_spec d n :
  open_ok d ->
  exists h d', CreateBucketIfNotExists n d = Some (Ok h, d') /\ open_ok d' /\ names d' h n /\
    view d' = <[n := default ∅ (view d !! n)]> (view d).
Proof.
  intros Hok. pose proof Hok as [[bs Ho] Ha Hi]. unfold CreateBucketIfNotExists, make_bucket.
  rewrite view_lookup. unfold names. rewrite Ho in *. simpl in *.
  destruct (bs !! n) as [h|] eqn:Hn; simpl.
  - exists h, d. rewrite Ho. simpl. split_and!; try done.
    rewrite insert_id; [done|]. rewrite view_lookup, Ho. simpl. by rewrite Hn.
  - eexists _, _. split_and!; try done; simpl.
    + split; simpl; [done| |].
      * intros n' h' [[<- <-]|[? Hh']]%lookup_insert_Some; [by rewrite lookup_insert_eq; eauto with lia|].
        destruct (Ha n' h' Hh') as [? ?]. split; [lia|].
        rewrite lookup_insert_ne; [done|lia].
      * intros n1 n2 h' [[<- <-]|[? H1]]%lookup_insert_Some [[<- ?]|[? H2]]%lookup_insert_Some;
          try done.
        -- destruct (Ha _ _ H2). lia.
        -- subst. destruct (Ha _ _ H1). lia.
        -- by apply (Hi n1 n2 h').
    + by rewrite lookup_insert_eq.
    + apply map_eq. intros n'. rewrite view_lookup. simpl.
      destruct (decide (n = n')) as [<-|Hne].
      * rewrite !lookup_insert_eq. simpl. unfold heap_map. simpl. by rewrite lookup_insert_eq.
      * rewrite !lookup_insert_ne by done. rewrite view_lookup, Ho. simpl.
        destruct (bs !! n') as [h'|] eqn:Hh'; simpl; [|done].
        unfold heap_map. simpl. destruct (Ha n' h' Hh').
        rewrite lookup_insert_ne; [done|lia].
Qed.

Lemma names_view d h n m : names d h n -> view d !! n = Some m -> heap_map h d = m.
Proof. unfold names. rewrite view_lookup. intros ->. simpl. congruence. Qed.

Lemma iter_keys d h :
  let ks := keys (Iterator h d) in
  NoDup ks /\ (forall k, k ∈ ks <-> is_Some (heap_map h d !! k)).
Proof.
  simpl. unfold sort_Strings.
  pose proof (merge_sort_Permutation String.le (map_to_list (heap_map h d)).*1) as Hp.
  split.
  - rewrite Hp. apply NoDup_fst_map_to_list.
  - intros k. rewrite Hp, list_elem_of_fmap. split.
    + intros ([k' v] & -> & H%elem_of_map_to_list). eauto.
    + intros [v Hv]. exists (k, v). split; [done|]. by apply elem_of_map_to_list.
Qed.

#[export] Program Instance memDB_KV : KV memDB loc memIterator := {|
  kv_CreateBucketIfNotExists := CreateBucketIfNotExists;
  kv_Bucket := Bucket; kv_Get := Get; kv_Put := Put; kv_Delete := Delete;
  kv_Iterator := Iterator; kv_Rewind := Rewind; kv_Valid := Valid; kv_Next := Next;
  kv_Item := Item; kv_steps := steps_left;
  kv_ok := open_ok; kv_view := view; kv_names := names; kv_pos := pos |}.
Next Obligation. intros d n Hok. by apply create_spec. Qed.
Next Obligation.
  intros d n m [[bs Ho] _ _]. rewrite view_lookup. unfold Bucket, names. rewrite Ho. simpl.
  destruct (bs !! n) as [h|]; [|done]. eauto.
Qed.
Next Obligation.
  intros d n [[bs Ho] _ _]. rewrite view_lookup. unfold Bucket. rewrite Ho. simpl.
  by destruct (bs !! n).
Qed.
Next Obligation.
  intros d h n m k _ Hn Hv. unfold Get. rewrite (names_view d h n m Hn Hv).
  by destruct (m !! k).
Qed.
Next Obligation.
  intros d h n m k v Hok Hn Hv. eexists. split; [done|].
  rewrite (names_view d h n m Hn Hv). by apply write_spec.
Qed.
Next Obligation.
  intros d h n m k Hok Hn Hv. eexists. split; [done|].
  rewrite (names_view d h n m Hn Hv). by apply write_spec.
Qed.
Next Obligation.
  intros d h n m Hok Hn Hv. exists (keys (Iterator h d)).
  rewrite <- (names_view d h n m Hn Hv). split; [by split|]. apply iter_keys.
Qed.
Next Obligation.
  intros it h ks [_ <-]. unfold Valid.
  apply eq_true_iff_eq. rewrite Nat.ltb_lt, bool_decide_eq_true, <- length_zero_iff_nil, length_drop.
  lia.
Qed.
Next Obligation. intros it h ks [_ <-]. unfold steps_left. by rewrite length_drop. Qed.
Next Obligation.
  intros it h k ks [Hv Hd]. split; [done|]. simpl.
  by rewrite <- Nat.add_1_r, <- drop_drop, Hd.
Qed.
Next Obligation.
  intros d it h n m k ks Hok Hn Hv [Hvals Hd]. unfold Item.
  assert (keys it !! index it = Some k) as Hk.
  { rewrite <- (Nat.add_0_r (index it)), <- lookup_drop, Hd. done. }
  assert (Valid it = true) as -> by (apply Nat.ltb_lt; by eapply lookup_lt_Some). simpl.
  rewrite (nth_lookup_Some _ _ _ _ Hk), Hvals. by rewrite (names_view d h n m Hn Hv).
Qed.

(** ** [Seek] *)

(** The keys of a forward iterator ascend, those of a reverse one descend. *)
Lemma sort_Strings_sorted l : StronglySorted String.le (sort_Strings l).
Proof. apply (StronglySorted_merge_sort String.le l). Qed.

Lemma sorted_lookup {A} (R : A -> A -> Prop) l a b x y :
  StronglySorted R l -> (a < b)%nat -> l !! a = Some x -> l !! b = Some y -> R x y.
Proof.
  intros Hs. revert a b. induction Hs as [|z l Hs IH Hz]; intros a b Hab Ha Hb; [done|].
  destruct b as [|b]; [lia|]. destruct a as [|a]; simpl in *.
  - simplify_eq. rewrite Forall_forall in Hz. apply Hz. by eapply list_elem_of_lookup_2.
  - apply (IH a b); [lia|done|done].
Qed.

Definition key_order (rev : bool) (a b : string) : Prop :=
  if rev then String.le b a else String.le a b.

Lemma iterator_order h rev d a b x y :
  (a < b)%nat -> keys (newMemIterator h rev d) !! a = Some x ->
  keys (newMemIterator h rev d) !! b = Some y -> key_order rev x y.
Proof.
  simpl. set (ks := sort_Strings _).
  assert (Hs : StronglySorted String.le ks) by apply sort_Strings_sorted.
  destruct rev; simpl; intros Hab Ha Hb; [|by eapply sorted_lookup].
  rewrite List.rev_alt in Ha, Hb.
  change (rev_append ks []) with (list.reverse ks) in Ha, Hb.
  rewrite reverse_lookup_Some in Ha, Hb.
  destruct Ha as [Ha ?], Hb as [Hb ?].
  apply (sorted_lookup String.le ks (length ks - S b) (length ks - S a)); [done|lia|done|done].
Qed.

Lemma string_leb_le a b : (a <=? b)%string = true <-> String.le a b.
Proof. unfold String.le. by destruct (a <=? b)%string. Qed.

Lemma key_order_trans rev a b c : key_order rev a b -> key_order rev b c -> key_order rev a c.
Proof. destruct rev; simpl; intros; by etrans. Qed.

#[export] Instance key_order_dec rev a b : Decision (key_order rev a b).
Proof. destruct rev; simpl; apply _. Defined.

(** [Seek] on an iterator of either direction leaves exactly the keys at or
    beyond the target, in the iterator's order. *)
Theorem Seek_spec h rev d key :
  let it := newMemIterator h rev d in
  drop (index (Seek key it)) (keys it) = filter (key_order rev key) (keys it).
Proof.
  intros it. symmetry. set (f := fun n : nat =>
    if reverse it then (nth n (keys it) "" <=? key)%string
    else (key <=? nth n (keys it) "")%string).
  assert (Hf : forall a x, keys it !! a = Some x -> f a = true <-> key_order rev key x).
  { intros a x Hx. unfold f. rewrite (nth_lookup_Some _ _ "" _ Hx). simpl.
    destruct rev; apply string_leb_le. }
  set (g := fun n => (length (keys it) <=? n)%nat || f n).
  assert (Hsearch : forall fuel i j, (j <= length (keys it))%nat ->
    search fuel i j f = search fuel i j g).
  { induction fuel as [|fuel IH]; intros i j Hj; simpl; [done|].
    destruct (Nat.ltb_spec i j); [|done].
    assert (Nat.div2 (i + j) < j)%nat.
    { rewrite Nat.div2_div. apply Nat.Div0.div_lt_upper_bound. lia. }
    assert (g (Nat.div2 (i + j)) = f (Nat.div2 (i + j))) as ->.
    { unfold g. destruct (Nat.leb_spec (length (keys it)) (Nat.div2 (i + j))); [lia|done]. }
    destruct (f _); simpl; apply IH; lia. }
  assert (Hmono : forall a b, (a <= b)%nat -> g a = true -> g b = true).
  { unfold g. intros a b Hab. rewrite !orb_true_iff, !Nat.leb_le.
    destruct (Nat.le_gt_cases (length (keys it)) b) as [|Hb]; [by left|].
    intros [|Ha]; [lia|]. right.
    destruct (lookup_lt_is_Some_2 (keys it) b Hb) as [y Hy].
    destruct (lookup_lt_is_Some_2 (keys it) a ltac:(lia)) as [x Hx].
    rewrite (Hf b y Hy). rewrite (Hf a x Hx) in Ha.
    destruct (decide (a = b)) as [->|]; [by simplify_eq|].
    apply (key_order_trans _ _ x); [done|]. by apply (iterator_order h rev d a b); [lia|..]. }
  destruct (search_spec g 0 (length (keys it)) (length (keys it))) as (Hr & Hlo & Hhi);
    [lia|lia|done|].
  assert (index (Seek key it) = search (length (keys it)) 0 (length (keys it)) g) as ->.
  { unfold Seek, sort_Search. simpl. by apply Hsearch. }
  apply filter_boundary; [lia| |]; intros a x Ha Hx.
  - rewrite <- (Hf a x Hx). specialize (Hlo a ltac:(lia)). unfold g in Hlo.
    apply orb_false_iff in Hlo as [_ Hlo]. by rewrite Hlo.
  - apply lookup_lt_Some in Hx as Hlen. rewrite <- (Hf a x Hx).
    specialize (Hhi a ltac:(lia)). unfold g in Hhi.
    apply orb_true_iff in Hhi as [?%Nat.leb_le|?]; [lia|done].
Qed.

(** A new store satisfies the interface's contract and holds nothing. *)
Lemma NewMemDB_kv_ok : kv_ok NewMemDB.
Proof. exact NewMemDB_ok. Qed.
Lemma NewMemDB_kv_empty n : kv_view NewMemDB !! n = None.
Proof. reflexivity. Qed.
