(* ===== verification/MemRefine.v ===== *)
(** * MemRefine: the in-memory store implements a map of maps

    The specification is a map from bucket names to maps, with the answers
    the store's interface documents. The implementation's operations, each a
    transaction of its own, give the same answers in every history, though it
    keeps references into a heap and iterates over snapshots of sorted keys. *)
From S2P Require Import Prelude KV MemDB.
From stdpp Require Import sorting.

(** ** Operations and answers *)
Inductive store_op : Type :=
| OpCreate (name : string)
| OpPut (name key value : string)
| OpGet (name key : string)
| OpDelete (name key : string)
| OpScan (name : string) (rev : bool)
| OpDrop (name : string)
| OpNames.

Inductive store_answer : Type :=
| ADone
| AError (e : error)
| AItem (i : item)
| AItems (l : list item)
| ANames (l : list string)
| APanic.

(** ** The specification *)

Definition sorted_keys (m : gmap string string) : list string :=
  sort_Strings (map fst (map_to_list m)).
Definition item_at (m : gmap string string) (k : string) : item := mkItem k (default "" (m !! k)).

Definition spec_op (op : store_op) (v : buckets_view) : store_answer * buckets_view :=
  match op with
  | OpCreate n =>
      match v !! n with
      | Some _ => (AError BucketAlreadyExistsError, v)
      | None => (ADone, <[n := ∅]> v)
      end
  | OpPut n k x => (ADone, <[n := <[k := x]> (default ∅ (v !! n))]> v)
  | OpGet n k =>
      (match v !! n with Some m => AItem (item_at m k) | None => AError BucketNotFoundError end, v)
  | OpDelete n k =>
      match v !! n with
      | Some m => (ADone, <[n := delete k m]> v)
      | None => (AError BucketNotFoundError, v)
      end
  | OpScan n rev =>
      (match v !! n with
       | Some m => AItems (item_at m <$> (if rev then List.rev (sorted_keys m) else sorted_keys m))
       | None => AError BucketNotFoundError
       end, v)
  | OpDrop n => (ADone, delete n v)
  | OpNames => (ANames (sort_Strings (map fst (map_to_list v))), v)
  end.

(** ** The implementation *)

Definition answer (r : result unit) : store_answer :=
  match r with Ok _ => ADone | Err e => AError e end.

(** [for it.Rewind(); it.Valid(); it.Next()] *)
Fixpoint collect (fuel : nat) (it : memIterator) (d : memDB) : list item :=
  match fuel with
  | O => []
  | S fuel' => if Valid it then Item it d :: collect fuel' (Next it) d else []
  end.

Definition run_op (op : store_op) (d : memDB) : store_answer * memDB :=
  match op with
  | OpCreate n =>
      match CreateBucket n d with
      | Some (Ok _, d') => (ADone, d')
      | Some (Err e, d') => (AError e, d')
      | None => (APanic, d)
      end
  | OpPut n k x =>
      match CreateBucketIfNotExists n d with
      | Some (Ok h, d') => let '(r, d'') := Put h k x d' in (answer r, d'')
      | Some (Err e, d') => (AError e, d')
      | None => (APanic, d)
      end
  | OpGet n k =>
      match Bucket n d with
      | Ok h => (match Get h k d with Ok i => AItem i | Err e => AError e end, d)
      | Err e => (AError e, d)
      end
  | OpDelete n k =>
      match Bucket n d with
      | Ok h => let '(r, d') := MemDB.Delete h k d in (answer r, d')
      | Err e => (AError e, d)
      end
  | OpScan n rev =>
      match Bucket n d with
      | Ok h =>
          let it := Rewind (if rev then IteratorReverse h d else Iterator h d) in
          (AItems (collect (S (steps_left it)) it d), d)
      | Err e => (AError e, d)
      end
  | OpDrop n => (ADone, DeleteBucket n d)
  | OpNames => (ANames (ListBucketNames d), d)
  end.

(** ** Refinement *)

Lemma collect_spec fuel it d :
  (length (drop (index it) (keys it)) < fuel)%nat ->
  collect fuel it d = item_at (heap_map (values it) d) <$> drop (index it) (keys it).
Proof.
  revert it. induction fuel as [|fuel IH]; intros it Hf; [lia|]. cbn [collect]. unfold Valid.
  destruct (Nat.ltb_spec (index it) (length (keys it))) as [Hlt|Hge].
  - destruct (lookup_lt_is_Some_2 _ _ Hlt) as [k Hk].
    rewrite (drop_S _ _ _ Hk) in *. simpl in Hf. rewrite IH by (simpl; lia). simpl. f_equal.
    unfold Item. assert (Valid it = true) as -> by by apply Nat.ltb_lt. simpl.
    by rewrite (nth_lookup_Some _ _ _ _ Hk).
  - by rewrite drop_ge.
Qed.

Lemma Bucket_view n d : open_ok d ->
  match view d !! n with
  | Some m => exists h, Bucket n d = Ok h /\ names d h n /\ heap_map h d = m
  | None => Bucket n d = Err BucketNotFoundError
  end.
Proof.
  intros [[bs Ho] _ _]. unfold Bucket, names. rewrite view_lookup, Ho. simpl.
  destruct (bs !! n) as [h|]; simpl; [by exists h|done].
Qed.

Lemma CreateBucket_spec n d : open_ok d ->
  match view d !! n with
  | Some _ => CreateBucket n d = Some (Err BucketAlreadyExistsError, d)
  | None => exists h d', CreateBucket n d = Some (Ok h, d') /\ open_ok d' /\ view d' = <[n := ∅]> (view d)
  end.
Proof.
  intros Hok. destruct (create_spec d n Hok) as (h & d' & Hc & Hok' & _ & Hv).
  unfold CreateBucket. unfold CreateBucketIfNotExists in Hc. rewrite view_lookup in *.
  destruct (default ∅ (buckets d) !! n) as [h0|]; simpl in *; [done|].
  destruct (make_bucket n d) as [d1|]; [|done]. injection Hc as <- <-. eauto.
Qed.

Lemma DeleteBucket_spec n d : open_ok d ->
  open_ok (DeleteBucket n d) /\ view (DeleteBucket n d) = delete n (view d).
Proof.
  intros [[bs Ho] Ha Hi]. unfold DeleteBucket. rewrite Ho in *. simpl in *. split.
  - split; simpl; [done| |].
    + intros n' h [_ Hn']%lookup_delete_Some. by apply (Ha n').
    + intros n1 n2 h [_ H1]%lookup_delete_Some [_ H2]%lookup_delete_Some. by apply (Hi n1 n2 h).
  - apply map_eq. intros n'. rewrite view_lookup. simpl.
    destruct (decide (n = n')) as [<-|Hne].
    + by rewrite !lookup_delete_eq.
    + rewrite !lookup_delete_ne by done. by rewrite view_lookup, Ho.
Qed.

Lemma names_of_view d : map fst (map_to_list (default ∅ (buckets d))) = map fst (map_to_list (view d)).
Proof.
  unfold view. rewrite map_to_list_fmap, map_map. by apply map_ext.
Qed.

Lemma run_op_refines op d : open_ok d ->
  let '(a, d') := run_op op d in open_ok d' /\ (a, view d') = spec_op op (view d).
Proof.
  intros Hok. destruct op as [n|n k x|n k|n k|n rev|n|]; cbn [run_op spec_op].
  - pose proof (CreateBucket_spec n d Hok) as H. destruct (view d !! n) as [m|].
    + by rewrite H.
    + destruct H as (h & d' & -> & ? & ->). done.
  - destruct (create_spec d n Hok) as (h & d' & -> & Hok' & Hn & Hv). simpl.
    destruct (write_spec d' h n (<[k:=x]> (heap_map h d')) Hok' Hn) as (Hok'' & _ & Hv').
    split; [done|]. rewrite Hv', Hv, insert_insert_eq. do 4 f_equal.
    apply (names_view d' h n); [done|]. by rewrite Hv, lookup_insert_eq.
  - pose proof (Bucket_view n d Hok) as H. destruct (view d !! n) as [m|]; [|by rewrite H].
    destruct H as (h & -> & Hn & Hm). split; [done|]. unfold Get, item_at. rewrite Hm. by destruct (m !! k).
  - pose proof (Bucket_view n d Hok) as H. destruct (view d !! n) as [m|]; [|by rewrite H].
    destruct H as (h & -> & Hn & Hm). simpl. subst m.
    destruct (write_spec d h n (delete k (heap_map h d)) Hok Hn) as (Hok' & _ & Hv).
    split; [done|]. by rewrite Hv.
  - pose proof (Bucket_view n d Hok) as H. destruct (view d !! n) as [m|]; [|by rewrite H].
    destruct H as (h & -> & Hn & Hm). split; [done|]. do 2 f_equal. subst m.
    assert (forall it, steps_left (Rewind it) = length (drop (index (Rewind it)) (keys (Rewind it)))) as Hs.
    { intros it. unfold steps_left. by rewrite length_drop. }
    rewrite collect_spec by (rewrite Hs; lia). by destruct rev.
  - destruct (DeleteBucket_spec n d Hok) as [? ->]. done.
  - split; [done|]. unfold ListBucketNames. by rewrite names_of_view.
Qed.

(** A history of operations, with its answers. *)
Fixpoint run_ops (ops : list store_op) (d : memDB) : list store_answer * memDB :=
  match ops with
  | [] => ([], d)
  | op :: ops =>
      let '(a, d) := run_op op d in
      let '(l, d) := run_ops ops d in (a :: l, d)
  end.
Fixpoint spec_ops (ops : list store_op) (v : buckets_view) : list store_answer * buckets_view :=
  match ops with
  | [] => ([], v)
  | op :: ops =>
      let '(a, v) := spec_op op v in
      let '(l, v) := spec_ops ops v in (a :: l, v)
  end.

Lemma run_ops_refines ops d : open_ok d ->
  open_ok (snd (run_ops ops d)) /\
  (fst (run_ops ops d), view (snd (run_ops ops d))) = spec_ops ops (view d).
Proof.
  revert d. induction ops as [|op ops IH]; intros d Hok; [done|]. cbn [run_ops spec_ops].
  pose proof (run_op_refines op d Hok) as H. destruct (run_op op d) as [a d1]. destruct H as [Hok1 <-].
  destruct (IH d1 Hok1) as [Hok2 Hv]. destruct (run_ops ops d1) as [l d2]. simpl in *.
  by rewrite <- Hv.
Qed.

(** (C34) The in-memory store is a map of maps. From a new store, every
    history of operations gives the answers of the specification: reads see
    the last write of their bucket and key, scans list a bucket's records in
    ascending or descending key order, an absent bucket is an error for a
    read and created by a write, creating a bucket twice is an error, and
    nothing panics. *)
Theorem memdb_refines_map ops :
  fst (run_ops ops NewMemDB) = fst (spec_ops ops ∅) /\
  view (snd (run_ops ops NewMemDB)) = snd (spec_ops ops ∅) /\
  APanic ∉ fst (run_ops ops NewMemDB).
Proof.
  destruct (run_ops_refines ops NewMemDB NewMemDB_ok) as [_ H].
  change (view NewMemDB) with (∅ : buckets_view) in H. rewrite <- H. simpl. split_and!; [done..|].
  assert (fst (run_ops ops NewMemDB) = fst (spec_ops ops ∅)) as -> by by rewrite <- H.
  clear. generalize (∅ : buckets_view). induction ops as [|op ops IH]; intros v.
  - apply not_elem_of_nil.
  - cbn [spec_ops]. destruct (spec_op op v) as [a v1] eqn:Ha. specialize (IH v1).
    destruct (spec_ops ops v1) as [l v2]. simpl in *. intros [<-|?]%elem_of_cons; [|done].
    destruct op; simpl in Ha; repeat case_match; done.
Qed.
