(* ===== verification/Ledger.v ===== *)
(** * Ledger: the publish ledgers (pkg/override_ledger.go, pkg/retry_guard.go)

    Two ledgers of the same shape live in two buckets of the store: the
    override ledger (which head SHAs carry a published override) and the
    retry guard's (which carry a published review). The shared routines are
    written once over the [KV] interface, parameterised by the bucket and the
    window, and each ledger is an instance. The JSON encoding of a record is
    library code: a parameter with its round-trip law. *)
From S2P Require Import Prelude GoStrings KV.
From Stdlib Require Import Ascii.
Local Open Scope Z_scope.

(** ** Data *)

Record RetryGuardPR : Type := mkPR {
  pr_Owner : string;
  pr_Repo : string;
  pr_Number : Z;
  pr_HeadSHA : string }.

#[export] Instance RetryGuardPR_eq_dec : EqDecision RetryGuardPR.
Proof. solve_decision. Defined.

(** [overrideLedgerRecord] and [retryGuardRecord]: the same two fields. *)
Record published : Type := mkPublished { TaskID : string; PublishedAt : DateTime }.
Definition overrideLedgerRecord : Type := published.
Definition retryGuardRecord : Type := published.

#[export] Instance published_eq_dec : EqDecision published.
Proof. solve_decision. Defined.

Inductive RetryGuardAction : Type := RetryGuardActionCreate | RetryGuardActionSkip.

Inductive RetryGuardReason : Type :=
| RetryGuardReasonCreate
| RetryGuardReasonCreateForceOverrodeVerdict
| RetryGuardReasonCreateStaleRecordIgnored
| RetryGuardReasonSkipInflight.

Record RetryGuardDecision : Type := mkGuardDecision {
  Action : RetryGuardAction;
  Reason : RetryGuardReason;
  ExistingTaskID : string;
  RecordAge : Duration }.

Definition overrideSuppressionWindow : Duration := Hour.
Definition retryGuardStaleAfter : Duration := Hour.
Definition overrideLedgerBucketName : string := "override-published".
Definition retryGuardBucketName : string := "retry-guard-published".

(** ["%s/%s#%d@%s"] *)
Definition overrideLedgerKey (pr : RetryGuardPR) : string :=
  pr_Owner pr +:+ "/" +:+ pr_Repo pr +:+ "#" +:+ Itoa (pr_Number pr) +:+ "@" +:+ pr_HeadSHA pr.
Definition retryGuardKey (pr : RetryGuardPR) : string :=
  pr_Owner pr +:+ "/" +:+ pr_Repo pr +:+ "#" +:+ Itoa (pr_Number pr) +:+ "@" +:+ pr_HeadSHA pr.

(** [json.Marshal] and [json.Unmarshal] at the record type. *)
Class RecordCodec : Type := {
  encode_record : published -> option string;
  decode_record : string -> option published }.

Class RecordCodecLaws (C : RecordCodec) : Prop := {
  codec_roundtrip r s : encode_record r = Some s -> decode_record s = Some r;
  codec_nonempty r s : encode_record r = Some s -> s <> "" }.

(** ** Shared routines *)
Section ledger.
Context `{K : KV St Hd It} `{C : RecordCodec}.
Context (window : Duration) (bucket : string).

(** The pruning test on one stored value. *)
Definition prune_keeps_value (now : DateTime) (v : string) : bool :=
  match decode_record v with
  | Some r => dt_Sub now (PublishedAt r) <=? window
  | None => false
  end.

(** [for it.Rewind(); it.Valid(); it.Next()]; [None]: out of fuel. *)
Fixpoint prune_loop (fuel : nat) (h : Hd) (it : It) (now : DateTime) (s : St)
  : option (result unit * St) :=
  match fuel with
  | O => None
  | S fuel' =>
      if kv_Valid it then
        let item := kv_Item it s in
        if prune_keeps_value now (i_Value item) then prune_loop fuel' h (kv_Next it) now s
        else
          let '(r, s) := kv_Delete h (i_Key item) s in
          match r with
          | Err e => Some (Err e, s)
          | Ok _ => prune_loop fuel' h (kv_Next it) now s
          end
      else Some (Ok tt, s)
  end.

Definition ledger_prune (h : Hd) (now : DateTime) (s : St) : option (result unit * St) :=
  let it := kv_Rewind (kv_Iterator h s) in
  prune_loop (S (kv_steps it)) h it now s.

(** [record] / [Record]: prune, then store. [None]: the store panicked. *)
Definition ledger_record (now : DateTime) (key taskID : string) (s : St)
  : option (result unit * St) :=
  match kv_CreateBucketIfNotExists bucket s with
  | None => None
  | Some (Err e, s) => Some (Err e, s)
  | Some (Ok h, s) =>
      match ledger_prune h now s with
      | None => None
      | Some (Err e, s) => Some (Err e, s)
      | Some (Ok _, s) =>
          match encode_record (mkPublished taskID now) with
          | None => Some (Err (ErrOther "encode ledger record"), s)
          | Some value => Some (kv_Put h key value s)
          end
      end
  end.

(** The stored value of a key, [None] when the bucket or the key is absent. *)
Definition ledger_read (key : string) (s : St) : result (option string) :=
  match kv_Bucket bucket s with
  | Err BucketNotFoundError => Ok None
  | Err e => Err e
  | Ok h =>
      match kv_Get h key s with
      | Err e => Err e
      | Ok item => if i_Exists item then Ok (Some (i_Value item)) else Ok None
      end
  end.
End ledger.

(** ** The override ledger *)
Section override.
Context `{K : KV St Hd It} `{C : RecordCodec}.

Definition override_prune (h : Hd) (now : DateTime) (s : St) : option (result unit * St) :=
  ledger_prune overrideSuppressionWindow h now s.

Definition override_record (now : DateTime) (pr : RetryGuardPR) (taskID : string) (s : St)
  : option (result unit * St) :=
  ledger_record overrideSuppressionWindow overrideLedgerBucketName now
    (overrideLedgerKey pr) taskID s.

Definition fresh (now : DateTime) (r : overrideLedgerRecord) : bool :=
  let age := dt_Sub now (PublishedAt r) in
  if age <? 0 then true else age <=? overrideSuppressionWindow.

Definition suppressed (now : DateTime) (pr : RetryGuardPR) (s : St) : result bool :=
  match ledger_read overrideLedgerBucketName (overrideLedgerKey pr) s with
  | Err e => Err e
  | Ok None => Ok false
  | Ok (Some value) =>
      match decode_record value with
      | None => Ok false
      | Some r => Ok (fresh now r)
      end
  end.

(** [Record] logs a failure and returns nothing; [Record_total] below shows
    the store never panics under it. *)
Definition Record_override (now : DateTime) (pr : RetryGuardPR) (taskID : string) (s : St) : St :=
  match override_record now pr taskID s with
  | Some (_, s') => s'
  | None => s
  end.

(** [Suppressed] fails open. *)
Definition Suppressed (now : DateTime) (pr : RetryGuardPR) (s : St) : bool :=
  match suppressed now pr s with Ok b => b | Err _ => false end.

Definition SuppressedTx (now : DateTime) (pr : RetryGuardPR) (s : St) : result bool :=
  suppressed now pr s.
End override.

(** ** The retry guard *)
Section guard.
Context `{K : KV St Hd It} `{C : RecordCodec}.

Definition guard_prune (h : Hd) (now : DateTime) (s : St) : option (result unit * St) :=
  ledger_prune retryGuardStaleAfter h now s.

Definition guard_Record (now : DateTime) (pr : RetryGuardPR) (taskID : string) (s : St)
  : option (result unit * St) :=
  ledger_record retryGuardStaleAfter retryGuardBucketName now (retryGuardKey pr) taskID s.

Definition readRecord (pr : RetryGuardPR) (s : St) : result (option retryGuardRecord) :=
  match ledger_read retryGuardBucketName (retryGuardKey pr) s with
  | Err e => Err e
  | Ok None => Ok None
  | Ok (Some value) =>
      match decode_record value with
      | None => Err (ErrOther "decode retry guard record")
      | Some r => Ok (Some r)
      end
  end.

Definition recordAge (now publishedAt : DateTime) : Duration :=
  let age := dt_Sub now publishedAt in
  if age <? 0 then 0 else age.

(** [RecordPublish]: one transaction per record, failures logged. *)
Definition RecordPublish (now : DateTime) (pr : RetryGuardPR) (taskID : string) (s : St) : St :=
  match guard_Record now pr taskID s with
  | Some (_, s') => s'
  | None => s
  end.
End guard.

(** ** The shared routines against the store's contract *)
Section ledger_facts.
Context `{K : KV St Hd It} `{C : RecordCodec} `{CL : !RecordCodecLaws C}.
Context (window : Duration) (n : string).

Lemma prune_loop_spec now h ks : forall fuel it s m,
  kv_ok s -> kv_names s h n -> kv_view s !! n = Some m -> kv_pos it h ks -> NoDup ks ->
  (forall k, k ∈ ks -> is_Some (m !! k)) -> (length ks < fuel)%nat ->
  exists s' m', prune_loop window fuel h it now s = Some (Ok tt, s') /\
    kv_ok s' /\ kv_names s' h n /\ kv_view s' = <[n := m']> (kv_view s) /\
    forall k, m' !! k =
      if decide (k ∈ ks) then
        match m !! k with
        | Some v => if prune_keeps_value window now v then Some v else None
        | None => None
        end
      else m !! k.
Proof.
  induction ks as [|k ks IH]; intros fuel it s m Hok Hn Hv Hp Hnd Hin Hfuel;
    (destruct fuel as [|fuel]; [simpl in Hfuel; lia|]); simpl;
    rewrite (kv_pos_valid _ _ _ Hp).
  - exists s, m. rewrite insert_id by done. split_and!; try done.
  - apply NoDup_cons in Hnd as [Hk Hnd]. pose proof (kv_pos_next _ _ _ _ Hp) as Hp'.
    rewrite (kv_pos_item s it h n m k ks Hok Hn Hv Hp). rewrite bool_decide_eq_true_2 by done.
    destruct (Hin k) as [v Hkv]; [by left|]. rewrite Hkv. simpl.
    destruct (prune_keeps_value window now v) eqn:Hkeep.
    + destruct (IH fuel (kv_Next it) s m) as (s' & m' & E & ? & ? & ? & Hm'); try done.
      { intros k' Hk'. apply Hin. by right. } { simpl in Hfuel. lia. }
      exists s', m'. split_and!; try done. intros k'. rewrite Hm'.
      destruct (decide (k' ∈ ks)) as [Hin'|Hin'];
        destruct (decide (k' ∈ k :: ks)) as [Hin2|Hin2]; try done.
      * destruct Hin2. by right.
      * apply elem_of_cons in Hin2 as [->|?]; [|done]. by rewrite Hkv, Hkeep.
    + destruct (kv_delete_spec s h n m k Hok Hn Hv) as (s1 & E1 & Hok1 & Hn1 & Hv1).
      rewrite E1. destruct (IH fuel (kv_Next it) s1 (delete k m)) as (s' & m' & E & ? & ? & Hv' & Hm');
        try done.
      { by rewrite Hv1, lookup_insert_eq. }
      { intros k' Hk'. rewrite lookup_delete_ne; [apply Hin; by right|]. by intros <-. }
      { simpl in Hfuel. lia. }
      exists s', m'. split_and!; try done.
      { by rewrite Hv', Hv1, insert_insert_eq. }
      intros k'. rewrite Hm'. destruct (decide (k = k')) as [<-|Hne].
      * rewrite lookup_delete_eq, Hkv, Hkeep.
        rewrite decide_False by done. by rewrite decide_True by left.
      * rewrite lookup_delete_ne by done.
        destruct (decide (k' ∈ ks)) as [Hin'|Hin'];
          destruct (decide (k' ∈ k :: ks)) as [Hin2|Hin2]; try done.
        -- destruct Hin2. by right.
        -- apply elem_of_cons in Hin2 as [->|?]; done.
Qed.

(** Pruning terminates and keeps exactly the records the test keeps. *)
Lemma ledger_prune_spec now h s m :
  kv_ok s -> kv_names s h n -> kv_view s !! n = Some m ->
  exists s', ledger_prune window h now s = Some (Ok tt, s') /\ kv_ok s' /\ kv_names s' h n /\
    kv_view s' = <[n := filter (fun kv => prune_keeps_value window now (snd kv) = true) m]> (kv_view s).
Proof.
  intros Hok Hn Hv. unfold ledger_prune.
  destruct (kv_iter_spec s h n m Hok Hn Hv) as (ks & Hp & Hnd & Hks).
  destruct (prune_loop_spec now h ks (S (kv_steps (kv_Rewind (kv_Iterator h s)))) _ s m
    Hok Hn Hv Hp Hnd) as (s' & m' & E & ? & ? & Hv' & Hm').
  { intros k. apply Hks. }
  { rewrite (kv_pos_steps _ _ _ Hp). lia. }
  exists s'. split_and!; try done. rewrite Hv'. f_equal. apply map_eq. intros k.
  rewrite Hm', (lookup_filter_bool (prune_keeps_value window now)).
  destruct (decide (k ∈ ks)) as [Hin|Hin]; [done|].
  destruct (m !! k) as [v|] eqn:Hk; [|done]. destruct Hin. apply Hks. eauto.
Qed.

(** Recording: other buckets are untouched, stale and undecodable records go,
    the new one is stored. *)
Lemma ledger_record_spec now key taskID v s :
  kv_ok s -> encode_record (mkPublished taskID now) = Some v ->
  exists s', ledger_record window n now key taskID s = Some (Ok tt, s') /\ kv_ok s' /\
    kv_view s' = <[n := <[key := v]>
      (filter (fun kv => prune_keeps_value window now (snd kv) = true)
         (default ∅ (kv_view s !! n)))]> (kv_view s).
Proof.
  intros Hok Henc. unfold ledger_record.
  destruct (kv_create_spec s n Hok) as (h & s1 & -> & Hok1 & Hn1 & Hv1).
  destruct (ledger_prune_spec now h s1 (default ∅ (kv_view s !! n)) Hok1 Hn1)
    as (s2 & -> & Hok2 & Hn2 & Hv2); [by rewrite Hv1, lookup_insert_eq|].
  rewrite Henc.
  destruct (kv_put_spec s2 h n _ key v Hok2 Hn2 ltac:(by rewrite Hv2, lookup_insert_eq))
    as (s3 & -> & Hok3 & Hn3 & Hv3).
  exists s3. split_and!; try done. by rewrite Hv3, Hv2, Hv1, !insert_insert_eq.
Qed.

(** Whatever the encoder answers, recording ends and leaves other buckets
    alone. *)
Lemma ledger_record_total now key taskID s :
  kv_ok s ->
  exists r s', ledger_record window n now key taskID s = Some (r, s') /\ kv_ok s' /\
    forall n', n' <> n -> kv_view s' !! n' = kv_view s !! n'.
Proof.
  intros Hok. destruct (encode_record (mkPublished taskID now)) as [v|] eqn:Henc.
  - destruct (ledger_record_spec now key taskID v s Hok Henc) as (s' & -> & ? & Hv).
    exists (Ok tt), s'. split_and!; try done. intros n' Hne. rewrite Hv.
    by rewrite lookup_insert_ne.
  - unfold ledger_record.
    destruct (kv_create_spec s n Hok) as (h & s1 & -> & Hok1 & Hn1 & Hv1).
    destruct (ledger_prune_spec now h s1 (default ∅ (kv_view s !! n)) Hok1 Hn1)
      as (s2 & -> & Hok2 & Hn2 & Hv2); [by rewrite Hv1, lookup_insert_eq|].
    rewrite Henc. eexists _, s2. split_and!; try done. intros n' Hne.
    by rewrite Hv2, Hv1, !lookup_insert_ne.
Qed.

Lemma ledger_read_spec key s :
  kv_ok s ->
  ledger_read n key s =
  Ok (match kv_view s !! n with
      | Some m => match m !! key with
                  | Some v => if v =?s "" then None else Some v
                  | None => None
                  end
      | None => None
      end).
Proof.
  intros Hok. unfold ledger_read. destruct (kv_view s !! n) as [m|] eqn:Hv.
  - destruct (kv_bucket_found s n m Hok Hv) as (h & -> & Hn).
    rewrite (kv_get_spec s h n m key Hok Hn Hv). unfold i_Exists. simpl.
    destruct (m !! key) as [v|]; simpl; [|done]. by destruct (v =?s "").
  - by rewrite (kv_bucket_missing s n Hok Hv).
Qed.

(** The ledger as what it means: the decodable records by key. *)
Definition ledger_view (s : St) : gmap string published :=
  omap (fun v => if v =?s "" then None else decode_record v) (default ∅ (kv_view s !! n)).

Lemma ledger_view_lookup s key :
  ledger_view s !! key =
  match kv_view s !! n with
  | Some m => match m !! key with
              | Some v => if v =?s "" then None else decode_record v
              | None => None
              end
  | None => None
  end.
Proof.
  unfold ledger_view. rewrite lookup_omap.
  destruct (kv_view s !! n) as [m|]; simpl; [|by rewrite lookup_empty].
  by destruct (m !! key).
Qed.

(** Refinement: recording inserts into the pruned abstract ledger. *)
Lemma ledger_record_refines now key taskID s :
  kv_ok s -> is_Some (encode_record (mkPublished taskID now)) ->
  exists s', ledger_record window n now key taskID s = Some (Ok tt, s') /\ kv_ok s' /\
    ledger_view s' = <[key := mkPublished taskID now]>
      (filter (fun kv => (dt_Sub now (PublishedAt (snd kv)) <=? window) = true) (ledger_view s)) /\
    forall n', n' <> n -> kv_view s' !! n' = kv_view s !! n'.
Proof.
  intros Hok [v Henc].
  destruct (ledger_record_spec now key taskID v s Hok Henc) as (s' & E & Hok' & Hv).
  exists s'. split_and!; try done.
  - apply map_eq. intros k. rewrite ledger_view_lookup, Hv, lookup_insert_eq.
    destruct (decide (key = k)) as [<-|Hne].
    + rewrite !lookup_insert_eq. pose proof (codec_nonempty _ _ Henc) as Hne.
      apply String.eqb_neq in Hne. rewrite Hne. by apply codec_roundtrip.
    + rewrite !lookup_insert_ne by done.
      rewrite (lookup_filter_bool (prune_keeps_value window now)).
      rewrite (lookup_filter_bool (fun r => dt_Sub now (PublishedAt r) <=? window)).
      rewrite ledger_view_lookup. unfold prune_keeps_value.
      destruct (kv_view s !! n) as [m|]; simpl; [|done].
      destruct (m !! k) as [w|]; simpl; [|done].
      destruct (decode_record w) as [r|] eqn:Hdec; destruct (w =?s "") eqn:Hw; simpl; try done;
        destruct (dt_Sub now (PublishedAt r) <=? window) eqn:Hage; simpl; rewrite ?Hw, ?Hage; simpl; by rewrite ?Hw, ?Hdec.
  - intros n' Hn'. rewrite Hv. by rewrite lookup_insert_ne.
Qed.
End ledger_facts.

Lemma Hour_window : window Hour.
Proof. unfold window, Hour, Minute, Second, int_max. lia. Qed.
#[export] Hint Resolve Hour_window : watcher.

(** ** Histories

    Both ledgers share the store; a history lists what was recorded, newest
    first, with the clock reading of each record. *)
Inductive record_event : Type :=
| EvOverride (now : DateTime) (pr : RetryGuardPR) (taskID : string)
| EvReview (now : DateTime) (pr : RetryGuardPR) (taskID : string).

Definition ev_time (e : record_event) : DateTime :=
  match e with EvOverride now _ _ | EvReview now _ _ => now end.

(** What [Record] and [RecordPublish] leave after a history. *)
Definition replay_event `{K : KV St Hd It} `{C : RecordCodec} (e : record_event) (s : St) : St :=
  match e with
  | EvOverride now pr task => Record_override now pr task s
  | EvReview now pr task => RecordPublish now pr task s
  end.

Definition replay `{K : KV St Hd It} `{C : RecordCodec} (evs : list record_event) (s : St) : St :=
  foldr replay_event s evs.

(** A clock that never goes back, and records the encoder accepts. *)
Fixpoint history_ok `{C : RecordCodec} (t : DateTime) (evs : list record_event) : Prop :=
  match evs with
  | [] => True
  | e :: evs' =>
      ev_time e <= t /\
      is_Some (encode_record (match e with EvOverride now _ task | EvReview now _ task =>
                                mkPublished task now end)) /\
      history_ok (ev_time e) evs'
  end.

Section history.
Context `{K : KV St Hd It} `{C : RecordCodec} `{CL : !RecordCodecLaws C}.

(** The freshness test of a key on the abstract ledger, and on a history. *)
Definition view_fresh (n : string) (w t : Z) (key : string) (s : St) : bool :=
  match ledger_view n s !! key with
  | Some r => dt_Sub t (PublishedAt r) <=? w
  | None => false
  end.

Definition override_event_fresh (t : DateTime) (key : string) (e : record_event) : bool :=
  match e with
  | EvOverride now pr _ =>
      (overrideLedgerKey pr =?s key) && (dt_Sub t now <=? overrideSuppressionWindow)
  | EvReview _ _ _ => false
  end.

Definition review_event_fresh (t : DateTime) (key : string) (e : record_event) : bool :=
  match e with
  | EvReview now pr _ =>
      (retryGuardKey pr =?s key) && (dt_Sub t now <=? retryGuardStaleAfter)
  | EvOverride _ _ _ => false
  end.

Lemma dt_Sub_Hour_le t a : (dt_Sub t a <=? Hour) = (t <=? a + Hour).
Proof.
  unfold dt_Sub. rewrite sat64_le_l by auto with watcher.
  apply eq_true_iff_eq. rewrite !Z.leb_le. lia.
Qed.

(** Replacing the record of one key by a newer one, after a prune at the
    newer instant, answers the freshness question as the history does. *)
Lemma insert_prune_fresh (m : gmap string published) key k now task t :
  now <= t ->
  match (<[key := mkPublished task now]>
      (filter (fun kv => (dt_Sub now (PublishedAt (snd kv)) <=? Hour) = true) m)) !! k with
  | Some r => dt_Sub t (PublishedAt r) <=? Hour
  | None => false
  end =
  if key =?s k then dt_Sub t now <=? Hour
  else match m !! k with Some r => dt_Sub t (PublishedAt r) <=? Hour | None => false end.
Proof.
  intros Hle. destruct (key =?s k) eqn:E; bool_props.
  - subst. by rewrite lookup_insert_eq.
  - rewrite lookup_insert_ne by done.
    rewrite (lookup_filter_bool (fun r => dt_Sub now (PublishedAt r) <=? Hour)).
    destruct (m !! k) as [r|]; [|done]. rewrite dt_Sub_Hour_le.
    destruct (now <=? PublishedAt r + Hour) eqn:E2; [done|].
    rewrite dt_Sub_Hour_le. bool_props. symmetry. apply Z.leb_gt. lia.
Qed.

Lemma history_mono t0 t evs f :
  history_ok t0 evs ->
  (forall e, f e = true -> (dt_Sub t (ev_time e) <=? Hour) = true) ->
  existsb f evs = true -> (dt_Sub t t0 <=? Hour) = true.
Proof.
  revert t0. induction evs as [|e evs IH]; intros t0; simpl; [done|].
  intros (He & _ & Hh) Hf Hex. apply orb_true_iff in Hex as [Hex|Hex].
  - apply Hf in Hex. rewrite dt_Sub_Hour_le in *. bool_props. apply Z.leb_le. lia.
  - specialize (IH _ Hh Hf Hex). rewrite dt_Sub_Hour_le in *. bool_props. apply Z.leb_le. lia.
Qed.

Lemma override_event_fresh_time t key e :
  override_event_fresh t key e = true -> (dt_Sub t (ev_time e) <=? Hour) = true.
Proof. destruct e; simpl; [|done]. intros. by bool_props; apply Z.leb_le. Qed.

Lemma review_event_fresh_time t key e :
  review_event_fresh t key e = true -> (dt_Sub t (ev_time e) <=? Hour) = true.
Proof. destruct e; simpl; [done|]. intros. by bool_props; apply Z.leb_le. Qed.

Lemma view_fresh_frame n t key s1 s2 :
  kv_view s2 !! n = kv_view s1 !! n -> view_fresh n Hour t key s2 = view_fresh n Hour t key s1.
Proof. intros Hv. unfold view_fresh. rewrite !ledger_view_lookup. by rewrite Hv. Qed.

(** One record in bucket [n], after a history whose freshness in that bucket
    is [f]. *)
Lemma record_fresh_step n now key' task t t0 s s' key (f : record_event -> bool) evs :
  ledger_view n s' = <[key' := mkPublished task now]>
    (filter (fun kv => (dt_Sub now (PublishedAt (snd kv)) <=? Hour) = true) (ledger_view n s)) ->
  now <= t -> t0 = now -> history_ok t0 evs ->
  (forall e, f e = true -> (dt_Sub t (ev_time e) <=? Hour) = true) ->
  view_fresh n Hour t key s = existsb f evs ->
  view_fresh n Hour t key s' = (key' =?s key) && (dt_Sub t now <=? Hour) || existsb f evs.
Proof.
  intros Hv Hle -> Hh Hf Hold. unfold view_fresh in *. rewrite Hv, insert_prune_fresh by done.
  destruct (key' =?s key); simpl; [|done].
  destruct (existsb f evs) eqn:Hex; [|by rewrite orb_false_r].
  rewrite orb_true_r. by eapply history_mono.
Qed.

Lemma history_fresh t0 t evs s :
  kv_ok s -> (forall n, kv_view s !! n = None) -> history_ok t0 evs -> t0 <= t ->
  kv_ok (replay evs s) /\
  forall key,
    view_fresh overrideLedgerBucketName Hour t key (replay evs s) =
      existsb (override_event_fresh t key) evs /\
    view_fresh retryGuardBucketName Hour t key (replay evs s) =
      existsb (review_event_fresh t key) evs.
Proof.
  intros Hok Hempty. revert t0 t. induction evs as [|e evs IH]; intros t0 t Hh Ht.
  - split; [done|]. intros key. unfold view_fresh. rewrite !ledger_view_lookup. simpl.
    by rewrite !Hempty.
  - simpl in Hh. destruct Hh as (He & Henc & Hh).
    destruct (IH (ev_time e) t Hh ltac:(lia)) as [Hok1 IHt].
    change (replay (e :: evs) s) with (replay_event e (replay evs s)).
    destruct e as [now pr task|now pr task]; simpl in He, Henc, Hh.
    + destruct (ledger_record_refines overrideSuppressionWindow overrideLedgerBucketName now
        (overrideLedgerKey pr) task (replay evs s) Hok1 Henc) as (s' & E & Hok' & Hv & Hfr).
      assert (replay_event (EvOverride now pr task) (replay evs s) = s') as ->.
      { simpl. unfold Record_override, override_record. by rewrite E. }
      split; [done|]. intros key. destruct (IHt key) as [IH1 IH2]. split.
      * eapply record_fresh_step; [exact Hv|lia|reflexivity|exact Hh| |exact IH1].
        apply override_event_fresh_time.
      * rewrite (view_fresh_frame _ t key (replay evs s) s'); [exact IH2|]. by apply Hfr.
    + destruct (ledger_record_refines retryGuardStaleAfter retryGuardBucketName now
        (retryGuardKey pr) task (replay evs s) Hok1 Henc) as (s' & E & Hok' & Hv & Hfr).
      assert (replay_event (EvReview now pr task) (replay evs s) = s') as ->.
      { simpl. unfold RecordPublish, guard_Record. by rewrite E. }
      split; [done|]. intros key. destruct (IHt key) as [IH1 IH2]. split.
      * rewrite (view_fresh_frame _ t key (replay evs s) s'); [exact IH1|]. by apply Hfr.
      * eapply record_fresh_step; [exact Hv|lia|reflexivity|exact Hh| |exact IH2].
        apply review_event_fresh_time.
Qed.

Lemma fresh_window now r : fresh now r = (dt_Sub now (PublishedAt r) <=? overrideSuppressionWindow).
Proof.
  unfold fresh. destruct (_ <? 0) eqn:E; [|done]. bool_props. symmetry. apply Z.leb_le.
  unfold overrideSuppressionWindow, Hour, Minute, Second. lia.
Qed.

(** [Suppressed] reads the abstract ledger. *)
Lemma Suppressed_view now pr s :
  kv_ok s ->
  suppressed now pr s =
  Ok (view_fresh overrideLedgerBucketName Hour now (overrideLedgerKey pr) s).
Proof.
  intros Hok. unfold suppressed, view_fresh. rewrite ledger_read_spec by done.
  rewrite ledger_view_lookup. destruct (kv_view s !! _) as [m|]; [|done].
  destruct (m !! _) as [v|]; [|done]. destruct (v =?s ""); [done|].
  destruct (decode_record v) as [r|]; [|done]. by rewrite fresh_window.
Qed.
End history.
