(* ===== verification/LedgerProofs.v ===== *)
(** * LedgerProofs: what the two ledgers promise, over any conforming store
    and on the in-memory one *)
From S2P Require Import Prelude GoStrings KV MemDB Ledger.
From Stdlib Require Import Ascii DecimalString DecimalZ.
Local Open Scope Z_scope.

(** ** A concrete record encoding, for the witnesses: time, bar, task *)
Definition bar : ascii := "|"%char.

#[export] Instance demo_codec : RecordCodec := {|
  encode_record r := Some (Itoa (PublishedAt r) +:+ String bar (TaskID r));
  decode_record v :=
    match Cut v bar with
    | Some (b, a) =>
        match NilZero.int_of_string b with
        | Some i => Some (mkPublished a (Z.of_int i))
        | None => None
        end
    | None => None
    end |}.

#[export] Instance demo_codec_laws : RecordCodecLaws demo_codec.
Proof.
  split.
  - intros [task at_] s [= <-]. simpl. rewrite Cut_app by by apply Itoa_avoids.
    unfold Itoa. rewrite NilZero.isi.
    + by rewrite DecimalZ.of_to.
    + destruct at_ as [|p|p]; simpl; try done; intros [=];
        by destruct (DecimalPos.Unsigned.to_uint_nonnil p).
    + destruct at_ as [|p|p]; simpl; try done; intros [=];
        by destruct (DecimalPos.Unsigned.to_uint_nonnil p).
  - intros [task at_] s [= <-]. by destruct (Itoa _).
Qed.

(** ** Properties *)

(** (C23) Over any conforming store and any history of records in both
    ledgers under a clock that never goes back, the override ledger
    suppresses a review at instant [t] exactly when an override for that PR
    head was recorded at most one hour before; reviews recorded by the retry
    guard in the same store do not matter. *)
Theorem override_suppression_iff `{KV St Hd It} `{C : RecordCodec} `{!RecordCodecLaws C} t0 t evs s pr :
  kv_ok s -> (forall n, kv_view s !! n = None) -> history_ok t0 evs -> t0 <= t ->
  Suppressed t pr (replay evs s) = true <->
  exists now pr' task, EvOverride now pr' task ∈ evs /\
    overrideLedgerKey pr' = overrideLedgerKey pr /\ t <= now + Hour.
Proof.
  intros Hok He Hh Ht. destruct (history_fresh t0 t evs s Hok He Hh Ht) as [Hok' Hf].
  unfold Suppressed. rewrite Suppressed_view by done.
  destruct (Hf (overrideLedgerKey pr)) as [-> _]. rewrite existsb_exists. split.
  - intros ([now pr' task|] & Hin & Hfr); [|done]. simpl in Hfr.
    unfold overrideSuppressionWindow in Hfr. rewrite dt_Sub_Hour_le in Hfr. bool_props.
    exists now, pr', task. by rewrite list_elem_of_In.
  - intros (now & pr' & task & Hin & Hk & Hle). exists (EvOverride now pr' task).
    split; [by apply list_elem_of_In|]. simpl. unfold overrideSuppressionWindow.
    rewrite dt_Sub_Hour_le, Hk, String.eqb_refl. by apply Z.leb_le.
Qed.

(** (C24) The same for the retry guard, after writes to either ledger at times
    that do not go back: a stored review counts as in flight at [t] exactly when
    a review of that PR head was recorded within the hour. *)
Theorem guard_fresh_iff `{KV St Hd It} `{C : RecordCodec} `{!RecordCodecLaws C} t0 t evs s pr :
  kv_ok s -> (forall n, kv_view s !! n = None) -> history_ok t0 evs -> t0 <= t ->
  (exists r, readRecord pr (replay evs s) = Ok (Some r) /\
     recordAge t (PublishedAt r) <= retryGuardStaleAfter) <->
  exists now pr' task, EvReview now pr' task ∈ evs /\
    retryGuardKey pr' = retryGuardKey pr /\ t <= now + Hour.
Proof.
  intros Hok He Hh Ht. destruct (history_fresh t0 t evs s Hok He Hh Ht) as [Hok' Hf].
  destruct (Hf (retryGuardKey pr)) as [_ Hf2].
  transitivity (existsb (review_event_fresh t (retryGuardKey pr)) evs = true).
  - rewrite <- Hf2. unfold view_fresh, readRecord.
    rewrite ledger_read_spec, ledger_view_lookup by done.
    destruct (kv_view _ !! _) as [m|]; [|by split; [intros (?&?&?)|]].
    destruct (m !! _) as [v|]; [|by split; [intros (?&?&?)|]].
    destruct (v =?s ""); [by split; [intros (?&?&?)|]|].
    destruct (decode_record v) as [r|]; [|by split; [intros (?&?&?)|]].
    assert (recordAge t (PublishedAt r) <= retryGuardStaleAfter <->
            dt_Sub t (PublishedAt r) <= Hour) as Hage.
    { unfold recordAge, retryGuardStaleAfter. pose proof Hour_window as [? ?].
      destruct (Z.ltb_spec (dt_Sub t (PublishedAt r)) 0); lia. }
    rewrite Z.leb_le, <- Hage. split; [by intros (? & [= <-] & ?)|eauto].
  - rewrite existsb_exists. split.
    + intros ([|now pr' task] & Hin & Hfr); [done|]. simpl in Hfr.
      unfold retryGuardStaleAfter in Hfr. rewrite dt_Sub_Hour_le in Hfr. bool_props.
      exists now, pr', task. by rewrite list_elem_of_In.
    + intros (now & pr' & task & Hin & Hk & Hle). exists (EvReview now pr' task).
      split; [by apply list_elem_of_In|]. simpl. unfold retryGuardStaleAfter.
      rewrite dt_Sub_Hour_le, Hk, String.eqb_refl. by apply Z.leb_le.
Qed.

(** A PR reference GitHub can produce: no slash in the owner, no hash in the
    repository name. *)
Definition pr_wf (pr : RetryGuardPR) : Prop :=
  ~ In "/"%char (String.list_ascii_of_string (pr_Owner pr)) /\
  ~ In "#"%char (String.list_ascii_of_string (pr_Repo pr)).

(** Distinct PR heads never share a ledger record. *)
Theorem ledgerKey_inj pr pr' :
  pr_wf pr -> pr_wf pr' -> overrideLedgerKey pr = overrideLedgerKey pr' -> pr = pr'.
Proof.
  intros [Ho Hr] [Ho' Hr'] H. unfold overrideLedgerKey in H.
  apply app_sep_inj in H as [H1 H]; [|done..].
  apply app_sep_inj in H as [H2 H]; [|done..].
  apply app_sep_inj in H as [H3 H4]; [|by apply Itoa_avoids..].
  apply Itoa_inj in H3. destruct pr, pr'; simpl in *. congruence.
Qed.

(** ** Witnesses on the in-memory store *)

Definition demo_pr (n : Z) : RetryGuardPR := mkPR "bborbe" "repo" n "0123abcd".
Definition demo_history : list record_event :=
  [EvReview (2 * Hour) (demo_pr 2) "t2"; EvOverride Hour (demo_pr 1) "t1"].

Lemma demo_history_ok : history_ok (2 * Hour) demo_history.
Proof. simpl. unfold Hour, Minute, Second. repeat split; try lia; eexists; reflexivity. Qed.

Lemma override_suppression_iff_witness :
  Suppressed (2 * Hour) (demo_pr 1) (replay demo_history NewMemDB) = true /\
  Suppressed (2 * Hour) (demo_pr 2) (replay demo_history NewMemDB) <> true.
Proof.
  split.
  - apply (override_suppression_iff (2 * Hour)); [apply NewMemDB_kv_ok|apply NewMemDB_kv_empty|apply demo_history_ok|lia|].
    exists Hour, (demo_pr 1), "t1". split; [right; left|]. split; [reflexivity|].
    unfold Hour, Minute, Second. lia.
  - intros H. apply (override_suppression_iff (2 * Hour)) in H;
      [|apply NewMemDB_kv_ok|apply NewMemDB_kv_empty|apply demo_history_ok|lia].
    destruct H as (now & pr' & task & Hin & Hk & _).
    apply elem_of_cons in Hin as [Hin|Hin]; [done|].
    apply list_elem_of_singleton in Hin. simplify_eq.
Defined.

Lemma guard_fresh_iff_witness :
  exists r, readRecord (demo_pr 2) (replay demo_history NewMemDB) = Ok (Some r).
Proof.
  destruct (proj2 (guard_fresh_iff (2 * Hour) (3 * Hour) demo_history NewMemDB (demo_pr 2)
    NewMemDB_kv_ok NewMemDB_kv_empty demo_history_ok ltac:(unfold Hour, Minute, Second; lia)))
    as (r & Hr & _).
  - exists (2 * Hour), (demo_pr 2), "t2". split; [left|]. split; [reflexivity|lia].
  - exists r. exact Hr.
Defined.

Lemma ledgerKey_inj_witness : overrideLedgerKey (demo_pr 1) <> overrideLedgerKey (demo_pr 2).
Proof.
  intros H. apply ledgerKey_inj in H; [discriminate H| |]; split; simpl; intuition discriminate.
Defined.
