(* ===== verification/Records.v ===== *)
(** * Records: the ledgers' records in time

    A record not older than an instant stays visible for an hour after it,
    whatever else is recorded meanwhile; and no record is from the future.
    These are the facts about the store that hold across the goroutines that
    write it. *)
From S2P Require Import Prelude GoStrings KV Ledger LedgerProofs.
Local Open Scope Z_scope.

(** ** A record of an hour ago or less *)
Section holds.
Context `{K : KV St Hd It} `{C : RecordCodec} `{CL : !RecordCodecLaws C}.

(** The bucket [n] has a record of [key] not older than [t0]. *)
Definition holds (n key : string) (t0 : DateTime) (s : St) : Prop :=
  kv_ok s /\ exists r, ledger_view n s !! key = Some r /\ t0 <= PublishedAt r.

Lemma ledger_record_view n now key task s :
  kv_ok s ->
  exists x s', ledger_record Hour n now key task s = Some (x, s') /\ kv_ok s' /\
    (forall n', n' <> n -> kv_view s' !! n' = kv_view s !! n') /\
    (forall k r, ledger_view n s !! k = Some r -> dt_Sub now (PublishedAt r) <= Hour ->
       ledger_view n s' !! k = Some r \/ ledger_view n s' !! k = Some (mkPublished task now)) /\
    forall k r, ledger_view n s' !! k = Some r ->
      ledger_view n s !! k = Some r \/ r = mkPublished task now.
Proof.
  intros Hok. destruct (encode_record (mkPublished task now)) as [v|] eqn:Henc.
  - destruct (ledger_record_refines Hour n now key task s Hok ltac:(by eexists)) as (s' & E & Hok' & Hv & Hfr).
    exists (Ok tt), s'. split_and!; [done|done|done| |]; intros k r; rewrite Hv.
    + intros Hr Hage. destruct (decide (key = k)) as [<-|Hne]; [right; by rewrite lookup_insert_eq|left].
      rewrite lookup_insert_ne by done. apply map_lookup_filter_Some. split; [done|]. simpl. by apply Z.leb_le.
    + destruct (decide (key = k)) as [<-|Hne].
      * rewrite lookup_insert_eq. intros [= <-]. by right.
      * rewrite lookup_insert_ne by done. intros [? _]%map_lookup_filter_Some. by left.
  - unfold ledger_record.
    destruct (kv_create_spec s n Hok) as (h & s1 & -> & Hok1 & Hn1 & Hv1).
    destruct (ledger_prune_spec Hour n now h s1 (default ∅ (kv_view s !! n)) Hok1 Hn1)
      as (s2 & -> & Hok2 & Hn2 & Hv2); [by rewrite Hv1, lookup_insert_eq|].
    rewrite Henc. eexists _, s2. split_and!; [done|done| | |].
    { intros n' Hne. by rewrite Hv2, Hv1, !lookup_insert_ne. }
    2: { intros k r Hr. left. rewrite ledger_view_lookup in *. rewrite Hv2, lookup_insert_eq in Hr.
      destruct (kv_view s !! n) as [m|]; [|exfalso; by vm_compute in Hr]. simpl in Hr.
      destruct (filter _ m !! k) as [v|] eqn:Hf; [|done].
      apply map_lookup_filter_Some in Hf as [Hmk _]. by rewrite Hmk. }
    intros k r Hr Hage. left. rewrite ledger_view_lookup in *. rewrite Hv2, lookup_insert_eq.
    destruct (kv_view s !! n) as [m|]; [|done]. simpl.
    destruct (m !! k) as [v|] eqn:Hmk; [|done].
    destruct (v =?s "") eqn:Hve; [done|].
    rewrite (proj2 (map_lookup_filter_Some _ m k v)); [by rewrite Hve|].
    split; [done|]. simpl. unfold prune_keeps_value. rewrite Hr. by apply Z.leb_le.
Qed.

Lemma holds_record n' now key' task n key t0 s :
  t0 <= now <= t0 + Hour -> holds n key t0 s ->
  exists x s', ledger_record Hour n' now key' task s = Some (x, s') /\ holds n key t0 s'.
Proof.
  intros Hnow [Hok (r & Hr & Ht)].
  destruct (ledger_record_view n' now key' task s Hok) as (x & s' & E & Hok' & Hfr & Hkeep & _).
  exists x, s'. split; [done|]. split; [done|]. destruct (decide (n = n')) as [<-|Hne].
  - destruct (Hkeep key r Hr) as [Hk|Hk].
    + unfold dt_Sub. rewrite <- Z.leb_le. rewrite sat64_le_l by auto with watcher. apply Z.leb_le. lia.
    + by exists r.
    + eexists. split; [exact Hk|]. simpl. lia.
  - exists r. rewrite ledger_view_lookup in *. by rewrite Hfr.
Qed.

Lemma holds_override now pr task n key t0 s :
  t0 <= now <= t0 + Hour -> holds n key t0 s -> holds n key t0 (Record_override now pr task s).
Proof.
  intros Hnow Hh. unfold Record_override, override_record, overrideSuppressionWindow.
  by destruct (holds_record overrideLedgerBucketName now (overrideLedgerKey pr) task n key t0 s Hnow Hh)
    as (x & s' & -> & ?).
Qed.

Lemma holds_review now pr task n key t0 s :
  t0 <= now <= t0 + Hour -> holds n key t0 s -> holds n key t0 (RecordPublish now pr task s).
Proof.
  intros Hnow Hh. unfold RecordPublish, guard_Record, retryGuardStaleAfter.
  by destruct (holds_record retryGuardBucketName now (retryGuardKey pr) task n key t0 s Hnow Hh)
    as (x & s' & -> & ?).
Qed.

(** Recording makes it hold. *)
Lemma holds_recorded n now key task s :
  kv_ok s -> is_Some (encode_record (mkPublished task now)) ->
  exists s', ledger_record Hour n now key task s = Some (Ok tt, s') /\ holds n key now s'.
Proof.
  intros Hok Henc. destruct (ledger_record_refines Hour n now key task s Hok Henc) as (s' & E & Hok' & Hv & _).
  exists s'. split; [done|]. split; [done|]. eexists. rewrite Hv, lookup_insert_eq. split; [done|]. simpl. lia.
Qed.

Lemma view_fresh_holds n key t0 t s :
  holds n key t0 s -> t <= t0 + Hour -> view_fresh n Hour t key s = true.
Proof.
  intros [_ (r & Hr & Ht)] Hle. unfold view_fresh. rewrite Hr, dt_Sub_Hour_le. apply Z.leb_le. lia.
Qed.

Lemma suppressed_holds pr t0 t s :
  holds overrideLedgerBucketName (overrideLedgerKey pr) t0 s -> t <= t0 + Hour -> suppressed t pr s = Ok true.
Proof.
  intros Hh Hle. rewrite Suppressed_view by apply Hh. f_equal. by eapply view_fresh_holds.
Qed.

Lemma readRecord_holds pr t0 t s :
  holds retryGuardBucketName (retryGuardKey pr) t0 s -> t <= t0 + Hour ->
  exists r, readRecord pr s = Ok (Some r) /\ recordAge t (PublishedAt r) <= retryGuardStaleAfter.
Proof.
  intros [Hok (r & Hr & Ht)] Hle. exists r. unfold readRecord. rewrite ledger_read_spec by done.
  rewrite ledger_view_lookup in Hr. destruct (kv_view s !! _) as [m|]; [|done].
  destruct (m !! _) as [v|]; [|done]. destruct (v =?s ""); [done|]. rewrite Hr. split; [done|].
  unfold recordAge, retryGuardStaleAfter. pose proof Hour_window as [? ?].
  destruct (Z.ltb_spec (dt_Sub t (PublishedAt r)) 0); [lia|].
  unfold dt_Sub. rewrite <- Z.leb_le, sat64_le_l by auto with watcher. apply Z.leb_le. lia.
Qed.

(** The buckets of the two ledgers. *)
Definition ledger_bucket (n : string) : Prop := n = overrideLedgerBucketName \/ n = retryGuardBucketName.

(** No record of the ledgers is later than [t]. *)
Definition stamped (t : DateTime) (s : St) : Prop :=
  forall n k r, ledger_bucket n -> ledger_view n s !! k = Some r -> PublishedAt r <= t.

Lemma stamped_mono t t' s : t <= t' -> stamped t s -> stamped t' s.
Proof. intros Ht Hs n k r Hn Hr. specialize (Hs n k r Hn Hr). lia. Qed.

Lemma holds_stamped n key t0 t s : ledger_bucket n -> stamped t s -> holds n key t0 s -> t0 <= t.
Proof. intros Hn Hs [_ (r & Hr & Ht)]. specialize (Hs n key r Hn Hr). lia. Qed.

(** What a write of the store at [now] must keep for the other goroutines. *)
Record keeps_records (now : DateTime) (s s' : St) : Prop := mkKeeps {
  kr_ok : kv_ok s';
  kr_stamped : stamped now s';
  kr_holds n key t0 : ledger_bucket n -> now <= t0 + Hour -> holds n key t0 s -> holds n key t0 s' }.

Lemma record_keeps n now key task s :
  kv_ok s -> stamped now s ->
  exists x s', ledger_record Hour n now key task s = Some (x, s') /\ keeps_records now s s'.
Proof.
  intros Hok Hst. destruct (ledger_record_view n now key task s Hok) as (x & s' & E & Hok' & Hfr & _ & Hb).
  exists x, s'. split; [done|]. split; [done| |].
  - intros n' k r Hn' Hr. destruct (decide (n' = n)) as [->|Hne].
    + apply Hb in Hr as [Hr| ->]; [by eapply Hst|simpl; lia].
    + eapply (Hst n' k); [done|]. rewrite ledger_view_lookup in *. by rewrite <- Hfr.
  - intros n' k t0 Hn' Hle Hh. pose proof (holds_stamped _ _ _ _ _ Hn' Hst Hh) as Ht0.
    destruct (holds_record n now key task n' k t0 s) as (x2 & s2 & E2 & Hh2); [lia|done|].
    rewrite E in E2. by injection E2 as _ <-.
Qed.

Lemma override_keeps now pr task s :
  kv_ok s -> stamped now s -> keeps_records now s (Record_override now pr task s).
Proof.
  intros Hok Hst. unfold Record_override, override_record, overrideSuppressionWindow.
  by destruct (record_keeps overrideLedgerBucketName now (overrideLedgerKey pr) task s Hok Hst)
    as (x & s' & -> & ?).
Qed.

Lemma review_keeps now pr task s :
  kv_ok s -> stamped now s -> keeps_records now s (RecordPublish now pr task s).
Proof.
  intros Hok Hst. unfold RecordPublish, guard_Record, retryGuardStaleAfter.
  by destruct (record_keeps retryGuardBucketName now (retryGuardKey pr) task s Hok Hst)
    as (x & s' & -> & ?).
Qed.
End holds.
