(* ===== verification/Regex.v ===== *)
(** * Regex: regular expressions over bytes, matched by derivatives

    The patterns of the code are RE2 expressions without captures, anchored
    at the start of the text. They are kept as syntax; [match_full] and
    [match_prefix] decide them, and are proved to decide the language and the
    existence of a matching prefix. *)
From S2P Require Import Prelude.
From Stdlib Require Import Ascii.

Inductive regex : Type :=
| RNone
| REps
| RChar (f : ascii -> bool)
| RCat (r1 r2 : regex)
| RAlt (r1 r2 : regex)
| RStar (r : regex).

(** The language of an expression. *)
Inductive matches : regex -> list ascii -> Prop :=
| M_Eps : matches REps []
| M_Char f c : f c = true -> matches (RChar f) [c]
| M_Cat r1 r2 u v : matches r1 u -> matches r2 v -> matches (RCat r1 r2) (u ++ v)
| M_AltL r1 r2 u : matches r1 u -> matches (RAlt r1 r2) u
| M_AltR r1 r2 u : matches r2 u -> matches (RAlt r1 r2) u
| M_StarNil r : matches (RStar r) []
| M_StarApp r u v : matches r u -> matches (RStar r) v -> matches (RStar r) (u ++ v).

Fixpoint nullable (r : regex) : bool :=
  match r with
  | RNone | RChar _ => false
  | REps | RStar _ => true
  | RCat r1 r2 => nullable r1 && nullable r2
  | RAlt r1 r2 => nullable r1 || nullable r2
  end.

(** Constructors that drop dead branches, so derivatives stay small. *)
Definition cat (r1 r2 : regex) : regex :=
  match r1 with RNone => RNone | REps => r2 | _ => RCat r1 r2 end.
Definition alt (r1 r2 : regex) : regex :=
  match r1, r2 with RNone, _ => r2 | _, RNone => r1 | _, _ => RAlt r1 r2 end.

Fixpoint deriv (c : ascii) (r : regex) : regex :=
  match r with
  | RNone | REps => RNone
  | RChar f => if f c then REps else RNone
  | RCat r1 r2 =>
      if nullable r1 then alt (cat (deriv c r1) r2) (deriv c r2) else cat (deriv c r1) r2
  | RAlt r1 r2 => alt (deriv c r1) (deriv c r2)
  | RStar r1 => cat (deriv c r1) (RStar r1)
  end.

Fixpoint match_full (r : regex) (l : list ascii) : bool :=
  match l with
  | [] => nullable r
  | c :: l' => match_full (deriv c r) l'
  end.

(** Some prefix of the text matches: the meaning of a pattern anchored at the
    start only. *)
Fixpoint match_prefix (r : regex) (l : list ascii) : bool :=
  nullable r ||
  match l with
  | [] => false
  | c :: l' => match_prefix (deriv c r) l'
  end.

(** [regexp.MustCompile("^...").MatchString] and
    [regexp.MustCompile("^...$").MatchString]. *)
Definition MatchPrefix (r : regex) (s : string) : bool :=
  match_prefix r (String.list_ascii_of_string s).
Definition MatchFull (r : regex) (s : string) : bool :=
  match_full r (String.list_ascii_of_string s).

(** ** Building blocks of the patterns *)

Definition chr (c : ascii) : regex := RChar (Ascii.eqb c).
Definition code (c : ascii) : Z := Z.of_N (N_of_ascii c).
Definition in_range (lo hi : Z) (c : ascii) : bool := (lo <=? code c)%Z && (code c <=? hi)%Z.
Definition lit (s : string) : regex :=
  fold_right (fun c r => RCat (chr c) r) REps (String.list_ascii_of_string s).
Definition plus (r : regex) : regex := RCat r (RStar r).
Definition opt (r : regex) : regex := RAlt r REps.
Fixpoint rep (n : nat) (r : regex) : regex :=
  match n with O => REps | S n' => RCat r (rep n' r) end.

Definition digit (c : ascii) : bool := in_range 48 57 c.
(** RE2's [\s]: tab, newline, form feed, carriage return, space. *)
Definition blank (c : ascii) : bool :=
  (code c =? 9)%Z || (code c =? 10)%Z || (code c =? 12)%Z || (code c =? 13)%Z || (code c =? 32)%Z.

(** ** Correctness *)

Lemma cat_inv r1 r2 w :
  matches (RCat r1 r2) w <-> exists u v, w = u ++ v /\ matches r1 u /\ matches r2 v.
Proof.
  split; [inversion 1; subst; eauto|]. intros (u & v & -> & ? & ?). by constructor.
Qed.

Lemma alt_inv r1 r2 w : matches (RAlt r1 r2) w <-> matches r1 w \/ matches r2 w.
Proof. split; [inversion 1; subst; auto|]. intros [?|?]; [by apply M_AltL|by apply M_AltR]. Qed.

Lemma eps_inv w : matches REps w <-> w = [].
Proof. split; [by inversion 1|]. intros ->. constructor. Qed.

Lemma none_inv w : ~ matches RNone w.
Proof. inversion 1. Qed.

Lemma char_inv f w : matches (RChar f) w <-> exists c, w = [c] /\ f c = true.
Proof. split; [inversion 1; subst; eauto|]. intros (c & -> & ?). by constructor. Qed.

Lemma matches_nil r : matches r [] <-> nullable r = true.
Proof.
  induction r as [| |f|r1 IH1 r2 IH2|r1 IH1 r2 IH2|r IH]; simpl.
  - split; [by intros ?%none_inv|done].
  - split; [done|constructor].
  - rewrite char_inv. split; [by intros (? & ? & _)|done].
  - rewrite andb_true_iff, <- IH1, <- IH2, cat_inv. split.
    + intros (u & v & E & Hu & Hv). symmetry in E. apply app_eq_nil in E as [-> ->]. done.
    + intros [? ?]. by exists [], [].
  - by rewrite orb_true_iff, <- IH1, <- IH2, alt_inv.
  - split; [done|constructor].
Qed.

Lemma matches_cat r1 r2 w : matches (cat r1 r2) w <-> matches (RCat r1 r2) w.
Proof.
  destruct r1; simpl; try done; rewrite cat_inv.
  - split; [by intros ?%none_inv|]. by intros (u & v & _ & ?%none_inv & _).
  - split; [intros ?; exists [], w; by split_and!; [|constructor|]|]. by intros (u & v & -> & ->%eps_inv & ?).
Qed.

Lemma matches_alt r1 r2 w : matches (alt r1 r2) w <-> matches r1 w \/ matches r2 w.
Proof.
  pose proof (none_inv w) as Hn. destruct r1; simpl; [tauto|..];
    (destruct r2; simpl; rewrite ?alt_inv; tauto).
Qed.

(** A non-empty word of a star starts with a non-empty word of its body. *)
Lemma star_cons r c w :
  matches (RStar r) (c :: w) ->
  exists u v, w = u ++ v /\ matches r (c :: u) /\ matches (RStar r) v.
Proof.
  remember (RStar r) as s eqn:Hs. remember (c :: w) as l eqn:Hl. intros H.
  revert Hs Hl. induction H as [| | | | | |r' u v Hu IHu Hv IHv]; intros Hs Hl; try done.
  injection Hs as ->. destruct u as [|d u]; simpl in Hl; [by apply IHv|].
  injection Hl as -> <-. by exists u, v.
Qed.

Lemma deriv_correct c r : forall w, matches (deriv c r) w <-> matches r (c :: w).
Proof.
  induction r as [| |f|r1 IH1 r2 IH2|r1 IH1 r2 IH2|r IH]; intros w; simpl.
  - split; by intros ?%none_inv.
  - rewrite eps_inv. split; [by intros ?%none_inv|done].
  - rewrite char_inv. destruct (f c) eqn:Hf.
    + rewrite eps_inv. split; [intros ->; by exists c|]. by intros (? & [= <- ->] & _).
    + split; [by intros ?%none_inv|]. intros (? & [= <- ->] & ?). congruence.
  - assert (Hc : matches (RCat (deriv c r1) r2) w <->
      exists u v, w = u ++ v /\ matches r1 (c :: u) /\ matches r2 v).
    { rewrite cat_inv. split; intros (u & v & -> & Hu & Hv); exists u, v;
        (split; [done|]); split; try done; by apply IH1. }
    assert (Hr : matches (RCat r1 r2) (c :: w) <->
      (exists u v, w = u ++ v /\ matches r1 (c :: u) /\ matches r2 v) \/
      (nullable r1 = true /\ matches r2 (c :: w))).
    { rewrite cat_inv. split.
      - intros (u & v & E & Hu & Hv). destruct u as [|d u]; simpl in *.
        + right. subst. split; [by apply matches_nil|done].
        + injection E as -> ->. left. by exists u, v.
      - intros [(u & v & -> & Hu & Hv)|[Hn Hw]].
        + by exists (c :: u), v.
        + exists [], (c :: w). split; [done|]. by split; [apply matches_nil|]. }
    destruct (nullable r1) eqn:Hn.
    + rewrite matches_alt, matches_cat, Hc, Hr, IH2. intuition.
    + rewrite matches_cat, Hc, Hr. intuition discriminate.
  - by rewrite matches_alt, IH1, IH2, alt_inv.
  - rewrite matches_cat. split.
    + intros (u & v & -> & Hu & Hv)%cat_inv.
      apply (M_StarApp r (c :: u) v); [by apply IH|done].
    + intros (u & v & -> & Hu & Hv)%star_cons. constructor; [by apply IH|done].
Qed.

Theorem match_full_correct r l : match_full r l = true <-> matches r l.
Proof.
  revert r. induction l as [|c l IH]; intros r; simpl.
  - by rewrite matches_nil.
  - by rewrite IH, deriv_correct.
Qed.

Theorem match_prefix_correct r l :
  match_prefix r l = true <-> exists u v, l = u ++ v /\ matches r u.
Proof.
  revert r. induction l as [|c l IH]; intros r; simpl; rewrite orb_true_iff, <- matches_nil.
  - split.
    + intros [?|?]; [by exists [], []|done].
    + intros (u & v & E & Hu). destruct u; [by left|done].
  - rewrite IH. split.
    + intros [?|(u & v & -> & Hu)]; [by exists [], (c :: l)|].
      exists (c :: u), v. split; [done|]. by apply deriv_correct.
    + intros (u & v & E & Hu). destruct u as [|d u]; simpl in *; [by left|].
      injection E as <- ->. right. exists u, v. split; [done|]. by apply deriv_correct.
Qed.
