(* ===== verification/Types.v ===== *)
(** * Types: the data the watcher reads from GitHub (pkg/githubclient.go) *)
From S2P Require Import Prelude.
Local Open Scope Z_scope.

Record PullRequest : Type := mkPullRequest {
  GlobalID : Z;
  Number : Z;
  Owner : string;
  Repo : string;
  Title : string;
  HTMLURL : string;
  p_HeadSHA : string;
  AuthorLogin : string;
  IsDraft : bool;
  UpdatedAt : DateTime;
  Labels : list string }.

(** [pr.Labels = append(pr.Labels, label)] on the callee's own copy. *)
Definition append_label (pr : PullRequest) (label : string) : PullRequest :=
  mkPullRequest (GlobalID pr) (Number pr) (Owner pr) (Repo pr) (Title pr) (HTMLURL pr)
    (p_HeadSHA pr) (AuthorLogin pr) (IsDraft pr) (UpdatedAt pr) (Labels pr ++ [label]).

Record SearchResult : Type := mkSearchResult {
  PullRequests : list PullRequest;
  HasNextPage : bool;
  NextPage : Z;
  RateRemaining : Z;
  RateResetAt : DateTime }.

Definition MergeState : Type := string.
Definition MergeStateBehind : MergeState := "behind".
Definition MergeStateDirty : MergeState := "dirty".

Record PRDetails : Type := mkPRDetails {
  HeadSHA : string;
  CloneURL : string;
  BaseRef : string;
  HeadRef : string;
  HeadRepoFullName : string;
  BaseRepoFullName : string;
  d_AuthorLogin : string;
  d_Title : string;
  d_IsDraft : bool;
  d_UpdatedAt : DateTime;
  d_Labels : list string;
  Additions : Z;
  ChangedFiles : Z;
  MergeableState : MergeState }.

Record Review : Type := mkReview { r_AuthorLogin : string; CommitID : string }.

Record PRFile : Type := mkPRFile { Filename : string; Patch : string; f_Additions : Z }.

Inductive CommitState : Type := CommitStateSuccess | CommitStateFailure.

(** What the code reads of the repository's [.maintainer.yaml] (a library
    type): the two opt-in flags. *)
Record MaintainerConfig : Type := mkMaintainerConfig {
  AutoMerge_Trivial : bool;
  PrReviewer_AutoApprove : bool }.

(** A PR on the unreviewed gauge (pkg/metrics.go). *)
Record UnreviewedPR : Type := mkUnreviewedPR {
  u_Repo : string;
  u_Number : Z;
  u_RetriesExhausted : bool }.

(** The payloads of the two in-pod commands (pkg/command). *)
Record TriggerPRReviewCommand : Type := mkTriggerPRReviewCommand {
  tc_URL : string;
  Force : bool;
  Webhook : bool }.

Record SetDoNotMergeStatusCommand : Type := mkSetDoNotMergeStatusCommand {
  sc_URL : string;
  sc_HeadSHA : string;
  sc_Labels : list string }.
