(* ===== verification/GitHubApi.v ===== *)
(** * GitHubApi: what the client asks of go-github, and what it gets back

    The objects are the library's, with the fields the client reads; a Go
    pointer is an option, and the library's getters answer the zero value on
    a nil pointer. A call returns its value with a response, or an error with
    the response when there was one. *)
From S2P Require Import Prelude Types.
Local Open Scope Z_scope.

(** ** Objects *)
Record gh_label : Type := mkGhLabel { l_Name : option string }.
Record gh_user : Type := mkGhUser { u_Login : option string }.
Record gh_repo : Type := mkGhRepo { rp_CloneURL : option string; rp_FullName : option string }.
Record gh_branch : Type := mkGhBranch {
  b_SHA : option string;
  b_Ref : option string;
  b_Repo : option gh_repo }.

Record gh_issue : Type := mkGhIssue {
  is_ID : option Z;
  is_Number : option Z;
  is_RepositoryURL : option string;
  is_Title : option string;
  is_HTMLURL : option string;
  is_User : option gh_user;
  is_Draft : option bool;
  is_UpdatedAt : option DateTime;
  is_Labels : list (option gh_label) }.

Record gh_pull : Type := mkGhPull {
  gp_NodeID : option string;
  gp_Head : option gh_branch;
  gp_Base : option gh_branch;
  gp_User : option gh_user;
  gp_Title : option string;
  gp_Draft : option bool;
  gp_UpdatedAt : option DateTime;
  gp_Labels : list (option gh_label);
  gp_Additions : option Z;
  gp_ChangedFiles : option Z;
  gp_MergeableState : option string }.

Record gh_file : Type := mkGhFile {
  gf_Filename : option string;
  gf_Patch : option string;
  gf_Additions : option Z }.
Record gh_review : Type := mkGhReview { gr_User : option gh_user; gr_CommitID : option string }.

(** The library's getters. *)
Definition get_str (o : option string) : string := default "" o.
Definition get_int (o : option Z) : Z := default 0 o.
Definition get_bool (o : option bool) : bool := default false o.
Definition get_time (o : option DateTime) : DateTime := default dt_zero o.
Definition GetLogin (u : option gh_user) : string := get_str (u ≫= u_Login).
Definition GetSHA (b : option gh_branch) : string := get_str (b ≫= b_SHA).
Definition GetRef (b : option gh_branch) : string := get_str (b ≫= b_Ref).
Definition GetCloneURL (b : option gh_branch) : string := get_str ((b ≫= b_Repo) ≫= rp_CloneURL).
Definition GetFullName (b : option gh_branch) : string := get_str ((b ≫= b_Repo) ≫= rp_FullName).
Definition GetName (l : option gh_label) : string := get_str (l ≫= l_Name).

(** ** Answers *)

Record api_response : Type := mkResponse {
  rs_StatusCode : Z;
  rs_NextPage : Z;
  rs_RateRemaining : Z;
  rs_RateReset : DateTime }.

(** The library's errors: an [*ErrorResponse] with the status of its
    response, if that is there; everything else (rate limits, the accepted
    status 202, the network) is another type. *)
Inductive api_error : Type :=
| ErrorResponse (status : option Z)
| OtherError (msg : string).

Inductive api_result (A : Type) : Type :=
| ApiOk (value : A) (resp : api_response)
| ApiErr (resp : option api_response) (e : api_error).
Arguments ApiOk {A} value resp.
Arguments ApiErr {A} resp e.

(** ** Calls *)
Inductive api : Type -> Type :=
| SearchIssues (query : string) (page perPage : Z) : api (api_result (list gh_issue))
| PullGet (owner repo : string) (number : Z) : api (api_result gh_pull)
(* the type and message of each entry of the body's errors array *)
| GraphQL (query id : string) : api (api_result (list (string * string)))
| PullUpdateBranch (owner repo : string) (number : Z) : api (api_result unit)
| CreateComment (owner repo : string) (number : Z) (body : string) : api (api_result unit)
| PullEdit (owner repo : string) (number : Z) (state : string) : api (api_result unit)
(* the content as [GetContent] decodes it; [None]: its error *)
| GetContents (owner repo path : string) : api (api_result (option string))
| PullListFiles (owner repo : string) (number page perPage : Z) : api (api_result (list gh_file))
| PullListReviews (owner repo : string) (number page perPage : Z) : api (api_result (list gh_review))
| AddLabelsToIssue (owner repo : string) (number : Z) (labels : list string) : api (api_result unit)
| CreateStatus (owner repo sha state context : string) : api (api_result unit)
| RateLimitGet : api (api_result Z).
