(* ===== verification/Trivial.v ===== *)
(** * Trivial: the mechanical triviality classifier (pkg/trivial.go) *)
From S2P Require Import Prelude GoStrings Regex Types.
From Stdlib Require Import Ascii.

(** ** Patterns *)

Definition sign (c : ascii) : bool := Ascii.eqb c "+" || Ascii.eqb c "-".
Definition nonblank (c : ascii) : bool := negb (blank c).
(** [[a-zA-Z0-9_.-]] *)
Definition path_char (c : ascii) : bool :=
  in_range 97 122 c || in_range 65 90 c || digit c ||
  Ascii.eqb c "_" || Ascii.eqb c "." || Ascii.eqb c "-".
(** [[A-Za-z0-9+/]] *)
Definition base64_char (c : ascii) : bool :=
  in_range 97 122 c || in_range 65 90 c || digit c || Ascii.eqb c "+" || Ascii.eqb c "/".
Definition hex_char (c : ascii) : bool := digit c || in_range 97 102 c.
Definition quote : ascii := "034"%char.
Definition not_quote (c : ascii) : bool := negb (Ascii.eqb c quote).

Fixpoint cats (l : list regex) : regex :=
  match l with [] => REps | [r] => r | r :: l' => RCat r (cats l') end.

Definition digits : regex := plus (RChar digit).
Definition blanks : regex := RStar (RChar blank).
(** [[0-9]+\.[0-9]+(\.[0-9]+)?] *)
Definition dotted_version : regex :=
  cats [digits; chr "."; digits; opt (cats [chr "."; digits])].

Definition goModMechanical : regex :=
  cats [RChar sign; blanks;
        RAlt (cats [lit "go"; plus (RChar blank); dotted_version])
             (cats [plus (RChar path_char); RStar (cats [chr "/"; plus (RChar path_char)]);
                    plus (RChar blank); chr "v"; dotted_version])].

Definition dockerfileMechanical : regex :=
  cats [RChar sign; blanks;
        RAlt (cats [lit "FROM golang:"; dotted_version])
             (cats [lit "ARG GO_VERSION="; dotted_version])].

Definition workflowMechanical : regex :=
  cats [RChar sign; blanks; lit "go-version:"; blanks; dotted_version].

Definition goSumLine : regex :=
  cats [RChar sign; plus (RChar nonblank); lit " v"; plus (RChar nonblank); lit " h1:";
        plus (RChar base64_char); opt (chr "="); opt (chr "=")].

Definition caskVersionLine : regex :=
  cats [RChar sign; lit "  version "; chr quote; RStar (RChar not_quote); chr quote].

Definition caskSHA256Line : regex :=
  cats [RChar sign; lit "  sha256 "; chr quote; rep 64 (RChar hex_char); chr quote].

(** ** Classification *)

(** [patchAll]: file headers and hunk headers are skipped, every other line
    that starts with a sign must match. *)
Fixpoint patch_lines (re : regex) (lines : list string) : bool :=
  match lines with
  | [] => true
  | line :: rest =>
      if HasPrefix line "+++" || HasPrefix line "---" || HasPrefix line "@@"
      then patch_lines re rest
      else if HasPrefix line "+" || HasPrefix line "-"
      then if negb (MatchPrefix re line) then false else patch_lines re rest
      else patch_lines re rest
  end.

Definition patchAll (patch : string) (re : regex) : bool :=
  if patch =?s "" then false else patch_lines re (Split patch newline).

Fixpoint append_lines (lines : list string) : bool :=
  match lines with
  | [] => true
  | line :: rest =>
      if HasPrefix line "---" || HasPrefix line "+++" || HasPrefix line "@@"
      then append_lines rest
      else if HasPrefix line "-" then false else append_lines rest
  end.

Definition appendOnly (patch : string) : bool :=
  if patch =?s "" then false else append_lines (Split patch newline).

(** [moduleKey] and [moduleLine] *)
Definition moduleKey : Type := (string * bool)%type.
Definition moduleLine : Type := (string * string * bool)%type.

(** The four maps of [goSumMechanical]; counters are Go [int]s. *)
Record sum_state : Type := mkSumState {
  removed : gmap moduleKey Z;
  added : gmap moduleKey Z;
  removedExact : gset moduleLine;
  addedExact : gset moduleLine }.

Definition zero_sum_state : sum_state := mkSumState ∅ ∅ ∅ ∅.

(** [m[key]++] *)
Definition incr `{Countable K} (k : K) (m : gmap K Z) : gmap K Z :=
  <[k := wrap64 (default 0%Z (m !! k) + 1)]> m.

(** The loop; [None] would be the index-out-of-range panic of [fields[1]]. *)
Fixpoint sum_lines (lines : list string) (st : sum_state) : option (bool * sum_state) :=
  match lines with
  | [] => Some (true, st)
  | line :: rest =>
      if (line =?s "") || HasPrefix line "---" || HasPrefix line "+++" || HasPrefix line "@@"
      then sum_lines rest st
      else if negb (HasPrefix line "+") && negb (HasPrefix line "-") then sum_lines rest st
      else if negb (MatchFull goSumLine line) then Some (false, st)
      else
        match Fields (drop_string 1 line) with
        | f0 :: f1 :: _ =>
            let goMod := HasSuffix f1 "/go.mod" in
            let key := (f0, goMod) in
            let exact := (f0, TrimSuffix f1 "/go.mod", goMod) in
            let st :=
              if HasPrefix line "-"
              then mkSumState (incr key (removed st)) (added st)
                     ({[exact]} ∪ removedExact st) (addedExact st)
              else mkSumState (removed st) (incr key (added st))
                     (removedExact st) ({[exact]} ∪ addedExact st) in
            sum_lines rest st
        | _ => None
        end
  end.

Definition goSumMechanical (patch : string) : option bool :=
  if patch =?s "" then Some false
  else
    match sum_lines (Split patch newline) zero_sum_state with
    | None => None
    | Some (false, _) => Some false
    | Some (true, st) =>
        if existsb (fun e => bool_decide (e ∈ addedExact st)) (elements (removedExact st))
        then Some false
        else if existsb (fun kc => default 0 (added st !! fst kc) <? snd kc)%Z
                  (map_to_list (removed st))
        then Some false
        else Some true
    end.

(** The four counters of [caskMechanical]. *)
Record cask_state : Type := mkCask {
  removedVersion : Z; addedVersion : Z; removedSHA256 : Z; addedSHA256 : Z }.

Fixpoint cask_lines (lines : list string) (st : cask_state) : option cask_state :=
  match lines with
  | [] => Some st
  | line :: rest =>
      if (line =?s "") || HasPrefix line "---" || HasPrefix line "+++" || HasPrefix line "@@"
      then cask_lines rest st
      else if negb (HasPrefix line "+") && negb (HasPrefix line "-") then cask_lines rest st
      else if MatchFull caskVersionLine line then
        if HasPrefix line "-"
        then cask_lines rest (mkCask (wrap64 (removedVersion st + 1)) (addedVersion st)
                                (removedSHA256 st) (addedSHA256 st))
        else cask_lines rest (mkCask (removedVersion st) (wrap64 (addedVersion st + 1))
                                (removedSHA256 st) (addedSHA256 st))
      else if MatchFull caskSHA256Line line then
        if HasPrefix line "-"
        then cask_lines rest (mkCask (removedVersion st) (addedVersion st)
                                (wrap64 (removedSHA256 st + 1)) (addedSHA256 st))
        else cask_lines rest (mkCask (removedVersion st) (addedVersion st)
                                (removedSHA256 st) (wrap64 (addedSHA256 st + 1)))
      else None
  end.

Definition caskMechanical (patch : string) : bool :=
  if patch =?s "" then false
  else
    match cask_lines (Split patch newline) (mkCask 0 0 0 0) with
    | None => false
    | Some st =>
        (removedVersion st =? 1)%Z && (addedVersion st =? 1)%Z &&
        (removedSHA256 st =? 1)%Z && (addedSHA256 st =? 1)%Z
    end.

Definition isMechanicalFile (f : PRFile) : option bool :=
  if Filename f =?s "go.mod" then Some (patchAll (Patch f) goModMechanical)
  else if Filename f =?s "go.sum" then goSumMechanical (Patch f)
  else if Filename f =?s "Dockerfile" then Some (patchAll (Patch f) dockerfileMechanical)
  else if Filename f =?s "CHANGELOG.md" then Some (appendOnly (Patch f))
  else if HasPrefix (Filename f) ".github/workflows/" && HasSuffix (Filename f) ".yml"
  then Some (patchAll (Patch f) workflowMechanical)
  else if HasPrefix (Filename f) "Casks/" && HasSuffix (Filename f) ".rb"
  then Some (caskMechanical (Patch f))
  else Some false.

Fixpoint all_mechanical (files : list PRFile) : option bool :=
  match files with
  | [] => Some true
  | f :: rest =>
      match isMechanicalFile f with
      | None => None
      | Some false => Some false
      | Some true => all_mechanical rest
      end
  end.

(** [None] is a run-time panic; [ClassifyTrivial_total] shows there is none. *)
Definition ClassifyTrivial_panics (files : list PRFile) : option bool :=
  match files with [] => Some false | _ => all_mechanical files end.

Definition ClassifyTrivial (files : list PRFile) : bool :=
  default false (ClassifyTrivial_panics files).
