(* ===== verification/TrivialProofs.v ===== *)
(** * TrivialProofs: the classifier decides a declarative notion of mechanical
    change, and never panics *)
From S2P Require Import Prelude GoStrings Regex Types Trivial.
From Stdlib Require Import Ascii.
Local Open Scope Z_scope.

(** ** White space and fields *)

Lemma strip_prefix_spec p l r : strip_prefix p l = Some r <-> l = p ++ r.
Proof.
  revert l. induction p as [|a p IH]; intros l; simpl; [split; congruence|].
  destruct l as [|b l]; [done|]. destruct (Ascii.eqb_spec a b) as [->|Hne].
  - rewrite IH. split; congruence.
  - split; congruence.
Qed.

Lemma strip_any_spec ps l r : strip_any ps l = Some r -> exists p, p ∈ ps /\ l = p ++ r.
Proof.
  induction ps as [|p ps IH]; simpl; [done|].
  destruct (strip_prefix p l) as [r'|] eqn:E.
  - intros [= <-]. exists p. split; [by left|]. by apply strip_prefix_spec.
  - intros H. destruct (IH H) as (p' & ? & ?). exists p'. split; [by right|done].
Qed.

(** A white-space encoding is not empty, contains a space only when it is the
    space, and never contains a letter. *)
Definition encoding_ok (p : list ascii) : bool :=
  match p with [] => false | _ => true end &&
  (if existsb (Ascii.eqb " ") p then bool_decide (p = [" "%char]) else true) &&
  forallb (fun c => negb (in_range 97 122 c)) p.

Definition letter (c : ascii) : Prop := in_range 97 122 c = true.

Lemma encodings_spec p :
  p ∈ space_encodings ->
  p <> [] /\ (" "%char ∈ p -> p = [" "%char]) /\ (forall c, letter c -> c ∉ p).
Proof.
  assert (forallb encoding_ok space_encodings = true) as H by (vm_compute; reflexivity).
  rewrite forallb_true_forall, Forall_forall in H. intros Hp. specialize (H p Hp).
  unfold encoding_ok in H. apply andb_true_iff in H as [H Hl].
  apply andb_true_iff in H as [Hn Hs]. split; [by destruct p|]. split.
  - intros Hin. replace (existsb (Ascii.eqb " ") p) with true in Hs.
    + by apply bool_decide_eq_true in Hs.
    + symmetry. apply existsb_exists. exists " "%char. by rewrite <- list_elem_of_In.
  - intros c Hc Hin. rewrite forallb_true_forall, Forall_forall in Hl.
    specialize (Hl c Hin). unfold letter in Hc. by rewrite Hc in Hl.
Qed.

Lemma strip_space_letter l r c : letter c -> strip_space l = Some r -> c ∈ l -> c ∈ r.
Proof.
  intros Hc (p & Hp & ->)%strip_any_spec [Hin|]%elem_of_app; [|done].
  by destruct (encodings_spec p Hp) as (_ & _ & Hl), (Hl c Hc).
Qed.

Lemma strip_space_shorter l r : strip_space l = Some r -> (length r < length l)%nat.
Proof.
  intros (p & Hp & ->)%strip_any_spec. destruct (encodings_spec p Hp) as (Hn & _).
  rewrite length_app. destruct p; [done|]. simpl. lia.
Qed.

(** A run of white space does not reach past a space that follows it, and
    swallows no letter. *)
Lemma strip_space_before p q r :
  p <> [] -> strip_space (p ++ " "%char :: q) = Some r ->
  exists p', r = p' ++ " "%char :: q /\ forall c, letter c -> c ∈ p -> c ∈ p'.
Proof.
  intros Hp H. destruct (strip_any_spec _ _ _ H) as (e & He & E).
  destruct (encodings_spec e He) as (_ & Hs & Hl).
  assert (exists p', p = e ++ p' /\ r = p' ++ " "%char :: q) as (p' & -> & ->).
  { apply app_eq_app in E as (k & [[-> E]|[-> E]]).
    - by exists k.
    - destruct k as [|c k]; simpl in E.
      + subst r. exists []. by rewrite !app_nil_r.
      + injection E as <- E.
        assert (p ++ " "%char :: k = [" "%char]) as Hk
          by (apply Hs, elem_of_app; right; by left).
        destruct p as [|x p]; [done|]. by destruct p. }
  exists p'. split; [done|]. intros c Hc [Hin|]%elem_of_app; [|done]. by destruct (Hl c Hc).
Qed.

Lemma fields_nonempty fuel word l c :
  (length l <= fuel)%nat -> word <> [] \/ (letter c /\ c ∈ l) ->
  fields_loop fuel word l <> [].
Proof.
  revert word l. induction fuel as [|fuel IH]; intros word l Hf Hw; simpl.
  - destruct l; [|simpl in Hf; lia]. destruct Hw as [Hw|[_ Hw]]; [|by apply not_elem_of_nil in Hw].
    by destruct word.
  - destruct l as [|a l].
    { destruct Hw as [Hw|[_ Hw]]; [|by apply not_elem_of_nil in Hw]. by destruct word. }
    destruct (strip_space (a :: l)) as [r|] eqn:Es.
    + destruct Hw as [Hw|[Hc Hw]]; [by destruct word|].
      pose proof (strip_space_shorter _ _ Es). simpl in *.
      assert (fields_loop fuel [] r <> []) as Hr.
      { apply IH; [lia|]. right. split; [done|]. by eapply strip_space_letter. }
      by destruct word.
    + apply IH; [simpl in Hf; lia|]. by left.
Qed.

(** Letters on both sides of a space: at least two fields. *)
Lemma fields_two fuel : forall word p q c d,
  (length (p ++ " "%char :: q) <= fuel)%nat -> word <> [] \/ (letter c /\ c ∈ p) ->
  letter d -> d ∈ q -> (2 <= length (fields_loop fuel word (p ++ " "%char :: q)))%nat.
Proof.
  induction fuel as [|fuel IH]; intros word p q c d Hf Hw Hd Hq.
  { rewrite length_app in Hf. simpl in Hf. lia. }
  destruct p as [|a p].
  - destruct Hw as [Hw|[_ Hw]]; [|by apply not_elem_of_nil in Hw].
    simpl. change (strip_space (" "%char :: q)) with (Some q). simpl in Hf.
    assert (fields_loop fuel [] q <> []) as Hn by (eapply (fields_nonempty _ _ _ d); [lia|by right]).
    destruct word; [done|]. rewrite length_app. simpl.
    destruct (fields_loop fuel [] q); [done|simpl; lia].
  - cbn [fields_loop app]. destruct (strip_space (a :: p ++ " "%char :: q)) as [r|] eqn:Es.
    + destruct (strip_space_before (a :: p) q r) as (p' & -> & Hp'); [done|exact Es|].
      pose proof (strip_space_shorter _ _ Es) as Hlen. simpl in Hf, Hlen.
      rewrite length_app. destruct Hw as [Hw|[Hc Hw]].
      * assert (fields_loop fuel [] (p' ++ " "%char :: q) <> []) as Hn.
        { eapply (fields_nonempty _ _ _ d); [lia|]. right. split; [done|].
          apply elem_of_app. right. by right. }
        destruct word; [done|]. simpl.
        destruct (fields_loop fuel [] (p' ++ " "%char :: q)); [done|simpl; lia].
      * enough (2 <= length (fields_loop fuel [] (p' ++ " "%char :: q)))%nat by lia.
        apply (IH [] p' q c d); [lia|right; by auto|done|done].
    + apply (IH (a :: word) p q c d); [simpl in Hf; lia|by left|done|done].
Qed.

(** ** Changed lines *)

Definition header (line : string) : bool :=
  HasPrefix line "+++" || HasPrefix line "---" || HasPrefix line "@@".
Definition is_removed (line : string) : bool := HasPrefix line "-".
Definition is_change (line : string) : bool :=
  negb (header line) && (HasPrefix line "+" || HasPrefix line "-").

(** The added and removed lines of a patch: its lines with a sign, headers
    aside. *)
Definition changed (lines : list string) : list string :=
  filter (fun l => is_change l = true) lines.
Definition changes (patch : string) : list string := changed (Split patch newline).

Lemma changed_cons line lines :
  changed (line :: lines) = if is_change line then line :: changed lines else changed lines.
Proof. unfold changed. rewrite filter_cons. by destruct (is_change line). Qed.

Lemma header_alt line :
  HasPrefix line "---" || HasPrefix line "+++" || HasPrefix line "@@" = header line.
Proof. unfold header. by destruct (HasPrefix line "---"), (HasPrefix line "+++"). Qed.

Lemma empty_not_change : is_change "" = false.
Proof. reflexivity. Qed.

(** The guard the go.sum and cask loops use to skip a line. *)
Lemma skip_spec line :
  (line =?s "") || HasPrefix line "---" || HasPrefix line "+++" || HasPrefix line "@@" = true \/
  negb (HasPrefix line "+") && negb (HasPrefix line "-") = true <-> is_change line = false.
Proof.
  rewrite <- !orb_assoc, (orb_assoc (HasPrefix line "---")), header_alt. unfold is_change.
  destruct (line =?s "") eqn:E; bool_props; [subst; split; [intros _; reflexivity|intros _; by left]|]. simpl.
  destruct (header line), (HasPrefix line "+"), (HasPrefix line "-"); simpl; intuition.
Qed.

Lemma patch_lines_spec re lines :
  patch_lines re lines = true <-> Forall (fun l => MatchPrefix re l = true) (changed lines).
Proof.
  induction lines as [|line lines IH]; simpl; [by split|].
  rewrite changed_cons. fold (header line). unfold is_change.
  destruct (header line); simpl; [done|].
  destruct (HasPrefix line "+" || HasPrefix line "-"); [|done].
  rewrite Forall_cons. destruct (MatchPrefix re line); simpl; [rewrite IH; tauto|].
  split; [done|by intros [? _]].
Qed.

Lemma append_lines_spec lines :
  append_lines lines = true <-> Forall (fun l => is_removed l = false) (changed lines).
Proof.
  induction lines as [|line lines IH]; simpl; [by split|].
  rewrite changed_cons, header_alt. unfold is_change.
  destruct (header line); simpl; [done|]. unfold is_removed in *.
  destruct (HasPrefix line "-") eqn:Em; destruct (HasPrefix line "+"); simpl; try done;
    rewrite Forall_cons, ?Em; rewrite ?IH; intuition discriminate.
Qed.

(** ** go.sum *)

Lemma lit_spec s w : matches (lit s) w <-> w = bytes_of s.
Proof.
  revert w. unfold lit. induction (bytes_of s) as [|c l IH]; intros w; simpl.
  - apply eps_inv.
  - rewrite cat_inv. split.
    + intros (u & v & -> & (x & -> & Hx)%char_inv & ->%IH).
      apply Ascii.eqb_eq in Hx. by subst.
    + intros ->. exists [c], l. split; [done|]. split; [|by apply IH].
      apply char_inv. exists c. by rewrite Ascii.eqb_refl.
Qed.

Lemma goSumLine_fields line :
  MatchFull goSumLine line = true ->
  exists f0 f1 fs, Fields (drop_string 1 line) = f0 :: f1 :: fs.
Proof.
  unfold MatchFull. rewrite match_full_correct. unfold goSumLine. cbn [cats].
  intros (u1 & v1 & E & (s & -> & _)%char_inv & H)%cat_inv.
  apply cat_inv in H as (u2 & v2 & -> & _ & H).
  apply cat_inv in H as (u3 & v3 & -> & ->%lit_spec & H).
  apply cat_inv in H as (u4 & v4 & -> & _ & H).
  apply cat_inv in H as (u5 & v5 & -> & ->%lit_spec & _).
  destruct line as [|c line]; [done|]. simpl in E. injection E as _ E. simpl drop_string.
  unfold Fields. rewrite E, <- length_list_of_string, E.
  assert (Hl : forall l, l = (u2 ++ " "%char :: "v"%char :: u4) ++
      " "%char :: "h"%char :: "1"%char :: ":"%char :: v5 ->
    (2 <= length (fields_loop (length l) [] l))%nat).
  { intros l ->. apply (fields_two _ _ _ _ "v"%char "h"%char); [done| |done|by left].
    right. split; [done|]. apply elem_of_app. right. right. by left. }
  specialize (Hl _ ltac:(rewrite <- app_assoc; reflexivity)). simpl app in Hl.
  destruct (fields_loop _ _ _) as [|f0 [|f1 fs]]; simpl in Hl; [lia..|].
  by exists f0, f1, fs.
Qed.

(** The module a hash line names. *)
Definition line_fields (line : string) : string * string :=
  match Fields (drop_string 1 line) with f0 :: f1 :: _ => (f0, f1) | _ => ("", "") end.
Definition line_key (line : string) : moduleKey :=
  (fst (line_fields line), HasSuffix (snd (line_fields line)) "/go.mod").
Definition line_exact (line : string) : moduleLine :=
  (fst (line_fields line), TrimSuffix (snd (line_fields line)) "/go.mod",
   HasSuffix (snd (line_fields line)) "/go.mod").

Definition removed_lines (lines : list string) : list string :=
  filter (fun l => is_removed l = true) (changed lines).
Definition added_lines (lines : list string) : list string :=
  filter (fun l => is_removed l = false) (changed lines).
Definition count (k : moduleKey) (lines : list string) : Z :=
  Z.of_nat (length (filter (fun l => line_key l = k) lines)).

Lemma removed_lines_cons line lines :
  removed_lines (line :: lines) =
  if is_change line then if is_removed line then line :: removed_lines lines else removed_lines lines
  else removed_lines lines.
Proof.
  unfold removed_lines. rewrite changed_cons. destruct (is_change line); [|done].
  rewrite filter_cons. by destruct (is_removed line).
Qed.

Lemma added_lines_cons line lines :
  added_lines (line :: lines) =
  if is_change line then if is_removed line then added_lines lines else line :: added_lines lines
  else added_lines lines.
Proof.
  unfold added_lines. rewrite changed_cons. destruct (is_change line); [|done].
  rewrite filter_cons. by destruct (is_removed line).
Qed.

Definition cnt (m : gmap moduleKey Z) (k : moduleKey) : Z := default 0 (m !! k).

Lemma cnt_incr k k' m b :
  (forall k, 0 <= cnt m k <= b) -> b < int_max ->
  cnt (incr k m) k' = cnt m k' + (if decide (k = k') then 1 else 0).
Proof.
  intros Hb Hmax. unfold cnt, incr. destruct (decide (k = k')) as [<-|Hne].
  - rewrite lookup_insert_eq. simpl. rewrite wrap64_id; [done|].
    specialize (Hb k). unfold cnt in Hb. unfold in_int64, int_min, int_max in *. lia.
  - rewrite lookup_insert_ne by done. lia.
Qed.

Lemma count_cons k line lines :
  count k (line :: lines) = count k lines + (if decide (line_key line = k) then 1 else 0).
Proof. unfold count. rewrite filter_cons. destruct (decide _); simpl length; lia. Qed.

Lemma count_nonneg k lines : 0 <= count k lines.
Proof. unfold count. lia. Qed.

(** What the loop has added to the four maps. *)
Record sum_result (lines : list string) (st st' : sum_state) : Prop := mkSumResult {
  sr_removed k : cnt (removed st') k = cnt (removed st) k + count k (removed_lines lines);
  sr_added k : cnt (added st') k = cnt (added st) k + count k (added_lines lines);
  sr_removedExact e : e ∈ removedExact st' <->
    e ∈ removedExact st \/ e ∈ map line_exact (removed_lines lines);
  sr_addedExact e : e ∈ addedExact st' <->
    e ∈ addedExact st \/ e ∈ map line_exact (added_lines lines) }.

Definition small_counts (b : Z) (st : sum_state) : Prop :=
  forall k, 0 <= cnt (removed st) k <= b /\ 0 <= cnt (added st) k <= b.

Lemma sum_lines_spec lines : forall b st,
  small_counts b st -> b + Z.of_nat (length lines) < int_max ->
  match sum_lines lines st with
  | None => False
  | Some (false, _) => ~ Forall (fun l => MatchFull goSumLine l = true) (changed lines)
  | Some (true, st') =>
      Forall (fun l => MatchFull goSumLine l = true) (changed lines) /\ sum_result lines st st'
  end.
Proof.
  induction lines as [|line lines IH]; intros b st Hb Hmax.
  { simpl. split; [done|]. split; intros; rewrite ?elem_of_nil; unfold count; simpl; try lia; tauto. }
  cbn [sum_lines]. rewrite changed_cons.
  assert (Hskip : is_change line = false ->
    match sum_lines lines st with
    | None => False
    | Some (false, _) => ~ Forall (fun l => MatchFull goSumLine l = true) (changed lines)
    | Some (true, st') =>
        Forall (fun l => MatchFull goSumLine l = true) (changed lines) /\
        sum_result (line :: lines) st st'
    end).
  { intros Hc. specialize (IH b st Hb ltac:(simpl in Hmax; lia)).
    destruct (sum_lines lines st) as [[[] st']|]; try done.
    destruct IH as [? [? ? ? ?]]. split; [done|].
    split; rewrite ?removed_lines_cons, ?added_lines_cons, Hc; done. }
  pose proof (skip_spec line) as Hs.
  destruct (_ || HasPrefix line "@@") eqn:E1.
  { rewrite (proj1 Hs) by by left. apply Hskip, Hs. by left. }
  destruct (_ && negb (HasPrefix line "-")) eqn:E2.
  { rewrite (proj1 Hs) by by right. apply Hskip, Hs. by right. }
  assert (is_change line = true) as Hc.
  { destruct (is_change line) eqn:Hc; [done|]. by destruct (proj2 Hs eq_refl). }
  rewrite Hc. destruct (MatchFull goSumLine line) eqn:Hm; cbn [negb].
  2: { rewrite Forall_cons. intros [? _]. congruence. }
  destruct (goSumLine_fields line Hm) as (f0 & f1 & fs & Hf).
  assert (Hlf : line_fields line = (f0, f1)) by (unfold line_fields; by rewrite Hf).
  rewrite Hf. set (st1 := if HasPrefix line "-" then _ else _).
  assert (Hb1 : small_counts (b + 1) st1).
  { intros k. destruct (Hb k). unfold st1.
    destruct (HasPrefix line "-"); simpl; split; try lia;
      rewrite (cnt_incr _ _ _ b); try (intros; apply Hb); try (simpl in Hmax; lia);
      destruct (decide _); lia. }
  specialize (IH (b + 1) st1 Hb1 ltac:(simpl in Hmax; lia)).
  destruct (sum_lines lines st1) as [[[] st']|]; [|by rewrite Forall_cons; intros [_ ?]|done].
  destruct IH as [IHf [IHr IHa IHre IHae]]. split; [by constructor|].
  assert (Hkey : line_key line = (f0, HasSuffix f1 "/go.mod")) by (unfold line_key; by rewrite Hlf).
  assert (Hex : line_exact line = (f0, TrimSuffix f1 "/go.mod", HasSuffix f1 "/go.mod"))
    by (unfold line_exact; by rewrite Hlf).
  unfold st1 in *. unfold is_removed in *.
  split; intros; rewrite ?removed_lines_cons, ?added_lines_cons, Hc; unfold is_removed;
    destruct (HasPrefix line "-") eqn:Er; simpl in *;
    rewrite ?IHr, ?IHa, ?IHre, ?IHae, ?count_cons, ?Hkey, ?Hex;
    try rewrite (cnt_incr _ _ _ b) by (try (intros; apply Hb); simpl in Hmax; lia);
    try lia; try done; rewrite ?elem_of_union, ?elem_of_singleton, ?elem_of_cons; try tauto.
Qed.

(** ** Casks *)

Definition is_version (line : string) : bool := MatchFull caskVersionLine line.
Definition is_sha256 (line : string) : bool :=
  negb (is_version line) && MatchFull caskSHA256Line line.
(** How many changed lines of a kind are removed ([true]) or added. *)
Definition nlines (kind : string -> bool) (rem : bool) (lines : list string) : Z :=
  Z.of_nat (length (filter (fun l => kind l && Bool.eqb (is_removed l) rem = true) (changed lines))).

Lemma nlines_cons kind rem line lines :
  nlines kind rem (line :: lines) =
  nlines kind rem lines + (if is_change line && (kind line && Bool.eqb (is_removed line) rem) then 1 else 0).
Proof.
  unfold nlines. rewrite changed_cons. destruct (is_change line); simpl; [|lia].
  rewrite filter_cons. destruct (kind line && _); simpl; lia.
Qed.

Definition cask_bounded (b : Z) (st : cask_state) : Prop :=
  0 <= removedVersion st <= b /\ 0 <= addedVersion st <= b /\
  0 <= removedSHA256 st <= b /\ 0 <= addedSHA256 st <= b.

Lemma cask_lines_spec lines : forall b st,
  cask_bounded b st -> b + Z.of_nat (length lines) < int_max ->
  match cask_lines lines st with
  | None => ~ Forall (fun l => is_version l || is_sha256 l = true) (changed lines)
  | Some st' =>
      Forall (fun l => is_version l || is_sha256 l = true) (changed lines) /\
      removedVersion st' = removedVersion st + nlines is_version true lines /\
      addedVersion st' = addedVersion st + nlines is_version false lines /\
      removedSHA256 st' = removedSHA256 st + nlines is_sha256 true lines /\
      addedSHA256 st' = addedSHA256 st + nlines is_sha256 false lines
  end.
Proof.
  induction lines as [|line lines IH]; intros b st Hb Hmax.
  { simpl. unfold nlines. simpl. split; [done|]. lia. }
  cbn [cask_lines]. rewrite changed_cons, !nlines_cons.
  assert (Hmax' : (b + 1) + Z.of_nat (length lines) < int_max) by (simpl length in Hmax; lia).
  assert (Hw : forall x, 0 <= x <= b -> wrap64 (x + 1) = x + 1).
  { intros x Hx. apply wrap64_id. unfold in_int64, int_min, int_max in *. lia. }
  assert (Hskip : is_change line = false -> match cask_lines lines st with
    | None => ~ Forall (fun l => is_version l || is_sha256 l = true) (changed lines)
    | Some st' =>
      Forall (fun l => is_version l || is_sha256 l = true) (changed lines) /\
      removedVersion st' = removedVersion st + nlines is_version true lines /\
      addedVersion st' = addedVersion st + nlines is_version false lines /\
      removedSHA256 st' = removedSHA256 st + nlines is_sha256 true lines /\
      addedSHA256 st' = addedSHA256 st + nlines is_sha256 false lines end).
  { intros _. apply (IH b); [done|lia]. }
  pose proof (skip_spec line) as Hs.
  destruct (_ || HasPrefix line "@@") eqn:E1.
  { rewrite (proj1 Hs) by by left. simpl. rewrite !Z.add_0_r. apply Hskip, Hs. by left. }
  destruct (_ && negb (HasPrefix line "-")) eqn:E2.
  { rewrite (proj1 Hs) by by right. simpl. rewrite !Z.add_0_r. apply Hskip, Hs. by right. }
  assert (is_change line = true) as Hc.
  { destruct (is_change line) eqn:Hc; [done|]. by destruct (proj2 Hs eq_refl). }
  rewrite Hc. cbn [andb]. clear Hskip Hs E1 E2.
  assert (Hsha : is_sha256 line = negb (is_version line) && MatchFull caskSHA256Line line) by done.
  fold (is_version line). fold (is_removed line).
  destruct Hb as (? & ? & ? & ?). unfold cask_bounded in IH.
  destruct (is_version line) eqn:Hv; [|destruct (MatchFull caskSHA256Line line) eqn:Hm].
  all: rewrite ?Hsha; cbn [negb andb].
  3: { rewrite Forall_cons, Hv, Hsha. by intros [? _]. }
  all: destruct (is_removed line) eqn:Hr.
  all: match goal with |- context [cask_lines ?ls ?s] =>
         specialize (IH (b + 1) s); simpl in IH |- *; rewrite ?Hw in * by done;
         specialize (IH ltac:(lia) Hmax') end.
  all: destruct (cask_lines _ _) as [st'|].
  all: try (rewrite Forall_cons; tauto).
  all: destruct IH as (Hall & -> & -> & -> & ->);
    (split; [constructor; [by rewrite Hsha, Hv|done]|lia]).
Qed.

(** ** Files *)

Lemma sum_lines_total lines st : sum_lines lines st <> None.
Proof.
  revert st. induction lines as [|line lines IH]; intros st; [done|]. cbn [sum_lines].
  destruct (_ || HasPrefix line "@@"); [done|].
  destruct (negb _ && _); [done|].
  destruct (MatchFull goSumLine line) eqn:Hm; cbn [negb]; [|done].
  destruct (goSumLine_fields line Hm) as (f0 & f1 & fs & ->). apply IH.
Qed.

Lemma Split_length s sep : (length (Split s sep) <= S (String.length s))%nat.
Proof.
  induction s as [|c s IH]; simpl; [lia|]. destruct (Ascii.eqb c sep); simpl; [lia|].
  destruct (Split s sep); simpl in *; lia.
Qed.

(** The patch fits in memory: a Go string is shorter than [int_max]. *)
Definition small (patch : string) : Prop := Z.of_nat (String.length patch) + 1 < int_max.

Lemma small_lines patch : small patch -> 0 + Z.of_nat (length (Split patch newline)) < int_max.
Proof. unfold small. pose proof (Split_length patch newline). lia. Qed.

(** Every changed go.sum line is a hash line, every removed (module, /go.mod)
    is paid for by an added one, and no (module, version, /go.mod) is on both
    sides. *)
Definition sum_bump (patch : string) : Prop :=
  Forall (fun l => matches goSumLine (bytes_of l)) (changes patch) /\
  (forall k, count k (removed_lines (Split patch newline)) <=
             count k (added_lines (Split patch newline))) /\
  (forall e, e ∈ map line_exact (removed_lines (Split patch newline)) ->
             e ∉ map line_exact (added_lines (Split patch newline))).

Lemma cnt_empty k : cnt ∅ k = 0.
Proof. unfold cnt. by rewrite lookup_empty. Qed.

Lemma small_zero : small_counts 0 zero_sum_state.
Proof. intros k. simpl. rewrite cnt_empty. lia. Qed.

Lemma goSumMechanical_spec patch :
  small patch ->
  goSumMechanical patch = Some (bool_decide (patch <> "")) /\ sum_bump patch \/
  goSumMechanical patch = Some false /\ (patch = "" \/ ~ sum_bump patch).
Proof.
  intros Hsm. unfold goSumMechanical, sum_bump, changes.
  destruct (patch =?s "") eqn:Ep; bool_props; [subst; right; auto|].
  pose proof (sum_lines_spec (Split patch newline) 0 zero_sum_state) as H.
  specialize (H small_zero (small_lines patch Hsm)).
  assert (Hall : Forall (fun l => MatchFull goSumLine l = true) (changed (Split patch newline)) <->
    Forall (fun l => matches goSumLine (bytes_of l)) (changed (Split patch newline))).
  { apply Forall_iff. intros l. unfold MatchFull. apply match_full_correct. }
  destruct (sum_lines _ _) as [[[] st]|]; [|right; split; [done|]; right; tauto|done].
  destruct H as [Hm [Hr Ha Hre Hae]]. simpl in *.
  assert (Hcr : forall k, cnt (removed st) k = count k (removed_lines (Split patch newline))).
  { intros k. by rewrite Hr, cnt_empty. }
  assert (Hca : forall k, cnt (added st) k = count k (added_lines (Split patch newline))).
  { intros k. by rewrite Ha, cnt_empty. }
  destruct (existsb _ (elements (removedExact st))) eqn:E1.
  { right. split; [done|]. right. intros (_ & _ & Hno).
    apply existsb_exists in E1 as (e & Hin & He%bool_decide_eq_true).
    apply list_elem_of_In, elem_of_elements, Hre in Hin as [?|Hin]; [set_solver|].
    apply Hae in He as [?|?]; [set_solver|]. by apply (Hno e). }
  destruct (existsb _ (map_to_list (removed st))) eqn:E2.
  { right. split; [done|]. right. intros (_ & Hle & _).
    apply existsb_exists in E2 as ([k c] & Hin & Hlt). apply Z.ltb_lt in Hlt.
    change (cnt (added st) k < c) in Hlt. apply list_elem_of_In, elem_of_map_to_list in Hin.
    specialize (Hle k).
    rewrite <- Hcr, <- Hca in Hle. unfold cnt at 1 in Hle. rewrite Hin in Hle. simpl in Hle. lia. }
  left. rewrite bool_decide_eq_true_2 by done. split; [done|].
  split; [by apply Hall|]. split.
  - intros k. rewrite <- Hcr, <- Hca. unfold cnt. destruct (removed st !! k) as [c|] eqn:Ek; simpl.
    + rewrite existsb_false_forall, Forall_forall in E2.
      specialize (E2 (k, c) (proj2 (elem_of_map_to_list _ _ _) Ek)). by apply Z.ltb_ge in E2.
    + pose proof (count_nonneg k (added_lines (Split patch newline))) as Hn.
      by rewrite <- Hca in Hn.
  - intros e Hin Hin2. rewrite existsb_false_forall, Forall_forall in E1.
    specialize (E1 e). rewrite elem_of_elements in E1.
    specialize (E1 ltac:(apply Hre; by right)). apply bool_decide_eq_false in E1.
    apply E1, Hae. by right.
Qed.

(** Exactly one changed line of each of the four kinds, and nothing else. *)
Definition cask_bump (patch : string) : Prop :=
  Forall (fun l => is_version l = true \/ is_sha256 l = true) (changes patch) /\
  nlines is_version true (Split patch newline) = 1 /\
  nlines is_version false (Split patch newline) = 1 /\
  nlines is_sha256 true (Split patch newline) = 1 /\
  nlines is_sha256 false (Split patch newline) = 1.

Lemma caskMechanical_spec patch :
  small patch -> caskMechanical patch = true <-> patch <> "" /\ cask_bump patch.
Proof.
  intros Hsm. unfold caskMechanical, cask_bump, changes.
  destruct (patch =?s "") eqn:Ep; bool_props; [subst; split; [done|by intros [? _]]|].
  pose proof (cask_lines_spec (Split patch newline) 0 (mkCask 0 0 0 0)) as H.
  specialize (H ltac:(unfold cask_bounded; simpl; lia) (small_lines patch Hsm)).
  assert (Hall : Forall (fun l => is_version l || is_sha256 l = true) (changed (Split patch newline)) <->
    Forall (fun l => is_version l = true \/ is_sha256 l = true) (changed (Split patch newline))).
  { apply Forall_iff. intros l. apply orb_true_iff. }
  rewrite <- Hall. destruct (cask_lines _ _) as [st|]; [|intuition done].
  destruct H as (? & -> & -> & -> & ->). simpl.
  rewrite !andb_true_iff, !Z.eqb_eq. tauto.
Qed.

(** What the allow-list accepts, one rule per file kind. *)
Inductive mechanical : PRFile -> Prop :=
| Mech_gomod f :
    Filename f = "go.mod" -> Patch f <> "" ->
    Forall (fun l => exists u v, bytes_of l = u ++ v /\ matches goModMechanical u)
      (changes (Patch f)) -> mechanical f
| Mech_gosum f :
    Filename f = "go.sum" -> Patch f <> "" -> sum_bump (Patch f) -> mechanical f
| Mech_dockerfile f :
    Filename f = "Dockerfile" -> Patch f <> "" ->
    Forall (fun l => exists u v, bytes_of l = u ++ v /\ matches dockerfileMechanical u)
      (changes (Patch f)) -> mechanical f
| Mech_changelog f :
    Filename f = "CHANGELOG.md" -> Patch f <> "" ->
    Forall (fun l => is_removed l = false) (changes (Patch f)) -> mechanical f
| Mech_workflow f x y :
    Filename f = ".github/workflows/" +:+ x -> Filename f = y +:+ ".yml" -> Patch f <> "" ->
    Forall (fun l => exists u v, bytes_of l = u ++ v /\ matches workflowMechanical u)
      (changes (Patch f)) -> mechanical f
| Mech_cask f x y :
    Filename f = "Casks/" +:+ x -> Filename f = y +:+ ".rb" -> Patch f <> "" ->
    cask_bump (Patch f) -> mechanical f.

Lemma patchAll_spec patch re :
  patchAll patch re = true <->
  patch <> "" /\ Forall (fun l => exists u v, bytes_of l = u ++ v /\ matches re u) (changes patch).
Proof.
  unfold patchAll, changes. destruct (patch =?s "") eqn:Ep; bool_props;
    [subst; split; [done|by intros [? _]]|].
  rewrite patch_lines_spec.
  assert (Forall (fun l => MatchPrefix re l = true) (changed (Split patch newline)) <->
    Forall (fun l => exists u v, bytes_of l = u ++ v /\ matches re u)
      (changed (Split patch newline))) as ->; [|tauto].
  apply Forall_iff. intros l. apply match_prefix_correct.
Qed.

Lemma appendOnly_spec patch :
  appendOnly patch = true <->
  patch <> "" /\ Forall (fun l => is_removed l = false) (changes patch).
Proof.
  unfold appendOnly, changes. destruct (patch =?s "") eqn:Ep; bool_props;
    [subst; split; [done|by intros [? _]]|].
  rewrite append_lines_spec. tauto.
Qed.

Lemma isMechanicalFile_total f : isMechanicalFile f <> None.
Proof.
  unfold isMechanicalFile, goSumMechanical. repeat case_match; try done.
  pose proof (sum_lines_total (Split (Patch f) newline) zero_sum_state). congruence.
Qed.

Lemma isMechanicalFile_spec f :
  small (Patch f) -> isMechanicalFile f = Some true <-> mechanical f.
Proof.
  intros Hsm. unfold isMechanicalFile. split.
  - destruct (Filename f =?s "go.mod") eqn:E1.
    { intros [= [? ?]%patchAll_spec]. bool_props. by apply Mech_gomod. }
    destruct (Filename f =?s "go.sum") eqn:E2.
    { intros H. bool_props. destruct (goSumMechanical_spec (Patch f) Hsm) as [[Hs ?]|[Hs _]];
        rewrite Hs in H; [|done]. injection H as H%bool_decide_eq_true. by apply Mech_gosum. }
    destruct (Filename f =?s "Dockerfile") eqn:E3.
    { intros [= [? ?]%patchAll_spec]. bool_props. by apply Mech_dockerfile. }
    destruct (Filename f =?s "CHANGELOG.md") eqn:E4.
    { intros [= [? ?]%appendOnly_spec]. bool_props. by apply Mech_changelog. }
    destruct (HasPrefix (Filename f) ".github/workflows/" && _) eqn:E5.
    { intros [= [? ?]%patchAll_spec].
      apply andb_true_iff in E5 as [[x Hx]%HasPrefix_spec [y Hy]%HasSuffix_spec].
      by eapply Mech_workflow. }
    destruct (HasPrefix (Filename f) "Casks/" && _) eqn:E6; [|done].
    intros [= [? ?]%caskMechanical_spec]; [|done].
    apply andb_true_iff in E6 as [[x Hx]%HasPrefix_spec [y Hy]%HasSuffix_spec].
    by eapply Mech_cask.
  - destruct 1 as [f Hn Hp H|f Hn Hp H|f Hn Hp H|f Hn Hp H|f x y Hn Hy Hp H|f x y Hn Hy Hp H].
    + rewrite Hn. simpl. f_equal. by apply patchAll_spec.
    + rewrite Hn. simpl. destruct (goSumMechanical_spec (Patch f) Hsm) as [[Hs ?]|[_ ?]]; [|by destruct H0].
      rewrite Hs. f_equal. by apply bool_decide_eq_true_2.
    + rewrite Hn. simpl. f_equal. by apply patchAll_spec.
    + rewrite Hn. simpl. f_equal. by apply appendOnly_spec.
    + assert (Hpre : HasPrefix (Filename f) ".github/workflows/" = true)
        by (apply HasPrefix_spec; eauto).
      assert (Hsuf : HasSuffix (Filename f) ".yml" = true) by (apply HasSuffix_spec; eauto).
      rewrite Hpre, Hsuf, Hn. simpl. f_equal. by apply patchAll_spec.
    + assert (Hpre : HasPrefix (Filename f) "Casks/" = true) by (apply HasPrefix_spec; eauto).
      assert (Hsuf : HasSuffix (Filename f) ".rb" = true) by (apply HasSuffix_spec; eauto).
      rewrite Hpre, Hsuf, Hn. simpl. f_equal. by apply caskMechanical_spec.
Qed.

Lemma all_mechanical_spec files :
  Forall (fun f => small (Patch f)) files ->
  all_mechanical files = Some true <-> Forall mechanical files.
Proof.
  induction 1 as [|f files Hf Hs IH]; simpl; [done|].
  rewrite Forall_cons, <- IH, <- (isMechanicalFile_spec f Hf).
  pose proof (isMechanicalFile_total f) as Ht.
  destruct (isMechanicalFile f) as [[]|]; [tauto|intuition congruence|done].
Qed.

(** ** Properties *)

(** The classifier never panics: on every file list, including the
    [fields[1]] access of the go.sum loop, it returns a verdict. *)
Theorem ClassifyTrivial_total files :
  ClassifyTrivial_panics files = Some (ClassifyTrivial files).
Proof.
  unfold ClassifyTrivial. enough (ClassifyTrivial_panics files <> None) as H.
  { by destruct (ClassifyTrivial_panics files). }
  assert (all_mechanical files <> None) as H; [|by destruct files].
  induction files as [|f files IH]; simpl; [done|].
  pose proof (isMechanicalFile_total f). by destruct (isMechanicalFile f) as [[]|].
Qed.

(** (C25) The classifier accepts exactly the non-empty change sets all of
    whose files are mechanical by the allow-list: patterns as languages,
    go.sum removals paid for by additions with no hash rewritten at an
    unchanged version, casks with one changed line of each of four kinds. *)
Theorem ClassifyTrivial_spec files :
  Forall (fun f => small (Patch f)) files ->
  ClassifyTrivial files = true <-> files <> [] /\ Forall mechanical files.
Proof.
  intros Hs. pose proof (ClassifyTrivial_total files) as Ht.
  rewrite <- (all_mechanical_spec files Hs). unfold ClassifyTrivial_panics in Ht.
  destruct files as [|f files]; [simpl; split; [done|by intros [? _]]|].
  rewrite Ht. split; [by intros ->|by intros [_ [= ->]]].
Qed.

(** ** Evidence on concrete patches *)

Definition demo_gomod : PRFile :=
  mkPRFile "go.mod" ("@@ -1 +1 @@" +:+ nl +:+ "-go 1.26.5" +:+ nl +:+ "+go 1.26.6") 1.
Definition demo_gosum : PRFile :=
  mkPRFile "go.sum" ("-github.com/a/b v1.0.0 h1:AAA=" +:+ nl +:+ "+github.com/a/b v1.0.1 h1:BBB=") 1.

Lemma ClassifyTrivial_spec_witness : Forall mechanical [demo_gomod; demo_gosum].
Proof.
  apply (ClassifyTrivial_spec [demo_gomod; demo_gosum]).
  - repeat constructor; unfold small, int_max; vm_compute; reflexivity.
  - vm_compute. reflexivity.
Defined.

(** A hash rewritten at an unchanged version is refused. *)
Example gosum_rewrite_refused :
  ClassifyTrivial [mkPRFile "go.sum"
    ("-github.com/a/b v1.0.0 h1:AAA=" +:+ nl +:+ "+github.com/a/b v1.0.0 h1:BBB=") 1] = false.
Proof. vm_compute. reflexivity. Qed.

(** The go.mod pattern is anchored at the start only: a [replace] directive
    after a version is accepted. *)
Example gomod_replace_accepted :
  ClassifyTrivial [mkPRFile "go.mod"
    "+	github.com/foo v1.2.3 => github.com/evil v9.9.9" 1] = true.
Proof. vm_compute. reflexivity. Qed.
