(* ===== verification/Titles.v ===== *)
(** * Titles: task identifiers and task titles (pkg/taskid.go, pkg/filename.go)

    The v5 UUID of the identifier is library code, a parameter. The caps are
    Go ints; [validateLengthCaps] (file Config) rejects non-positive ones at
    start-up, so the slices below never see a negative bound. *)
From S2P Require Import Prelude GoStrings.
From Stdlib Require Import Ascii.
Local Open Scope Z_scope.

(** [uuid.NewSHA1(space, data)] rendered with [String()]. *)
Class UUID : Type := { NewSHA1 : string -> string -> string }.

Section taskid.
Context `{UUID}.

Definition prWatcherNamespace : string := "7d4b3e5f-8a21-4c9d-b036-2e5f7a8c1d0e".

Definition task_key (owner repo : string) (number : Z) (sha : string) : string :=
  owner +:+ "/" +:+ repo +:+ "#" +:+ Itoa number +:+ "@" +:+ sha.

Definition DeriveTaskID (owner repo : string) (number : Z) (sha : string) : string :=
  NewSHA1 prWatcherNamespace (task_key owner repo number sha).

Definition DeriveTaskIDOverride (owner repo : string) (number : Z) (sha : string) : string :=
  NewSHA1 prWatcherNamespace (task_key owner repo number sha +:+ "#override").

Definition DeriveTaskIDForce (owner repo : string) (number : Z) (sha nonce : string) : string :=
  NewSHA1 prWatcherNamespace (task_key owner repo number sha +:+ "!" +:+ nonce).
End taskid.

(** ** Titles *)

Definition DefaultMaxTitleLen : Z := 200.
Definition DefaultMaxSlugLen : Z := 80.

(** [len(s)] and [s[:n]] for [0 <= n <= len(s)]. *)
Definition len (s : string) : Z := Z.of_nat (String.length s).
Definition slice_to (s : string) (n : Z) : string := take_string (Z.to_nat n) s.

Definition slug_rune (r : Z) : bool :=
  ((97 <=? r) && (r <=? 122)) || ((48 <=? r) && (r <=? 57)).

(** The loop of [slugifyTitle] over the runes of the lowered title. *)
Fixpoint slug_loop (prevHyphen : bool) (rs : list Z) : list ascii :=
  match rs with
  | [] => []
  | r :: rs' =>
      if slug_rune r then byte r :: slug_loop false rs'
      else if negb prevHyphen then dash :: slug_loop true rs'
      else slug_loop true rs'
  end.

Section titles.
Context `{UnicodeTables}.

Definition slugifyTitle (title : string) (maxSlug : Z) : string :=
  let lower := ToLower title in
  let result := Trim (of_bytes (slug_loop false (runes lower))) dash in
  if maxSlug <? len result then TrimRight (slice_to result maxSlug) dash else result.

Definition computeTaskTitle (kind provider owner repo : string) (number : Z)
    (sha title : string) (maxSlug maxTitle : Z) (taskSuffix : string) : string :=
  let shortSHA := if 8 <? len sha then slice_to sha 8 else sha in
  let base := "PR " +:+ kind +:+ " " +:+ provider +:+ " - " +:+ owner +:+ "-" +:+ repo +:+
              " - " +:+ Itoa number +:+ " - " +:+ shortSHA in
  let slug := slugifyTitle title maxSlug in
  let t := if slug =?s "" then base else base +:+ " - " +:+ slug in
  let suffixPart := if negb (taskSuffix =?s "") then " - " +:+ taskSuffix else "" in
  let t :=
    if maxTitle <? len t + len suffixPart then
      let budget := maxTitle - len suffixPart in
      let budget := if budget <? 0 then 0 else budget in
      if budget <? len t then slice_to t budget else t
    else t in
  t +:+ suffixPart.

Definition appendRetryToken (taskSuffix retryToken : string) : string :=
  if retryToken =?s "" then taskSuffix
  else if taskSuffix =?s "" then "retry-" +:+ retryToken
  else taskSuffix +:+ " - retry-" +:+ retryToken.

Definition computePRTitle (provider owner repo : string) (number : Z)
    (sha title : string) (maxSlug maxTitle : Z) (taskSuffix retryToken : string) : string :=
  computeTaskTitle "Review" provider owner repo number sha title maxSlug maxTitle
    (appendRetryToken taskSuffix retryToken).
End titles.

(** ** Facts about slugs *)

Definition slug_char (c : ascii) : bool := slug_rune (bcode c).

(** Only slug characters and single hyphens. *)
Fixpoint no_double (l : list ascii) : Prop :=
  match l with
  | a :: ((b :: _) as l') => ~ (a = dash /\ b = dash) /\ no_double l'
  | _ => True
  end.
Definition slug_ok (l : list ascii) : Prop :=
  Forall (fun c => slug_char c = true \/ c = dash) l /\ no_double l.

Lemma byte_slug r : slug_rune r = true -> slug_char (byte r) = true /\ byte r <> dash.
Proof.
  intros Hr. assert (0 <= r < 256) as Hb.
  { unfold slug_rune in Hr. apply orb_true_iff in Hr as [?|?]; bool_props; lia. }
  assert (bcode (byte r) = r) as E.
  { unfold bcode, byte. rewrite N_ascii_embedding by lia. lia. }
  unfold slug_char. rewrite E. split; [done|]. intros Hd.
  rewrite Hd in E. vm_compute in E. subst r. done.
Qed.

Lemma slug_loop_ok rs : forall prev,
  slug_ok (slug_loop prev rs) /\
  (prev = true -> match slug_loop prev rs with c :: _ => c <> dash | [] => True end).
Proof.
  induction rs as [|r rs IH]; intros prev; simpl; [by repeat split|].
  destruct (slug_rune r) eqn:Hr.
  - destruct (byte_slug r Hr) as [Hc Hd]. destruct (IH false) as [[Hf Hn] _].
    split; [|done]. split; [constructor; [by left|done]|].
    simpl. destruct (slug_loop false rs); [done|]. split; [by intros [? _]|done].
  - destruct (IH true) as [[Hf Hn] Hh]. specialize (Hh eq_refl).
    destruct prev; simpl; [by repeat split|]. split; [|done].
    split; [constructor; [by right|done]|].
    simpl. destruct (slug_loop true rs); [done|]. split; [by intros [_ ?]|done].
Qed.

Lemma no_double_app l k : no_double (l ++ k) -> no_double l /\ no_double k.
Proof.
  induction l as [|a l IH]; simpl; [done|]. intros H.
  destruct l as [|b l]; simpl in *.
  - destruct k; [done|]. tauto.
  - destruct H as [? H]. destruct (IH H) as [? ?]. tauto.
Qed.

Lemma slug_ok_app l k : slug_ok (l ++ k) -> slug_ok l /\ slug_ok k.
Proof.
  intros [[? ?]%Forall_app Hn%no_double_app]. unfold slug_ok. tauto.
Qed.

Lemma drop_while_suffix c l : exists k, l = k ++ drop_while c l.
Proof.
  induction l as [|x l [k IH]]; simpl; [by exists []|].
  destruct (Ascii.eqb x c); [|by exists []]. exists (x :: k). simpl. by rewrite <- IH.
Qed.

Lemma drop_while_head c l : match drop_while c l with x :: _ => x <> c | [] => True end.
Proof. induction l as [|x l IH]; simpl; [done|]. by destruct (Ascii.eqb_spec x c). Qed.

Lemma trim_right_prefix c l : exists k, l = trim_right_bytes c l ++ k.
Proof.
  unfold trim_right_bytes. destruct (drop_while_suffix c (rev l)) as [k Hk].
  exists (rev k). rewrite <- rev_app_distr, <- Hk. by rewrite rev_involutive.
Qed.

Lemma trim_right_last c l x k : trim_right_bytes c l = k ++ [x] -> x <> c.
Proof.
  unfold trim_right_bytes. intros H. apply (f_equal (@rev ascii)) in H.
  rewrite rev_involutive, rev_app_distr in H. simpl in H.
  pose proof (drop_while_head c (rev l)) as Hh. by rewrite H in Hh.
Qed.

Lemma bytes_take n s : bytes_of (take_string n s) = take n (bytes_of s).
Proof. revert s. induction n as [|n IH]; intros [|c s]; simpl; [done..|]. by rewrite IH. Qed.

Lemma bytes_of_of_bytes l : bytes_of (of_bytes l) = l.
Proof. apply String.list_ascii_of_string_of_list_ascii. Qed.

Lemma length_of_bytes l : String.length (of_bytes l) = length l.
Proof. by rewrite <- length_list_of_string, bytes_of_of_bytes. Qed.

Lemma last_cases {A} (l : list A) : l = [] \/ exists k x, l = k ++ [x].
Proof. destruct l as [|k x _] using rev_ind; [by left|right; eauto]. Qed.

Section title_facts.
Context `{UnicodeTables}.

(** The slug before truncation. *)
Definition full_slug (title : string) : list ascii :=
  trim_right_bytes dash (drop_while dash (slug_loop false (runes (ToLower title)))).

Lemma slugifyTitle_bytes title maxSlug :
  bytes_of (slugifyTitle title maxSlug) =
  if maxSlug <? Z.of_nat (length (full_slug title))
  then trim_right_bytes dash (take (Z.to_nat maxSlug) (full_slug title))
  else full_slug title.
Proof.
  unfold slugifyTitle, Trim, len. rewrite bytes_of_of_bytes, length_of_bytes.
  fold (full_slug title). destruct (_ <? _); [|apply bytes_of_of_bytes].
  unfold TrimRight, slice_to. by rewrite bytes_of_of_bytes, bytes_take, bytes_of_of_bytes.
Qed.

Lemma full_slug_ok title :
  slug_ok (full_slug title) /\
  match full_slug title with c :: _ => c <> dash | [] => True end /\
  (forall k x, full_slug title = k ++ [x] -> x <> dash).
Proof.
  unfold full_slug. set (l := slug_loop false _).
  destruct (slug_loop_ok (runes (ToLower title)) false) as [Hok _]. fold l in Hok.
  destruct (drop_while_suffix dash l) as [k Hk]. rewrite Hk in Hok.
  apply slug_ok_app in Hok as [_ Hok].
  destruct (trim_right_prefix dash (drop_while dash l)) as [k2 Hk2].
  pose proof (drop_while_head dash l) as Hh. rewrite Hk2 in Hok, Hh.
  apply slug_ok_app in Hok as [Hok _]. split; [done|]. split.
  - by destruct (trim_right_bytes dash (drop_while dash l)).
  - intros k3 x. apply trim_right_last.
Qed.

(** A slug is made of [a-z0-9] and single inner hyphens, and respects
    its cap, whatever the title and the Unicode tables are. *)
Theorem slugifyTitle_spec title maxSlug :
  0 <= maxSlug ->
  let l := bytes_of (slugifyTitle title maxSlug) in
  slug_ok l /\ match l with c :: _ => c <> dash | [] => True end /\
  (forall k x, l = k ++ [x] -> x <> dash) /\ Z.of_nat (length l) <= maxSlug.
Proof.
  intros Hm. cbn zeta. rewrite slugifyTitle_bytes.
  destruct (full_slug_ok title) as (Hok & Hh & Hl). set (f := full_slug title) in *. clearbody f.
  destruct (Z.ltb_spec maxSlug (Z.of_nat (length f))) as [Hlt|Hge];
    [|split_and!; try done; lia].
  destruct (trim_right_prefix dash (take (Z.to_nat maxSlug) f)) as [k Hk].
  rewrite <- (take_drop (Z.to_nat maxSlug) f) in Hok, Hh.
  apply slug_ok_app in Hok as [Hok _]. rewrite Hk in Hok, Hh.
  apply slug_ok_app in Hok as [Hok _]. split_and!; [done| | |].
  - by destruct (trim_right_bytes dash (take (Z.to_nat maxSlug) f)).
  - intros k2 x. apply trim_right_last.
  - apply (f_equal length) in Hk. rewrite length_app, length_take in Hk. lia.
Qed.

(** A title never exceeds its cap unless the suffix alone does, and
    always ends with the suffix, which tells the stages apart. *)
Theorem computeTaskTitle_spec kind provider owner repo number sha title maxSlug maxTitle suffix :
  let suffixPart := if negb (suffix =?s "") then " - " +:+ suffix else "" in
  let t := computeTaskTitle kind provider owner repo number sha title maxSlug maxTitle suffix in
  len t <= Z.max maxTitle (len suffixPart) /\ exists p, t = p +:+ suffixPart.
Proof.
  cbn zeta. unfold computeTaskTitle.
  set (sp := if negb (suffix =?s "") then _ else _).
  set (t := if slugifyTitle title maxSlug =?s "" then _ else _). clearbody t sp.
  split; [|by eexists].
  assert (Hlen : forall a b, len (a +:+ b) = len a + len b).
  { intros a b. unfold len. rewrite string_app_length. lia. }
  assert (Hnn : forall a, 0 <= len a) by (unfold len; lia).
  assert (Hsl : forall a n, 0 <= n -> len (slice_to a n) <= n).
  { intros a n Hn. unfold len, slice_to. rewrite take_string_length. lia. }
  pose proof (Hnn t). pose proof (Hnn sp). rewrite Hlen.
  destruct (Z.ltb_spec maxTitle (len t + len sp)); [|lia].
  destruct (Z.ltb_spec (maxTitle - len sp) 0).
  - pose proof (Hsl t 0 ltac:(lia)). destruct (Z.ltb_spec 0 (len t)); lia.
  - pose proof (Hsl t (maxTitle - len sp) ltac:(lia)).
    destruct (Z.ltb_spec (maxTitle - len sp) (len t)); lia.
Qed.
End title_facts.

(** ** Keys of identifiers *)

Inductive task_kind : Type := KReview | KOverride | KForce (nonce : string).

Definition kind_suffix (k : task_kind) : string :=
  match k with
  | KReview => ""
  | KOverride => "#override"
  | KForce nonce => String "!" nonce
  end.

(** The key each of the three [DeriveTaskID] functions hashes. *)
Definition key_of (k : task_kind) (owner repo : string) (number : Z) (sha : string) : string :=
  task_key owner repo number sha +:+ kind_suffix k.

Lemma derive_key_of `{UUID} owner repo number sha nonce :
  DeriveTaskID owner repo number sha =
    NewSHA1 prWatcherNamespace (key_of KReview owner repo number sha) /\
  DeriveTaskIDOverride owner repo number sha =
    NewSHA1 prWatcherNamespace (key_of KOverride owner repo number sha) /\
  DeriveTaskIDForce owner repo number sha nonce =
    NewSHA1 prWatcherNamespace (key_of (KForce nonce) owner repo number sha).
Proof. unfold key_of. simpl. by rewrite string_app_nil_r. Qed.

Definition avoids (c : ascii) (s : string) : Prop := ~ In c (bytes_of s).

(** A commit hash contains neither separator. *)
Definition head_wf (owner repo sha : string) : Prop :=
  avoids "/" owner /\ avoids "#" repo /\ avoids "#" sha /\ avoids "!" sha.

Lemma tail_inj sha k sha' k' :
  avoids "#" sha -> avoids "!" sha -> avoids "#" sha' -> avoids "!" sha' ->
  sha +:+ kind_suffix k = sha' +:+ kind_suffix k' -> sha = sha' /\ k = k'.
Proof.
  revert sha'. induction sha as [|c sha IH]; intros [|c' sha'] H1 H2 H3 H4;
    rewrite ?string_app_cons, ?string_app_nil_l.
  - destruct k, k'; simpl; intros E; simplify_eq; done.
  - unfold avoids in *. simpl in *. destruct k; simpl; intros E; simplify_eq; tauto.
  - unfold avoids in *. simpl in *. destruct k'; simpl; intros E; simplify_eq; tauto.
  - unfold avoids in *. simpl in *. intros E. simplify_eq.
    destruct (IH sha') as [-> ->]; tauto.
Qed.

(** The keys the identifiers are derived from determine the owner, the
    repository, the number, the head commit and the kind of task: a review,
    an override and a forced review of any two PR heads never share one. *)
Theorem key_of_inj k k' owner owner' repo repo' number number' sha sha' :
  head_wf owner repo sha -> head_wf owner' repo' sha' ->
  key_of k owner repo number sha = key_of k' owner' repo' number' sha' ->
  k = k' /\ owner = owner' /\ repo = repo' /\ number = number' /\ sha = sha'.
Proof.
  intros (Ho & Hr & Hs & Hs2) (Ho' & Hr' & Hs' & Hs2') E.
  unfold key_of, task_key in E. rewrite !string_app_assoc in E.
  apply app_sep_inj in E as [-> E]; [|done..].
  apply app_sep_inj in E as [-> E]; [|done..].
  apply app_sep_inj in E as [->%Itoa_inj E]; [|by apply Itoa_avoids..].
  by apply tail_inj in E as [-> ->].
Qed.

(** ** Witnesses *)

#[local] Instance demo_tables : UnicodeTables := {| lower_table r := r; print_table _ := true |}.

Lemma slugifyTitle_spec_witness :
  slugifyTitle "Fix: the  Bug (again)!" 12 = "fix-the-bug" /\
  Z.of_nat (length (bytes_of (slugifyTitle "Fix: the  Bug (again)!" 12))) <= 12.
Proof.
  split; [vm_compute; reflexivity|].
  apply (slugifyTitle_spec "Fix: the  Bug (again)!" 12). lia.
Defined.

Lemma key_of_inj_witness :
  key_of KReview "bborbe" "repo" 7 "abc" <> key_of KOverride "bborbe" "repo" 7 "abc".
Proof.
  intros H. apply key_of_inj in H as [H _]; [discriminate H| |];
    repeat split; unfold avoids; simpl; intuition discriminate.
Defined.
