(* ===== verification/Trust.v ===== *)
(** * Trust: the author trust decision (pkg/trust)

    A trust check is a function of the PR that answers a result or an error;
    [And], [Or] and [Not] compose checks. Production uses
    [And{NewAuthorAllowlist(authors), NewSameRepo()}] (main.go). *)
From S2P Require Import Prelude GoStrings.

Record TrustPR : Type := mkTrustPR {
  t_AuthorLogin : string;
  t_HeadRepoFullName : string;
  t_BaseRepoFullName : string }.

Record Result : Type := NewResult { Success : bool; Description : string }.

(** The [Trust] interface. *)
Definition Trust : Type := TrustPR -> result Result.
Definition Func (f : TrustPR -> result Result) : Trust := f.

(** [fmt.Sprintf("[%t] %s", ...)] *)
Definition describe (r : Result) : string :=
  "[" +:+ (if Success r then "true" else "false") +:+ "] " +:+ Description r.

Fixpoint And_loop (ts : list Trust) (pr : TrustPR) (success : bool) (descriptions : list string)
  : result Result :=
  match ts with
  | [] => Ok (NewResult success ("and(" +:+ Join descriptions ", " +:+ ")"))
  | t :: ts' =>
      let_ok r := t pr in
      And_loop ts' pr (if negb (Success r) then false else success) (descriptions ++ [describe r])
  end.
Definition And (ts : list Trust) : Trust := fun pr => And_loop ts pr true [].

Fixpoint Or_loop (ts : list Trust) (pr : TrustPR) (success : bool) (descriptions : list string)
  : result Result :=
  match ts with
  | [] => Ok (NewResult success ("or(" +:+ Join descriptions ", " +:+ ")"))
  | t :: ts' =>
      let_ok r := t pr in
      Or_loop ts' pr (if Success r then true else success) (descriptions ++ [describe r])
  end.
Definition Or (ts : list Trust) : Trust := fun pr => Or_loop ts pr false [].

Definition Not (t : Trust) : Trust := fun pr =>
  let_ok r := t pr in Ok (NewResult (negb (Success r)) ("not(" +:+ Description r +:+ ")")).

Section leaves.
Context `{UnicodeTables}.

Fixpoint allowlist_loop (members : list string) (login : string) : Result :=
  match members with
  | [] => NewResult false ("author " +:+ Quote login +:+ " not in trusted-authors allowlist")
  | m :: members' =>
      if m =?s login
      then NewResult true ("author " +:+ Quote login +:+ " in trusted-authors allowlist")
      else allowlist_loop members' login
  end.

Definition NewAuthorAllowlist (members : list string) : Trust := fun pr =>
  match members with
  | [] => Ok (NewResult false "author-allowlist is empty (always denies)")
  | _ =>
      if t_AuthorLogin pr =?s ""
      then Ok (NewResult false "author unknown (no login provided)")
      else Ok (allowlist_loop members (t_AuthorLogin pr))
  end.

Definition NewSameRepo : Trust := fun pr =>
  if t_HeadRepoFullName pr =?s ""
  then Ok (NewResult false "head repo unknown (no head repo full name provided)")
  else if t_BaseRepoFullName pr =?s ""
  then Ok (NewResult false "base repo unknown (no base repo full name provided)")
  else if t_HeadRepoFullName pr =?s t_BaseRepoFullName pr
  then Ok (NewResult true ("head repo " +:+ Quote (t_HeadRepoFullName pr) +:+ " is the base repo"))
  else Ok (NewResult false ("head repo " +:+ Quote (t_HeadRepoFullName pr) +:+
             " is not the base repo " +:+ Quote (t_BaseRepoFullName pr))).

(** The decision main.go builds. *)
Definition production_trust (authors : list string) : Trust :=
  And [NewAuthorAllowlist authors; NewSameRepo].
End leaves.

(** ** What the combinators decide *)

(** A check's verdict: [Some] success, or [None] when it failed. *)
Definition verdict (t : Trust) (pr : TrustPR) : option bool :=
  match t pr with Ok r => Some (Success r) | Err _ => None end.

Lemma And_loop_verdict ts pr : forall b ds,
  match And_loop ts pr b ds with
  | Ok r => Forall (fun t => is_Some (verdict t pr)) ts /\
            (Success r = true <-> b = true /\ Forall (fun t => verdict t pr = Some true) ts)
  | Err _ => ~ Forall (fun t => is_Some (verdict t pr)) ts
  end.
Proof.
  induction ts as [|t ts IH]; intros b ds; simpl; [by repeat split; intuition|].
  destruct (t pr) as [r|e] eqn:Et.
  - assert (verdict t pr = Some (Success r)) as Hv by (unfold verdict; by rewrite Et).
    specialize (IH (if negb (Success r) then false else b) (ds ++ [describe r])).
    destruct (And_loop _ _ _ _) as [r'|e]; rewrite !Forall_cons, Hv; [|tauto].
    destruct IH as [? IH]. split; [by split|]. rewrite IH.
    destruct (Success r); simpl; intuition congruence.
  - rewrite Forall_cons. intros [[? Hv] _]. unfold verdict in Hv. by rewrite Et in Hv.
Qed.

Lemma Or_loop_verdict ts pr : forall b ds,
  match Or_loop ts pr b ds with
  | Ok r => Forall (fun t => is_Some (verdict t pr)) ts /\
            (Success r = true <-> b = true \/ Exists (fun t => verdict t pr = Some true) ts)
  | Err _ => ~ Forall (fun t => is_Some (verdict t pr)) ts
  end.
Proof.
  induction ts as [|t ts IH]; intros b ds; simpl.
  { split; [done|]. rewrite Exists_nil. tauto. }
  destruct (t pr) as [r|e] eqn:Et.
  - assert (verdict t pr = Some (Success r)) as Hv by (unfold verdict; by rewrite Et).
    specialize (IH (if Success r then true else b) (ds ++ [describe r])).
    destruct (Or_loop _ _ _ _) as [r'|e]; rewrite !Forall_cons; [|tauto].
    destruct IH as [? IH]. split; [rewrite Hv; by split|]. rewrite IH, Exists_cons, Hv.
    destruct (Success r); simpl; intuition congruence.
  - rewrite Forall_cons. intros [[? Hv] _]. unfold verdict in Hv. by rewrite Et in Hv.
Qed.

Lemma not_all_some ts pr :
  ~ Forall (fun t => is_Some (verdict t pr)) ts <-> Exists (fun t => verdict t pr = None) ts.
Proof.
  split.
  - intros H. apply not_Forall_Exists in H; [|intros t; apply _].
    eapply Exists_impl; [exact H|]. intros t. simpl. apply eq_None_not_Some.
  - intros He Hf. apply Exists_exists in He as (t & Hin & Hn).
    rewrite Forall_forall in Hf. destruct (Hf t Hin). congruence.
Qed.

(** The combinators are the connectives on verdicts: [And] succeeds
    exactly when every check does, [Or] when one does, [Not] when its check
    does not; and each fails exactly when one of its checks fails, since no
    short circuit hides a check's error. *)
Theorem trust_combinators ts t pr :
  (verdict (And ts) pr = Some true <-> Forall (fun t => verdict t pr = Some true) ts) /\
  (verdict (And ts) pr = None <-> Exists (fun t => verdict t pr = None) ts) /\
  (verdict (Or ts) pr = Some true <->
     Forall (fun t => is_Some (verdict t pr)) ts /\ Exists (fun t => verdict t pr = Some true) ts) /\
  (verdict (Or ts) pr = None <-> Exists (fun t => verdict t pr = None) ts) /\
  verdict (Not t) pr = negb <$> verdict t pr.
Proof.
  pose proof (And_loop_verdict ts pr true []) as HA. pose proof (Or_loop_verdict ts pr false []) as HO.
  assert (Hsome : Forall (fun t => verdict t pr = Some true) ts ->
    Forall (fun t => is_Some (verdict t pr)) ts).
  { intros H. eapply Forall_impl; [exact H|]. intros x Hx. by rewrite Hx. }
  assert (HvA : verdict (And ts) pr =
    match And_loop ts pr true [] with Ok r => Some (Success r) | Err _ => None end) by done.
  assert (HvO : verdict (Or ts) pr =
    match Or_loop ts pr false [] with Ok r => Some (Success r) | Err _ => None end) by done.
  rewrite <- !not_all_some, HvA, HvO.
  split_and!.
  - destruct (And_loop _ _ _ _) as [r|e]; [|split; [done|tauto]].
    destruct HA as [_ HA]. rewrite (inj_iff Some), HA. tauto.
  - destruct (And_loop _ _ _ _) as [r|e]; [|done]. split; [done|tauto].
  - destruct (Or_loop _ _ _ _) as [r|e]; [|split; [done|tauto]].
    destruct HO as [Ha HO]. rewrite (inj_iff Some), HO. intuition congruence.
  - destruct (Or_loop _ _ _ _) as [r|e]; [|done]. split; [done|tauto].
  - unfold verdict, Not. by destruct (t pr).
Qed.

Section production.
Context `{UnicodeTables}.

Lemma allowlist_loop_spec members login :
  Success (allowlist_loop members login) = slices_Contains members login.
Proof.
  induction members as [|m members IH]; simpl; [done|]. by destruct (m =?s login).
Qed.

Lemma NewAuthorAllowlist_verdict members pr :
  verdict (NewAuthorAllowlist members) pr =
  Some (negb (t_AuthorLogin pr =?s "") && slices_Contains members (t_AuthorLogin pr)).
Proof.
  unfold verdict, NewAuthorAllowlist. destruct members as [|m members]; [by rewrite andb_false_r|].
  destruct (t_AuthorLogin pr =?s ""); [done|]. by rewrite allowlist_loop_spec.
Qed.

Lemma NewSameRepo_verdict pr :
  verdict NewSameRepo pr =
  Some (negb (t_HeadRepoFullName pr =?s "") && (t_HeadRepoFullName pr =?s t_BaseRepoFullName pr)).
Proof.
  unfold verdict, NewSameRepo. destruct (t_HeadRepoFullName pr =?s "") eqn:E1; [done|]. simpl.
  destruct (t_BaseRepoFullName pr =?s "") eqn:E2; bool_props.
  - rewrite E2. simpl. by apply String.eqb_neq in E1 as ->.
  - by destruct (t_HeadRepoFullName pr =?s t_BaseRepoFullName pr).
Qed.

(** (C40) The production trust decision always answers, and trusts exactly a
    named author on the allow-list whose head repository is the base
    repository; a deleted account, an unknown repository, a fork or an empty
    list is never trusted. *)
Theorem production_trust_spec authors pr :
  exists r, production_trust authors pr = Ok r /\
    (Success r = true <->
     t_AuthorLogin pr <> "" /\ t_AuthorLogin pr ∈ authors /\
     t_HeadRepoFullName pr <> "" /\ t_HeadRepoFullName pr = t_BaseRepoFullName pr).
Proof.
  pose proof (And_loop_verdict [NewAuthorAllowlist authors; NewSameRepo] pr true []) as H0.
  unfold production_trust, And. destruct (And_loop _ _ _ _) as [r|e].
  - exists r. split; [done|]. destruct H0 as [_ ->].
    rewrite !Forall_cons, Forall_nil, NewAuthorAllowlist_verdict, NewSameRepo_verdict.
    rewrite !(inj_iff Some), !andb_true_iff, !negb_true_iff, !String.eqb_neq, String.eqb_eq.
    rewrite slices_Contains_spec. tauto.
  - destruct H0. rewrite !Forall_cons, Forall_nil, NewAuthorAllowlist_verdict, NewSameRepo_verdict.
    by repeat split; eexists.
Qed.
End production.
