(* ===== verification/Filters.v ===== *)
(** * Filters: which PRs get a task at all (pkg/filter, pkg/filter.go)

    A filter answers whether to skip a PR; the chain skips when one filter
    does. The allow-list membership test [repoallowlist.IsAllowed] is library
    code: a parameter. *)
From S2P Require Import Prelude GoStrings Regex.
From Stdlib Require Import Ascii.
Local Open Scope Z_scope.

Record FilterPR : Type := mkFilterPR {
  fl_AuthorLogin : string;
  fl_IsDraft : bool;
  fl_Title : string;
  fl_UpdatedAt : DateTime;
  fl_RepoKey : string }.

(** The [TaskCreationFilter] interface: [Skip] and [Name]. *)
Record TaskCreationFilter : Type := mkFilter { Skip : FilterPR -> bool; Name : string }.

Definition TaskCreationFilterFunc (f : FilterPR -> bool) : TaskCreationFilter :=
  mkFilter f "inline".

(** [repoallowlist.IsAllowed(allowlist, repoKey)] *)
Class RepoAllowlist : Type := { IsAllowed : list string -> string -> bool }.

Definition NewDraftFilter : TaskCreationFilter := mkFilter fl_IsDraft "draft".

Fixpoint bot_loop (allowlist : list string) (login : string) : bool :=
  match allowlist with
  | [] => false
  | entry :: rest => if login =?s entry then true else bot_loop rest login
  end.
Definition NewBotAuthorFilter (allowlist : list string) : TaskCreationFilter :=
  mkFilter (fun pr => bot_loop allowlist (fl_AuthorLogin pr)) "bot-author".

(** [^WIP[:\s]] *)
Definition wipTitleRegexp : regex :=
  RCat (lit "WIP") (RChar (fun c => Ascii.eqb c ":" || blank c)).
Definition NewWIPTitleFilter : TaskCreationFilter :=
  mkFilter (fun pr => MatchPrefix wipTitleRegexp (fl_Title pr)) "wip-title".

Definition NewAgeFilter (maxAge : Duration) (referenceTime : DateTime) : TaskCreationFilter :=
  mkFilter
    (fun pr =>
       if maxAge <=? 0 then false
       else dt_Before (fl_UpdatedAt pr) (dt_Add referenceTime (- maxAge)))
    "age".

Definition NewRepoAllowlistFilter `{RepoAllowlist} (allowlist : list string)
  : TaskCreationFilter :=
  mkFilter (fun pr => negb (IsAllowed allowlist (fl_RepoKey pr))) "repo-allowlist".

Fixpoint SkippingFilter (fs : list TaskCreationFilter) (pr : FilterPR)
  : option TaskCreationFilter :=
  match fs with
  | [] => None
  | f :: rest => if Skip f pr then Some f else SkippingFilter rest pr
  end.

Definition TaskCreationFilters (fs : list TaskCreationFilter) : TaskCreationFilter :=
  mkFilter (fun pr => match SkippingFilter fs pr with Some _ => true | None => false end) "chain".

(** The two chains main.go builds. *)
Definition taskCreationFilters `{RepoAllowlist} (botAllowlist repoAllowlist : list string)
    (maxAge : Duration) (startTime : DateTime) : TaskCreationFilter :=
  TaskCreationFilters
    [NewDraftFilter; NewBotAuthorFilter botAllowlist; NewWIPTitleFilter;
     NewAgeFilter maxAge startTime; NewRepoAllowlistFilter repoAllowlist].
Definition sideEffectFilters `{RepoAllowlist} (repoAllowlist : list string) : TaskCreationFilter :=
  TaskCreationFilters [NewDraftFilter; NewRepoAllowlistFilter repoAllowlist].

(** ** Comma-separated lists *)

Definition comma : ascii := ","%char.
Fixpoint trim_nonempty (parts : list string) : list string :=
  match parts with
  | [] => []
  | p :: rest =>
      let p := TrimSpace p in
      if negb (p =?s "") then p :: trim_nonempty rest else trim_nonempty rest
  end.

Definition ParseRepoAllowlist (raw : string) : list string :=
  if raw =?s "" then [] else trim_nonempty (Split raw comma).
Definition ParseBotAllowlist (raw : string) : list string :=
  if raw =?s "" then [] else trim_nonempty (Split raw comma).
Definition ParseTrustedAuthors (raw : string) : list string :=
  if raw =?s "" then [] else trim_nonempty (Split raw comma).
Definition ParseMechanicalOverrideAuthors (raw : string) : list string := ParseTrustedAuthors raw.

(** ** Facts *)

Lemma SkippingFilter_spec fs pr f :
  SkippingFilter fs pr = Some f <->
  exists l1 l2, fs = l1 ++ f :: l2 /\ Skip f pr = true /\ Forall (fun g => Skip g pr = false) l1.
Proof.
  revert f. induction fs as [|g fs IH]; intros f; simpl.
  - split; [done|]. intros (l1 & l2 & E & _). by destruct l1.
  - destruct (Skip g pr) eqn:Hg.
    + split.
      * intros [= <-]. by exists [], fs.
      * intros (l1 & l2 & E & _ & Hl). destruct l1 as [|x l1]; simpl in E; [congruence|].
        injection E as <- _. apply Forall_cons in Hl as [? _]. congruence.
    + rewrite IH. split.
      * intros (l1 & l2 & -> & Hf & Hl). exists (g :: l1), l2. by repeat constructor.
      * intros (l1 & l2 & E & Hf & Hl). destruct l1 as [|x l1]; simpl in E; [congruence|].
        injection E as <- ->. apply Forall_cons in Hl as [_ Hl]. by exists l1, l2.
Qed.

Lemma TaskCreationFilters_Skip fs pr :
  Skip (TaskCreationFilters fs) pr = existsb (fun f => Skip f pr) fs.
Proof. simpl. induction fs as [|f fs IH]; simpl; [done|]. by destruct (Skip f pr). Qed.

Lemma bot_loop_spec l x : bot_loop l x = slices_Contains l x.
Proof.
  unfold slices_Contains. induction l as [|y l IH]; simpl; [done|].
  rewrite (String.eqb_sym y x). by destruct (x =?s y).
Qed.

Lemma wip_spec s :
  MatchPrefix wipTitleRegexp s = true <->
  exists c t, s = "WIP" +:+ String c t /\ (c = ":"%char \/ blank c = true).
Proof.
  unfold MatchPrefix. rewrite match_prefix_correct. unfold wipTitleRegexp. split.
  - intros (u & v & E & (a & b & -> & Ha & (c & -> & Hc)%char_inv)%cat_inv).
    assert (a = String.list_ascii_of_string "WIP") as ->.
    { apply cat_inv in Ha as (x & y & -> & (? & -> & Hx%Ascii.eqb_eq)%char_inv & Ha).
      apply cat_inv in Ha as (x' & y' & -> & (? & -> & Hy%Ascii.eqb_eq)%char_inv & Ha).
      apply cat_inv in Ha as (x'' & y'' & -> & (? & -> & Hz%Ascii.eqb_eq)%char_inv & ->%eps_inv).
      by subst. }
    exists c, (String.string_of_list_ascii v). split.
    + apply list_of_string_inj. rewrite E, list_of_string_app. simpl.
      by rewrite String.list_ascii_of_string_of_list_ascii.
    + apply orb_true_iff in Hc as [Hc%Ascii.eqb_eq|?]; [by left|by right].
  - intros (c & t & -> & Hc). rewrite list_of_string_app.
    exists (String.list_ascii_of_string "WIP" ++ [c]), (String.list_ascii_of_string t).
    split; [by rewrite <- app_assoc|]. apply cat_inv. eexists _, [c]. split; [done|]. split.
    + simpl. repeat (apply (M_Cat _ _ [_] _); [constructor; apply Ascii.eqb_refl|]). constructor.
    + constructor. destruct Hc as [->|Hc]; [done|]. by rewrite Hc, orb_true_r.
Qed.

(** The poll's filter chain skips exactly a draft, a listed bot's PR, a
    title opening with WIP and a separator, a PR last updated before the age
    cutoff, or one outside the repository allow-list; the side-effect chain
    only drafts and repositories outside the list. *)
Theorem filter_chains_spec `{RepoAllowlist} bots repos maxAge start pr :
  (Skip (taskCreationFilters bots repos maxAge start) pr = true <->
   fl_IsDraft pr = true \/ fl_AuthorLogin pr ∈ bots \/
   (exists c t, fl_Title pr = "WIP" +:+ String c t /\ (c = ":"%char \/ blank c = true)) \/
   (0 < maxAge /\ fl_UpdatedAt pr < start - maxAge) \/
   IsAllowed repos (fl_RepoKey pr) = false) /\
  (Skip (sideEffectFilters repos) pr = true <->
   fl_IsDraft pr = true \/ IsAllowed repos (fl_RepoKey pr) = false).
Proof.
  unfold taskCreationFilters, sideEffectFilters. rewrite !TaskCreationFilters_Skip. simpl.
  rewrite !orb_true_iff, bot_loop_spec, slices_Contains_spec, wip_spec, !negb_true_iff.
  assert ((if maxAge <=? 0 then false
           else dt_Before (fl_UpdatedAt pr) (dt_Add start (- maxAge))) = true <->
          0 < maxAge /\ fl_UpdatedAt pr < start - maxAge) as ->.
  { unfold dt_Before, dt_Add. destruct (Z.leb_spec maxAge 0); rewrite ?Z.ltb_lt; [|lia].
    split; [done|lia]. }
  intuition congruence.
Qed.
