(* ===== verification/SizeGate.v ===== *)
(** * SizeGate: review exclusion and the park decision (pkg/reviewignore,
    and the size gate of pkg/watcher.go)

    The pattern engine [gitignore.CompileIgnoreLines(...).MatchesPath] is
    library code, a parameter; the self-exclusion guard and the ancestor rule
    around it are the code's. *)
From S2P Require Import Prelude GoStrings Types.
From Stdlib Require Import Ascii.
Local Open Scope Z_scope.

Class GitIgnore : Type := { MatchesPath : list string -> string -> bool }.

Definition reviewignore_Filename : string := ".reviewignore".

(** ** Matchers *)

Record matcher : Type := mkMatcher { ignore_lines : list string; Empty : bool }.

(** Lines that are neither blank nor comments. *)
Fixpoint pattern_count (lines : list string) : nat :=
  match lines with
  | [] => 0%nat
  | line :: rest =>
      let trimmed := TrimSpace line in
      if (trimmed =?s "") || HasPrefix trimmed "#" then pattern_count rest
      else S (pattern_count rest)
  end.

Definition Parse (content : string) : matcher :=
  let lines := Split content newline in
  mkMatcher lines (pattern_count lines =? 0)%nat.

(** The byte indices of the slashes of a path: [path[:i]] for each. *)
Fixpoint ancestors (before path : string) : list string :=
  match path with
  | EmptyString => []
  | String c rest =>
      if Ascii.eqb c "/" then before :: ancestors (before +:+ String c "") rest
      else ancestors (before +:+ String c "") rest
  end.

Section match_path.
Context `{GitIgnore}.

Fixpoint excluded_dirs (m : matcher) (dirs : list string) : bool :=
  match dirs with
  | [] => false
  | dir :: rest =>
      if MatchesPath (ignore_lines m) dir || MatchesPath (ignore_lines m) (dir +:+ "/")
      then true else excluded_dirs m rest
  end.

Definition parentExcluded (m : matcher) (path : string) : bool :=
  excluded_dirs m (ancestors "" path).

Definition Match (m : matcher) (path : string) : bool :=
  if path =?s reviewignore_Filename then false
  else if MatchesPath (ignore_lines m) path then true
  else parentExcluded m path.
End match_path.

(** ** The size gate *)

Record Exclusion : Type := mkExclusion { e_Additions : Z; e_Files : Z }.
Definition zero_exclusion : Exclusion := mkExclusion 0 0.

Definition Exclusion_Empty (e : Exclusion) : bool := (e_Additions e =? 0) && (e_Files e =? 0).

Fixpoint exclusion_loop `{GitIgnore} (files : list PRFile) (m : matcher) (e : Exclusion)
  : Exclusion :=
  match files with
  | [] => e
  | f :: rest =>
      if Match m (Filename f)
      then exclusion_loop rest m
             (mkExclusion (wrap64 (e_Additions e + f_Additions f)) (wrap64 (e_Files e + 1)))
      else exclusion_loop rest m e
  end.

(** [None]: a nil matcher. *)
Definition ComputeExclusion `{GitIgnore} (files : list PRFile) (m : option matcher) : Exclusion :=
  match m with
  | None => zero_exclusion
  | Some m => exclusion_loop files m zero_exclusion
  end.

Definition effectiveSize (details : PRDetails) (exclusion : Exclusion) : Z * Z :=
  (Z.max (wrap64 (Additions details - e_Additions exclusion)) 0,
   Z.max (wrap64 (ChangedFiles details - e_Files exclusion)) 0).

Definition oversized (details : PRDetails) (exclusion : Exclusion)
    (maxAdditions maxChangedFiles : Z) : bool :=
  let '(additions, changedFiles) := effectiveSize details exclusion in
  if (0 <? maxAdditions) && (maxAdditions <? additions) then true
  else if (0 <? maxChangedFiles) && (maxChangedFiles <? changedFiles) then true
  else false.

(** ** Facts *)

(** The lines a file contributes to the gate are those of unmatched files. *)
Definition sum_additions (files : list PRFile) : Z :=
  foldr (fun f acc => f_Additions f + acc) 0 files.

Definition matched `{GitIgnore} (m : matcher) (files : list PRFile) : list PRFile :=
  filter (fun f => Match m (Filename f) = true) files.

(** GitHub's counts: non-negative and together representable. *)
Definition counts_ok (files : list PRFile) : Prop :=
  Forall (fun f => 0 <= f_Additions f) files /\
  sum_additions files + Z.of_nat (length files) <= int_max.

Lemma exclusion_loop_spec `{GitIgnore} files m : forall e,
  Forall (fun f => 0 <= f_Additions f) files ->
  0 <= e_Additions e -> 0 <= e_Files e ->
  e_Additions e + sum_additions files <= int_max ->
  e_Files e + Z.of_nat (length files) <= int_max ->
  exclusion_loop files m e =
  mkExclusion (e_Additions e + sum_additions (matched m files))
    (e_Files e + Z.of_nat (length (matched m files))).
Proof.
  unfold matched. induction files as [|f files IH]; intros e Hpos Ha Hf Hsa Hsf; simpl.
  { rewrite !Z.add_0_r. by destruct e. }
  apply Forall_cons in Hpos as [Hp Hpos]. simpl in Hsa, Hsf.
  assert (Hs : 0 <= sum_additions files).
  { clear -Hpos. induction Hpos; simpl; lia. }
  rewrite filter_cons. destruct (Match m (Filename f)) eqn:Hm; simpl.
  - rewrite !wrap64_id by (unfold in_int64, int_min, int_max in *; lia).
    rewrite IH by (simpl; try done; lia). simpl. f_equal; lia.
  - rewrite IH by (try done; lia). done.
Qed.

Lemma ComputeExclusion_spec `{GitIgnore} files m :
  counts_ok files ->
  ComputeExclusion files (Some m) =
  mkExclusion (sum_additions (matched m files)) (Z.of_nat (length (matched m files))).
Proof.
  intros [Hpos Hs]. assert (0 <= sum_additions files) by (clear Hs; induction Hpos; simpl; lia).
  simpl. rewrite exclusion_loop_spec; simpl; try done; lia.
Qed.

(** (C39) The size gate counts reviewable content only, and is monotone in it:
    a PR whose files the gate sees in full is parked exactly when the added
    lines, or the number, of the files the repository does not exclude are
    over an enabled limit. In particular a limit of zero never parks, and
    edits to [.reviewignore] itself always count. *)
Theorem oversized_spec `{GitIgnore} files m details maxAdditions maxChangedFiles :
  counts_ok files ->
  Additions details = sum_additions files ->
  ChangedFiles details = Z.of_nat (length files) ->
  let reviewable := filter (fun f => Match m (Filename f) = false) files in
  oversized details (ComputeExclusion files (Some m)) maxAdditions maxChangedFiles = true <->
  (0 < maxAdditions /\ maxAdditions < sum_additions reviewable) \/
  (0 < maxChangedFiles /\ maxChangedFiles < Z.of_nat (length reviewable)).
Proof.
  intros Hc Hadd Hlen reviewable.
  assert (Hsplit : sum_additions files = sum_additions (matched m files) + sum_additions reviewable /\
    length files = (length (matched m files) + length reviewable)%nat /\
    0 <= sum_additions (matched m files) /\ 0 <= sum_additions reviewable).
  { destruct Hc as [Hpos _]. unfold matched, reviewable. clear -Hpos.
    induction Hpos as [|f files Hf Hpos IH]; simpl; [lia|]. rewrite !filter_cons.
    destruct (Match m (Filename f)); simpl; lia. }
  destruct Hsplit as (Hs & Hl & Hm0 & Hr0). pose proof Hc as [_ Hmax].
  unfold oversized, effectiveSize. rewrite ComputeExclusion_spec by done. simpl.
  rewrite !wrap64_id by (unfold in_int64, int_min, int_max in *; lia).
  rewrite Hadd, Hlen, Hs, Hl.
  replace (Z.max (sum_additions (matched m files) + sum_additions reviewable -
    sum_additions (matched m files)) 0) with (sum_additions reviewable) by lia.
  replace (Z.max (Z.of_nat (length (matched m files) + length reviewable) -
    Z.of_nat (length (matched m files))) 0) with (Z.of_nat (length reviewable)) by lia.
  destruct (_ && (_ <? sum_additions reviewable)) eqn:E1; bool_props.
  { split; [intros _; left; lia|done]. }
  destruct (_ && (_ <? Z.of_nat (length reviewable))) eqn:E2; bool_props.
  { split; [intros _; right; lia|done]. }
  split; [done|]. apply andb_false_iff in E1, E2. rewrite !Z.ltb_ge in *. lia.
Qed.

(** A path under an excluded directory stays excluded whatever the
    pattern engine says of the path itself, and [.reviewignore] is never
    excluded, not even by a pattern that matches it. *)
Theorem Match_spec `{GitIgnore} m path :
  Match m path = true <->
  path <> reviewignore_Filename /\
  (MatchesPath (ignore_lines m) path = true \/
   exists dir rest, path = dir +:+ "/" +:+ rest /\
     (MatchesPath (ignore_lines m) dir = true \/ MatchesPath (ignore_lines m) (dir +:+ "/") = true)).
Proof.
  assert (Hanc : forall p before, 
    forall d, d ∈ ancestors before p <-> exists x rest, p = x +:+ "/" +:+ rest /\ d = before +:+ x).
  { induction p as [|c p IH]; intros before d; simpl.
    - split; [by intros ?%elem_of_nil|]. intros (x & rest & E & _). by destruct x.
    - assert (Hrec : d ∈ ancestors (before +:+ String c "") p <->
        exists x rest, String c p = x +:+ "/" +:+ rest /\ d = before +:+ x /\ x <> "").
      { rewrite IH. split.
        - intros (x & rest & -> & ->). exists (String c x), rest.
          rewrite !string_app_cons, string_app_assoc, string_app_cons. done.
        - intros (x & rest & E & -> & Hx). destruct x as [|c' x]; [done|].
          rewrite string_app_cons in E. injection E as <- ->. exists x, rest.
          by rewrite string_app_assoc, string_app_cons. }
      destruct (Ascii.eqb_spec c "/") as [->|Hne].
      + rewrite elem_of_cons, Hrec. split.
        * intros [->|(x & rest & E & -> & _)]; [|by exists x, rest].
          exists "", p. by rewrite string_app_nil_r.
        * intros (x & rest & E & ->). destruct x as [|c' x].
          -- left. by rewrite string_app_nil_r.
          -- right. by exists (String c' x), rest.
      + rewrite Hrec. split; [by intros (x & rest & E & -> & _); exists x, rest|].
        intros (x & rest & E & ->). exists x, rest. split_and!; [done..|]. intros ->.
        rewrite string_app_nil_l, string_app_cons in E. congruence. }
  assert (Hdirs : forall dirs, excluded_dirs m dirs = true <->
    exists d, d ∈ dirs /\ (MatchesPath (ignore_lines m) d = true \/
                           MatchesPath (ignore_lines m) (d +:+ "/") = true)).
  { induction dirs as [|d dirs IH]; simpl.
    - split; [done|]. by intros (d & ?%elem_of_nil & _).
    - destruct (_ || _) eqn:E.
      + apply orb_true_iff in E. split; [intros _; exists d; split; [by left|done]|done].
      + apply orb_false_iff in E as [E1 E2]. rewrite IH. split.
        * intros (d' & ? & ?). exists d'. split; [by right|done].
        * intros (d' & [->|?]%elem_of_cons & [?|?]); [congruence..|by eauto|by eauto]. }
  unfold Match, parentExcluded. destruct (path =?s _) eqn:E; bool_props.
  { split; [done|by intros [? _]]. }
  destruct (MatchesPath (ignore_lines m) path); [tauto|]. rewrite Hdirs. split.
  - intros (d & (x & rest & -> & ->)%Hanc & Hd). split; [done|]. right. by exists x, rest.
  - intros [_ [?|(d & rest & -> & Hd)]]; [done|]. exists d. split; [|done].
    apply Hanc. by exists d, rest.
Qed.

(** ** Witness: a prefix engine *)
#[local] Instance demo_gitignore : GitIgnore :=
  {| MatchesPath lines path := existsb (fun l => negb (l =?s "") && HasPrefix path l) lines |}.

Definition demo_files : list PRFile :=
  [mkPRFile "vendor/x.go" "" 5000; mkPRFile "main.go" "" 10; mkPRFile ".reviewignore" "" 1].
Definition demo_sized : PRDetails :=
  mkPRDetails "sha" "" "master" "b" "" "" "" "" false 0 [] 5011 3 "clean".

Lemma oversized_spec_witness :
  oversized demo_sized (ComputeExclusion demo_files (Some (Parse "vendor/"))) 100 0 <> true /\
  oversized demo_sized zero_exclusion 100 0 = true.
Proof.
  split; [|reflexivity]. intros H.
  apply (oversized_spec demo_files (Parse "vendor/") demo_sized 100 0) in H.
  - vm_compute in H. destruct H as [[_ H]|[H _]]; discriminate H.
  - split; [repeat constructor; simpl; lia|]. unfold int_max. vm_compute. discriminate.
  - reflexivity.
  - reflexivity.
Defined.
