(* ===== verification/Commands.v ===== *)
(** * Commands: the task commands the watcher publishes (pkg/watcher.go)

    [BuildCreateCommand] and its two siblings, their frontmatter (a map of
    strings) and their bodies. *)
From S2P Require Import Prelude GoStrings Types Titles Trust SizeGate.
Local Open Scope Z_scope.

(** [task.CreateCommand] *)
Record CreateCommand : Type := mkCreateCommand {
  c_Title : string;
  TargetVault : string;
  TaskIdentifier : string;
  Frontmatter : gmap string string;
  Body : string }.

(** [TaskConfig] *)
Record TaskConfig : Type := mkTaskConfig {
  Stage : string;
  MaxSlugLen : Z;
  MaxTitleLen : Z;
  TaskSuffix : string;
  cfg_TargetVault : string;
  MaxAdditions : Z;
  MaxChangedFiles : Z }.

(** ** Frontmatter *)

(** The keys every task carries. *)
Definition base_frontmatter (task_type assignee phase status : string)
    (pr : PullRequest) (taskIDStr stage : string) (details : PRDetails) : gmap string string :=
  list_to_map
    [("task_type", task_type); ("assignee", assignee); ("phase", phase); ("status", status);
     ("stage", stage); ("task_identifier", taskIDStr); ("title", Title pr);
     ("clone_url", CloneURL details); ("ref", HeadSHA details); ("base_ref", BaseRef details)].

Definition buildFrontmatter (pr : PullRequest) (taskIDStr stage : string) (details : PRDetails)
  : gmap string string :=
  base_frontmatter "pr-review" "pr-reviewer-agent" "planning" "in_progress" pr taskIDStr stage details.

Definition buildHumanReviewFrontmatter (pr : PullRequest) (taskIDStr stage : string)
    (details : PRDetails) : gmap string string :=
  base_frontmatter "pr-review" "" "human_review" "todo" pr taskIDStr stage details.

Definition buildOverrideFrontmatter (pr : PullRequest) (taskIDStr stage : string)
    (details : PRDetails) : gmap string string :=
  base_frontmatter "pr-override" "pr-reviewer-agent" "execution" "in_progress"
    pr taskIDStr stage details.

Definition overrideReasonTrivialBotBump : string := "trivial-bot-bump".

(** ** Bodies *)

Definition buildExclusionNote (exclusion : Exclusion) : string :=
  if Exclusion_Empty exclusion then ""
  else
    nl +:+ Itoa (e_Additions exclusion) +:+ " additions across " +:+ Itoa (e_Files exclusion) +:+
    " files excluded by `" +:+ reviewignore_Filename +:+
    "` (not counted toward the size gate, not sent to the reviewer)." +:+ nl.

Definition repo_link (pr : PullRequest) : string :=
  "https://github.com/" +:+ Owner pr +:+ "/" +:+ Repo pr.

(** ["**Repo:** [%s/%s](%s)\n"] *)
Definition repo_line (pr : PullRequest) : string :=
  "**Repo:** [" +:+ Owner pr +:+ "/" +:+ Repo pr +:+ "](" +:+ repo_link pr +:+ ")" +:+ nl.

Definition buildTaskBody (pr : PullRequest) (exclusion : Exclusion) : string :=
  "# PR Review: " +:+ Title pr +:+ nl +:+ nl +:+ HTMLURL pr +:+ nl +:+ nl +:+ repo_line pr +:+
  buildExclusionNote exclusion.

Definition buildParkedBody (details : PRDetails) (exclusion : Exclusion)
    (maxAdditions maxChangedFiles : Z) : string :=
  let '(additions, changedFiles) := effectiveSize details exclusion in
  let reasons :=
    (if 0 <? maxAdditions
     then [Itoa additions +:+ " added lines (limit " +:+ Itoa maxAdditions +:+ ")"] else []) ++
    (if 0 <? maxChangedFiles
     then [Itoa changedFiles +:+ " changed files (limit " +:+ Itoa maxChangedFiles +:+ ")"]
     else []) in
  "## Oversized PR — parked for human review" +:+
  nl +:+
  nl +:+
  "This PR has " +:+
  Join reasons " and " +:+
  ", which exceeds the auto-reviewer's context budget. Spawning a review pod would overflow its context window (`claude CLI failed: Prompt is too long`) and die before posting a verdict." +:+
  nl +:+
  buildExclusionNote exclusion +:+
  nl +:+
  "To review anyway, request a forced re-review on github-pr-watcher: `/trigger?url=<this PR's GitHub URL>&force=true` (the endpoint needs no token). Build the URL from this record's `clone_url` frontmatter with the trailing `.git` replaced by `/pull/<number>`, where `<number>` is the PR number in this record's title (`PR Review github - <owner>-<repo> - <number> - …`). Do not paste the URL into this record. The forced run skips only the oversized park and composes a fresh, reviewable record — but it is suppressed for up to an hour after this record was composed: the parked publish counts as an in-flight review and this SHA carries no verdict, so the retry guard skips the forced run after the endpoint has already answered 202, and no record appears. Wait out that hour, or restart the watcher (the retry-guard ledger is in memory, and a restart clears it), then retry." +:+
  nl +:+
  nl +:+
  "Editing this record's frontmatter does not work: this body carries no PR URL, so the reviewer fails the record." +:+
  nl +:+
  nl +:+
  "To dismiss, set `status: aborted`." +:+
  nl.

Definition buildOverrideBody (pr : PullRequest) : string :=
  "# PR Override: " +:+ Title pr +:+ nl +:+ nl +:+ HTMLURL pr +:+ nl +:+ nl +:+
  "A trusted author applied the override label. " +:+
  "The agent will post an APPROVE at head SHA so the false-positive review no longer blocks merge." +:+
  nl +:+ nl +:+ repo_line pr.

Definition buildMechanicalOverrideBody (pr : PullRequest) : string :=
  "# PR Override: " +:+ Title pr +:+ nl +:+ nl +:+ HTMLURL pr +:+ nl +:+ nl +:+
  "Mechanical approve: this PR qualifies as a " +:+
  "`trivial-bot-bump` — a bot dependency bump whose changed files are all " +:+
  "mechanical. No LLM review ran. The watcher applied the auto-merge label " +:+
  "and armed GitHub-native auto-merge; GitHub merges once required checks " +:+
  "are green." +:+ nl +:+ nl +:+ repo_line pr.

Definition buildUntrustedBody (author reasons : string) : string :=
  "## Untrusted author" +:+
  nl +:+
  nl +:+
  "This PR is by GitHub user **" +:+
  author +:+
  "** which did not pass the trust check:" +:+
  nl +:+
  nl +:+
  "- " +:+
  reasons +:+
  nl +:+
  nl +:+
  "This record cannot be made reviewable from here. Editing the frontmatter fails, because this body carries no PR URL. A forced re-trigger also fails, because force skips only the oversized park and not the trust check." +:+
  nl +:+
  nl +:+
  "To have this author's PRs reviewed, add the login to the watcher's `TRUSTED_AUTHORS` list and restart the watcher — the list is read at startup, so the change takes effect only after a restart. After that, the next push (new SHA), or a forced `/trigger`, creates a reviewable record — but a forced run within an hour of this record being composed is suppressed as in-flight, because the parked publish counts as an in-flight review and this SHA carries no verdict; wait out that hour, or restart the watcher again, before forcing. A plain `/trigger` for this same SHA does not create anything: it composes the same title as this record, so the controller's create-if-not-exists dedupes it. If this PR is also oversized, a new push parks again, so only the forced `/trigger` path applies." +:+
  nl +:+
  nl +:+
  "To dismiss, set `status: aborted`." +:+
  nl.

(** ** Commands *)
Section commands.
Context `{UnicodeTables}.

Definition retryTokenFor (taskIDStr : string) (forced : bool) : string :=
  if negb forced then ""
  else if 8 <? len taskIDStr then slice_to taskIDStr 8 else taskIDStr.

Definition BuildCreateCommand (pr : PullRequest) (details : PRDetails) (taskIDStr : string)
    (cfg : TaskConfig) (trustResult : Result) (forced : bool) (exclusion : Exclusion)
  : CreateCommand :=
  let retryToken := retryTokenFor taskIDStr forced in
  let title := computePRTitle "github" (Owner pr) (Repo pr) (Number pr) (HeadSHA details)
                 (Title pr) (MaxSlugLen cfg) (MaxTitleLen cfg) (TaskSuffix cfg) retryToken in
  if Success trustResult then
    if negb forced && oversized details exclusion (MaxAdditions cfg) (MaxChangedFiles cfg) then
      mkCreateCommand title (cfg_TargetVault cfg) taskIDStr
        (buildHumanReviewFrontmatter pr taskIDStr (Stage cfg) details)
        (buildParkedBody details exclusion (MaxAdditions cfg) (MaxChangedFiles cfg))
    else
      mkCreateCommand title (cfg_TargetVault cfg) taskIDStr
        (buildFrontmatter pr taskIDStr (Stage cfg) details) (buildTaskBody pr exclusion)
  else
    let author := if AuthorLogin pr =?s "" then "(unknown)" else AuthorLogin pr in
    mkCreateCommand title (cfg_TargetVault cfg) taskIDStr
      (buildHumanReviewFrontmatter pr taskIDStr (Stage cfg) details)
      (buildUntrustedBody author (Description trustResult)).

Definition BuildOverrideCommand (pr : PullRequest) (details : PRDetails) (taskIDStr : string)
    (cfg : TaskConfig) : CreateCommand :=
  mkCreateCommand
    (computeTaskTitle "Override" "github" (Owner pr) (Repo pr) (Number pr) (HeadSHA details)
       (Title pr) (MaxSlugLen cfg) (MaxTitleLen cfg) (TaskSuffix cfg))
    (cfg_TargetVault cfg) taskIDStr
    (buildOverrideFrontmatter pr taskIDStr (Stage cfg) details)
    (buildOverrideBody pr).

Definition BuildMechanicalOverrideCommand (pr : PullRequest) (details : PRDetails)
    (taskIDStr : string) (cfg : TaskConfig) : CreateCommand :=
  let cmd := BuildOverrideCommand pr details taskIDStr cfg in
  mkCreateCommand (c_Title cmd) (TargetVault cmd) (TaskIdentifier cmd)
    (<["override_reason" := overrideReasonTrivialBotBump]> (Frontmatter cmd))
    (buildMechanicalOverrideBody pr).

(** ** What a consumer reads off a command *)

Definition task_type (cmd : CreateCommand) : option string := Frontmatter cmd !! "task_type".
Definition phase (cmd : CreateCommand) : option string := Frontmatter cmd !! "phase".

(** A review task the reviewer agent will run, as opposed to one parked for a
    human. *)
Definition is_runnable_review (cmd : CreateCommand) : bool :=
  bool_decide (task_type cmd = Some "pr-review") && bool_decide (phase cmd = Some "planning").
Definition is_override (cmd : CreateCommand) : bool :=
  bool_decide (task_type cmd = Some "pr-override").
Definition is_review (cmd : CreateCommand) : bool :=
  bool_decide (task_type cmd = Some "pr-review").

Lemma base_frontmatter_lookup tt a p s pr tid st d :
  base_frontmatter tt a p s pr tid st d !! "task_type" = Some tt /\
  base_frontmatter tt a p s pr tid st d !! "assignee" = Some a /\
  base_frontmatter tt a p s pr tid st d !! "phase" = Some p /\
  base_frontmatter tt a p s pr tid st d !! "status" = Some s /\
  base_frontmatter tt a p s pr tid st d !! "task_identifier" = Some tid /\
  base_frontmatter tt a p s pr tid st d !! "ref" = Some (HeadSHA d) /\
  base_frontmatter tt a p s pr tid st d !! "override_reason" = None.
Proof. unfold base_frontmatter. by repeat split. Qed.

Lemma BuildCreateCommand_is_review pr d tid cfg tr f e :
  is_review (BuildCreateCommand pr d tid cfg tr f e) = true /\
  is_override (BuildCreateCommand pr d tid cfg tr f e) = false.
Proof.
  unfold is_review, is_override, task_type, BuildCreateCommand.
  destruct (Success tr); [destruct (negb f && _)|]; simpl;
    unfold buildHumanReviewFrontmatter, buildFrontmatter;
    rewrite (proj1 (base_frontmatter_lookup _ _ _ _ _ _ _ _)); done.
Qed.

Lemma BuildOverrideCommand_is_override pr d tid cfg :
  is_override (BuildOverrideCommand pr d tid cfg) = true /\
  is_review (BuildOverrideCommand pr d tid cfg) = false.
Proof.
  unfold is_review, is_override, task_type. simpl. unfold buildOverrideFrontmatter.
  rewrite (proj1 (base_frontmatter_lookup _ _ _ _ _ _ _ _)). done.
Qed.

Lemma BuildMechanicalOverrideCommand_is_override pr d tid cfg :
  is_override (BuildMechanicalOverrideCommand pr d tid cfg) = true /\
  is_review (BuildMechanicalOverrideCommand pr d tid cfg) = false.
Proof.
  unfold is_review, is_override, task_type. simpl. rewrite lookup_insert_ne by done.
  unfold buildOverrideFrontmatter. rewrite (proj1 (base_frontmatter_lookup _ _ _ _ _ _ _ _)). done.
Qed.

Lemma BuildCreateCommand_id pr d tid cfg tr forced e :
  TaskIdentifier (BuildCreateCommand pr d tid cfg tr forced e) = tid.
Proof. unfold BuildCreateCommand. by repeat case_match. Qed.

(** Which task a PR gets. A command is a review a reviewer pod will run
    exactly when the author is trusted and the PR is not over the size gate,
    or was forced; otherwise it waits for a human. Its reference is always
    the head commit and its identifier the derived one. *)
Theorem BuildCreateCommand_spec pr d tid cfg tr forced e :
  let cmd := BuildCreateCommand pr d tid cfg tr forced e in
  (is_runnable_review cmd = true <->
   Success tr = true /\
   (forced = true \/ oversized d e (MaxAdditions cfg) (MaxChangedFiles cfg) = false)) /\
  (is_runnable_review cmd = false -> phase cmd = Some "human_review") /\
  is_review cmd = true /\ is_override cmd = false /\
  Frontmatter cmd !! "ref" = Some (HeadSHA d) /\ TaskIdentifier cmd = tid.
Proof.
  cbn zeta.
  destruct (BuildCreateCommand_is_review pr d tid cfg tr forced e) as [-> ->].
  unfold is_runnable_review, task_type, phase, BuildCreateCommand.
  destruct (Success tr); [destruct forced;
    [|destruct (oversized d e (MaxAdditions cfg) (MaxChangedFiles cfg))]|]; simpl;
    unfold buildHumanReviewFrontmatter, buildFrontmatter;
    match goal with |- context [base_frontmatter ?a ?b ?c ?d ?e ?f ?g ?h] =>
      destruct (base_frontmatter_lookup a b c d e f g h) as (-> & _ & -> & _ & _ & -> & _) end;
    repeat split; try done; try (intros; congruence); intuition (try congruence).
Qed.

(** The two override tasks of a PR head share title and identifier, so
    the controller's title dedupe collapses them, and the mechanical one
    alone names its reason. *)
Theorem override_commands_collapse pr d tid cfg :
  let label := BuildOverrideCommand pr d tid cfg in
  let mech := BuildMechanicalOverrideCommand pr d tid cfg in
  c_Title mech = c_Title label /\ TaskIdentifier mech = TaskIdentifier label /\
  is_override mech = true /\ is_override label = true /\
  Frontmatter label !! "override_reason" = None /\
  Frontmatter mech !! "override_reason" = Some "trivial-bot-bump".
Proof.
  cbn zeta. destruct (BuildOverrideCommand_is_override pr d tid cfg) as [-> _].
  destruct (BuildMechanicalOverrideCommand_is_override pr d tid cfg) as [-> _].
  split_and!; try done.
Qed.
End commands.
