(* ===== verification/World.v ===== *)
(** * World: what the goroutines act on, and their requests

    Everything the program asks of its surroundings (the clock, the
    context, GitHub, Kafka, the cursor file, the metrics) is a [request], a
    type indexed by the answer it gets. A computation is a tree of atomic
    actions: requests, steps on the goroutine's own variables, methods of the
    coalescer, locks and accesses to what they guard. A [World] is what one
    goroutine sees: an environment that answers requests, the store of the
    ledgers, the coalescer, the goroutine's variables and the scanner's maps.
    Each request is appended, with its answer, to the world's trace.

    [runM] runs a tree alone. [wp m Q w] says of every way [m] may go from [w]
    in the company that the instance of [Sched] describes that it ends in [Q],
    with the segment of the trace it adds. A theorem over all [Sched]s speaks
    at once of a goroutine that runs alone in any environment ([solo]) and of
    one whose every finding others may have changed ([among]). *)
From S2P Require Import Prelude Coalesce Types GitHubApi SizeGate Commands.
Local Open Scope Z_scope.

(** ** Requests *)

(** [os.ReadFile]: [os.IsNotExist] is the one error the code tells apart. *)
Inductive file_read : Type := FileData (data : string) | FileMissing | FileError.

Inductive request : Type -> Type :=
(* the clock and the context *)
| Now : request DateTime
| CtxDone : request bool
(* GitHubClient *)
| SearchPRs (scope : string) (since : DateTime) (page : Z) : request (result SearchResult)
| SearchLabeledPRs (scope label : string) (page : Z) : request (result SearchResult)
| SearchOpenPRs (scope : string) (page : Z) : request (result SearchResult)
| GetPRDetails (owner repo : string) (number : Z) : request (result PRDetails)
| EnableAutoMerge (owner repo : string) (number : Z) : request (result unit)
| UpdateBranch (owner repo : string) (number : Z) : request (result unit)
| ClosePR (owner repo : string) (number : Z) (comment : string) : request (result unit)
| GetMaintainerConfig (owner repo : string) : request (result MaintainerConfig)
| GetReviewIgnore (owner repo : string) : request (result (option matcher))
| ListPRFiles (owner repo : string) (number : Z) : request (result (list PRFile))
| ListReviews (owner repo : string) (number : Z) : request (result (list Review))
| AddLabel (owner repo : string) (number : Z) (label : string) : request (result unit)
| PostCommitStatus (owner repo sha : string) (state : CommitState) (context : string)
  : request (result unit)
| RateLimitRemaining : request Z
| GetRateLimitCoreRemaining : request (result Z)
(* the GitHub API itself, below the client *)
| Api {A : Type} (q : api A) : request A
(* Kafka *)
| SendCreate (cmd : CreateCommand) : request (result unit)
| SendTrigger (cmd : TriggerPRReviewCommand) : request (result unit)
| SendStatus (cmd : SetDoNotMergeStatusCommand) : request (result unit)
(* the cursor file *)
| ReadFile (path : string) : request file_read
| WriteFile (path data : string) : request (result unit)
| Rename (old new : string) : request (result unit)
(* metrics *)
| IncPollCycle (result : string) : request unit
| IncPRPublished (command : string) : request unit
| IncWebhookDelivery (result : string) : request unit
| IncWebhookSignatureRejected : request unit
| ObserveWebhookDispatchLatency (latency : Duration) : request unit
| SetRateLimitRemaining (remaining : Z) : request unit
| SetUnreviewedPRs (prs : list UnreviewedPR) (scannedAt : DateTime) : request unit
| IncUnreviewedRetry (repo : string) : request unit.

(** A request with the answer it got. *)
Inductive event : Type :=
| Ev {A : Type} (q : request A) (answer : A).

(** An environment: any state that answers requests. *)
Class Env (E : Type) : Type := { serve : forall {A : Type}, request A -> E -> A * E }.

(** ** State *)

(** [Cursor] *)
Record Cursor : Type := mkCursor {
  LastUpdatedAt : DateTime;
  HeadSHAs : gmap string string;
  Deferrals : gmap string Z }.

(** [unreviewedRetry] *)
Record unreviewedRetry : Type := mkRetry {
  ur_prKey : string;
  attempts : Z;
  lastAttempt : DateTime }.

Definition zero_retry : unreviewedRetry := mkRetry "" 0 dt_zero.

(** What a poll keeps to itself: the cursor it loaded and the maps it mutates
    in place. *)
Record local : Type := mkLocal {
  cursorState : Cursor;
  newHeadSHAs : gmap string string;
  prDetailsCache : gmap string PRDetails;
  sideEffectsRun : gset string }.

(** The scanner's maps, shared by all polls and guarded by the scanner's mutex. *)
Record scanner_maps : Type := mkMaps {
  retryState : gmap string unreviewedRetry;
  reviewedCache : gmap string DateTime }.

Record World (E St : Type) : Type := mkWorld {
  env : E;
  trace : list event;                             (* oldest first *)
  db : St;                                        (* the in-process store *)
  coal : coalescer;
  loc : local;
  maps : scanner_maps }.
Arguments mkWorld {E St}.
Arguments env {E St}.
Arguments trace {E St}.
Arguments db {E St}.
Arguments coal {E St}.
Arguments loc {E St}.
Arguments maps {E St}.
Coercion loc : World >-> local.
Coercion maps : World >-> scanner_maps.

Definition set_HeadSHAs (m : gmap string string) (c : Cursor) : Cursor :=
  mkCursor (LastUpdatedAt c) m (Deferrals c).
Definition set_Deferrals (m : gmap string Z) (c : Cursor) : Cursor :=
  mkCursor (LastUpdatedAt c) (HeadSHAs c) m.
Definition set_LastUpdatedAt (t : DateTime) (c : Cursor) : Cursor :=
  mkCursor t (HeadSHAs c) (Deferrals c).

Definition set_cursor (c : Cursor) (l : local) : local :=
  mkLocal c (newHeadSHAs l) (prDetailsCache l) (sideEffectsRun l).
Definition set_newHeadSHAs (m : gmap string string) (l : local) : local :=
  mkLocal (cursorState l) m (prDetailsCache l) (sideEffectsRun l).
Definition set_prDetailsCache (m : gmap string PRDetails) (l : local) : local :=
  mkLocal (cursorState l) (newHeadSHAs l) m (sideEffectsRun l).
Definition set_sideEffectsRun (s : gset string) (l : local) : local :=
  mkLocal (cursorState l) (newHeadSHAs l) (prDetailsCache l) s.
Definition set_retryState (m : gmap string unreviewedRetry) (x : scanner_maps) : scanner_maps :=
  mkMaps m (reviewedCache x).
Definition set_reviewedCache (m : gmap string DateTime) (x : scanner_maps) : scanner_maps :=
  mkMaps (retryState x) m.

Section world.
Context {E St : Type}.
Implicit Types w : World E St.

Definition set_env (e : E) (t : list event) w : World E St :=
  mkWorld e t (db w) (coal w) (loc w) (maps w).
Definition set_db (s : St) w : World E St :=
  mkWorld (env w) (trace w) s (coal w) (loc w) (maps w).
Definition set_coal (c : coalescer) w : World E St :=
  mkWorld (env w) (trace w) (db w) c (loc w) (maps w).
Definition set_loc (l : local) w : World E St :=
  mkWorld (env w) (trace w) (db w) (coal w) l (maps w).
Definition set_maps (x : scanner_maps) w : World E St :=
  mkWorld (env w) (trace w) (db w) (coal w) (loc w) x.
End world.

(** ** Computations

    A computation is the tree of the atomic actions a goroutine may take: a
    request, with one branch per answer; a step on its own variables; a
    method of the coalescer, which its mutex makes atomic; the locks, and an
    access to what they guard. *)
Inductive action (St : Type) : Type -> Type :=
| Request {A : Type} (q : request A) : action St A
| Local {A : Type} (f : local -> A * local) : action St A
| Method {A : Type} (f : coalescer -> A * coalescer) : action St A
| Maps {A : Type} (f : scanner_maps -> A * scanner_maps) : action St A   (* under the scan mutex *)
| TryLock : action St bool                                       (* the scan mutex *)
| UnlockScan : action St unit
| Lock (write : bool) : action St unit                           (* the store's RWMutex *)
| Unlock (write : bool) : action St unit
| Access {A : Type} (f : St -> A * St) : action St A.            (* the store, under its lock *)
Arguments Request {St A}.
Arguments Local {St A}.
Arguments Method {St A}.
Arguments Maps {St A}.
Arguments TryLock {St}.
Arguments UnlockScan {St}.
Arguments Lock {St}.
Arguments Unlock {St}.
Arguments Access {St A}.

Inductive M (St A : Type) : Type :=
| Ret (a : A)
| Act {B : Type} (o : action St B) (k : B -> M St A).
Arguments Ret {St A}.
Arguments Act {St A B}.

Section monad.
Context {St : Type}.

Fixpoint tree_bind {A B} (k : A -> M St B) (m : M St A) : M St B :=
  match m with
  | Ret a => k a
  | Act o c => Act o (fun b => tree_bind k (c b))
  end.

#[global] Instance M_ret : MRet (M St) := @Ret St.
#[global] Instance M_bind : MBind (M St) := @tree_bind.

Definition act {A} (o : action St A) : M St A := Act o Ret.

Lemma act_eq {A} (o : action St A) : act o = Act o Ret.
Proof. done. Qed.

(** Make a request. *)
Definition call {A} (q : request A) : M St A := act (Request q).

(** Read the goroutine's own state, change it. *)
Definition gets {A} (f : local -> A) : M St A := act (Local (fun l => (f l, l))).
Definition modify (f : local -> local) : M St unit := act (Local (fun l => (tt, f l))).
Definition modify_cursor (f : Cursor -> Cursor) : M St unit :=
  modify (fun l => set_cursor (f (cursorState l)) l).

(** The same on the scanner's maps. *)
Definition gets_maps {A} (f : scanner_maps -> A) : M St A := act (Maps (fun x => (f x, x))).
Definition modify_maps (f : scanner_maps -> scanner_maps) : M St unit :=
  act (Maps (fun x => (tt, f x))).

(** A method of the coalescer. *)
Definition coalescer_call {A} (f : coalescer -> A * coalescer) : M St A := act (Method f).

(** A read and a write of the store inside a transaction. *)
Definition gets_db {A} (f : St -> A) : M St A := act (Access (fun s => (f s, s))).
Definition modify_db (f : St -> St) : M St unit := act (Access (fun s => (tt, f s))).

(** [db.Update] and [db.View]: the store is locked, for writing or reading,
    while the body runs. *)
Definition transaction {A} (write : bool) (m : M St A) : M St A :=
  act (Lock write);; a ← m; act (Unlock write);; mret a.
Definition db_Update {A} (m : M St A) : M St A := transaction true m.
Definition db_View {A} (m : M St A) : M St A := transaction false m.

(** ** Running alone

    With no other goroutine, every lock is free when it is asked for. *)
Definition perform {E} `{Env E} {A} (o : action St A) (w : World E St) : A * World E St :=
  match o in action _ A return A * World E St with
  | Request q =>
      let '(a, e) := serve q (env w) in (a, set_env e (trace w ++ [Ev q a]) w)
  | Local f => let '(a, l) := f (loc w) in (a, set_loc l w)
  | Method f => let '(a, c) := f (coal w) in (a, set_coal c w)
  | Maps f => let '(a, x) := f (maps w) in (a, set_maps x w)
  | TryLock => (true, w)
  | UnlockScan => (tt, w)
  | Lock _ => (tt, w)
  | Unlock _ => (tt, w)
  | Access f => let '(a, s) := f (db w) in (a, set_db s w)
  end.

Fixpoint runM {E} `{Env E} {A} (m : M St A) (w : World E St) : A * World E St :=
  match m with
  | Ret a => (a, w)
  | Act o k => let '(b, w') := perform o w in runM (k b) w'
  end.

Lemma runM_ret {E} `{Env E} {A} (a : A) (w : World E St) : runM (mret a) w = (a, w).
Proof. done. Qed.

Lemma runM_act {E} `{Env E} {A} (o : action St A) (w : World E St) : runM (act o) w = perform o w.
Proof. unfold act. simpl. by destruct (perform o w). Qed.

Lemma runM_call {E} `{Env E} {A} (q : request A) (w : World E St) :
  runM (call q) w = let '(a, e) := serve q (env w) in (a, set_env e (trace w ++ [Ev q a]) w).
Proof. apply (runM_act (Request q)). Qed.

Lemma runM_bind {E} `{Env E} {A B} (m : M St A) (k : A -> M St B) (w : World E St) :
  runM (m ≫= k) w = let '(a, w') := runM m w in runM (k a) w'.
Proof.
  unfold mbind, M_bind. revert w. induction m as [a|B' o c IH]; intros w; simpl; [done|].
  destruct (perform o w) as [b w1]. apply IH.
Qed.
End monad.

(** Proofs go through the rules below, not through the tree. *)
#[global] Opaque act.

(** ** What a goroutine may meet

    What an action finds depends on the company: what a request is answered,
    and what the goroutine finds in a shared component when it touches it. A
    [Sched] says what is possible; the world remembers each shared component
    as the goroutine last left it. *)
Class Sched (E St : Type) : Type := mkSched {
  says : World E St -> forall A, request A -> A -> E -> Prop;
  finds_coal : World E St -> coalescer -> Prop;
  finds_maps : World E St -> scanner_maps -> Prop;
  finds_db : World E St -> St -> Prop;
  finds_scan : World E St -> bool -> Prop }.              (* what [TryLock] returns *)

(** Alone: the environment answers, and everything is as it was left. *)
#[global] Instance solo {E St} `{EN : Env E} : Sched E St := mkSched E St
  (fun w _ q a e => serve q (env w) = (a, e))
  (fun w c => c = coal w) (fun w x => x = maps w) (fun w s => s = db w) (fun _ b => b = true).

(** Among any others: they may have changed whatever no lock of the
    goroutine's protects. [store_held], [scan_held]: the locks it has. *)
Definition among {St} (store_held scan_held : bool) : Sched unit St := mkSched unit St
  (fun _ _ _ _ _ => True) (fun _ _ => True)
  (fun w x => if scan_held then x = maps w else True)
  (fun w s => if store_held then s = db w else True)
  (fun _ _ => True).

(** The goroutine finds the store, the scanner's maps, as it left them. *)
Class StoreHeld {E St} (SC : Sched E St) : Prop := store_held w s : finds_db w s -> s = db w.
Class MapsHeld {E St} (SC : Sched E St) : Prop := maps_held w x : finds_maps w x -> x = maps w.

#[global] Instance solo_store {E St} `{EN : Env E} : StoreHeld (solo (St:=St)).
Proof. by intros w s. Qed.
#[global] Instance solo_maps {E St} `{EN : Env E} : MapsHeld (solo (St:=St)).
Proof. by intros w s. Qed.
#[global] Instance among_store {St} b : StoreHeld (among (St:=St) true b).
Proof. by intros w s. Qed.
#[global] Instance among_maps {St} b : MapsHeld (among (St:=St) b true).
Proof. by intros w s. Qed.

(** ** Reasoning

    [wp m Q w]: however [m] goes from [w] on, it ends with a result, the
    segment of requests it made and a world that satisfy [Q]. *)
Section wp.
Context {E St : Type} `{SC : Sched E St}.
Implicit Types w : World E St.

Definition may {A} (o : action St A) w : A -> World E St -> Prop :=
  match o in action _ A return A -> World E St -> Prop with
  | Request q => fun a w' => exists e, says w _ q a e /\ w' = set_env e (trace w ++ [Ev q a]) w
  | Local f => fun a w' => a = fst (f (loc w)) /\ w' = set_loc (snd (f (loc w))) w
  | Method f => fun a w' => exists c, finds_coal w c /\ a = fst (f c) /\ w' = set_coal (snd (f c)) w
  | Maps f => fun a w' => exists x, finds_maps w x /\ a = fst (f x) /\ w' = set_maps (snd (f x)) w
  | Access f => fun a w' => exists s, finds_db w s /\ a = fst (f s) /\ w' = set_db (snd (f s)) w
  | TryLock => fun b w' => finds_scan w b /\ w' = w
  | _ => fun _ w' => w' = w
  end.

(** What an action adds to the trace. *)
Definition logged {A} (o : action St A) : A -> list event :=
  match o in action _ A return A -> list event with
  | Request q => fun a => [Ev q a]
  | _ => fun _ => []
  end.

Fixpoint wp {A} (m : M St A) (Q : A -> list event -> World E St -> Prop) w : Prop :=
  match m with
  | Ret a => Q a [] w
  | Act o k => forall b w', may o w b w' -> wp (k b) (fun a s w'' => Q a (logged o b ++ s) w'') w'
  end.

Lemma wp_ret {A} (a : A) (Q : A -> list event -> World E St -> Prop) w : Q a [] w -> wp (mret a) Q w.
Proof. done. Qed.

Lemma wp_mono {A} (m : M St A) (P Q : A -> list event -> World E St -> Prop) w :
  wp m P w -> (forall a s w', P a s w' -> Q a s w') -> wp m Q w.
Proof.
  revert P Q w. induction m as [a|B o k IH]; intros P Q w HP HPQ; simpl in *; [auto|].
  intros b w' Hb. eapply IH; [by apply HP|]. eauto.
Qed.

(** What holds of anything. *)
Lemma wp_any {A} (m : M St A) (Q : A -> list event -> World E St -> Prop) w :
  (forall a s w', Q a s w') -> wp m Q w.
Proof. revert Q w. induction m as [a|B o k IH]; intros Q w HQ; simpl; [apply HQ|]. intros b w' _. by apply IH. Qed.

Lemma wp_bind {A B} (m : M St A) (k : A -> M St B) (Q : B -> list event -> World E St -> Prop) w :
  wp m (fun a s w1 => wp (k a) (fun b s' w2 => Q b (s ++ s') w2) w1) w ->
  wp (m ≫= k) Q w.
Proof.
  unfold mbind, M_bind. revert Q w. induction m as [a|B' o c IH]; intros Q w H; simpl in *; [done|].
  intros b w' Hb. apply IH. eapply wp_mono; [by apply H|]. cbn beta. intros a s w1 H1.
  eapply wp_mono; [exact H1|]. cbn beta. intros. by rewrite app_assoc.
Qed.

Lemma wp_conj {A} (m : M St A) (P Q : A -> list event -> World E St -> Prop) w :
  wp m P w -> wp m Q w -> wp m (fun a s w' => P a s w' /\ Q a s w') w.
Proof.
  revert P Q w. induction m as [a|B o k IH]; intros P Q w HP HQ; simpl in *; [auto|].
  intros b w' Hb. apply IH; auto.
Qed.

(** [m] may go from [w] to [w'], with the result [a] and the segment [s]. *)
Fixpoint ends {A} (m : M St A) w (a : A) (s : list event) (w' : World E St) : Prop :=
  match m with
  | Ret x => a = x /\ s = [] /\ w' = w
  | Act o k => exists b w1 s1, may o w b w1 /\ ends (k b) w1 a s1 w' /\ s = logged o b ++ s1
  end.

(** [wp] is about every such end. *)
Lemma wp_ends {A} (m : M St A) w : wp m (fun a s w' => ends m w a s w') w.
Proof.
  revert w. induction m as [a|B o k IH]; intros w; simpl; [done|]. intros b w1 Hb.
  eapply wp_mono; [apply IH|]. cbn beta. intros a s w' He. by exists b, w1, s.
Qed.

Lemma wp_iff {A} (m : M St A) (Q : A -> list event -> World E St -> Prop) w :
  wp m Q w <-> forall a s w', ends m w a s w' -> Q a s w'.
Proof.
  split; [|intros H; eapply wp_mono; [apply wp_ends|done]].
  revert Q w. induction m as [x|B o k IH]; intros Q w H a s w'; simpl in *; [by intros (-> & -> & ->)|].
  intros (b & w1 & s1 & Hb & He & ->). exact (IH b _ w1 (H b w1 Hb) a s1 w' He).
Qed.

(** One action: what it may meet. *)
Lemma wp_act {A} (o : action St A) (Q : A -> list event -> World E St -> Prop) w :
  (forall b w', may o w b w' -> Q b (logged o b) w') -> wp (act o) Q w.
Proof. rewrite act_eq. intros H b w' Hb. simpl. rewrite app_nil_r. by apply H. Qed.

Lemma wp_call {A} (q : request A) (Q : A -> list event -> World E St -> Prop) w :
  (forall a e, Q a [Ev q a] (set_env e (trace w ++ [Ev q a]) w)) -> wp (call q) Q w.
Proof. intros HQ. apply wp_act. intros a w' (e & _ & ->). apply HQ. Qed.

(** The same when the answer is known. *)
Lemma wp_call_as {A} (q : request A) a (Q : A -> list event -> World E St -> Prop) w :
  (forall b e, says w _ q b e -> b = a) ->
  (forall e, Q a [Ev q a] (set_env e (trace w ++ [Ev q a]) w)) -> wp (call q) Q w.
Proof. intros Ha HQ. apply wp_act. intros b w' (e & Hb & ->). rewrite (Ha b e Hb). apply HQ. Qed.

Lemma wp_gets {A} (f : local -> A) (Q : A -> list event -> World E St -> Prop) w :
  Q (f w) [] w -> wp (gets f) Q w.
Proof. intros HQ. apply wp_act. intros a w' [-> ->]. by destruct w. Qed.

Lemma wp_modify (f : local -> local) (Q : unit -> list event -> World E St -> Prop) w :
  Q tt [] (set_loc (f w) w) -> wp (modify f) Q w.
Proof. intros HQ. apply wp_act. by intros a w' [-> ->]. Qed.

(** The shared components, first when the goroutine has their lock. *)
Lemma wp_gets_maps `{!MapsHeld SC} {A} (f : scanner_maps -> A) (Q : A -> list event -> World E St -> Prop) w :
  Q (f w) [] w -> wp (gets_maps f) Q w.
Proof. intros HQ. apply wp_act. intros a w' (x & ->%maps_held & -> & ->). by destruct w. Qed.

Lemma wp_modify_maps `{!MapsHeld SC} (f : scanner_maps -> scanner_maps) (Q : unit -> list event -> World E St -> Prop) w :
  Q tt [] (set_maps (f w) w) -> wp (modify_maps f) Q w.
Proof. intros HQ. apply wp_act. by intros a w' (x & ->%maps_held & -> & ->). Qed.

Lemma wp_gets_db `{!StoreHeld SC} {A} (f : St -> A) (Q : A -> list event -> World E St -> Prop) w :
  Q (f (db w)) [] w -> wp (gets_db f) Q w.
Proof. intros HQ. apply wp_act. intros a w' (x & ->%store_held & -> & ->). by destruct w. Qed.

Lemma wp_modify_db `{!StoreHeld SC} (f : St -> St) (Q : unit -> list event -> World E St -> Prop) w :
  Q tt [] (set_db (f (db w)) w) -> wp (modify_db f) Q w.
Proof. intros HQ. apply wp_act. by intros a w' (x & ->%store_held & -> & ->). Qed.

Lemma wp_gets_db_any {A} (f : St -> A) (Q : A -> list event -> World E St -> Prop) w :
  (forall found, Q (f found) [] (set_db found w)) -> wp (gets_db f) Q w.
Proof. intros HQ. apply wp_act. intros a w' (s & _ & -> & ->). apply HQ. Qed.

Lemma wp_modify_db_any (f : St -> St) (Q : unit -> list event -> World E St -> Prop) w :
  (forall found, Q tt [] (set_db found w)) -> wp (modify_db f) Q w.
Proof. intros HQ. apply wp_act. intros [] w' (s & _ & _ & ->). apply HQ. Qed.

(** The coalescer [c'] a goroutine may find that left it as [c]. *)
Definition finds (c c' : coalescer) : Prop := exists w, coal w = c /\ finds_coal w c'.

Lemma wp_coalescer_any {A} (f : coalescer -> A * coalescer) (Q : A -> list event -> World E St -> Prop) w :
  (forall c, finds (coal w) c -> Q (fst (f c)) [] (set_coal (snd (f c)) w)) -> wp (coalescer_call f) Q w.
Proof. intros HQ. apply wp_act. intros a w' (c & Hc & -> & ->). apply HQ. by exists w. Qed.

Lemma wp_lock b (Q : unit -> list event -> World E St -> Prop) w : Q tt [] w -> wp (act (Lock b)) Q w.
Proof. intros HQ. apply wp_act. by intros [] w' ->. Qed.
Lemma wp_unlock b (Q : unit -> list event -> World E St -> Prop) w : Q tt [] w -> wp (act (Unlock b)) Q w.
Proof. intros HQ. apply wp_act. by intros [] w' ->. Qed.
Lemma wp_trylock_any (Q : bool -> list event -> World E St -> Prop) w :
  (forall b, Q b [] w) -> wp (act TryLock) Q w.
Proof. intros HQ. apply wp_act. intros b w' [_ ->]. apply HQ. Qed.
Lemma wp_unlock_scan (Q : unit -> list event -> World E St -> Prop) w : Q tt [] w -> wp (act UnlockScan) Q w.
Proof. intros HQ. apply wp_act. by intros [] w' ->. Qed.

(** A transaction is its body. *)
Lemma wp_transaction {A} b (m : M St A) (Q : A -> list event -> World E St -> Prop) w :
  wp m Q w -> wp (transaction b m) Q w.
Proof.
  intros H. apply wp_bind, wp_lock, wp_bind. eapply wp_mono; [exact H|]. intros a s w' HQ.
  apply wp_bind, wp_unlock, wp_ret. simpl. by rewrite app_nil_r.
Qed.
End wp.

(** ** Running alone, again *)
Section alone.
Context {E St : Type} `{EN : Env E}.
Implicit Types w : World E St.

Lemma may_alone {A} (o : action St A) w b w' : may o w b w' <-> perform o w = (b, w').
Proof.
  destruct o as [A q|A f|A f|A f| | | | |A f]; simpl.
  - destruct (serve q (env w)) as [a e] eqn:Hs. split; [|intros [= -> <-]; by exists e].
    by intros (? & [= -> ->] & ->).
  - destruct (f (loc w)) as [a l]. split; [by intros [-> ->]|by intros [= -> <-]].
  - split; [intros (? & -> & -> & ->); by destruct (f (coal w))|].
    destruct (f (coal w)) as [a c] eqn:Hf. intros [= -> <-]. exists (coal w). by rewrite Hf.
  - split; [intros (? & -> & -> & ->); by destruct (f (maps w))|].
    destruct (f (maps w)) as [a c] eqn:Hf. intros [= -> <-]. exists (maps w). by rewrite Hf.
  - split; [by intros [-> ->]|by intros [= <- <-]].
  - destruct b. split; [by intros ->|by intros [= <-]].
  - destruct b. split; [by intros ->|by intros [= <-]].
  - destruct b. split; [by intros ->|by intros [= <-]].
  - split; [intros (? & -> & -> & ->); by destruct (f (db w))|].
    destruct (f (db w)) as [a c] eqn:Hf. intros [= -> <-]. exists (db w). by rewrite Hf.
Qed.

Lemma perform_logs {A} (o : action St A) w :
  trace (snd (perform o w)) = trace w ++ logged o (fst (perform o w)).
Proof.
  destruct o as [A q|A f|A f|A f| | | | |A f]; simpl; rewrite ?app_nil_r; try done.
  - by destruct (serve q (env w)).
  - by destruct (f (loc w)).
  - by destruct (f (coal w)).
  - by destruct (f (maps w)).
  - by destruct (f (db w)).
Qed.

(** A goroutine alone runs its tree: the segment is what it added to the trace. *)
Lemma wp_alone {A} (m : M St A) (Q : A -> list event -> World E St -> Prop) w :
  wp m Q w <-> exists s, trace (snd (runM m w)) = trace w ++ s /\ Q (fst (runM m w)) s (snd (runM m w)).
Proof.
  revert Q w. induction m as [a|B o k IH]; intros Q w; simpl.
  - split; [intros HQ; exists []; by rewrite app_nil_r|].
    intros (s & Hs & HQ). rewrite <- (app_nil_r (trace w)) in Hs at 1. by apply app_inv_head in Hs as <-.
  - pose proof (perform_logs o w) as Hl. destruct (perform o w) as [b w'] eqn:Ho. simpl in Hl. split.
    + intros H. apply may_alone, H, IH in Ho as (s & Ht & HQ). exists (logged o b ++ s).
      split; [|done]. by rewrite Ht, Hl, app_assoc.
    + intros (s & Ht & HQ) b' w1 Hb. apply may_alone in Hb. rewrite Ho in Hb. injection Hb as <- <-.
      apply IH. destruct (proj1 (IH b (fun _ _ _ => True) w')) as (s' & Hs' & _).
      { by apply wp_any. }
      exists s'. split; [done|]. rewrite Hs', Hl, <- app_assoc in Ht. by apply app_inv_head in Ht as <-.
Qed.

Lemma finds_alone c c' : finds (E:=E) (St:=St) c c' -> c' = c.
Proof. by intros (w & <- & ->). Qed.

(** The rules only this company has. *)
Lemma wp_coalescer {A} (f : coalescer -> A * coalescer) (Q : A -> list event -> World E St -> Prop) w :
  Q (fst (f (coal w))) [] (set_coal (snd (f (coal w))) w) -> wp (coalescer_call f) Q w.
Proof. intros HQ. apply wp_act. by intros a w' (c & -> & -> & ->). Qed.
Lemma wp_trylock (Q : bool -> list event -> World E St -> Prop) w : Q true [] w -> wp (act TryLock) Q w.
Proof. intros HQ. apply wp_act. by intros b w' [-> ->]. Qed.
Lemma wp_serve {A} (q : request A) a (Q : A -> list event -> World E St -> Prop) w :
  fst (serve q (env w)) = a ->
  (forall e, Q a [Ev q a] (set_env e (trace w ++ [Ev q a]) w)) -> wp (call q) Q w.
Proof. intros Ha HQ. apply (wp_call_as q a); [|done]. simpl. intros b e Hb. by rewrite <- Ha, Hb. Qed.

Lemma wp_call_alone {A} (q : request A) (Q : A -> list event -> World E St -> Prop) w :
  (forall a e, serve q (env w) = (a, e) -> Q a [Ev q a] (set_env e (trace w ++ [Ev q a]) w)) ->
  wp (call q) Q w.
Proof. intros HQ. apply wp_act. intros a w' (e & Hs & ->). by apply HQ. Qed.

Lemma wp_run {A} (m : M St A) (Q : A -> list event -> World E St -> Prop) w a w' :
  wp m Q w -> runM m w = (a, w') -> exists s, trace w' = trace w ++ s /\ Q a s w'.
Proof. intros (s & Ht & HQ)%wp_alone Hm. rewrite Hm in *. by exists s. Qed.
End alone.

(** A world that differs from [w] only in its environment and its trace. *)
Section frame.
Context {E St : Type}.

Definition same_state (w w' : World E St) : Prop := exists e t, w' = set_env e t w.

#[global] Instance same_state_refl : Reflexive same_state.
Proof. intros []. by do 2 eexists. Qed.
#[global] Instance same_state_trans : Transitive same_state.
Proof. intros w ? ? (e & t & ->) (e' & t' & ->). by exists e', t'. Qed.

Lemma same_state_env e t (w : World E St) : same_state w (set_env e t w).
Proof. by exists e, t. Qed.
End frame.

(** ** What a segment of the trace did *)

(** The task commands handed to Kafka, with whether the send succeeded. *)
Definition create_of (ev : event) : list (CreateCommand * bool) :=
  match ev with
  | Ev q a =>
      match q in request A return A -> list (CreateCommand * bool) with
      | SendCreate cmd => fun r => [(cmd, is_Ok r)]
      | _ => fun _ => []
      end a
  end.

Definition creates (s : list event) : list (CreateCommand * bool) := s ≫= create_of.

(** The writes to GitHub, with whether they succeeded. *)
Inductive github_write : Type :=
| WEnableAutoMerge (owner repo : string) (number : Z)
| WUpdateBranch (owner repo : string) (number : Z)
| WClosePR (owner repo : string) (number : Z)
| WAddLabel (owner repo : string) (number : Z) (label : string)
| WPostCommitStatus (owner repo sha : string) (state : CommitState) (context : string).

Definition write_of (ev : event) : list (github_write * bool) :=
  match ev with
  | Ev q a =>
      match q in request A return A -> list (github_write * bool) with
      | EnableAutoMerge o r n => fun b => [(WEnableAutoMerge o r n, is_Ok b)]
      | UpdateBranch o r n => fun b => [(WUpdateBranch o r n, is_Ok b)]
      | ClosePR o r n _ => fun b => [(WClosePR o r n, is_Ok b)]
      | AddLabel o r n l => fun b => [(WAddLabel o r n l, is_Ok b)]
      | PostCommitStatus o r sha st c => fun b => [(WPostCommitStatus o r sha st c, is_Ok b)]
      | _ => fun _ => []
      end a
  end.

Definition writes (s : list event) : list (github_write * bool) := s ≫= write_of.

(** The scan results published on the unreviewed gauge. *)
Definition gauge_of (ev : event) : list (list UnreviewedPR) :=
  match ev with
  | Ev q a =>
      match q in request A return A -> list (list UnreviewedPR) with
      | SetUnreviewedPRs prs _ => fun _ => [prs]
      | _ => fun _ => []
      end a
  end.

Definition gauges (s : list event) : list (list UnreviewedPR) := s ≫= gauge_of.

Lemma gauges_app s t : gauges (s ++ t) = gauges s ++ gauges t.
Proof. apply bind_app. Qed.
Lemma gauges_cons ev s : gauges (ev :: s) = gauge_of ev ++ gauges s.
Proof. done. Qed.
Lemma gauges_nil : gauges [] = [].
Proof. done. Qed.

Lemma creates_app s t : creates (s ++ t) = creates s ++ creates t.
Proof. apply bind_app. Qed.
Lemma creates_cons ev s : creates (ev :: s) = create_of ev ++ creates s.
Proof. done. Qed.
Lemma writes_app s t : writes (s ++ t) = writes s ++ writes t.
Proof. apply bind_app. Qed.
Lemma writes_cons ev s : writes (ev :: s) = write_of ev ++ writes s.
Proof. done. Qed.

Lemma creates_nil : creates [] = [].
Proof. done. Qed.
Lemma writes_nil : writes [] = [].
Proof. done. Qed.

Create Rewrite HintDb segment.
#[export] Hint Rewrite creates_app writes_app creates_cons writes_cons creates_nil writes_nil
  gauges_app gauges_cons gauges_nil @app_nil_r : segment.

(** Nothing sent and nothing written. *)
Definition quiet (s : list event) : Prop := creates s = [] /\ writes s = [].

Lemma quiet_nil : quiet [].
Proof. done. Qed.
Lemma quiet_app s t : quiet s -> quiet t -> quiet (s ++ t).
Proof.
  intros [Hs Hs'] [Ht Ht']. unfold quiet.
  by rewrite creates_app, writes_app, Hs, Hs', Ht, Ht'.
Qed.

(** ** Automation *)

(** One step of symbolic execution of a computation under [wp]. *)
Ltac wp_step :=
  lazymatch goal with
  | |- wp (mret _) _ _ => apply wp_ret
  | |- wp (mbind _ _) _ _ => apply wp_bind
  | |- wp (call _) _ _ => apply wp_call; intros ? ?
  | |- wp (gets _) _ _ => apply wp_gets
  | |- wp (gets_maps _) _ _ => apply wp_gets_maps
  | |- wp (gets_db _) _ _ => first [apply wp_gets_db | apply wp_gets_db_any; intros ?]
  | |- wp (coalescer_call _) _ _ => first [apply wp_coalescer | apply wp_coalescer_any; intros ? ?]
  | |- wp (modify _) _ _ => apply wp_modify
  | |- wp (modify_cursor _) _ _ => apply wp_modify
  | |- wp (modify_maps _) _ _ => apply wp_modify_maps
  | |- wp (modify_db _) _ _ => first [apply wp_modify_db | apply wp_modify_db_any; intros ?]
  | |- wp (db_Update _) _ _ => apply wp_transaction
  | |- wp (db_View _) _ _ => apply wp_transaction
  | |- wp (act TryLock) _ _ => first [apply wp_trylock | apply wp_trylock_any; intros ?]
  | |- wp (act UnlockScan) _ _ => apply wp_unlock_scan
  | |- wp (match ?x with _ => _ end) _ _ => destruct x eqn:?
  | |- wp ((match ?x with _ => _ end) _) _ _ => destruct x eqn:?
  end; cbn beta.

Ltac wp_steps := repeat wp_step.

(** What a concatenation of segments did, from what its parts did. *)
Ltac seg :=
  unfold quiet in *; destruct_and?; autorewrite with segment in *; cbn [create_of write_of gauge_of app];
  repeat match goal with
  | H : creates ?s = _ |- context [creates ?s] => rewrite H
  | H : writes ?s = _ |- context [writes ?s] => rewrite H
  | H : gauges ?s = _ |- context [gauges ?s] => rewrite H
  end; cbn [app]; autorewrite with segment.

(** Use a specification of a computation that is not unfolded. *)
Tactic Notation "wp_use" uconstr(H) := eapply wp_mono; [apply H|]; cbn beta.

(** A world reached by requests alone has the state it started with. *)
Ltac frame :=
  repeat match goal with H : same_state _ _ |- _ => destruct H as (? & ? & ->) end;
  first [reflexivity | by do 2 eexists].

(** An event is in a segment that lists it. *)
Ltac in_segment := repeat first [apply list_elem_of_here | apply list_elem_of_further].
