(* ===== verification/Code.v ===== *)
(** * Code: which actions a computation may take

    [every P m]: each action that the tree [m] can come to satisfies [P],
    whatever it is answered. It is what the code says before anything is run:
    that a program makes no request of some kind, or takes no lock. *)
From S2P Require Import Prelude Coalesce Types World.
Local Open Scope Z_scope.

Section every.
Context {St : Type}.

Fixpoint every (P : forall A, action St A -> Prop) {A} (m : M St A) : Prop :=
  match m with
  | Ret _ => True
  | Act o k => P _ o /\ forall x, every P (k x)
  end.

Context (P : forall A, action St A -> Prop).

Lemma every_ret {A} (a : A) : every P (mret a : M St A).
Proof. done. Qed.
Lemma every_act {A} (o : action St A) : P A o -> every P (act o).
Proof. rewrite act_eq. by split. Qed.
Lemma every_bind {A B} (m : M St A) (k : A -> M St B) :
  every P m -> (forall a, every P (k a)) -> every P (m ≫= k).
Proof.
  unfold mbind, M_bind. intros Hm Hk. induction m as [a|B' o n IH]; simpl; [apply Hk|].
  destruct Hm as [Ho Hn]. split; [done|]. intros x. apply IH, Hn.
Qed.
Lemma every_transaction {A} b (m : M St A) :
  P unit (Lock b) -> P unit (Unlock b) -> every P m -> every P (transaction b m).
Proof.
  intros Hl Hu Hm. apply every_bind; [by apply every_act|]. intros _. apply every_bind; [done|]. intros a.
  apply every_bind; [by apply every_act|]. intros _. done.
Qed.
End every.

Lemma every_mono {St A} (P P' : forall A, action St A -> Prop) (m : M St A) :
  (forall A (o : action St A), P A o -> P' A o) -> every P m -> every P' m.
Proof. intros H. induction m as [a|B o k IH]; simpl; [done|]. intros [Ho Hk]. split; auto. Qed.

Lemma every_and {St A} (P P' : forall A, action St A -> Prop) (m : M St A) :
  every P m -> every P' m -> every (fun A o => P A o /\ P' A o) m.
Proof. induction m as [a|B o k IH]; simpl; [done|]. intros [] []. split; auto. Qed.

Create HintDb every.

(** Symbolic execution under [every]: a construct, what is already known of a
    computation, or its definition. The condition is decided action by
    action. *)
Ltac every_step :=
  lazymatch goal with
  | |- every _ (mret _) => apply every_ret
  | |- every _ (mbind _ _) => apply every_bind; [|intros ?]
  | |- every _ (call _) => apply every_act; solve [exact I | done | eauto with every]
  | |- every _ (act _) => apply every_act; solve [exact I | done | eauto with every]
  | |- every _ (gets _) => apply every_act; exact I
  | |- every _ (modify _) => apply every_act; exact I
  | |- every _ (modify_cursor _) => apply every_act; exact I
  | |- every _ (gets_maps _) => apply every_act; solve [exact I | done | eauto with every]
  | |- every _ (modify_maps _) => apply every_act; solve [exact I | done | eauto with every]
  | |- every _ (gets_db _) => apply every_act; solve [exact I | done | eauto with every]
  | |- every _ (modify_db _) => apply every_act; solve [exact I | done | eauto with every]
  | |- every _ (coalescer_call _) => apply every_act; solve [exact I | done | eauto with every]
  | |- every _ (transaction _ _) => apply every_transaction; [done|done|]
  | |- every _ (db_Update _) => apply every_transaction; [done|done|]
  | |- every _ (db_View _) => apply every_transaction; [done|done|]
  | |- every _ (match ?x with _ => _ end) => destruct x eqn:?
  | |- every _ ((match ?x with _ => _ end) _) => destruct x eqn:?
  | |- every _ (let _ := _ in _) => cbv zeta
  | |- every _ ?m =>
      first [ solve [eauto 3 with every nocore]
            | let rec head t := lazymatch t with ?f _ => head f | _ => t end in
              let h := head m in progress unfold h ]
  end; cbn beta.
Ltac every_steps := repeat every_step.

(** ** What it logs *)

Definition event_ok {St} (P : forall A, action St A -> Prop) (ev : event) : Prop :=
  match ev with Ev q _ => P _ (Request q) end.

Lemma wp_every {E St} `{SC : Sched E St} (P : forall A, action St A -> Prop) {A} (m : M St A) w :
  every P m -> wp m (fun _ s _ => Forall (event_ok P) s) w.
Proof.
  revert w. induction m as [a|B o k IH]; intros w; simpl; [constructor|].
  intros [Ho Hk] b w' _. eapply wp_mono; [by apply IH|]. intros a s w2 Hs. cbn beta.
  apply Forall_app. split; [|done]. destruct o; try constructor; [done|constructor].
Qed.

#[global] Arguments every : simpl never.
