(* ===== verification/Concurrent.v ===== *)
(** * Concurrent: many goroutines on one state

    World.v gives the program as trees of atomic actions. Here a pool of
    goroutines runs such trees over the state they share: the store behind
    its read-write mutex, the coalescer with the runtime's timers and clock,
    and the scanner's maps behind the scan mutex. A step of the pool is one
    action of any goroutine, a goroutine that starts, the passage of time, or
    a timer that expires and starts its callback. Requests are answered by
    anything; the clock alone answers with the runtime's time. *)
From S2P Require Import Prelude Coalesce Types GitHubApi World.
Local Open Scope Z_scope.

(** ** Goroutines *)

(** The callback of a timer runs in a goroutine of its own. *)
Inductive tid : Type := Go (n : nat) | Fire (t : timer_id).

#[export] Instance tid_eq_dec : EqDecision tid.
Proof. solve_decision. Defined.
#[export] Instance tid_countable : Countable tid.
Proof.
  refine (inj_countable' (fun i => match i with Go n => inl n | Fire t => inr t end)
            (fun x => match x with inl n => Go n | inr t => Fire t end) _). by intros [].
Defined.

Record thread (St : Type) : Type := mkThread { th_code : M St unit; th_local : local }.
Arguments mkThread {St}.
Arguments th_code {St}.
Arguments th_local {St}.

(** A goroutine starts with zero values. *)
Definition local0 : local := mkLocal (mkCursor dt_zero ∅ ∅) ∅ ∅ ∅.

(** ** What they share *)

(** [sync.RWMutex]: one writer or any number of readers. *)
Record rwmutex : Type := mkRW { rw_writer : option tid; rw_readers : gset tid }.

Definition rw_free (m : rwmutex) : Prop := rw_writer m = None /\ rw_readers m = ∅.

Record shared (St : Type) : Type := mkShared {
  sh_db : St;
  sh_rw : rwmutex;                     (* memDB.mu *)
  sh_coal : coalescer;                 (* with the runtime's clock and timers *)
  sh_maps : scanner_maps;
  sh_scan : option tid;                (* unreviewedScanner.mu *)
  sh_trace : list (tid * event) }.     (* oldest first *)
Arguments mkShared {St}.
Arguments sh_db {St}.
Arguments sh_rw {St}.
Arguments sh_coal {St}.
Arguments sh_maps {St}.
Arguments sh_scan {St}.
Arguments sh_trace {St}.

Section shared.
Context {St : Type}.
Implicit Types σ : shared St.

Definition now_of σ : DateTime := clock (sh_coal σ).

Definition put_db (s : St) σ : shared St :=
  mkShared s (sh_rw σ) (sh_coal σ) (sh_maps σ) (sh_scan σ) (sh_trace σ).
Definition put_rw (m : rwmutex) σ : shared St :=
  mkShared (sh_db σ) m (sh_coal σ) (sh_maps σ) (sh_scan σ) (sh_trace σ).
Definition put_coal (c : coalescer) σ : shared St :=
  mkShared (sh_db σ) (sh_rw σ) c (sh_maps σ) (sh_scan σ) (sh_trace σ).
Definition put_maps (x : scanner_maps) σ : shared St :=
  mkShared (sh_db σ) (sh_rw σ) (sh_coal σ) x (sh_scan σ) (sh_trace σ).
Definition put_scan (o : option tid) σ : shared St :=
  mkShared (sh_db σ) (sh_rw σ) (sh_coal σ) (sh_maps σ) o (sh_trace σ).
Definition log (i : tid) (ev : event) σ : shared St :=
  mkShared (sh_db σ) (sh_rw σ) (sh_coal σ) (sh_maps σ) (sh_scan σ) (sh_trace σ ++ [(i, ev)]).

(** ** Steps *)

(** What a request may be answered. *)
Definition answers {A} (q : request A) σ : A -> Prop :=
  match q in request A return A -> Prop with
  | Now => fun t => t = now_of σ
  | _ => fun _ => True
  end.

(** One action of the goroutine [i]: its answer and the state after it. A
    lock that is taken has no step. *)
Definition atomic (i : tid) {A} (o : action St A) (l : local) σ : A -> local -> shared St -> Prop :=
  match o in action _ A return A -> local -> shared St -> Prop with
  | Request q => fun a l' σ' => answers q σ a /\ l' = l /\ σ' = log i (Ev q a) σ
  | Local f => fun a l' σ' => a = fst (f l) /\ l' = snd (f l) /\ σ' = σ
  | Method f => fun a l' σ' =>
      a = fst (f (sh_coal σ)) /\ l' = l /\ σ' = put_coal (snd (f (sh_coal σ))) σ
  | Maps f => fun a l' σ' =>
      a = fst (f (sh_maps σ)) /\ l' = l /\ σ' = put_maps (snd (f (sh_maps σ))) σ
  | TryLock => fun a l' σ' => l' = l /\
      match sh_scan σ with
      | None => a = true /\ σ' = put_scan (Some i) σ
      | Some _ => a = false /\ σ' = σ
      end
  | UnlockScan => fun _ l' σ' => l' = l /\ σ' = put_scan None σ
  | Lock true => fun _ l' σ' =>
      rw_free (sh_rw σ) /\ l' = l /\ σ' = put_rw (mkRW (Some i) ∅) σ
  | Lock false => fun _ l' σ' =>
      rw_writer (sh_rw σ) = None /\ l' = l /\
      σ' = put_rw (mkRW None ({[i]} ∪ rw_readers (sh_rw σ))) σ
  | Unlock true => fun _ l' σ' => l' = l /\ σ' = put_rw (mkRW None (rw_readers (sh_rw σ))) σ
  | Unlock false => fun _ l' σ' =>
      l' = l /\ σ' = put_rw (mkRW (rw_writer (sh_rw σ)) (rw_readers (sh_rw σ) ∖ {[i]})) σ
  | Access f => fun a l' σ' =>
      a = fst (f (sh_db σ)) /\ l' = l /\ σ' = put_db (snd (f (sh_db σ))) σ
  end.

(** The next action of a tree. *)
Definition advance (i : tid) (th : thread St) σ (th' : thread St) (σ' : shared St) : Prop :=
  match th_code th with
  | Ret _ => False
  | Act o k => exists b, atomic i o (th_local th) σ b (th_local th') σ' /\ th_code th' = k b
  end.

Record pool : Type := mkPool { p_shared : shared St; p_threads : gmap tid (thread St) }.

(** [spawns]: the computations that may start at any time; [callback]: the
    code of a timer's goroutine. *)
Context (spawns : M St unit -> Prop) (run_callback : timer_id -> callback -> M St unit).

Definition start_callback (t : timer_id) (cb : callback) (c : coalescer) : coalescer :=
  set_timers (<[t := start cb]> (timers c)) c.

Inductive pstep : pool -> pool -> Prop :=
| p_act i th th' σ σ' ths :
    ths !! i = Some th -> advance i th σ th' σ' ->
    pstep (mkPool σ ths) (mkPool σ' (<[i := th']> ths))
| p_spawn n m σ ths :
    spawns m -> ths !! Go n = None ->
    pstep (mkPool σ ths) (mkPool σ (<[Go n := mkThread m local0]> ths))
| p_tick t σ ths :
    now_of σ <= t -> pstep (mkPool σ ths) (mkPool (put_coal (set_clock t (sh_coal σ)) σ) ths)
| p_expire t cb σ ths :
    timers (sh_coal σ) !! t = Some cb -> cb_started cb = false -> cb_due cb <= now_of σ ->
    pstep (mkPool σ ths)
      (mkPool (put_coal (start_callback t cb (sh_coal σ)) σ)
         (<[Fire t := mkThread (run_callback t cb) local0]> ths)).
End shared.
Arguments pool : clear implicits.
