(* ===== verification/Publisher.v ===== *)
(** * Publisher: the one way a poll or a scan publishes a task (pkg/watcher.go)

    [taskPublisher] is modelled as main.go and the factory build it: with a
    GitHub client, a publish recorder and an override ledger, so the branches
    for a publisher that lacks one are not reached. Its contract towards the
    poll loop and the scanner is the class [TaskPublisher], which their
    theorems are proved against; the instance at the end of the file
    discharges it. *)
From S2P Require Import Prelude GoStrings KV Ledger Types Titles Trust Coalesce SizeGate Commands World.
Local Open Scope Z_scope.

(** [trust.PR{...}] of a PR and its details. *)
Definition trust_pr (pr : PullRequest) (details : PRDetails) : TrustPR :=
  mkTrustPR (AuthorLogin pr) (HeadRepoFullName details) (BaseRepoFullName details).

(** The ledger key of a PR at its head. *)
Definition guard_pr (pr : PullRequest) (details : PRDetails) : RetryGuardPR :=
  mkPR (Owner pr) (Repo pr) (Number pr) (HeadSHA details).

(** Two worlds that differ at most in environment, trace and ledgers: what a
    publisher may change. *)
Definition same_but_db {E St} (w w' : World E St) : Prop :=
  exists e t s, w' = set_env e t (set_db s w).

(** ** The contract *)

Class TaskPublisher (St : Type) : Type := mkTaskPublisher {
  PublishCreate : PullRequest -> string -> PRDetails -> M St bool;
  PublishOverride : PullRequest -> string -> PRDetails -> M St (bool * bool);
  PublishMechanicalOverride : PullRequest -> string -> PRDetails -> M St bool }.

(** A publish reports whether exactly one command of its kind reached Kafka,
    and touches nothing but the ledgers. *)
Class TaskPublisherLaws {E St} `{SC : Sched E St} (P : TaskPublisher St) : Prop := {
  PublishCreate_law pr tid d w :
    wp (PublishCreate pr tid d) (fun ok s w' =>
      same_but_db w w' /\ writes s = [] /\
      (creates s = [] /\ ok = false \/
       exists cmd, creates s = [(cmd, ok)] /\ is_review cmd = true /\
         TaskIdentifier cmd = tid)) w;
  PublishCreate_gauges pr tid d w : wp (PublishCreate pr tid d) (fun _ s _ => gauges s = []) w;
  PublishOverride_law pr tid d w :
    wp (PublishOverride pr tid d) (fun he s w' =>
      same_but_db w w' /\ writes s = [] /\
      (creates s = [] /\ he = (false, false) \/
       exists cmd ok, creates s = [(cmd, ok)] /\ he = (true, ok) /\ is_override cmd = true /\
         TaskIdentifier cmd = tid)) w;
  PublishMechanicalOverride_law pr tid d w :
    wp (PublishMechanicalOverride pr tid d) (fun ok s w' =>
      same_but_db w w' /\ writes s = [] /\
      exists cmd, creates s = [(cmd, ok)] /\ is_override cmd = true /\
        Frontmatter cmd !! "override_reason" = Some "trivial-bot-bump" /\
        TaskIdentifier cmd = tid) w }.

(** ** The implementation *)
Section publisher.
Context `{K : KV St Hd It} `{C : RecordCodec} `{U : UnicodeTables} `{G : GitIgnore}.

(** [overrideLedger.Suppressed] and [Record], [publishRecorder.RecordPublish]
    against the world's store, one transaction each. The clock is read at the
    start; [fresh] reads it only when there is a record to compare with. *)
Definition ledger_Suppressed (pr : RetryGuardPR) : M St bool :=
  db_View (now ← call Now; gets_db (Suppressed now pr)).
Definition ledger_Record (pr : RetryGuardPR) (taskID : string) : M St unit :=
  db_Update (now ← call Now; modify_db (Record_override now pr taskID)).
Definition recorder_RecordPublish (pr : RetryGuardPR) (taskID : string) : M St unit :=
  db_Update (now ← call Now; modify_db (RecordPublish now pr taskID)).

Definition ReviewIgnoreExclusion (owner repo : string) (number : Z) : M St Exclusion :=
  m ← call (GetReviewIgnore owner repo);
  match m with
  | Err _ => mret zero_exclusion
  | Ok None => mret zero_exclusion
  | Ok (Some m) =>
      if Empty m then mret zero_exclusion
      else
        files ← call (ListPRFiles owner repo number);
        match files with
        | Err _ => mret zero_exclusion
        | Ok files => mret (ComputeExclusion files (Some m))
        end
  end.

Context (trustDecision : Trust.Trust) (cfg : TaskConfig).

Definition suppressedByOverride (pr : PullRequest) (details : PRDetails) : M St bool :=
  b ← ledger_Suppressed (guard_pr pr details);
  if (b : bool) then call (IncPRPublished "override_owns_sha");; mret true else mret false.

Definition recordOverride (pr : PullRequest) (taskIDStr : string) (details : PRDetails)
  : M St unit := ledger_Record (guard_pr pr details) taskIDStr.

Definition recordPublished (pr : PullRequest) (taskIDStr : string) (details : PRDetails)
  : M St unit := recorder_RecordPublish (guard_pr pr details) taskIDStr.

Definition publisher_PublishCreate (pr : PullRequest) (taskIDStr : string) (details : PRDetails)
  : M St bool :=
  suppressed ← suppressedByOverride pr details;
  if (suppressed : bool) then mret false
  else
    match trustDecision (trust_pr pr details) with
    | Err _ => call (IncPRPublished "error");; mret false
    | Ok trustResult =>
        exclusion ← ReviewIgnoreExclusion (Owner pr) (Repo pr) (Number pr);
        let cmd := BuildCreateCommand pr details taskIDStr cfg trustResult false exclusion in
        sent ← call (SendCreate cmd);
        match sent with
        | Err _ => call (IncPRPublished "error");; mret false
        | Ok _ =>
            let parked := Success trustResult &&
              oversized details exclusion (MaxAdditions cfg) (MaxChangedFiles cfg) in
            call (IncPRPublished (if parked then "parked" else "create"));;
            recordPublished pr taskIDStr details;;
            mret true
        end
    end.

Definition publisher_PublishOverride (pr : PullRequest) (taskIDStr : string) (details : PRDetails)
  : M St (bool * bool) :=
  match trustDecision (trust_pr pr details) with
  | Err _ => call (IncPRPublished "error");; mret (false, false)
  | Ok trustResult =>
      if negb (Success trustResult) then
        call (IncPRPublished "override_skipped");; mret (false, false)
      else
        sent ← call (SendCreate (BuildOverrideCommand pr details taskIDStr cfg));
        match sent with
        | Err _ => call (IncPRPublished "error");; mret (true, false)
        | Ok _ =>
            call (IncPRPublished "override");;
            recordOverride pr taskIDStr details;;
            mret (true, true)
        end
  end.

Definition publisher_PublishMechanicalOverride (pr : PullRequest) (taskIDStr : string)
    (details : PRDetails) : M St bool :=
  sent ← call (SendCreate (BuildMechanicalOverrideCommand pr details taskIDStr cfg));
  match sent with
  | Err _ => call (IncPRPublished "error");; mret false
  | Ok _ =>
      call (IncPRPublished "override_mechanical");;
      recordOverride pr taskIDStr details;;
      mret true
  end.

#[export] Instance taskPublisher : TaskPublisher St :=
  {| PublishCreate := publisher_PublishCreate;
     PublishOverride := publisher_PublishOverride;
     PublishMechanicalOverride := publisher_PublishMechanicalOverride |}.
End publisher.

Section laws.
Context {E St : Type} `{SC : Sched E St} `{K : KV St Hd It} `{C : RecordCodec} `{U : UnicodeTables} `{G : GitIgnore}.
Context (trustDecision : Trust.Trust) (cfg : TaskConfig).
Implicit Types w : World E St.

(** What the answers in [s] exclude from the size of a PR: what the matcher of
    its repository matches among its files; nothing when GitHub has no rules,
    or one of the two could not be read. *)
Definition exclusion_read (owner repo : string) (number : Z) (ex : Exclusion) (s : list event) : Prop :=
  exists answer, (Ev (GetReviewIgnore owner repo) answer ∈ s) /\
    match answer with
    | Ok (Some m) =>
        if Empty m then ex = zero_exclusion
        else exists files, (Ev (ListPRFiles owner repo number) files ∈ s) /\
          ex = match files with Ok files => ComputeExclusion files (Some m) | Err _ => zero_exclusion end
    | _ => ex = zero_exclusion
    end.

Lemma exclusion_read_mono owner repo number ex s t : s ⊆ t ->
  exclusion_read owner repo number ex s -> exclusion_read owner repo number ex t.
Proof.
  intros Hst (a & Ha & H). exists a. split; [by apply Hst|]. destruct a as [[m|]|]; try done.
  destruct (Empty m); [done|]. destruct H as (files & Hf & ->). exists files. split; [by apply Hst|done].
Qed.

Lemma ReviewIgnoreExclusion_wp owner repo number w :
  wp (ReviewIgnoreExclusion owner repo number) (fun ex s w' =>
    same_state w w' /\ quiet s /\ gauges s = [] /\ exclusion_read owner repo number ex s) w.
Proof.
  unfold ReviewIgnoreExclusion, exclusion_read. wp_steps; (split; [frame|split; [done|split; [done|]]]);
    (eexists; split; [by left|]); subst; cbn iota;
    repeat match goal with H : Empty _ = _ |- _ => rewrite H end; try done.
  all: eexists; split; [by right; left|done].
Qed.

Lemma ReviewIgnoreExclusion_quiet owner repo number w :
  wp (ReviewIgnoreExclusion owner repo number) (fun _ s w' =>
    same_state w w' /\ quiet s /\ gauges s = []) w.
Proof. wp_use ReviewIgnoreExclusion_wp. by intros ex s w' (? & ? & ? & _). Qed.

(** The three publishes, up to the ledgers. *)
Ltac same_db := repeat match goal with H : same_state _ _ |- _ => destruct H as (? & ? & ->) end;
  by do 3 eexists.

Lemma publisher_PublishCreate_law pr tid d w :
  wp (publisher_PublishCreate trustDecision cfg pr tid d) (fun ok s w' =>
    same_but_db w w' /\ writes s = [] /\
    (creates s = [] /\ ok = false \/
     exists cmd, creates s = [(cmd, ok)] /\ is_review cmd = true /\ TaskIdentifier cmd = tid)) w.
Proof.
  unfold publisher_PublishCreate, suppressedByOverride, ledger_Suppressed.
  wp_steps; [| wp_use ReviewIgnoreExclusion_quiet; intros ex s w' (Hw & Hs & _);
    unfold recordPublished, recorder_RecordPublish; wp_steps |].
  all: split; [same_db|]; seg; split; [done|].
  2-3: right; eexists; split; [reflexivity|];
    destruct (BuildCreateCommand_spec pr d tid cfg a0 false ex) as (_ & _ & ? & _ & _ & ?); done.
  all: by left.
Qed.

#[export] Instance taskPublisher_laws : TaskPublisherLaws (taskPublisher trustDecision cfg).
Proof.
  split; intros pr tid d w; simpl.
  - apply publisher_PublishCreate_law.
  - unfold publisher_PublishCreate, suppressedByOverride, ledger_Suppressed.
    wp_steps; [done| wp_use ReviewIgnoreExclusion_quiet; intros ex s w' (_ & _ & Hs);
      unfold recordPublished, recorder_RecordPublish; wp_steps; by seg | done].
  - unfold publisher_PublishOverride, recordOverride, ledger_Record. wp_steps.
    all: split; [same_db|]; seg; split; [done|].
    2-3: right; eexists _, _; split; [reflexivity|]; split; [done|];
      by destruct (BuildOverrideCommand_is_override pr d tid cfg).
    all: by left.
  - unfold publisher_PublishMechanicalOverride, recordOverride, ledger_Record. wp_steps.
    all: split; [same_db|]; seg; split; [done|].
    all: eexists; split; [reflexivity|].
    all: by destruct (BuildMechanicalOverrideCommand_is_override pr d tid cfg).
Qed.
End laws.
