(* ===== verification/CursorFile.v ===== *)
(** * CursorFile: the poll cursor on disk (pkg/cursor.go)

    The JSON encoding is library code, a parameter. A decoded file may lack
    either map ([Deferrals] is [omitempty], and older files have none), which
    is why the decoder's type has them optional and [LoadCursor] fills them
    in. *)
From S2P Require Import Prelude Types World.
Local Open Scope Z_scope.

(** A [Cursor] as [json.Unmarshal] leaves it: [None] is a nil map. *)
Record RawCursor : Type := mkRawCursor {
  raw_LastUpdatedAt : DateTime;
  raw_HeadSHAs : option (gmap string string);
  raw_Deferrals : option (gmap string Z) }.

Class CursorCodec : Type := {
  marshal_cursor : Cursor -> option string;
  unmarshal_cursor : string -> option RawCursor }.

(** encoding/json round-trips the struct; an empty [omitempty] map is left
    out and decodes as nil. *)
Class CursorCodecLaws (J : CursorCodec) : Prop := {
  cursor_roundtrip c data : marshal_cursor c = Some data ->
    unmarshal_cursor data = Some (mkRawCursor (LastUpdatedAt c) (Some (HeadSHAs c))
      (if decide (Deferrals c = ∅) then None else Some (Deferrals c))) }.

Definition DefaultCursorPath : string := "/data/cursor.json".

Definition cold_start (startTime : DateTime) : Cursor := mkCursor startTime ∅ ∅.

Section cursor.
Context {St : Type} `{J : CursorCodec}.

Definition LoadCursor (path : string) (startTime : DateTime) : M St (result Cursor) :=
  data ← call (ReadFile path);
  mret match data with
       | FileMissing => Ok (cold_start startTime)
       | FileError => Err (ErrOther "read cursor file")
       | FileData data =>
           match unmarshal_cursor data with
           | None => Ok (cold_start startTime)
           | Some state =>
               Ok (mkCursor (raw_LastUpdatedAt state) (default ∅ (raw_HeadSHAs state))
                     (default ∅ (raw_Deferrals state)))
           end
       end.

Definition SaveCursor (path : string) (state : Cursor) : M St (result unit) :=
  match marshal_cursor state with
  | None => mret (Err (ErrOther "marshal cursor state"))
  | Some data =>
      r ← call (WriteFile (path +:+ ".tmp") data);
      match r with
      | Err _ => mret (Err (ErrOther "write cursor file"))
      | Ok _ =>
          r ← call (Rename (path +:+ ".tmp") path);
          match r with
          | Err _ => mret (Err (ErrOther "rename cursor file"))
          | Ok _ => mret (Ok tt)
          end
      end
  end.

(** Loading leaves the state alone and answers from the one file it reads. *)
Lemma LoadCursor_wp path startTime `{SC : Sched E St} (w : World E St) :
  wp (LoadCursor path startTime) (fun _ s w' => same_state w w' /\ quiet s) w.
Proof. unfold LoadCursor. wp_steps. split; [frame|done]. Qed.

Lemma SaveCursor_wp path state `{SC : Sched E St} (w : World E St) :
  wp (SaveCursor path state) (fun _ s w' => same_state w w' /\ quiet s) w.
Proof. unfold SaveCursor. wp_steps; (split; [frame|done]). Qed.
End cursor.

(** ** A file system with atomic renames *)

(** What [os.ReadFile], [os.WriteFile] and [os.Rename] do to the files, for
    an environment that has them as part of its state: every other request
    leaves the files alone, a failed write may leave anything in the file it
    wrote, and a failed rename changes nothing. *)
Class FileEnv (E : Type) `{Env E} : Type := {
  files : E -> gmap string string;
  read_law path e :
    files (snd (serve (ReadFile path) e)) = files e /\
    match fst (serve (ReadFile path) e) with
    | FileData d => files e !! path = Some d
    | FileMissing => files e !! path = None
    | FileError => True
    end;
  write_law path data e :
    (forall p, p <> path -> files (snd (serve (WriteFile path data) e)) !! p = files e !! p) /\
    (is_Ok (fst (serve (WriteFile path data) e)) = true ->
     files (snd (serve (WriteFile path data) e)) !! path = Some data);
  rename_law old new data e : files e !! old = Some data ->
    if is_Ok (fst (serve (Rename old new) e))
    then files (snd (serve (Rename old new) e)) = <[new := data]> (delete old (files e))
    else files (snd (serve (Rename old new) e)) = files e;
  other_law {A} (q : request A) e :
    match q with
    | WriteFile _ _ | Rename _ _ => True
    | _ => files (snd (serve q e)) = files e
    end }.

Section files.
Context `{EN : Env E} {St : Type} `{J : CursorCodec} `{JL : !CursorCodecLaws J} `{F : !FileEnv E}.

(** (C35) Saving is atomic and loading reads back what was saved: whatever
    fails, the cursor file holds its old content or the whole new cursor, the
    latter exactly when the save reports success, and a load that can read
    the file then returns the saved cursor. *)
Theorem cursor_file_roundtrip path startTime c (w : World E St) :
  let '(r, w1) := runM (SaveCursor path c) w in
  (is_Ok r = false -> files (env w1) !! path = files (env w) !! path) /\
  (is_Ok r = true -> fst (runM (LoadCursor path startTime) w1) = Ok c \/
                     fst (runM (LoadCursor path startTime) w1) = Err (ErrOther "read cursor file")).
Proof.
  unfold SaveCursor. destruct (marshal_cursor c) as [data|] eqn:Hm; [|done].
  rewrite runM_bind, runM_call.
  assert (path <> path +:+ ".tmp") as Hne.
  { intros Heq. apply (f_equal String.length) in Heq. rewrite string_app_length in Heq.
    simpl in Heq. lia. }
  pose proof (write_law (path +:+ ".tmp") data (env w)) as [Hw1 Hw2].
  destruct (serve (WriteFile _ data) (env w)) as [[[]|e] e1]; simpl in *; [|by rewrite Hw1].
  rewrite runM_bind, runM_call. simpl.
  pose proof (rename_law (path +:+ ".tmp") path data e1 (Hw2 eq_refl)) as Hr.
  destruct (serve (Rename _ path) e1) as [[[]|e] e2]; simpl in *;
    rewrite ?runM_ret; [|split; [|done]; intros _; by rewrite Hr, Hw1].
  split; [done|]. intros _. unfold LoadCursor. rewrite runM_bind, runM_call. simpl.
  pose proof (read_law path e2) as [_ Hl]. destruct (serve (ReadFile path) e2) as [[d| |] e3];
    rewrite ?runM_ret; simpl in *; [|by rewrite Hr, lookup_insert_eq in Hl|by right].
  left. rewrite Hr, lookup_insert_eq in Hl. injection Hl as <-.
  rewrite (cursor_roundtrip _ _ Hm). destruct c as [t h de]. simpl.
  destruct (decide (de = ∅)) as [->|]; done.
Qed.
End files.
