(* ===== verification/Watcher.v ===== *)
(** * Watcher: one poll cycle (pkg/watcher.go)

    The watcher's handlers in the order the source declares them: fetching,
    the side effects (update-branch, auto-merge, supersede, labelling), the
    two override paths, the review path and [Poll]. The maps the Go code
    passes by reference ([cursorState.HeadSHAs], [newHeadSHAs], the details
    cache, [sideEffectsRun]) are fields of the world and mutated in place.

    The pagination loops and [Poll] take a bound on the number of pages of one
    search; [None] says the bound was hit, which happens only when GitHub
    answers that many pages each announcing another one ([paginate_wp] in
    WatcherFacts). *)
From S2P Require Import Prelude GoStrings Types Trivial Titles Trust Coalesce Filters Commands World Publisher CursorFile.
Local Open Scope Z_scope.

(** ** Data *)

(** [watcher], less the collaborators that are parameters below. *)
Record watcher : Type := mkWatcher {
  cursorPath : string;
  startTime : DateTime;
  scope : string;
  taskCreationFilter : TaskCreationFilter;
  sideEffectFilter : option TaskCreationFilter;
  overrideLabel : string;
  autoMergeLabel : string;
  trivialAutoMergeEnabled : bool;
  mechanicalOverrideAuthors : list string;
  trustDecision : Trust.Trust;
  coalesceHold : Duration }.

Inductive overrideQualification : Type :=
  overrideIndeterminate | overrideDoesNotQualify | overrideQualifies.

Inductive overrideOutcome : Type := overrideNotHandled | overrideHandled | overrideDeferred.

Record prOutcome : Type := mkOutcome {
  updatedAt : DateTime;
  handled : bool;
  deferred : bool }.

Definition zero_outcome : prOutcome := mkOutcome dt_zero false false.

Definition maxDeferralAttempts : Z := 3.
Definition updateGoBranchPrefix : string := "fix/update-go-".
Definition botLoginSuffix : string := "[bot]".
Definition depBumpSupersededComment : string :=
  "Closing as superseded: this dependency-bump PR conflicts with a release that " +:+
  "renamed `## Unreleased` in CHANGELOG.md. That conflict is structural — every bump edits the same region — " +:+
  "so the branch cannot be refreshed by merging master in." +:+ nl +:+ nl +:+
  "A fresh bump off current master replaces it. The update-go watcher emits one task per repo HEAD ref, and " +:+
  "master moving is what put this PR in conflict.".

(** [prKey], and the cache key of [fetchPRDetails]. *)
Definition prKey (pr : PullRequest) : string :=
  Owner pr +:+ "/" +:+ Repo pr +:+ "#" +:+ Itoa (Number pr).

Definition deferralKey (pr : PullRequest) (headSHA : string) : string :=
  prKey pr +:+ "@" +:+ headSHA.

Definition filter_pr (pr : PullRequest) : FilterPR :=
  mkFilterPR (AuthorLogin pr) (IsDraft pr) (Title pr) (UpdatedAt pr)
    ("github.com/" +:+ Owner pr +:+ "/" +:+ Repo pr).

Definition coalesce_key (pr : PullRequest) : Key := mkKey (Owner pr) (Repo pr) (Number pr).

Definition staleMergeState (state : MergeState) : bool :=
  (state =?s MergeStateBehind) || (state =?s MergeStateDirty).

Definition isSupersededDepBump (pr : PullRequest) (details : PRDetails) : bool :=
  if negb (HasPrefix (HeadRef details) updateGoBranchPrefix) then false
  else if negb (HasSuffix (AuthorLogin pr) botLoginSuffix) then false
  else MergeableState details =?s MergeStateDirty.

(** ** Pagination *)

Inductive fetched : Type :=
| Fetched (prs : list PullRequest)
| FetchCancelled
| FetchFailed.

Section pages.
Context {St : Type}.

(** The loop of [fetchAllPRs], [fetchLabeledPRs] and [fetchAllOpenPRs]: the
    three differ in the search they issue and in what they make of a
    cancellation or a failure. *)
Fixpoint paginate (fuel : nat) (search : Z -> M St (result SearchResult)) (page : Z)
    (allPRs : list PullRequest) : M St (option fetched) :=
  match fuel with
  | O => mret None
  | S fuel' =>
      cancelled ← call CtxDone;
      if (cancelled : bool) then mret (Some FetchCancelled)
      else
        r ← search page;
        match r with
        | Err _ => mret (Some FetchFailed)
        | Ok result =>
            let allPRs := allPRs ++ PullRequests result in
            if negb (HasNextPage result) then mret (Some (Fetched allPRs))
            else paginate fuel' search (NextPage result) allPRs
        end
  end.

(** The pair the two watcher loops return. *)
Definition fetch_pair (r : fetched) : list PullRequest * string :=
  match r with
  | Fetched prs => (prs, "")
  | FetchCancelled => ([], "")
  | FetchFailed => ([], "github_error")
  end.
End pages.

(** ** The watcher *)
Section watcher.
Context {St : Type} `{P : TaskPublisher St} `{U : UUID} `{J : CursorCodec}.
(** [unreviewedScanner.Scan], with the page bound. *)
Context (Scan : nat -> M St (option unit)).
Context (w : watcher).

Definition fetchAllPRs (fuel : nat) (since : DateTime)
  : M St (option (list PullRequest * string)) :=
  r ← paginate fuel (fun page => call (SearchPRs (scope w) since page)) 1 [];
  mret (fetch_pair <$> (r : option fetched)).

Definition fetchLabeledPRs (fuel : nat) : M St (option (list PullRequest * string)) :=
  r ← paginate fuel (fun page => call (SearchLabeledPRs (scope w) (autoMergeLabel w) page)) 1 [];
  mret (fetch_pair <$> (r : option fetched)).

Definition fetchPRDetails (pr : PullRequest) : M St (result PRDetails) :=
  cache ← gets prDetailsCache;
  match cache !! prKey pr with
  | Some details => mret (Ok details)
  | None =>
      r ← call (GetPRDetails (Owner pr) (Repo pr) (Number pr));
      match r with
      | Err e => mret (Err e)
      | Ok details =>
          modify (fun l => set_prDetailsCache (<[prKey pr := details]> (prDetailsCache l)) l);;
          mret (Ok details)
      end
  end.

(** ** Side effects *)

Definition tryUpdateBranch (pr : PullRequest) (details : PRDetails) : M St unit :=
  if (autoMergeLabel w =?s "") || negb (slices_Contains (Labels pr) (autoMergeLabel w)) then mret tt
  else if isSupersededDepBump pr details then mret tt
  else if negb (staleMergeState (MergeableState details)) then mret tt
  else
    match trustDecision w (trust_pr pr details) with
    | Err _ => call (IncPRPublished "error")
    | Ok trustResult =>
        if negb (Success trustResult) then call (IncPRPublished "update_branch_skipped")
        else
          r ← call (UpdateBranch (Owner pr) (Repo pr) (Number pr));
          match r with
          | Err _ => call (IncPRPublished "update_branch_failed")
          | Ok _ => call (IncPRPublished "update_branch")
          end
    end.

Definition trySupersedeDepBump (pr : PullRequest) (details : PRDetails) : M St bool :=
  if negb (isSupersededDepBump pr details) then mret false
  else
    match trustDecision w (trust_pr pr details) with
    | Err _ => call (IncPRPublished "error");; mret false
    | Ok trustResult =>
        if negb (Success trustResult) then call (IncPRPublished "dep_bump_skipped");; mret false
        else
          r ← call (ClosePR (Owner pr) (Repo pr) (Number pr) depBumpSupersededComment);
          match r with
          | Err _ => call (IncPRPublished "error");; mret false
          | Ok _ => call (IncPRPublished "dep_bump_superseded");; mret true
          end
    end.

Definition tryAutoMerge (pr : PullRequest) (details : PRDetails) : M St unit :=
  if (autoMergeLabel w =?s "") || negb (slices_Contains (Labels pr) (autoMergeLabel w)) then mret tt
  else
    match trustDecision w (trust_pr pr details) with
    | Err _ => call (IncPRPublished "error")
    | Ok trustResult =>
        if negb (Success trustResult) then call (IncPRPublished "auto_merge_skipped")
        else
          r ← call (EnableAutoMerge (Owner pr) (Repo pr) (Number pr));
          match r with
          | Err _ => call (IncPRPublished "error")
          | Ok _ => call (IncPRPublished "auto_merge")
          end
    end.

Definition maybeLabelTrivial (pr : PullRequest) : M St bool :=
  r ← call (GetMaintainerConfig (Owner pr) (Repo pr));
  match r with
  | Err _ => call (IncPRPublished "error");; mret false
  | Ok cfg =>
      if negb (AutoMerge_Trivial cfg) then mret false
      else
        r ← call (ListPRFiles (Owner pr) (Repo pr) (Number pr));
        match r with
        | Err _ => call (IncPRPublished "error");; mret false
        | Ok files =>
            if negb (ClassifyTrivial files)
            then call (IncPRPublished "auto_merge_not_trivial");; mret false
            else
              r ← call (AddLabel (Owner pr) (Repo pr) (Number pr) (autoMergeLabel w));
              match r with
              | Err _ => call (IncPRPublished "error");; mret false
              | Ok _ => call (IncPRPublished "auto_merge_labeled");; mret true
              end
        end
  end.

(** ** Overrides *)

(** [cursorHeadSHAs[id] = sha; newHeadSHAs[id] = sha], and the second alone. *)
Definition carry (id sha : string) : M St unit :=
  modify (fun l => set_newHeadSHAs (<[id := sha]> (newHeadSHAs l)) l).
Definition record_published (id sha : string) : M St unit :=
  modify_cursor (fun c => set_HeadSHAs (<[id := sha]> (HeadSHAs c)) c);;
  carry id sha.

Definition tryOverride (pr : PullRequest) (details : PRDetails) : M St bool :=
  if (overrideLabel w =?s "") || negb (slices_Contains (Labels pr) (overrideLabel w))
  then mret false
  else
    let overrideID := DeriveTaskIDOverride (Owner pr) (Repo pr) (Number pr) (HeadSHA details) in
    cursor ← gets cursorState;
    match HeadSHAs cursor !! overrideID with
    | Some _ => carry overrideID (HeadSHA details);; mret true
    | None =>
        he ← PublishOverride pr overrideID details;
        let '(handled, emitted) := he in
        (if (emitted : bool) then record_published overrideID (HeadSHA details) else mret tt);;
        mret handled
    end.

Definition qualifiesForMechanicalOverride (pr : PullRequest) (details : PRDetails)
  : M St overrideQualification :=
  if autoMergeLabel w =?s "" then mret overrideDoesNotQualify
  else if negb (slices_Contains (mechanicalOverrideAuthors w) (AuthorLogin pr))
  then mret overrideDoesNotQualify
  else
    match trustDecision w (trust_pr pr details) with
    | Err _ => mret overrideIndeterminate
    | Ok trustResult =>
        if negb (Success trustResult) then mret overrideDoesNotQualify
        else
          r ← call (GetMaintainerConfig (Owner pr) (Repo pr));
          match r with
          | Err _ => call (IncPRPublished "error");; mret overrideIndeterminate
          | Ok cfg =>
              if negb (AutoMerge_Trivial cfg) || negb (PrReviewer_AutoApprove cfg)
              then mret overrideDoesNotQualify
              else
                r ← call (ListPRFiles (Owner pr) (Repo pr) (Number pr));
                match r with
                | Err _ => call (IncPRPublished "error");; mret overrideIndeterminate
                | Ok files =>
                    if negb (ClassifyTrivial files) then mret overrideDoesNotQualify
                    else mret overrideQualifies
                end
          end
    end.

(** The end of [tryMechanicalOverride]: publish; handled either way. *)
Definition publishMechanical (pr : PullRequest) (details : PRDetails) (overrideID : string)
  : M St overrideOutcome :=
  sent ← PublishMechanicalOverride pr overrideID details;
  (if (sent : bool) then record_published overrideID (HeadSHA details) else mret tt);;
  mret overrideHandled.

Definition tryMechanicalOverride (pr : PullRequest) (details : PRDetails)
  : M St overrideOutcome :=
  let overrideID := DeriveTaskIDOverride (Owner pr) (Repo pr) (Number pr) (HeadSHA details) in
  let taskID := DeriveTaskID (Owner pr) (Repo pr) (Number pr) (HeadSHA details) in
  cursor ← gets cursorState;
  match HeadSHAs cursor !! overrideID with
  | Some _ => carry overrideID (HeadSHA details);; mret overrideHandled
  | None =>
      match HeadSHAs cursor !! taskID with
      | Some _ => mret overrideNotHandled
      | None =>
          q ← qualifiesForMechanicalOverride pr details;
          match q with
          | overrideIndeterminate => mret overrideDeferred
          | overrideDoesNotQualify => mret overrideNotHandled
          | overrideQualifies =>
              if negb (slices_Contains (Labels pr) (autoMergeLabel w)) then
                r ← call (AddLabel (Owner pr) (Repo pr) (Number pr) (autoMergeLabel w));
                match r with
                | Err _ => call (IncPRPublished "error");; mret overrideNotHandled
                | Ok _ =>
                    let pr := append_label pr (autoMergeLabel w) in
                    tryAutoMerge pr details;;
                    publishMechanical pr details overrideID
                end
              else publishMechanical pr details overrideID
          end
      end
  end.

Definition deferral_count (key : string) (c : Cursor) : Z := default 0 (Deferrals c !! key).

Definition mechanicalOverrideOutcome (pr : PullRequest) (details : PRDetails) : M St prOutcome :=
  let key := deferralKey pr (HeadSHA details) in
  let forget := modify_cursor (fun c => set_Deferrals (delete key (Deferrals c)) c) in
  outcome ← tryMechanicalOverride pr details;
  match outcome with
  | overrideHandled => forget;; mret (mkOutcome (UpdatedAt pr) true false)
  | overrideDeferred =>
      modify_cursor (fun c =>
        set_Deferrals (<[key := wrap64 (deferral_count key c + 1)]> (Deferrals c)) c);;
      count ← gets (fun l => deferral_count key (cursorState l));
      if count <=? maxDeferralAttempts then mret (mkOutcome (UpdatedAt pr) true true)
      else forget;; mret zero_outcome
  | overrideNotHandled => forget;; mret zero_outcome
  end.

(** ** The review path *)

Definition admitReview (pr : PullRequest) (details : PRDetails) : M St Decision :=
  now ← call Now;
  coalescer_call (Admit (coalesceHold w) (coalesce_key pr) (HeadSHA details)
                    (d_UpdatedAt details) now).

Definition publishReviewOutcome (pr : PullRequest) (details : PRDetails) (taskIDStr : string)
  : M St prOutcome :=
  decision ← admitReview pr details;
  match decision with
  | Settled =>
      record_published taskIDStr (HeadSHA details);;
      mret (mkOutcome (UpdatedAt pr) true false)
  | Hold =>
      call (IncPRPublished "coalesced");;
      mret (mkOutcome dt_zero false true)
  | Emit =>
      published ← PublishCreate pr taskIDStr details;
      if (published : bool) then
        now ← call Now;
        coalescer_call (fun c => (tt, MarkEmitted (coalesce_key pr) (HeadSHA details) now c));;
        record_published taskIDStr (HeadSHA details);;
        mret (mkOutcome (UpdatedAt pr) true false)
      else mret zero_outcome
  end.

(** ** One PR *)

(** From the override step on. *)
Definition overrideOrReview (pr : PullRequest) (details : PRDetails) (taskIDStr : string)
  : M St prOutcome :=
  overridden ← tryOverride pr details;
  if (overridden : bool) then mret (mkOutcome (UpdatedAt pr) true false)
  else
    outcome ← mechanicalOverrideOutcome pr details;
    if handled outcome then mret outcome
    else
      cursor ← gets cursorState;
      match HeadSHAs cursor !! taskIDStr with
      | Some _ =>
          carry taskIDStr (HeadSHA details);;
          mret (mkOutcome (UpdatedAt pr) true false)
      | None => publishReviewOutcome pr details taskIDStr
      end.

(** From the supersession step on: [pr] carries the auto-merge label if the
    trivial flow applied it. *)
Definition processFetchedPR (pr : PullRequest) (details : PRDetails) : M St prOutcome :=
  modify (fun l => set_sideEffectsRun ({[ prKey pr ]} ∪ sideEffectsRun l) l);;
  closed ← trySupersedeDepBump pr details;
  let taskIDStr := DeriveTaskID (Owner pr) (Repo pr) (Number pr) (HeadSHA details) in
  if (closed : bool) then
    record_published taskIDStr (HeadSHA details);;
    mret (mkOutcome (UpdatedAt pr) true false)
  else
    tryUpdateBranch pr details;;
    tryAutoMerge pr details;;
    overrideOrReview pr details taskIDStr.

(** The trivial flow: the label it applied, if it did. *)
Definition labelTrivial (pr : PullRequest) : M St PullRequest :=
  if trivialAutoMergeEnabled w && negb (slices_Contains (Labels pr) (autoMergeLabel w)) then
    labelled ← maybeLabelTrivial pr;
    mret (if (labelled : bool) then append_label pr (autoMergeLabel w) else pr)
  else mret pr.

Definition processPR (pr : PullRequest) : M St prOutcome :=
  if Skip (taskCreationFilter w) (filter_pr pr) then
    call (IncPRPublished "skipped");; mret zero_outcome
  else
    r ← fetchPRDetails pr;
    match r with
    | Err _ => mret zero_outcome
    | Ok details =>
        if HeadSHA details =?s "" then mret zero_outcome
        else
          pr ← labelTrivial pr;
          processFetchedPR pr details
    end.

(** ** A batch *)

(** The loop of [processPRs]: the running maximum, the deferral floor, and
    whether the batch was cancelled. *)
Record batch : Type := mkBatch {
  maxUpdatedAt : DateTime;
  deferFloor : option DateTime;
  cancelled : bool }.

Definition note_outcome (pr : PullRequest) (outcome : prOutcome) (b : batch) : batch :=
  mkBatch
    (if handled outcome && dt_After (updatedAt outcome) (maxUpdatedAt b)
     then updatedAt outcome else maxUpdatedAt b)
    (if deferred outcome then
       match deferFloor b with
       | None => Some (UpdatedAt pr)
       | Some f => if dt_Before (UpdatedAt pr) f then Some (UpdatedAt pr) else Some f
       end
     else deferFloor b)
    (cancelled b).

Fixpoint processPRs_loop (prs : list PullRequest) (b : batch) : M St batch :=
  match prs with
  | [] => mret b
  | pr :: prs' =>
      done ← call CtxDone;
      if (done : bool) then mret (mkBatch (maxUpdatedAt b) (deferFloor b) true)
      else
        outcome ← processPR pr;
        processPRs_loop prs' (note_outcome pr outcome b)
  end.

Definition clamp (b : batch) : DateTime :=
  match deferFloor b with
  | Some f => if dt_After (maxUpdatedAt b) f then f else maxUpdatedAt b
  | None => maxUpdatedAt b
  end.

Definition processPRs (allPRs : list PullRequest) : M St DateTime :=
  modify (fun l => set_prDetailsCache ∅ (set_newHeadSHAs ∅ (set_sideEffectsRun ∅ l)));;
  last ← gets (fun l => LastUpdatedAt (cursorState l));
  b ← processPRs_loop allPRs (mkBatch last None false);
  if cancelled b then mret (maxUpdatedAt b)
  else
    modify (fun l => set_cursor (set_HeadSHAs (newHeadSHAs l) (cursorState l)) l);;
    mret (clamp b).

(** ** The labelled pass *)

Definition processLabeledPR (pr : PullRequest) : M St unit :=
  skip ← gets sideEffectsRun;
  if bool_decide (prKey pr ∈ skip) then mret tt
  else if match sideEffectFilter w with
          | Some f => Skip f (filter_pr pr)
          | None => false
          end
  then mret tt
  else
    r ← fetchPRDetails pr;
    match r with
    | Err _ => mret tt
    | Ok details =>
        if HeadSHA details =?s "" then mret tt
        else
          closed ← trySupersedeDepBump pr details;
          if (closed : bool) then mret tt
          else
            tryUpdateBranch pr details;;
            tryAutoMerge pr details
    end.

Fixpoint processLabeledPRs_loop (prs : list PullRequest) : M St unit :=
  match prs with
  | [] => mret tt
  | pr :: prs' =>
      done ← call CtxDone;
      if (done : bool) then mret tt
      else processLabeledPR pr;; processLabeledPRs_loop prs'
  end.

Definition processLabeledPRs (fuel : nat) : M St (option unit) :=
  if autoMergeLabel w =?s "" then mret (Some tt)
  else
    r ← fetchLabeledPRs fuel;
    match r with
    | None => mret None
    | Some (prs, reason) =>
        if negb (reason =?s "") then mret (Some tt)
        else
          modify (set_prDetailsCache ∅);;
          processLabeledPRs_loop prs;;
          mret (Some tt)
    end.

(** ** A poll *)

Definition rateLimitRemainingForGauge : M St Z :=
  remaining ← call RateLimitRemaining;
  if 0 <? remaining then mret remaining
  else
    r ← call GetRateLimitCoreRemaining;
    mret match r with Err _ => 0 | Ok remaining => remaining end.

(** From the search to the end; [Poll] adds the load and the deferred gauge. *)
Definition poll_cycle (fuel : nat) : M St (option (result unit)) :=
  since ← gets (fun l => LastUpdatedAt (cursorState l));
  r ← fetchAllPRs fuel since;
  match r with
  | None => mret None
  | Some (allPRs, abortReason) =>
      if negb (abortReason =?s "") then
        call (IncPollCycle abortReason);; mret (Some (Ok tt))
      else
        done ← call CtxDone;
        if (done : bool) then mret (Some (Ok tt))
        else
          maxUpdatedAt ← processPRs allPRs;
          r ← processLabeledPRs fuel;
          match r with
          | None => mret None
          | Some _ =>
              modify_cursor (fun c =>
                if dt_After maxUpdatedAt (LastUpdatedAt c) then set_LastUpdatedAt maxUpdatedAt c
                else c);;
              state ← gets cursorState;
              SaveCursor (cursorPath w) state;;
              r ← Scan fuel;
              match r with
              | None => mret None
              | Some _ => call (IncPollCycle "success");; mret (Some (Ok tt))
              end
          end
  end.

Definition Poll (fuel : nat) : M St (option (result unit)) :=
  loaded ← LoadCursor (cursorPath w) (startTime w);
  match loaded with
  | Err e => mret (Some (Err e))
  | Ok state =>
      modify_cursor (fun _ => state);;
      remaining ← rateLimitRemainingForGauge;
      r ← poll_cycle fuel;
      call (SetRateLimitRemaining remaining);;
      mret r
  end.
End watcher.
