(* ===== verification/WatcherFacts.v ===== *)
(** * WatcherFacts: what each handler of the watcher does

    One lemma per handler, in the form [wp handler Q w], from which the
    properties of WatcherProofs follow. The publisher is any implementation
    of its contract, the company ([Sched]) is any: what they say holds of a
    poll that runs alone and of one among other goroutines. *)
From S2P Require Import Prelude GoStrings Types Trivial Titles Trust Coalesce Filters Commands World Publisher CursorFile Watcher.
Local Open Scope Z_scope.

(** ** Vocabulary *)

(** The trust decision lets the author of a PR act. *)
Definition trusted (w : watcher) (pr : PullRequest) (d : PRDetails) : Prop :=
  exists r, trustDecision w (trust_pr pr d) = Ok r /\ Success r = true.

(** The identifiers of the tasks a segment published. *)
Definition published_of (c : CreateCommand * bool) : list string :=
  if snd c then [TaskIdentifier (fst c)] else [].
Definition published_ids (s : list event) : list string := creates s ≫= published_of.

Lemma published_ids_app s t : published_ids (s ++ t) = published_ids s ++ published_ids t.
Proof. unfold published_ids. by rewrite creates_app, bind_app. Qed.

Lemma published_ids_quiet s : creates s = [] -> published_ids s = [].
Proof. unfold published_ids. by intros ->. Qed.

Section facts.
Context {E St : Type} `{SC : Sched E St} `{P : TaskPublisher St} `{PL : !TaskPublisherLaws P} `{U : UUID} `{J : CursorCodec}.
Implicit Types w : World E St.

(** The bookkeeping of a step: no task is published under an identifier the
    cursor already has, and every published one is in both maps afterwards. *)
Record booked (w : World E St) (s : list event) (w' : World E St) : Prop := mkBooked {
  booked_cursor : dom (HeadSHAs (cursorState w)) ⊆ dom (HeadSHAs (cursorState w'));
  booked_new : dom (newHeadSHAs w) ⊆ dom (newHeadSHAs w');
  booked_nodup : NoDup (published_ids s);
  booked_ids id : (id ∈ published_ids s) ->
    (id ∉ dom (HeadSHAs (cursorState w))) /\ (id ∈ dom (HeadSHAs (cursorState w'))) /\
    (id ∈ dom (newHeadSHAs w')) }.

Lemma booked_trans w s w1 t w2 : booked w s w1 -> booked w1 t w2 -> booked w (s ++ t) w2.
Proof.
  intros [Hc Hn Hd Hi] [Hc' Hn' Hd' Hi']. split.
  - set_solver.
  - set_solver.
  - rewrite published_ids_app. apply NoDup_app. split_and!; [done| |done].
    intros id Hid Hid'. apply Hi in Hid as (_ & Hin & _). by apply Hi' in Hid' as (? & _).
  - intros id. rewrite published_ids_app, elem_of_app. intros [Hid|Hid].
    + apply Hi in Hid. set_solver.
    + apply Hi' in Hid. set_solver.
Qed.

(** A step that publishes nothing and forgets nothing. *)
Lemma booked_quiet w s w' :
  creates s = [] -> dom (HeadSHAs (cursorState w)) ⊆ dom (HeadSHAs (cursorState w')) ->
  dom (newHeadSHAs w) ⊆ dom (newHeadSHAs w') -> booked w s w'.
Proof.
  intros Hs ? ?. split; [done|done| |]; rewrite published_ids_quiet by done; [constructor|].
  intros id Hid. by apply elem_of_nil in Hid.
Qed.

Lemma booked_same w s w' : same_state w w' -> creates s = [] -> booked w s w'.
Proof. intros (e & t & ->) ?. by apply booked_quiet. Qed.

(** Publishing under a fresh identifier and recording it. *)
Lemma booked_publish w s w' cmd ok id :
  creates s = [(cmd, ok)] -> TaskIdentifier cmd = id ->
  HeadSHAs (cursorState w) !! id = None ->
  dom (HeadSHAs (cursorState w)) ⊆ dom (HeadSHAs (cursorState w')) ->
  dom (newHeadSHAs w) ⊆ dom (newHeadSHAs w') ->
  (ok = true -> id ∈ dom (HeadSHAs (cursorState w')) /\ id ∈ dom (newHeadSHAs w')) ->
  booked w s w'.
Proof.
  intros Hs Hid Hnone Hc Hn Hok.
  assert (published_ids s = if ok then [id] else []) as Hp.
  { unfold published_ids. rewrite Hs. simpl. unfold published_of. simpl. rewrite Hid. by destruct ok. }
  split; [done|done| |]; rewrite Hp; destruct ok.
  - apply NoDup_singleton.
  - constructor.
  - intros i Hi. apply list_elem_of_singleton in Hi as ->. split; [|by apply Hok].
    by apply not_elem_of_dom.
  - intros i Hi. by apply elem_of_nil in Hi.
Qed.

Context (Scan : nat -> M St (option unit)) (wt : watcher).

(** ** Side effects *)

(** The label that opts a PR in is present. *)
Definition opted_in (pr : PullRequest) : Prop :=
  autoMergeLabel wt <> "" /\ slices_Contains (Labels pr) (autoMergeLabel wt) = true.

(** The writes a PR's side effects may make, and why. *)
Inductive authorised (pr : PullRequest) (d : PRDetails) : github_write * bool -> Prop :=
| auth_update b : opted_in pr -> trusted wt pr d -> staleMergeState (MergeableState d) = true ->
    isSupersededDepBump pr d = false ->
    authorised pr d (WUpdateBranch (Owner pr) (Repo pr) (Number pr), b)
| auth_arm b : opted_in pr -> trusted wt pr d ->
    authorised pr d (WEnableAutoMerge (Owner pr) (Repo pr) (Number pr), b)
| auth_close b : isSupersededDepBump pr d = true -> trusted wt pr d ->
    authorised pr d (WClosePR (Owner pr) (Repo pr) (Number pr), b).

(** No PR is closed. *)
Definition closes (x : github_write * bool) : bool :=
  match fst x with WClosePR _ _ _ => snd x | _ => false end.
Definition no_close (s : list event) : Prop := Forall (fun x => closes x = false) (writes s).

Lemma no_close_app s t : no_close s -> no_close t -> no_close (s ++ t).
Proof. unfold no_close. rewrite writes_app. by intros; apply Forall_app. Qed.
Lemma no_close_quiet s : writes s = [] -> no_close s.
Proof. unfold no_close. intros ->. constructor. Qed.

Lemma opted_in_guard pr :
  ((autoMergeLabel wt =?s "") || negb (slices_Contains (Labels pr) (autoMergeLabel wt))) = false ->
  opted_in pr.
Proof. intros H. bool_props. by split. Qed.

Lemma tryUpdateBranch_wp pr d w :
  wp (tryUpdateBranch wt pr d) (fun _ s w' =>
    same_state w w' /\ creates s = [] /\ Forall (authorised pr d) (writes s) /\ no_close s) w.
Proof.
  unfold tryUpdateBranch, no_close. wp_steps; (split; [frame|]); seg; split_and!; try done.
  all: repeat constructor; bool_props; try done.
  all: try (eexists; split; [eassumption|done]).
  all: by apply opted_in_guard.
Qed.

Lemma tryAutoMerge_wp pr d w :
  wp (tryAutoMerge wt pr d) (fun _ s w' =>
    same_state w w' /\ creates s = [] /\ Forall (authorised pr d) (writes s) /\ no_close s) w.
Proof.
  unfold tryAutoMerge, no_close. wp_steps; (split; [frame|]); seg; split_and!; try done.
  all: repeat constructor; bool_props; try done.
  all: try (eexists; split; [eassumption|done]).
  all: by apply opted_in_guard.
Qed.

(** A supersession closes a trusted, conflicting dependency bump, once, and
    reports whether the close succeeded. *)
Lemma trySupersedeDepBump_wp pr d w :
  wp (trySupersedeDepBump wt pr d) (fun closed s w' =>
    same_state w w' /\ creates s = [] /\ Forall (authorised pr d) (writes s) /\
    (if closed : bool then writes s = [(WClosePR (Owner pr) (Repo pr) (Number pr), true)]
     else Forall (fun x => snd x = false) (writes s))) w.
Proof.
  unfold trySupersedeDepBump. wp_steps; (split; [frame|]); seg; split_and!; try done.
  all: repeat constructor; bool_props; try done.
  all: eexists; split; [eassumption|done].
Qed.

(** Labelling a trivial PR: the repository opted in and every file of the
    listing is mechanical. *)
Definition trivial_evidence (pr : PullRequest) (s : list event) : Prop :=
  exists cfg files,
    Ev (GetMaintainerConfig (Owner pr) (Repo pr)) (Ok cfg) ∈ s /\ AutoMerge_Trivial cfg = true /\
    Ev (ListPRFiles (Owner pr) (Repo pr) (Number pr)) (Ok files) ∈ s /\
    ClassifyTrivial files = true.

Definition label_write (pr : PullRequest) : github_write :=
  WAddLabel (Owner pr) (Repo pr) (Number pr) (autoMergeLabel wt).

Lemma maybeLabelTrivial_wp pr w :
  wp (maybeLabelTrivial wt pr) (fun labelled s w' =>
    same_state w w' /\ creates s = [] /\
    (writes s = [] /\ labelled = false \/
     writes s = [(label_write pr, labelled)] /\ trivial_evidence pr s)) w.
Proof.
  unfold maybeLabelTrivial. wp_steps; (split; [frame|]); seg; split_and!; try done.
  all: try by left.
  all: right; split; [done|]; eexists _, _; split_and!; [..|by apply negb_false_iff].
  all: try by apply negb_false_iff.
  all: in_segment.
Qed.

(** GitHub's answers for the details of a PR. *)
Definition answered_details (pr : PullRequest) (d : PRDetails) (s : list event) : Prop :=
  Ev (GetPRDetails (Owner pr) (Repo pr) (Number pr)) (Ok d) ∈ s.

(** [d] is what a step that begins in [w] and makes the requests [s] has for
    the details of [pr]: what the batch's cache has for it, and GitHub's answer
    in this very step when the cache has nothing. *)
Definition fetched_details (pr : PullRequest) (d : PRDetails) (s : list event) (w : World E St) : Prop :=
  match prDetailsCache w !! prKey pr with Some d' => d = d' | None => answered_details pr d s end.

(** The cache gets nothing but GitHub's answer for [pr]. *)
Definition cached_answers (pr : PullRequest) (s : list event) (w w' : World E St) : Prop :=
  forall key d, prDetailsCache w' !! key = Some d ->
    prDetailsCache w !! key = Some d \/ key = prKey pr /\ answered_details pr d s.

Lemma fetched_details_mono pr d s t w : s ⊆ t -> fetched_details pr d s w -> fetched_details pr d t w.
Proof. intros Hst. unfold fetched_details, answered_details. destruct (_ !! _); [done|]. apply Hst. Qed.

Lemma cached_answers_mono pr s t w w' : s ⊆ t -> cached_answers pr s w w' -> cached_answers pr t w w'.
Proof. intros Hst H key d Hd. destruct (H key d Hd) as [?|[? Ha]]; [by left|right]. split; [done|by apply Hst]. Qed.

Lemma cached_answers_same pr s w w' : prDetailsCache w' = prDetailsCache w -> cached_answers pr s w w'.
Proof. intros He key d. rewrite He. by left. Qed.

Lemma fetchPRDetails_wp pr w :
  wp (fetchPRDetails pr) (fun r s w' =>
    (exists m, same_state (set_loc (set_prDetailsCache m w) w) w') /\ quiet s /\
    cached_answers pr s w w' /\ forall d, r = Ok d -> fetched_details pr d s w) w.
Proof.
  unfold fetchPRDetails, fetched_details, answered_details. wp_steps.
  - split_and!; [exists (prDetailsCache w); destruct w as [? ? ? ? [] ?]; by do 2 eexists|done|by apply cached_answers_same|].
    by intros d [= <-].
  - split_and!; [eexists; by do 2 eexists|done| |intros d [= <-]; in_segment].
    intros key d. simpl. intros [[<- <-]|[_ ?]]%lookup_insert_Some; [right|by left]. split; [done|].
    unfold answered_details. in_segment.
  - split_and!; [exists (prDetailsCache w); destruct w as [? ? ? ? [] ?]; by do 2 eexists|done|by apply cached_answers_same|done].
Qed.

(** ** Overrides *)

Definition override_id (pr : PullRequest) (d : PRDetails) : string :=
  DeriveTaskIDOverride (Owner pr) (Repo pr) (Number pr) (HeadSHA d).
Definition review_id (pr : PullRequest) (d : PRDetails) : string :=
  DeriveTaskID (Owner pr) (Repo pr) (Number pr) (HeadSHA d).

(** The fields the override and review paths leave alone. *)
Definition bystanders (w w' : World E St) : Prop :=
  coal w' = coal w /\ LastUpdatedAt (cursorState w') = LastUpdatedAt (cursorState w) /\
  Deferrals (cursorState w') = Deferrals (cursorState w) /\
  sideEffectsRun w' = sideEffectsRun w /\ retryState w' = retryState w /\
  reviewedCache w' = reviewedCache w /\ prDetailsCache w' = prDetailsCache w.

(** One command, an override of this head, asked for by the label. *)
Definition sent_override (pr : PullRequest) (d : PRDetails) (s : list event) : Prop :=
  overrideLabel wt <> "" /\ slices_Contains (Labels pr) (overrideLabel wt) = true /\
  exists cmd ok, creates s = [(cmd, ok)] /\ is_override cmd = true /\
    TaskIdentifier cmd = override_id pr d.

Ltac use_publisher :=
  match goal with H : same_but_db _ _ |- _ => destruct H as (? & ? & ? & ->) end.

Lemma tryOverride_wp pr d w :
  wp (tryOverride wt pr d) (fun handled s w' =>
    bystanders w w' /\ writes s = [] /\ booked w s w' /\
    (creates s = [] \/ sent_override pr d s /\ handled = true)) w.
Proof.
  unfold tryOverride, record_published, carry. wp_step.
  { wp_steps. split_and!; [done|done|by apply booked_quiet|by left]. }
  do 2 wp_step. wp_step; [wp_steps|].
  { split_and!; [done|done|apply booked_quiet; simpl; set_solver|by left]. }
  wp_step. wp_use PublishOverride_law. intros [h em] s w' (Hw & Hs & Hc). use_publisher.
  destruct Hc as [(Hc & [= -> ->])|(cmd & ok & Hc & [= -> ->] & Ho & Hi)].
  - wp_steps. split_and!; [done|by seg|apply booked_quiet; by seg|left; by seg].
  - bool_props. destruct ok; wp_steps.
    all: (split_and!; [done|by seg| |right; split; [|done]]).
    all: try (split_and!; [done|done|exists cmd; eexists; split; [by seg|done]]).
    + eapply booked_publish; [by seg|exact Hi|done|simpl; set_solver..].
    + eapply booked_publish; [by seg|exact Hi|done|simpl; set_solver..].
Qed.

(** The five conditions of the mechanical override, the last two read from
    GitHub in the segment [s]. *)
Definition gate_passed (pr : PullRequest) (d : PRDetails) (s : list event) : Prop :=
  autoMergeLabel wt <> "" /\
  slices_Contains (mechanicalOverrideAuthors wt) (AuthorLogin pr) = true /\
  trusted wt pr d /\
  exists cfg files,
    Ev (GetMaintainerConfig (Owner pr) (Repo pr)) (Ok cfg) ∈ s /\
    AutoMerge_Trivial cfg = true /\ PrReviewer_AutoApprove cfg = true /\
    Ev (ListPRFiles (Owner pr) (Repo pr) (Number pr)) (Ok files) ∈ s /\
    ClassifyTrivial files = true.

Lemma gate_passed_app pr d s t : gate_passed pr d s -> gate_passed pr d (s ++ t).
Proof.
  intros (? & ? & ? & cfg & files & ? & ? & ? & ? & ?). split_and!; try done.
  exists cfg, files. rewrite !elem_of_app. split_and!; auto.
Qed.

Lemma qualifies_wp pr d w :
  wp (qualifiesForMechanicalOverride wt pr d) (fun q s w' =>
    same_state w w' /\ quiet s /\ (q = overrideQualifies -> gate_passed pr d s)) w.
Proof.
  unfold qualifiesForMechanicalOverride. wp_steps; (split; [frame|split; [done|]]); try done.
  intros _. bool_props. split_and!; try done.
  - eexists. split; [eassumption|done].
  - eexists _, _. split_and!; [..|by eassumption]; try done; in_segment.
Qed.

(** The auto-merge label was on the PR, or put on it in [s]. *)
Definition label_on (pr : PullRequest) (s : list event) : Prop :=
  slices_Contains (Labels pr) (autoMergeLabel wt) = true \/ (label_write pr, true) ∈ writes s.

(** A mechanical override of this head, sent after the gate passed and with
    the auto-merge label on the PR. *)
Definition sent_mechanical (pr : PullRequest) (d : PRDetails) (s : list event) : Prop :=
  exists s1 s2 cmd ok, s = s1 ++ s2 /\ creates s1 = [] /\ creates s2 = [(cmd, ok)] /\
    is_override cmd = true /\ TaskIdentifier cmd = override_id pr d /\
    Frontmatter cmd !! "override_reason" = Some "trivial-bot-bump" /\
    gate_passed pr d s1 /\ label_on pr s1.

Lemma publishMechanical_wp pr d id w :
  HeadSHAs (cursorState w) !! id = None ->
  wp (publishMechanical pr d id) (fun out s w' =>
    out = overrideHandled /\ bystanders w w' /\ writes s = [] /\ booked w s w' /\
    exists cmd ok, creates s = [(cmd, ok)] /\ is_override cmd = true /\
      TaskIdentifier cmd = id /\
      Frontmatter cmd !! "override_reason" = Some "trivial-bot-bump") w.
Proof.
  intros Hid. unfold publishMechanical, record_published, carry. wp_step.
  wp_use PublishMechanicalOverride_law. intros ok s w' (Hw & Hs & cmd & Hc & Ho & Hr & Hi).
  use_publisher.
  destruct ok; wp_steps; (split_and!; [done|done|by seg| |]).
  all: try (exists cmd; eexists; split; [by seg|done]).
  all: eapply booked_publish; [by seg|exact Hi|done|simpl; set_solver..].
Qed.

(** ** Why a PR's writes are made *)

Inductive justified (pr : PullRequest) (d : PRDetails) (s : list event) : github_write * bool -> Prop :=
| just_label b : trivial_evidence pr s \/ gate_passed pr d s ->
    justified pr d s (label_write pr, b)
| just_update b : label_on pr s -> trusted wt pr d ->
    staleMergeState (MergeableState d) = true -> isSupersededDepBump pr d = false ->
    justified pr d s (WUpdateBranch (Owner pr) (Repo pr) (Number pr), b)
| just_arm b : label_on pr s -> trusted wt pr d ->
    justified pr d s (WEnableAutoMerge (Owner pr) (Repo pr) (Number pr), b)
| just_close b : isSupersededDepBump pr d = true -> trusted wt pr d ->
    justified pr d s (WClosePR (Owner pr) (Repo pr) (Number pr), b).

Lemma trivial_evidence_mono pr s t : s ⊆ t -> trivial_evidence pr s -> trivial_evidence pr t.
Proof. intros Hst (cfg & files & ? & ? & ? & ?). exists cfg, files. split_and!; auto. Qed.

Lemma gate_passed_mono pr d s t : s ⊆ t -> gate_passed pr d s -> gate_passed pr d t.
Proof.
  intros Hst (? & ? & ? & cfg & files & ? & ? & ? & ? & ?). split_and!; try done.
  exists cfg, files. split_and!; auto.
Qed.

Lemma writes_mono s t : s ⊆ t -> writes s ⊆ writes t.
Proof. intros Hst x. unfold writes. rewrite !list_elem_of_bind. intros (e & ? & ?). eauto. Qed.

Lemma justified_mono pr d s t x : s ⊆ t -> justified pr d s x -> justified pr d t x.
Proof.
  intros Hst. assert (label_on pr s -> label_on pr t) as Hl.
  { intros [?|H]; [by left|right]. by eapply writes_mono. }
  intros [b [H|H]|b| |]; [| |constructor 2|constructor 3|constructor 4]; auto; constructor 1.
  - left. by eapply trivial_evidence_mono.
  - right. by eapply gate_passed_mono.
Qed.

Lemma Forall_justified_app pr d s t : Forall (justified pr d s) (writes s) ->
  Forall (justified pr d t) (writes t) -> Forall (justified pr d (s ++ t)) (writes (s ++ t)).
Proof.
  intros Hs Ht. rewrite writes_app. apply Forall_app. split.
  - eapply Forall_impl; [exact Hs|]. intros x. apply justified_mono. set_solver.
  - eapply Forall_impl; [exact Ht|]. intros x. apply justified_mono. set_solver.
Qed.

Lemma Forall_justified_quiet pr d s : writes s = [] -> Forall (justified pr d s) (writes s).
Proof. intros ->. constructor. Qed.

(** What the side effects are authorised to do is justified. *)
Lemma authorised_justified pr d s x : authorised pr d x -> justified pr d s x.
Proof.
  intros [b [? ?]| b [? ?]| ]; [apply just_update|apply just_arm|apply just_close]; try done; by left.
Qed.

Lemma Forall_authorised pr d s : Forall (authorised pr d) (writes s) ->
  Forall (justified pr d s) (writes s).
Proof. intros H. eapply Forall_impl; [exact H|]. intros x. apply authorised_justified. Qed.

(** A justification for the labelled PR is one for the PR, once the label
    write is part of the segment. *)
Lemma justified_labelled pr d s0 s x : (label_write pr, true) ∈ writes s0 ->
  justified (append_label pr (autoMergeLabel wt)) d s x -> justified pr d (s0 ++ s) x.
Proof.
  pose (pr' := append_label pr (autoMergeLabel wt)). intros Hl Hx.
  assert (label_on pr (s0 ++ s)) as Hon by (right; rewrite writes_app; set_solver).
  destruct Hx as [b Hb|b ? Ht Hs Hi|b ? Ht|b Hi Ht].
  - change (label_write _) with (label_write pr). apply just_label.
    destruct Hb as [Hb|Hb]; [left|right].
    + eapply (trivial_evidence_mono pr s); [set_solver|exact Hb].
    + eapply (gate_passed_mono pr d s); [set_solver|exact Hb].
  - exact (just_update pr d _ b Hon Ht Hs Hi).
  - exact (just_arm pr d _ b Hon Ht).
  - exact (just_close pr d _ b Hi Ht).
Qed.

Lemma tryMechanicalOverride_wp pr d w :
  wp (tryMechanicalOverride wt pr d) (fun out s w' =>
    bystanders w w' /\ booked w s w' /\ Forall (justified pr d s) (writes s) /\ no_close s /\
    (creates s = [] \/ sent_mechanical pr d s /\ out = overrideHandled)) w.
Proof.
  unfold tryMechanicalOverride, carry. do 2 wp_step. wp_step.
  { wp_steps. split_and!; [done|apply booked_quiet; simpl; set_solver|constructor|constructor|by left]. }
  wp_step; [wp_steps; split_and!; [done|by apply booked_quiet|constructor|constructor|by left]|].
  wp_step. wp_use qualifies_wp. intros q s1 w1 (Hw1 & Hq1 & Hgate).
  wp_step; [wp_steps|wp_steps|];
    try (split_and!; [frame|apply booked_same; [frame|by seg]|apply Forall_justified_quiet; by seg
                 |apply no_close_quiet; by seg|left; by seg]).
  specialize (Hgate eq_refl). wp_step.
  - wp_step. wp_step. wp_step.
    + wp_step. wp_use tryAutoMerge_wp. intros [] s2 w2 (Hw2 & Hc2 & Ha2 & Hn2).
      wp_use publishMechanical_wp.
      { destruct Hw1 as (? & ? & ->), Hw2 as (? & ? & ->). done. }
      intros out s3 w3 (-> & Hb & Hs3 & Hbk & cmd & ok & Hc3 & Ho & Hi & Hr).
      assert (same_state w w2) as Hw by (etrans; [|exact Hw2]; etrans; [exact Hw1|frame]).
      destruct Hw as (? & ? & ->). split_and!; [done| | | |right; split; [|done]].
      * rewrite !app_assoc. eapply booked_trans; [|exact Hbk].
        apply booked_same; [frame|by seg].
      * destruct a0. match goal with |- Forall (justified _ _ ?t) _ => set (tr := t) end.
        assert (writes tr = (label_write pr, true) :: writes s2) as -> by (unfold tr; by seg).
        constructor; [apply just_label; right; eapply (gate_passed_mono pr d s1); [set_solver|done]|].
        eapply Forall_impl; [exact Ha2|]. intros x' Hx'.
        set (al := Ev (AddLabel (Owner pr) (Repo pr) (Number pr) (autoMergeLabel wt)) (Ok ())) in tr.
        eapply (justified_mono pr d ((s1 ++ [al]) ++ s2)); [set_solver|].
        apply justified_labelled; [|by apply authorised_justified]. unfold al. seg. in_segment.
      * unfold no_close. seg. by constructor.
      * exists ([] ++ s1 ++ [Ev (AddLabel (Owner pr) (Repo pr) (Number pr) (autoMergeLabel wt)) (Ok a0)] ++ s2), s3, cmd, ok.
        split_and!; try done; [by rewrite !app_assoc|by seg| |].
        -- by apply (gate_passed_app pr d s1).
        -- right. seg. destruct a0. in_segment.
    + wp_steps. split_and!; [frame|apply booked_same; [frame|by seg]| |
        unfold no_close; seg; by repeat constructor|left; by seg].
      match goal with |- Forall (justified _ _ ?t) _ => set (tr := t) end.
      assert (writes tr = [(label_write pr, false)]) as -> by (unfold tr; by seg).
      constructor; [|constructor]. apply just_label. right.
      eapply (gate_passed_mono pr d s1); [set_solver|done].
  - wp_use publishMechanical_wp; [by destruct Hw1 as (? & ? & ->)|].
    intros out s3 w3 (-> & Hb & Hs3 & Hbk & cmd & ok & Hc3 & Ho & Hi & Hr).
    split_and!; [by destruct Hw1 as (? & ? & ->)| |apply Forall_justified_quiet; by seg
      |apply no_close_quiet; by seg|right; split; [|done]].
    + eapply booked_trans; [by apply booked_same|]. eapply booked_trans; [|exact Hbk].
      apply booked_same; [done|by seg].
    + exists s1, s3, cmd, ok. bool_props. split_and!; try done; [by seg|by left].
Qed.

(** The same fields without the deferral counts. *)
Definition bystanders' (w w' : World E St) : Prop :=
  coal w' = coal w /\ LastUpdatedAt (cursorState w') = LastUpdatedAt (cursorState w) /\
  sideEffectsRun w' = sideEffectsRun w /\ retryState w' = retryState w /\
  reviewedCache w' = reviewedCache w /\ prDetailsCache w' = prDetailsCache w.

Lemma bystanders_weaken w w' : bystanders w w' -> bystanders' w w'.
Proof. intros (? & ? & ? & ? & ? & ? & ?). done. Qed.

(** What the outcome says of the deferral count of this PR head. *)
Definition deferral_step (pr : PullRequest) (d : PRDetails) (o : prOutcome) (w w' : World E St) : Prop :=
  let key := deferralKey pr (HeadSHA d) in
  let count := wrap64 (deferral_count key (cursorState w) + 1) in
  if deferred o
  then handled o = true /\ count <= maxDeferralAttempts /\
       Deferrals (cursorState w') = <[key := count]> (Deferrals (cursorState w))
  else Deferrals (cursorState w') = delete key (Deferrals (cursorState w)).

Lemma mechanicalOverrideOutcome_wp pr d w :
  wp (mechanicalOverrideOutcome wt pr d) (fun o s w' =>
    bystanders' w w' /\ deferral_step pr d o w w' /\ booked w s w' /\
    Forall (justified pr d s) (writes s) /\ no_close s /\
    (handled o = true -> updatedAt o = UpdatedAt pr) /\
    (creates s = [] \/ sent_mechanical pr d s /\ handled o = true /\ deferred o = false)) w.
Proof.
  unfold mechanicalOverrideOutcome. wp_step. wp_use tryMechanicalOverride_wp.
  intros out s w1 (Hb & Hbk & Hwr & Hno & Hc).
  assert (forall f, booked w s (set_loc (set_cursor (set_Deferrals f (cursorState w1)) w1) w1)) as Hbk'.
  { intros f. rewrite <- (app_nil_r s). eapply booked_trans; [exact Hbk|]. by apply booked_quiet. }
  pose proof Hb as Hb'. destruct Hb' as (_ & _ & Hdef & _). apply bystanders_weaken in Hb.
  unfold deferral_step. wp_step.
  - wp_steps. rewrite !app_nil_r. destruct Hc as [Hc|[_ [=]]].
    split_and!; try done; [by rewrite Hdef|by left].
  - wp_steps. rewrite !app_nil_r. split_and!; try done; [by rewrite Hdef|].
    destruct Hc as [Hc|[Hc _]]; [by left|by right].
  - destruct Hc as [Hc|[_ [=]]].
    assert (deferral_count (deferralKey pr (HeadSHA d))
      (set_Deferrals (<[deferralKey pr (HeadSHA d) := wrap64 (deferral_count
        (deferralKey pr (HeadSHA d)) (cursorState w1) + 1)]> (Deferrals (cursorState w1)))
        (cursorState w1)) = wrap64 (deferral_count (deferralKey pr (HeadSHA d)) (cursorState w) + 1))
      as Hcount.
    { unfold deferral_count. simpl. by rewrite lookup_insert_eq, Hdef. }
    do 4 wp_step. simpl in *. rewrite Hcount. wp_step; wp_steps; rewrite !app_nil_r.
    + bool_props. split_and!; try done; [|by left].
      simpl. split_and!; [done..|]. unfold deferral_count. by rewrite Hdef.
    + split_and!; try done; [| |by left].
      * simpl. by rewrite delete_insert_eq, Hdef.
      * rewrite <- (app_nil_r s). eapply booked_trans; [exact Hbk|]. by apply booked_quiet.
Qed.

(** ** The review path *)

(** At most one command, a review of this head. *)
Definition sent_review (pr : PullRequest) (d : PRDetails) (s : list event) : Prop :=
  exists cmd ok, creates s = [(cmd, ok)] /\ is_review cmd = true /\
    TaskIdentifier cmd = review_id pr d.

Lemma publishReviewOutcome_wp pr d w :
  HeadSHAs (cursorState w) !! review_id pr d = None ->
  wp (publishReviewOutcome wt pr d (review_id pr d)) (fun o s w' =>
    LastUpdatedAt (cursorState w') = LastUpdatedAt (cursorState w) /\
    Deferrals (cursorState w') = Deferrals (cursorState w) /\
    sideEffectsRun w' = sideEffectsRun w /\ retryState w' = retryState w /\
    reviewedCache w' = reviewedCache w /\ prDetailsCache w' = prDetailsCache w /\ booked w s w' /\ writes s = [] /\
    (handled o = true -> updatedAt o = UpdatedAt pr /\ deferred o = false) /\
    (creates s = [] \/ sent_review pr d s /\ deferred o = false)) w.
Proof.
  intros Hid. unfold publishReviewOutcome, admitReview, record_published, carry.
  do 5 wp_step.
  - wp_step. wp_use PublishCreate_law. intros ok s w1 (Hw & Hs & Hc).
    destruct Hw as (? & ? & ? & ->).
    destruct ok; wp_steps; (split_and!; try done); try by seg.
    all: destruct Hc as [[Hc Hok]|(cmd & Hc & Hr & Hi)]; try done.
    all: try (apply booked_quiet; [by seg|simpl; set_solver..]).
    all: try (eapply booked_publish; [by seg|exact Hi|done|simpl; set_solver..]).
    all: try (left; by seg).
    all: right; split; [|done]; exists cmd; eexists; split; [by seg|done].
  - wp_steps. split_and!; try done; [by apply booked_quiet|by left].
  - wp_steps. split_and!; try done; [apply booked_quiet; simpl; set_solver|by left].
Qed.

(** ** One PR *)

(** The trivial flow hands on the PR, or the PR with the label it put on. *)
Lemma labelTrivial_wp pr d w :
  wp (labelTrivial wt pr) (fun pr' s w' =>
    same_state w w' /\ creates s = [] /\ Forall (justified pr d s) (writes s) /\ no_close s /\
    (pr' = pr \/ pr' = append_label pr (autoMergeLabel wt) /\ (label_write pr, true) ∈ writes s)) w.
Proof.
  unfold labelTrivial. wp_step; [|wp_steps; split_and!; [frame|done|constructor|constructor|by left]].
  wp_step. wp_use maybeLabelTrivial_wp. intros l s w' (Hw & Hc & Hs).
  assert (Forall (justified pr d s) (writes s)) as Hj.
  { destruct Hs as [[-> _]|[-> Hev]]; constructor; [|constructor]. apply just_label. by left. }
  assert (no_close s) as Hn.
  { unfold no_close. destruct Hs as [[-> _]|[-> _]]; by repeat constructor. }
  wp_steps. rewrite app_nil_r. (split_and!; [done..|]). destruct l.
  - right. destruct Hs as [[_ [=]]|[-> _]]. split; [done|]. in_segment.
  - by left.
Qed.

(** The one command a PR may get: a review of its head, an override its
    labels ask for, or a mechanical override behind its gate. The labels are
    those of [pr'], which may carry the label the trivial flow put on. *)
Inductive sent_one (pr pr' : PullRequest) (d : PRDetails) (s : list event) : Prop :=
| sent_nothing : creates s = [] -> sent_one pr pr' d s
| sent_a_review : sent_review pr d s -> sent_one pr pr' d s
| sent_an_override : sent_override pr' d s -> sent_one pr pr' d s
| sent_a_mechanical : sent_mechanical pr d s -> sent_one pr pr' d s.

Lemma sent_mechanical_pad pr d s t u : creates s = [] -> creates u = [] ->
  sent_mechanical pr d t -> sent_mechanical pr d (s ++ t ++ u).
Proof.
  intros Hs Hu (s1 & s2 & cmd & ok & -> & Hs1 & Hs2 & ? & ? & ? & Hg & Hl).
  exists (s ++ s1), (s2 ++ u), cmd, ok. split_and!; try done; [by rewrite !app_assoc|by seg|by seg| |].
  - eapply gate_passed_mono; [|exact Hg]. set_solver.
  - destruct Hl as [?|?]; [by left|right]. rewrite writes_app. set_solver.
Qed.

(** Steps around the one that sends do not change what was sent. *)
Lemma sent_one_pad pr pr' d s t u : creates s = [] -> creates u = [] ->
  sent_one pr pr' d t -> sent_one pr pr' d (s ++ t ++ u).
Proof.
  intros Hs Hu [Ht|(cmd & ok & Ht & ?)|(? & ? & cmd & ok & Ht & ?)|].
  - apply sent_nothing. by seg.
  - apply sent_a_review. exists cmd, ok. split; [by seg|done].
  - apply sent_an_override. split_and!; [done..|]. exists cmd, ok. split; [by seg|done].
  - by apply sent_a_mechanical, sent_mechanical_pad.
Qed.

(** What was sent for the labelled PR was sent for the PR, after its label
    was put on. *)
Lemma sent_one_labelled pr d s0 s : creates s0 = [] -> (label_write pr, true) ∈ writes s0 ->
  let pr' := append_label pr (autoMergeLabel wt) in
  sent_one pr' pr' d s -> sent_one pr pr' d (s0 ++ s).
Proof.
  intros H0 Hl pr' [Ht|(cmd & ok & Ht & ?)|(? & ? & cmd & ok & Ht & ?)|
                    (s1 & s2 & cmd & ok & -> & Hs1 & Hs2 & ? & ? & ? & Hg & _)].
  - apply sent_nothing. by seg.
  - apply sent_a_review. exists cmd, ok. split; [by seg|done].
  - apply sent_an_override. split_and!; [done..|]. exists cmd, ok. split; [by seg|done].
  - apply sent_a_mechanical. exists (s0 ++ s1), s2, cmd, ok.
    split_and!; try done; [by rewrite !app_assoc|by seg| |].
    + eapply (gate_passed_mono pr d s1); [set_solver|exact Hg].
    + right. rewrite writes_app. set_solver.
Qed.

(** What the override and review steps did. *)
Record decided (pr : PullRequest) (d : PRDetails) (o : prOutcome) (s : list event)
    (w w' : World E St) : Prop := mkDecided {
  dc_last : LastUpdatedAt (cursorState w') = LastUpdatedAt (cursorState w);
  dc_ran : sideEffectsRun w' = sideEffectsRun w;
  dc_retry : retryState w' = retryState w;
  dc_reviewed : reviewedCache w' = reviewedCache w;
  dc_cache : prDetailsCache w' = prDetailsCache w;
  dc_booked : booked w s w';
  dc_writes : Forall (justified pr d s) (writes s);
  dc_close : no_close s;
  dc_sent : sent_one pr pr d s;
  dc_updated : handled o = true -> updatedAt o = UpdatedAt pr;
  dc_deferred : deferred o = true -> creates s = [] }.

Lemma overrideOrReview_wp pr d w :
  wp (overrideOrReview wt pr d (review_id pr d)) (fun o s w' => decided pr d o s w w') w.
Proof.
  unfold overrideOrReview. wp_step. wp_use tryOverride_wp.
  intros ov s1 w1 ((_ & Hl1 & _ & Hr1 & Ht1 & Hv1 & Hk1) & Hs1 & Hb1 & Hc1).
  assert (no_close s1) as Hn1 by by apply no_close_quiet.
  apply Forall_justified_quiet with (pr := pr) (d := d) in Hs1. wp_step.
  { wp_steps. rewrite app_nil_r. split; try done.
    destruct Hc1 as [?|[? _]]; [by apply sent_nothing|by apply sent_an_override]. }
  destruct Hc1 as [Hc1|[_ [=]]]. wp_step. wp_use mechanicalOverrideOutcome_wp.
  intros o s2 w2 ((_ & Hl2 & Hr2 & Ht2 & Hv2 & Hk2) & Hd2 & Hb2 & Hj2 & Hn2 & Hu2 & Hc2).
  pose proof (booked_trans _ _ _ _ _ Hb1 Hb2) as Hb.
  pose proof (Forall_justified_app _ _ _ _ Hs1 Hj2) as Hj.
  pose proof (no_close_app _ _ Hn1 Hn2) as Hn. wp_step.
  { wp_steps. rewrite app_nil_r. split; try done; try congruence.
    - rewrite <- (app_nil_r (s1 ++ s2)), <- app_assoc. apply sent_one_pad; [done..|].
      destruct Hc2 as [?|[? _]]; [by apply sent_nothing|by apply sent_a_mechanical].
    - intros _. by apply Hu2.
    - intros Hdef. destruct Hc2 as [Hc2|(_ & _ & ?)]; [|congruence]. by seg. }
  destruct Hc2 as [Hc2|(_ & [=] & _)]. do 2 wp_step. wp_step.
  { unfold carry. wp_steps. cbn [app]. rewrite !app_nil_r. split; try done; try (simpl; congruence).
    - rewrite <- (app_nil_r s2), app_assoc. eapply booked_trans; [exact Hb|].
      apply booked_quiet; simpl; set_solver.
    - apply sent_nothing. by seg. }
  wp_use publishReviewOutcome_wp; [done|].
  intros o' s3 w3 (Hl3 & Hd3 & Hr3 & Ht3 & Hv3 & Hk3 & Hb3 & Hs3 & Hu3 & Hc3). cbn [app].
  rewrite app_assoc. split; try done; try congruence.
  - by eapply booked_trans.
  - apply Forall_justified_app; [done|]. by apply Forall_justified_quiet.
  - apply no_close_app; [done|]. by apply no_close_quiet.
  - rewrite <- (app_nil_r s3). apply sent_one_pad; [by seg|done|].
    destruct Hc3 as [?|[? _]]; [by apply sent_nothing|by apply sent_a_review].
  - intros Hh. by apply Hu3.
  - intros Hdef. destruct Hc3 as [?|[_ ?]]; [by seg|congruence].
Qed.

(** What a run over one fetched PR did. *)
Record fetched_run (pr : PullRequest) (d : PRDetails) (o : prOutcome) (s : list event)
    (w w' : World E St) : Prop := mkFetchedRun {
  fr_last : LastUpdatedAt (cursorState w') = LastUpdatedAt (cursorState w);
  fr_ran : sideEffectsRun w' = {[ prKey pr ]} ∪ sideEffectsRun w;
  fr_retry : retryState w' = retryState w;
  fr_reviewed : reviewedCache w' = reviewedCache w;
  fr_cache : prDetailsCache w' = prDetailsCache w;
  fr_booked : booked w s w';
  fr_writes : Forall (justified pr d s) (writes s);
  fr_close : no_close s \/ creates s = [];
  fr_sent : sent_one pr pr d s;
  fr_updated : handled o = true -> updatedAt o = UpdatedAt pr;
  fr_deferred : deferred o = true -> creates s = [] }.

Lemma processFetchedPR_wp pr d w :
  wp (processFetchedPR wt pr d) (fun o s w' => fetched_run pr d o s w w') w.
Proof.
  unfold processFetchedPR. do 3 wp_step. wp_use trySupersedeDepBump_wp.
  intros closed s1 w1 (Hw1 & Hc1 & Ha1 & Hcl). apply Forall_authorised in Ha1.
  destruct Hw1 as (e1 & t1 & ->). wp_step.
  { unfold record_published, carry. wp_steps. cbn [app]. rewrite !app_nil_r. split; try done.
    - apply booked_quiet; simpl; set_solver.
    - by right.
    - by apply sent_nothing. }
  wp_step. wp_use tryUpdateBranch_wp. intros [] s2 w2 (Hw2 & Hc2 & Ha2 & Hn2).
  apply Forall_authorised in Ha2.
  wp_step. wp_use tryAutoMerge_wp. intros [] s3 w3 (Hw3 & Hc3 & Ha3 & Hn3).
  apply Forall_authorised in Ha3. destruct Hw2 as (e2 & t2 & ->), Hw3 as (e3 & t3 & ->).
  assert (no_close s1) as Hn1.
  { eapply Forall_impl; [exact Hcl|]. intros [[] b]; simpl; done. }
  wp_use overrideOrReview_wp. intros o s4 w4 [].
  replace ([] ++ s1 ++ s2 ++ s3 ++ s4) with ((s1 ++ s2 ++ s3) ++ s4 ++ [])
    by (rewrite app_nil_r, !app_assoc; done).
  assert (creates (s1 ++ s2 ++ s3) = []) as Hc by by seg. split; try done.
  - eapply booked_trans; [|rewrite app_nil_r; exact dc_booked0]. by apply booked_quiet.
  - rewrite app_nil_r. by repeat apply Forall_justified_app.
  - left. rewrite app_nil_r. by repeat apply no_close_app.
  - by apply sent_one_pad.
  - intros Hdef. specialize (dc_deferred0 Hdef). by seg.
Qed.

(** The PR the decisions are made on: as searched, or with the label the
    trivial flow has just put on it. *)
Definition as_labelled (pr pr' : PullRequest) : Prop :=
  pr' = pr \/ pr' = append_label pr (autoMergeLabel wt).

(** What a run of [processPR] did. *)
Record processed (pr : PullRequest) (o : prOutcome) (s : list event)
    (w w' : World E St) : Prop := mkProcessed {
  pp_last : LastUpdatedAt (cursorState w') = LastUpdatedAt (cursorState w);
  pp_retry : retryState w' = retryState w;
  pp_reviewed : reviewedCache w' = reviewedCache w;
  pp_booked : booked w s w';
  pp_updated : handled o = true -> updatedAt o = UpdatedAt pr;
  pp_deferred : deferred o = true -> creates s = [];
  pp_cache : cached_answers pr s w w';
  pp_run :
    quiet s /\ sideEffectsRun w' = sideEffectsRun w \/
    exists pr' d, as_labelled pr pr' /\ HeadSHA d <> "" /\ fetched_details pr d s w /\
      sideEffectsRun w' = {[ prKey pr ]} ∪ sideEffectsRun w /\
      Forall (justified pr d s) (writes s) /\ sent_one pr pr' d s /\ (no_close s \/ creates s = []) }.

Lemma booked_cache m w s w' : booked (set_loc (set_prDetailsCache m w) w) s w' -> booked w s w'.
Proof. intros []. by split. Qed.

Lemma processPR_wp pr w : wp (processPR wt pr) (fun o s w' => processed pr o s w w') w.
Proof.
  unfold processPR. wp_step.
  { wp_steps. split; try done; [by apply booked_quiet|by apply cached_answers_same|by left]. }
  wp_step. wp_use fetchPRDetails_wp. intros r s1 w1 ((m & e1 & t1 & ->) & Hq1 & Hca & Hfd).
  assert (forall t w', s1 ⊆ t -> prDetailsCache w' = m -> cached_answers pr t w w') as Hca'.
  { intros t w' Ht Hm. apply (cached_answers_mono pr s1); [done|]. intros key d. rewrite Hm. apply Hca. }
  wp_step; [|wp_steps; split; try done; [apply booked_quiet; by seg|apply Hca'; [set_solver|done]|left; split; [by seg|done]]].
  wp_step; [wp_steps; split; try done; [apply booked_quiet; by seg|apply Hca'; [set_solver|done]|left; split; [by seg|done]]|].
  bool_props. wp_step. eapply wp_mono; [apply (labelTrivial_wp pr a)|]; cbn beta.
  intros pr' s2 w2 ((e2 & t2 & ->) & Hc2 & Hj2 & Hn2 & Hl2).
  wp_use processFetchedPR_wp. intros o s3 w3 [].
  assert (creates (s1 ++ s2) = []) as Hc by by seg.
  assert (UpdatedAt pr' = UpdatedAt pr /\ prKey pr' = prKey pr) as [Hup Hkey]
    by (destruct Hl2 as [->|[-> _]]; done).
  rewrite app_assoc. split; try done.
  - eapply booked_trans; [apply booked_quiet; [exact Hc|done..]|].
    eapply (booked_cache m). by destruct fr_booked0.
  - intros Hh. by rewrite fr_updated0.
  - intros Hdef. specialize (fr_deferred0 Hdef). by seg.
  - apply Hca'; [set_solver|by rewrite fr_cache0].
  - right. exists pr', a. split_and!; try done.
    + destruct Hl2 as [?|[? _]]; [by left|by right].
    + eapply (fetched_details_mono pr a s1); [set_solver|by apply Hfd].
    + by rewrite fr_ran0, Hkey.
    + rewrite <- app_assoc. apply Forall_justified_app; [by apply Forall_justified_quiet; seg|].
      destruct Hl2 as [->|[-> Hl2]]; [by apply Forall_justified_app|].
      rewrite writes_app. apply Forall_app. split.
      * eapply Forall_impl; [exact Hj2|]. intros x. apply justified_mono. set_solver.
      * eapply Forall_impl; [exact fr_writes0|]. intros x. by apply justified_labelled.
    + rewrite <- app_assoc, <- (app_nil_r (s2 ++ s3)). apply sent_one_pad; [by seg|done|].
      destruct Hl2 as [->|[-> Hl2]]; [|by apply sent_one_labelled].
      rewrite <- (app_nil_r s3). by apply sent_one_pad.
    + destruct fr_close0 as [Hn|Hn]; [left|right; by seg].
      apply no_close_app; [|done]. apply no_close_app; [|done]. apply no_close_quiet. by seg.
Qed.

(** ** The batch *)

(** The outcomes of a batch: what [processPR] came to for each PR in turn, in
    the worlds the batch reached, until the context was done. *)
Inductive batch_run : list PullRequest -> list prOutcome -> bool -> list event ->
    World E St -> World E St -> Prop :=
| run_done w : batch_run [] [] false [] w w
| run_cancelled pr prs w w' :
    same_state w w' -> batch_run (pr :: prs) [] true [Ev CtxDone true] w w'
| run_next pr prs o os c s1 s2 w w0 w1 w2 :
    same_state w w0 -> ends (processPR wt pr) w0 o s1 w1 -> processed pr o s1 w0 w1 ->
    batch_run prs os c s2 w1 w2 ->
    batch_run (pr :: prs) (o :: os) c (Ev CtxDone false :: s1 ++ s2) w w2.

Fixpoint note_outcomes (prs : list PullRequest) (os : list prOutcome) (b : batch) : batch :=
  match prs, os with
  | pr :: prs', o :: os' => note_outcomes prs' os' (note_outcome pr o b)
  | _, _ => b
  end.

Lemma processPRs_loop_wp prs : forall b w,
  wp (processPRs_loop wt prs b) (fun b' s w' => exists os c,
    batch_run prs os c s w w' /\
    maxUpdatedAt b' = maxUpdatedAt (note_outcomes prs os b) /\
    deferFloor b' = deferFloor (note_outcomes prs os b) /\
    (cancelled b = false -> cancelled b' = c)) w.
Proof.
  induction prs as [|pr prs IH]; intros b w; simpl.
  - wp_steps. exists [], false. split_and!; try done. constructor.
  - do 2 wp_step. wp_step.
    + wp_steps. exists [], true. split_and!; try done. apply run_cancelled. frame.
    + wp_step. eapply wp_mono; [apply wp_conj; [apply wp_ends|apply processPR_wp]|]. cbn beta.
      intros o s1 w1 [He1 H1]. wp_use IH.
      intros b' s2 w2 (os & c & H2 & Hm & Hf & Hc). exists (o :: os), c. split_and!; try done.
      subst a. cbn [app]. eapply run_next; [|exact He1|exact H1|exact H2]. frame.
Qed.

Lemma batch_run_booked prs os c s w w' : batch_run prs os c s w w' -> booked w s w'.
Proof.
  induction 1 as [w|pr prs w w' Hw|pr prs o os c s1 s2 w w0 w1 w2 Hw _ Hp Hr IH].
  - by apply booked_quiet.
  - by apply booked_same.
  - change (Ev CtxDone false :: s1 ++ s2) with ([Ev CtxDone false] ++ s1 ++ s2).
    eapply booked_trans; [by apply booked_same|]. eapply booked_trans; [|exact IH]. apply Hp.
Qed.

Lemma batch_run_last prs os c s w w' : batch_run prs os c s w w' ->
  LastUpdatedAt (cursorState w') = LastUpdatedAt (cursorState w) /\
  retryState w' = retryState w /\ reviewedCache w' = reviewedCache w /\
  sideEffectsRun w ⊆ sideEffectsRun w'.
Proof.
  induction 1 as [w|pr prs w w' (e & t & ->)|pr prs o os c s1 s2 w w0 w1 w2 (e & t & ->) _ [] Hr IH];
    [done|done|]. destruct IH as (? & ? & ? & ?). simpl in *. split_and!; try congruence.
  destruct pp_run0 as [[_ Hran]|(? & ? & _ & _ & _ & Hran & _)]; rewrite Hran in *; set_solver.
Qed.

(** The details a batch goes by are those it began with, or GitHub's answers
    to it. *)
Lemma batch_run_cache prs os c s w w' : batch_run prs os c s w w' ->
  forall key d, prDetailsCache w' !! key = Some d ->
    prDetailsCache w !! key = Some d \/ exists pr, (pr ∈ prs) /\ key = prKey pr /\ answered_details pr d s.
Proof.
  unfold answered_details.
  induction 1 as [w|pr prs w w' (e & t & ->)|pr prs o os c s1 s2 w w0 w1 w2 (e & t & ->) _ [] Hr IH];
    intros key d Hd; [by left|by left|].
  destruct (IH key d Hd) as [H1|(pr' & ? & -> & H1)].
  - destruct (pp_cache0 key d H1) as [?|[-> Ha]]; [by left|right]. exists pr. unfold answered_details in Ha.
    split_and!; [by left|done|]. right. apply elem_of_app. by left.
  - right. exists pr'. split_and!; [by right|done|]. right. apply elem_of_app. by right.
Qed.

(** Where a batch begins: its maps are empty. *)
Definition batch_start (w : World E St) : World E St :=
  set_loc (set_prDetailsCache ∅ (set_newHeadSHAs ∅ (set_sideEffectsRun ∅ w))) w.

(** What a batch publishes is in the cursor it leaves. *)
Lemma processPRs_wp prs w :
  wp (processPRs wt prs) (fun m s w' => exists os c w2 b,
    batch_run prs os c s (batch_start w) w2 /\
    b = note_outcomes prs os (mkBatch (LastUpdatedAt (cursorState w)) None false) /\
    m = (if c then maxUpdatedAt b else clamp b) /\
    w' = if c then w2 else set_loc (set_cursor (set_HeadSHAs (newHeadSHAs w2) (cursorState w2)) w2) w2) w.
Proof.
  unfold processPRs. do 2 wp_step. do 2 wp_step. wp_step. wp_use processPRs_loop_wp.
  intros b s w2 (os & c & Hrun & Hm & Hf & Hc). specialize (Hc eq_refl). wp_step; wp_steps.
  - exists os, c, w2. eexists. cbn [app]. rewrite !app_nil_r. split_and!; [done|done| |];
      rewrite <- Hc; done.
  - exists os, c, w2. eexists. cbn [app]. rewrite !app_nil_r. split_and!; [done|done| |];
      rewrite <- Hc; [|done]. unfold clamp. rewrite Hf. simpl.
    destruct (deferFloor _); by rewrite Hm.
Qed.

(** What the batch reached from [t]: the latest update of a handled PR. *)
Definition reached (t : DateTime) (outs : list (PullRequest * prOutcome)) : DateTime :=
  foldl (fun t '(pr, o) => if handled o then Z.max t (UpdatedAt pr) else t) t outs.

(** [t], held back to the earliest update of a deferred PR. *)
Definition held_back (t : DateTime) (outs : list (PullRequest * prOutcome)) : DateTime :=
  foldl (fun t '(pr, o) => if deferred o then Z.min t (UpdatedAt pr) else t) t outs.

Lemma held_back_spec outs : forall t,
  held_back t outs <= t /\
  (forall pr o, ((pr, o) ∈ outs) -> deferred o = true -> held_back t outs <= UpdatedAt pr) /\
  ((forall pr o, ((pr, o) ∈ outs) -> deferred o = false) -> held_back t outs = t).
Proof.
  unfold held_back. induction outs as [|[pr o] outs IH]; intros t; simpl.
  { split_and!; [lia|by intros ? ? ?%elem_of_nil|done]. }
  destruct (IH (if deferred o then Z.min t (UpdatedAt pr) else t)) as (H1 & H2 & H3). split_and!.
  - destruct (deferred o); lia.
  - intros p q [[= -> ->]|Hin]%elem_of_cons Hq; [rewrite Hq in *; lia|by eapply H2].
  - intros Hn. etrans; [apply H3; intros p q ?; apply (Hn p q); by right|]. by rewrite (Hn pr o) by by left.
Qed.

Lemma reached_spec outs : forall t,
  t <= reached t outs /\
  forall pr o, ((pr, o) ∈ outs) -> handled o = true -> UpdatedAt pr <= reached t outs.
Proof.
  unfold reached. induction outs as [|[pr o] outs IH]; intros t; simpl; [split; [lia|by intros ? ? ?%elem_of_nil]|].
  destruct (IH (if handled o then Z.max t (UpdatedAt pr) else t)) as [H1 H2]. split.
  - destruct (handled o); lia.
  - intros p q [[= -> ->]|Hin]%elem_of_cons Hq; [rewrite Hq in *; lia|by eapply H2].
Qed.

(** The loop's running maximum is what the batch reached. *)
Lemma note_outcomes_reached prs : forall os b,
  (forall pr o, ((pr, o) ∈ zip prs os) -> handled o = true -> updatedAt o = UpdatedAt pr) ->
  maxUpdatedAt (note_outcomes prs os b) = reached (maxUpdatedAt b) (zip prs os).
Proof.
  unfold reached. induction prs as [|pr prs IH]; intros [|o os] b Hup; simpl in *; try done.
  rewrite IH by (intros p q ?; apply Hup; by right). f_equal. unfold note_outcome, dt_After. simpl.
  destruct (handled o) eqn:Hh; [|done]. rewrite (Hup pr o) by (done || by left). simpl.
  destruct (Z.ltb_spec (maxUpdatedAt b) (UpdatedAt pr)); lia.
Qed.

(** The clamp at the end holds it back to the deferred PRs. *)
Definition clamp_at (t : DateTime) (f : option DateTime) : DateTime :=
  match f with Some f => Z.min t f | None => t end.

Lemma clamp_eq b : clamp b = clamp_at (maxUpdatedAt b) (deferFloor b).
Proof.
  unfold clamp, clamp_at, dt_After. destruct (deferFloor b) as [f|]; [|done].
  destruct (Z.ltb_spec f (maxUpdatedAt b)); lia.
Qed.

Lemma note_outcomes_held_back t prs : forall os b,
  clamp_at t (deferFloor (note_outcomes prs os b)) = held_back (clamp_at t (deferFloor b)) (zip prs os).
Proof.
  unfold held_back. induction prs as [|pr prs IH]; intros [|o os] b; simpl; try done.
  rewrite IH. f_equal. unfold note_outcome, dt_Before. simpl. destruct (deferred o); [|done].
  destruct (deferFloor b) as [f|]; simpl; [|done]. destruct (Z.ltb_spec (UpdatedAt pr) f); simpl; lia.
Qed.

(** An uncancelled batch has one outcome per PR; a handled PR's outcome
    carries its update time. *)
Lemma batch_run_length prs os c s w w' : batch_run prs os c s w w' ->
  (length os <= length prs)%nat /\ (c = false -> length os = length prs) /\ (c = true -> Ev CtxDone true ∈ s).
Proof.
  induction 1 as [| |? ? ? ? ? ? ? ? ? ? ? ? ? ? ? (IH1 & IH2 & IH3)]; simpl; split_and!; try lia; try done; auto.
  - intros _. by left.
  - intros Hc. right. apply elem_of_app. right. by apply IH3.
Qed.

Lemma batch_run_updated prs os c s w w' : batch_run prs os c s w w' ->
  forall pr o, ((pr, o) ∈ zip prs os) -> handled o = true -> updatedAt o = UpdatedAt pr.
Proof.
  induction 1 as [| |pr prs o os c s1 s2 w w0 w1 w2 _ _ Hp _ IH]; simpl; try set_solver.
  intros p q Hin Hh. apply elem_of_cons in Hin as [[= -> ->]|Hin]; [|by apply IH].
  by apply Hp.
Qed.

(** ** The labelled pass *)

Definition same_but_cache (w w' : World E St) : Prop :=
  exists m, same_state (set_loc (set_prDetailsCache m w) w) w'.

Lemma same_but_cache_refl w : same_but_cache w w.
Proof. exists (prDetailsCache w). destruct w as [? ? ? ? [] ?]. by do 2 eexists. Qed.

Lemma same_but_cache_trans w1 w2 w3 :
  same_but_cache w1 w2 -> same_but_cache w2 w3 -> same_but_cache w1 w3.
Proof. intros (m & e & t & ->) (m' & e' & t' & ->). exists m'. by do 2 eexists. Qed.

Lemma same_but_cache_state w w' : same_state w w' -> same_but_cache w w'.
Proof. intros (e & t & ->). exists (prDetailsCache w). destruct w as [? ? ? ? [] ?]. by do 2 eexists. Qed.

Lemma Forall_authorised_app pr d s t : Forall (authorised pr d) (writes s) ->
  Forall (authorised pr d) (writes t) -> Forall (authorised pr d) (writes (s ++ t)).
Proof. intros. rewrite writes_app. by apply Forall_app. Qed.

(** One PR of the pass: authorised writes only, and none for a PR whose side
    effects have run. *)
Lemma processLabeledPR_wp pr w :
  wp (processLabeledPR wt pr) (fun _ s w' =>
    same_but_cache w w' /\ creates s = [] /\
    (writes s = [] \/ (prKey pr ∉ sideEffectsRun w) /\
       exists d, Forall (authorised pr d) (writes s))) w.
Proof.
  unfold processLabeledPR. do 2 wp_step.
  wp_step; [wp_steps; split_and!; [apply same_but_cache_refl|done|by left]|].
  apply bool_decide_eq_false in Heqb as Hskip.
  wp_step; [wp_steps; split_and!; [apply same_but_cache_refl|done|by left]|].
  wp_step. wp_use fetchPRDetails_wp. intros r s1 w1 (Hw1 & Hq1 & _).
  wp_step; [|wp_steps; split_and!; [done|by seg|left; by seg]].
  wp_step; [wp_steps; split_and!; [done|by seg|left; by seg]|].
  wp_step. wp_use trySupersedeDepBump_wp. intros closed s2 w2 (Hw2 & Hc2 & Ha2 & _).
  apply same_but_cache_state in Hw2. pose proof (same_but_cache_trans _ _ _ Hw1 Hw2) as Hw.
  destruct Hq1 as [Hq1 Hq1']. wp_step.
  { wp_steps. split_and!; [done|by seg|right; split; [done|exists a; by seg]]. }
  wp_step. wp_use tryUpdateBranch_wp. intros [] s3 w3 (Hw3 & Hc3 & Ha3 & _).
  wp_use tryAutoMerge_wp. intros [] s4 w4 (Hw4 & Hc4 & Ha4 & _).
  apply same_but_cache_state in Hw3, Hw4. split_and!.
  - eapply same_but_cache_trans; [exact Hw|]. by eapply same_but_cache_trans.
  - by seg.
  - right. split; [done|]. exists a. cbn [app].
    repeat apply Forall_authorised_app; try done. by rewrite Hq1'.
Qed.

Lemma processLabeledPRs_loop_wp prs : forall w,
  wp (processLabeledPRs_loop wt prs) (fun _ s w' =>
    same_but_cache w w' /\ creates s = [] /\
    Forall (fun x => exists pr d, (prKey pr ∉ sideEffectsRun w) /\ authorised pr d x) (writes s)) w.
Proof.
  induction prs as [|pr prs IH]; intros w; simpl.
  { wp_steps. split_and!; [apply same_but_cache_refl|done|constructor]. }
  do 2 wp_step. wp_step.
  { wp_steps. split_and!; [apply same_but_cache_state; frame|done|constructor]. }
  wp_step. wp_use processLabeledPR_wp. intros [] s1 w1 (Hw1 & Hc1 & Hs1).
  wp_use IH. intros [] s2 w2 (Hw2 & Hc2 & Hs2).
  assert (same_but_cache w w1) as Hw.
  { eapply same_but_cache_trans; [|exact Hw1]. apply same_but_cache_state. frame. }
  split_and!; [by eapply same_but_cache_trans|by seg|].
  autorewrite with segment. cbn [write_of app]. apply Forall_app. split.
  - destruct Hs1 as [->|(Hk & d & Hs1)]; [constructor|].
    eapply Forall_impl; [exact Hs1|]. intros x Hx. by exists pr, d.
  - destruct Hw as (? & ? & ? & ->). done.
Qed.

(** ** Pagination *)

(** [s] asks for the pages from [page] on, and [rs] are the answers. *)
Fixpoint answered (q : Z -> request (result SearchResult)) (page : Z) (rs : list SearchResult)
    (s : list event) : Prop :=
  match rs with
  | [] => s = []
  | r :: rs' => exists s', s = [Ev CtxDone false; Ev (q page) (Ok r)] ++ s' /\
      answered q (NextPage r) rs' s'
  end.

(** The loop returns the concatenation of the pages up to the first that
    announces no other; it gives up only after [fuel] pages that each
    announce another. *)
Lemma paginate_wp q fuel : (forall p a, quiet [Ev (q p) a]) -> forall page acc w,
  wp (paginate fuel (fun p => call (q p)) page acc) (fun r s w' =>
    same_state w w' /\ quiet s /\
    match r with
    | None => exists rs, length rs = fuel /\ answered q page rs s /\
        Forall (fun r => HasNextPage r = true) rs
    | Some (Fetched prs) => exists rs last, answered q page (rs ++ [last]) s /\
        Forall (fun r => HasNextPage r = true) rs /\ HasNextPage last = false /\
        prs = acc ++ concat (PullRequests <$> rs ++ [last])
    | Some FetchCancelled => Ev CtxDone true ∈ s
    | Some FetchFailed => exists p e, Ev (q p) (Err e) ∈ s
    end) w.
Proof.
  intros Hq. induction fuel as [|fuel IH]; intros page acc w; simpl.
  { wp_steps. split_and!; [frame|done|]. exists []. by split_and!. }
  do 2 wp_step. wp_step; [wp_steps; split_and!; [frame|done|in_segment]|].
  do 2 wp_step. pose proof (Hq page a0) as Hq0. wp_step.
  2:{ wp_steps. split_and!; [frame|apply quiet_app; [done|by apply quiet_app]|].
      exists page, e1. in_segment. }
  wp_step.
  { wp_steps. split_and!; [frame|apply quiet_app; [done|by apply quiet_app]|].
    exists [], a1. bool_props. split_and!; [|constructor|done|].
    - exists []. by subst.
    - simpl. by rewrite app_nil_r. }
  wp_use IH. intros r s' w' (Hw & Hs & Hr). split_and!.
  - etrans; [|exact Hw]. etrans; frame.
  - apply quiet_app; [done|by apply quiet_app].
  - subst. bool_props. destruct r as [[prs| |]|].
    + destruct Hr as (rs & last & Ha & Hf & Hl & ->). exists (a1 :: rs), last.
      split_and!; [|by constructor|done|].
      * exists s'. by split.
      * simpl. by rewrite app_assoc.
    + by do 2 right.
    + destruct Hr as (p & e' & Hin). exists p, e'. by do 2 right.
    + destruct Hr as (rs & <- & Ha & Hf). exists (a1 :: rs).
      split_and!; [done| |by constructor]. exists s'. by split.
Qed.
End facts.
