(* ===== verification/DemoEnv.v ===== *)
(** * DemoEnv: a small concrete surrounding

    An environment that answers every request from a record of fixed answers,
    and simple instances of the library parameters (an identity hash, a
    gitignore engine that matches nothing, Unicode tables that leave letters
    alone). The examples and the concrete instances of the properties run in
    it. *)
From S2P Require Import Prelude GoStrings KV MemDB Ledger LedgerProofs Types GitHubApi Titles Trust Coalesce Filters SizeGate Commands World Publisher CursorFile Watcher.
Local Open Scope Z_scope.

#[export] Instance demo_unicode : UnicodeTables :=
  {| lower_table r := r; print_table _ := true |}.
#[export] Instance demo_uuid : UUID := {| NewSHA1 space data := data |}.
#[export] Instance demo_ignore : GitIgnore := {| MatchesPath _ _ := false |}.

(** The answers. *)
Record demo : Type := mkDemo {
  dm_now : DateTime;
  dm_cancelled : bool;
  dm_prs : list PullRequest;
  dm_details : PRDetails;
  dm_config : result MaintainerConfig;
  dm_files : list PRFile;
  dm_reviews : list Review;
  dm_sends : bool;
  dm_disk : gmap string string }.

Definition set_disk (m : gmap string string) (e : demo) : demo :=
  mkDemo (dm_now e) (dm_cancelled e) (dm_prs e) (dm_details e) (dm_config e) (dm_files e)
    (dm_reviews e) (dm_sends e) m.

Definition demo_page (e : demo) : result SearchResult :=
  Ok (mkSearchResult (dm_prs e) false 0 100 0).
Definition demo_sent (e : demo) : result unit :=
  if dm_sends e then Ok tt else Err (ErrOther "kafka").

(** GitHub refuses every direct call here. *)
Definition demo_api {A : Type} (q : api A) : A :=
  match q in api A return A with
  | SearchIssues _ _ _ => ApiErr None (OtherError "refused")
  | PullGet _ _ _ => ApiErr None (OtherError "refused")
  | GraphQL _ _ => ApiErr None (OtherError "refused")
  | PullUpdateBranch _ _ _ => ApiErr None (OtherError "refused")
  | CreateComment _ _ _ _ => ApiErr None (OtherError "refused")
  | PullEdit _ _ _ _ => ApiErr None (OtherError "refused")
  | GetContents _ _ _ => ApiErr None (OtherError "refused")
  | PullListFiles _ _ _ _ _ => ApiErr None (OtherError "refused")
  | PullListReviews _ _ _ _ _ => ApiErr None (OtherError "refused")
  | AddLabelsToIssue _ _ _ _ => ApiErr None (OtherError "refused")
  | CreateStatus _ _ _ _ _ => ApiErr None (OtherError "refused")
  | RateLimitGet => ApiErr None (OtherError "refused")
  end.

Definition demo_serve {A : Type} (q : request A) : demo -> A * demo :=
  match q in request A return demo -> A * demo with
  | Now => fun e => (dm_now e, e)
  | CtxDone => fun e => (dm_cancelled e, e)
  | SearchPRs _ _ _ => fun e => (demo_page e, e)
  | SearchLabeledPRs _ _ _ => fun e => (demo_page e, e)
  | SearchOpenPRs _ _ => fun e => (demo_page e, e)
  | GetPRDetails _ _ _ => fun e => (Ok (dm_details e), e)
  | EnableAutoMerge _ _ _ => fun e => (Ok tt, e)
  | UpdateBranch _ _ _ => fun e => (Ok tt, e)
  | ClosePR _ _ _ _ => fun e => (Ok tt, e)
  | GetMaintainerConfig _ _ => fun e => (dm_config e, e)
  | GetReviewIgnore _ _ => fun e => (Ok None, e)
  | ListPRFiles _ _ _ => fun e => (Ok (dm_files e), e)
  | ListReviews _ _ _ => fun e => (Ok (dm_reviews e), e)
  | AddLabel _ _ _ _ => fun e => (Ok tt, e)
  | PostCommitStatus _ _ _ _ _ => fun e => (Ok tt, e)
  | RateLimitRemaining => fun e => (4999, e)
  | GetRateLimitCoreRemaining => fun e => (Ok 4999, e)
  | Api q => fun e => (demo_api q, e)
  | SendCreate _ => fun e => (demo_sent e, e)
  | SendTrigger _ => fun e => (demo_sent e, e)
  | SendStatus _ => fun e => (demo_sent e, e)
  | ReadFile path => fun e =>
      (match dm_disk e !! path with Some d => FileData d | None => FileMissing end, e)
  | WriteFile path data => fun e => (Ok tt, set_disk (<[path := data]> (dm_disk e)) e)
  | Rename old new => fun e =>
      match dm_disk e !! old with
      | Some d => (Ok tt, set_disk (<[new := d]> (delete old (dm_disk e))) e)
      | None => (Err (ErrOther "rename"), e)
      end
  | IncPollCycle _ => fun e => (tt, e)
  | IncPRPublished _ => fun e => (tt, e)
  | IncWebhookDelivery _ => fun e => (tt, e)
  | IncWebhookSignatureRejected => fun e => (tt, e)
  | ObserveWebhookDispatchLatency _ => fun e => (tt, e)
  | SetRateLimitRemaining _ => fun e => (tt, e)
  | SetUnreviewedPRs _ _ => fun e => (tt, e)
  | IncUnreviewedRetry _ => fun e => (tt, e)
  end.

#[export] Instance demo_env : Env demo := {| serve := @demo_serve |}.

#[export] Program Instance demo_file_env : FileEnv demo := {| files := dm_disk |}.
Next Obligation.
  intros path e. simpl. split; [done|]. by destruct (dm_disk e !! path).
Qed.
Next Obligation.
  intros path data e. simpl. split; [|intros _; by rewrite lookup_insert_eq].
  intros p Hp. by rewrite lookup_insert_ne.
Qed.
Next Obligation. intros old new data e H. simpl. by rewrite H. Qed.
Next Obligation. by intros A []. Qed.

(** A codec for one cursor. *)
Definition demo_cursor : Cursor := mkCursor 7 {["id" := "sha"]} ∅.

#[export] Instance Cursor_eq_dec : EqDecision Cursor.
Proof. solve_decision. Defined.

#[export] Instance demo_cursor_codec : CursorCodec := {|
  marshal_cursor c := if decide (c = demo_cursor) then Some "{}" else None;
  unmarshal_cursor data :=
    if data =?s "{}" then Some (mkRawCursor 7 (Some {["id" := "sha"]}) None) else None |}.

#[export] Instance demo_cursor_laws : CursorCodecLaws demo_cursor_codec.
Proof.
  split. intros c data. simpl. destruct (decide (c = demo_cursor)) as [->|]; [|done].
  intros [= <-]. done.
Qed.

(** One PR, by a trusted bot, of two files' worth of bumps. *)
Definition demo_pr_1 : PullRequest :=
  mkPullRequest 1 7 "bborbe" "errors" "bump deps" "https://github.com/bborbe/errors/pull/7" ""
    "updater[bot]" false 1000 [].
Definition demo_pr_details : PRDetails :=
  mkPRDetails "0123abcd" "https://github.com/bborbe/errors.git" "master" "fix/update-go-1"
    "bborbe/errors" "bborbe/errors" "updater[bot]" "bump deps" false 1000 [] 4 1 "clean".
Definition demo_watcher : watcher :=
  mkWatcher "/data/cursor.json" 0 "bborbe" NewDraftFilter (Some NewDraftFilter)
    "override-review" "auto-merge" false ["updater[bot]"] (production_trust ["updater[bot]"])
    (5 * Minute).
Definition demo_config : TaskConfig := mkTaskConfig "prod" 80 200 "" "vault" 1000 100.

Definition demo_surrounding (cfg : result MaintainerConfig) (files : list PRFile) : demo :=
  mkDemo (10 * Hour) false [demo_pr_1] demo_pr_details cfg files [] true ∅.

Definition demo_world (e : demo) (c : Cursor) : World demo memDB :=
  mkWorld e [] NewMemDB (NewCoalescer (dm_now e)) (mkLocal c ∅ ∅ ∅) (mkMaps ∅ ∅).

#[export] Instance demo_publisher : TaskPublisher memDB :=
  taskPublisher (production_trust ["updater[bot]"]) demo_config.

(** A go.mod bump qualifies for the mechanical override. *)
Definition demo_bump : list PRFile :=
  [mkPRFile "go.mod" ("-" +:+ "go 1.26.5" +:+ nl +:+ "+go 1.26.6") 1].
Definition demo_opted_in : result MaintainerConfig := Ok (mkMaintainerConfig true true).
Definition demo_unreadable : result MaintainerConfig := Err (ErrOther "github").

Definition kinds (s : list event) : list (string * bool) :=
  (fun c => (default "" (Frontmatter (fst c) !! "override_reason"), is_review (fst c))) <$> creates s.

(** What [processPR] sends for it: a mechanical override; a review when the
    author's file is not mechanical; nothing while the gate is unreadable. *)
Example demo_mechanical :
  kinds (trace (snd (runM (processPR demo_watcher demo_pr_1)
    (demo_world (demo_surrounding demo_opted_in demo_bump) (cold_start 0))))) =
  [("trivial-bot-bump", false)].
Proof. vm_compute. reflexivity. Qed.

Example demo_review :
  kinds (trace (snd (runM (processPR demo_watcher demo_pr_1)
    (demo_world (demo_surrounding demo_opted_in [mkPRFile "main.go" "+x" 1]) (cold_start 0))))) =
  [("", true)].
Proof. vm_compute. reflexivity. Qed.

Example demo_deferred :
  let '(o, w) := runM (processPR demo_watcher demo_pr_1)
    (demo_world (demo_surrounding demo_unreadable demo_bump) (cold_start 0)) in
  o = mkOutcome 1000 true true /\ creates (trace w) = [].
Proof. vm_compute. by split. Qed.

#[export] Instance demo_publisher_laws : TaskPublisherLaws demo_publisher :=
  taskPublisher_laws _ _.

Definition demo_start (cfg : result MaintainerConfig) (files : list PRFile) : World demo memDB :=
  demo_world (demo_surrounding cfg files) (cold_start 0).
