(* ===== verification/WatcherProofs.v ===== *)
(** * WatcherProofs: the properties of a poll cycle

    Each theorem is about a handler of Watcher.v run from any world, alone or
    among any other goroutines, with any publisher that keeps its contract; the
    instances after them run the production publisher in the surrounding of
    DemoEnv. *)
From S2P Require Import Prelude GoStrings KV MemDB Ledger Types Trivial Titles Trust Coalesce Filters SizeGate Commands World Publisher CursorFile Watcher WatcherFacts DemoEnv.
Local Open Scope Z_scope.

Section proofs.
Context {E St : Type} `{SC : Sched E St} `{P : TaskPublisher St} `{PL : !TaskPublisherLaws P} `{U : UUID}.
Context (wt : watcher).
Implicit Types w : World E St.

(** (C1) One command per PR. Processing a PR sends at most one task, and it is
    either a review or an override of the head it fetched, never both, under
    the identifier derived from that head: the head of the details GitHub
    answered for the PR in this very step, or, when the batch's cache has the
    PR, of those; and the cache gets nothing but GitHub's answers. A PR it
    deferred gets no task, and neither does a PR it closed. *)
Theorem one_command_per_pr pr w :
  wp (processPR wt pr) (fun o s w' =>
    (creates s = [] \/
     exists d cmd ok, fetched_details pr d s w /\ HeadSHA d <> "" /\ creates s = [(cmd, ok)] /\
       (is_review cmd = true /\ TaskIdentifier cmd = review_id pr d \/
        is_override cmd = true /\ TaskIdentifier cmd = override_id pr d)) /\
    cached_answers pr s w w' /\
    (deferred o = true -> creates s = []) /\
    ((exists x, x ∈ writes s /\ closes x = true) -> creates s = [])) w.
Proof.
  wp_use processPR_wp. intros o s w' [_ _ _ _ _ Hdef Hca Hrun].
  destruct Hrun as [[[Hc Hw] _]|(pr' & d & Hl & Hsha & Hfd & _ & _ & Hs & Hn)].
  { split_and!; [by left|done|done|done]. }
  split_and!; [|done|done|].
  - assert (override_id pr' d = override_id pr d) as Hid by by destruct Hl as [->| ->].
    destruct Hs as [|(cmd & ok & ? & ? & ?)|(_ & _ & cmd & ok & ? & ? & ?)|
                    (s1 & s2 & cmd & ok & -> & Hs1 & Hs2 & ? & ? & _)]; [by left| | |]; right.
    + exists d, cmd, ok. split_and!; auto.
    + exists d, cmd, ok. rewrite <- Hid. split_and!; auto.
    + exists d, cmd, ok. split_and!; [done|done|by seg|auto].
  - intros (x & Hx & Hcl). destruct Hn as [Hn|Hn]; [|done].
    unfold no_close in Hn. rewrite Forall_forall in Hn. rewrite (Hn x Hx) in Hcl. done.
Qed.

(** (C11) No approval by accident. An override is sent for a PR only when it
    carries the override label, or when the mechanical gate passed first: the
    author is on the operator's list and trusted, the repository opted in
    with both flags, every changed file is mechanical, and the auto-merge
    label is on the PR before the approval is sent. *)
Theorem override_needs_label_or_gate pr w :
  wp (processPR wt pr) (fun o s w' => forall cmd ok,
    (cmd, ok) ∈ creates s -> is_override cmd = true ->
    (overrideLabel wt <> "" /\ exists pr', as_labelled wt pr pr' /\
       slices_Contains (Labels pr') (overrideLabel wt) = true) \/
    exists d before after, s = before ++ after /\ creates before = [] /\ fetched_details pr d s w /\
      gate_passed wt pr d before /\ label_on wt pr before) w.
Proof.
  wp_use processPR_wp. intros o s w' [_ _ _ _ _ Hdef _ Hrun] cmd ok Hin Ho.
  destruct Hrun as [[[Hc Hw] _]|(pr' & d & Hl & Hsha & Hfd & _ & _ & Hs & Hn)];
    [by rewrite Hc, elem_of_nil in Hin|].
  destruct Hs as [Hc|(cmd' & ok' & Hc & Hr & _)|(? & ? & _)|
                  (s1 & s2 & cmd' & ok' & -> & Hs1 & Hs2 & ? & ? & _ & Hg & Hlb)].
  - by rewrite Hc, elem_of_nil in Hin.
  - rewrite Hc in Hin. apply list_elem_of_singleton in Hin as [= -> ->].
    unfold is_review, is_override in *. apply bool_decide_eq_true in Hr, Ho. congruence.
  - left. eauto.
  - right. by exists d, s1, s2.
Qed.

(** (C12) Every write to GitHub is justified. Processing a PR writes only to that
    PR: it labels a PR only when its repository opted in and every file is
    mechanical; it refreshes or arms only a trusted author's PR with the
    auto-merge label on it; it closes only a trusted bot's conflicting
    dependency bump. The trust decision and the merge state are those of the
    details GitHub answered for the PR, in this step or, for a cached PR,
    earlier in the batch. *)
Theorem writes_justified pr w :
  wp (processPR wt pr) (fun o s w' =>
    writes s = [] \/ exists d, fetched_details pr d s w /\ Forall (justified wt pr d s) (writes s)) w.
Proof.
  wp_use processPR_wp. intros o s w' [_ _ _ _ _ Hdef _ Hrun].
  destruct Hrun as [[[Hc Hw] _]|(pr' & d & _ & _ & Hfd & _ & Hj & _)]; [by left|right; by exists d].
Qed.

(** What a batch publishes, against the cursor before and after it. *)
Lemma processPRs_booked prs w :
  wp (processPRs wt prs) (fun _ s w' =>
    NoDup (published_ids s) /\
    forall id, (id ∈ published_ids s) ->
      (id ∉ dom (HeadSHAs (cursorState w))) /\ (id ∈ dom (HeadSHAs (cursorState w')))) w.
Proof.
  wp_use processPRs_wp. intros _ s w' (os & c & w2 & b & Hrun & _ & _ & ->).
  apply batch_run_booked in Hrun as [_ _ Hd Hi]. split; [done|].
  intros id Hid. destruct (Hi id Hid) as (? & ? & ?). split; [done|]. by destruct c.
Qed.

(** (C7) Publish once. A batch publishes no task identifier that the loaded
    cursor has and none twice, every identifier it publishes is in the
    cursor it leaves (even when the context was cancelled midway), and so a
    second batch run with that cursor publishes none of them again. *)
Theorem publish_once prs1 prs2 w :
  wp (processPRs wt prs1) (fun _ s1 w1 =>
    (forall id, (id ∈ published_ids s1) ->
       (id ∉ dom (HeadSHAs (cursorState w))) /\ (id ∈ dom (HeadSHAs (cursorState w1)))) /\
    wp (processPRs wt prs2) (fun _ s2 w2 => NoDup (published_ids (s1 ++ s2))) w1) w.
Proof.
  wp_use processPRs_booked. intros _ s1 w1 [Hd1 Hi1]. split; [done|].
  wp_use processPRs_booked. intros _ s2 w2 [Hd2 Hi2]. rewrite published_ids_app.
  apply NoDup_app. split_and!; [done| |done].
  intros id H1 H2. apply Hi1 in H1 as [_ H1]. by apply Hi2 in H2 as [? _].
Qed.

(** (C15) The cursor never passes a deferred PR. A batch has the outcome that
    [processPR] came to for each PR in turn, and, unless the context was done
    before the last, one for every PR. The time it returns is then exactly what
    it reached, the later of the loaded cursor and the latest update of a
    handled PR, held back to the earliest update of a deferred one: it is never
    past a deferred PR, and covers every handled PR when none was deferred.
    A batch cut short by the context returns what it reached. *)
Theorem cursor_clamp prs w :
  wp (processPRs wt prs) (fun m s w' => exists os c w2,
    batch_run wt prs os c s (batch_start w) w2 /\
    LastUpdatedAt (cursorState w') = LastUpdatedAt (cursorState w) /\
    let outs := zip prs os in
    let top := reached (LastUpdatedAt (cursorState w)) outs in
    if c then (Ev CtxDone true ∈ s) /\ m = top
    else
      length os = length prs /\ m = held_back top outs /\
      (forall pr o, ((pr, o) ∈ outs) -> deferred o = true -> m <= UpdatedAt pr) /\
      ((forall pr o, ((pr, o) ∈ outs) -> deferred o = false) ->
         LastUpdatedAt (cursorState w) <= m /\
         forall pr o, ((pr, o) ∈ outs) -> handled o = true -> UpdatedAt pr <= m)) w.
Proof.
  wp_use processPRs_wp. intros m s w' (os & c & w2 & b & Hrun & Hb & -> & ->).
  exists os, c, w2. split; [exact Hrun|]. split.
  { apply batch_run_last in Hrun as [Hl _]. destruct c; exact Hl. }
  pose proof (batch_run_length _ _ _ _ _ _ _ Hrun) as (_ & Hlen & Hdone).
  pose proof (note_outcomes_reached prs os (mkBatch (LastUpdatedAt (cursorState w)) None false)
    (batch_run_updated _ _ _ _ _ _ _ Hrun)) as Hm.
  rewrite clamp_eq. subst b. rewrite note_outcomes_held_back, Hm. cbn zeta. simpl clamp_at. simpl maxUpdatedAt.
  destruct c; [by split; [apply Hdone|]|].
  destruct (held_back_spec (zip prs os) (reached (LastUpdatedAt (cursorState w)) (zip prs os))) as (_ & H2 & H3).
  destruct (reached_spec (zip prs os) (LastUpdatedAt (cursorState w))) as [H4 H5].
  split_and!; [by apply Hlen|done|done|]. intros Hn. by rewrite (H3 Hn).
Qed.

(** (C28) Deferrals are bounded. As long as a PR head's count is in range, a
    deferral raises it by one and publishes nothing, any other outcome
    resets it, and the count never passes three: the fourth evaluation in a
    row that cannot read the gate falls through to a review. The counts of
    other heads do not move. *)
Theorem deferrals_bounded pr d w :
  let key := deferralKey pr (HeadSHA d) in
  let n := deferral_count key (cursorState w) in
  0 <= n <= maxDeferralAttempts ->
  wp (mechanicalOverrideOutcome wt pr d) (fun o s w' =>
    let n' := deferral_count key (cursorState w') in
    0 <= n' <= maxDeferralAttempts /\
    (deferred o = true -> n' = n + 1 /\ creates s = []) /\
    (deferred o = false -> n' = 0) /\
    (n = maxDeferralAttempts -> deferred o = false) /\
    forall k, k <> key -> deferral_count k (cursorState w') = deferral_count k (cursorState w)) w.
Proof.
  intros key n Hn. wp_use mechanicalOverrideOutcome_wp.
  intros o s w' (_ & Hstep & _ & _ & _ & _ & Hc). unfold deferral_step in Hstep.
  fold key n in Hstep. cbn zeta. rewrite wrap64_id in Hstep
    by (unfold in_int64, int_min, int_max, maxDeferralAttempts in *; lia).
  unfold deferral_count at 1 2 3 4 5 in |- *. destruct (deferred o) eqn:Hdef.
  - destruct Hstep as (_ & Hle & ->). rewrite lookup_insert_eq. simpl.
    split_and!; try lia; try done.
    + intros _. split; [done|]. destruct Hc as [?|(_ & _ & [=])]; done.
    + intros k Hk. unfold deferral_count. by rewrite lookup_insert_ne.
  - rewrite Hstep, lookup_delete_eq. simpl. unfold maxDeferralAttempts.
    split_and!; try lia; try done. intros k Hk. unfold deferral_count.
    by rewrite lookup_delete_ne.
Qed.

(** The labelled pass repeats nothing. It sends no task, and every write
    it makes is authorised and targets a PR whose side effects did not run
    in the main loop of the same poll. *)
Theorem labelled_pass_scope fuel w :
  wp (processLabeledPRs wt fuel) (fun _ s w' =>
    same_but_cache w w' /\ creates s = [] /\
    Forall (fun x => exists pr d, (prKey pr ∉ sideEffectsRun w) /\ authorised wt pr d x) (writes s)) w.
Proof.
  unfold processLabeledPRs. wp_step; [wp_steps; split; [apply same_but_cache_refl|split; [done|constructor]]|].
  wp_step. unfold fetchLabeledPRs. wp_step. eapply wp_mono; [by apply (paginate_wp (SearchLabeledPRs (scope wt) (autoMergeLabel wt)))|]; cbn beta.
  intros r s1 w1 (Hw1 & [Hc1 Hs1] & _). apply same_but_cache_state in Hw1 as Hw. wp_step.
  wp_step; [|wp_steps; split; [done|split; [by seg|seg; constructor]]].
  wp_step. wp_step; [wp_steps; split; [done|split; [by seg|seg; constructor]]|].
  do 3 wp_step. wp_use (processLabeledPRs_loop_wp (St:=St)). intros [] s2 w2 (Hw2 & Hc2 & Hs2).
  wp_steps. destruct Hw1 as (? & ? & ->). split.
  - eapply same_but_cache_trans; [|exact Hw2]. exists ∅. by do 2 eexists.
  - split; [by seg|]. autorewrite with segment. by rewrite Hs1.
Qed.

(** A search is complete or abandoned. [fetchAllPRs] returns the PRs of
    all pages, in order, up to the first page that announces no other;
    otherwise a search failed and the poll aborts, or the context was
    cancelled; it hits the page bound only after that many pages each
    announced another. It sends and writes nothing. *)
Theorem fetch_complete fuel since w :
  wp (fetchAllPRs wt fuel since) (fun r s w' =>
    same_state w w' /\ quiet s /\
    let q := SearchPRs (scope wt) since in
    match r with
    | Some (prs, reason) =>
        (reason = "" /\ exists rs last, answered q 1 (rs ++ [last]) s /\
           Forall (fun r => HasNextPage r = true) rs /\ HasNextPage last = false /\
           prs = concat (PullRequests <$> rs ++ [last])) \/
        (prs = [] /\ reason = "" /\ Ev CtxDone true ∈ s) \/
        (prs = [] /\ reason = "github_error" /\ exists p e, Ev (q p) (Err e) ∈ s)
    | None => exists rs, length rs = fuel /\ answered q 1 rs s /\
        Forall (fun r => HasNextPage r = true) rs
    end) w.
Proof.
  unfold fetchAllPRs. wp_step. eapply wp_mono; [by apply (paginate_wp (SearchPRs (scope wt) since))|]; cbn beta.
  intros r s w' (Hw & Hq & Hr). wp_steps. rewrite app_nil_r. split_and!; [done|done|].
  destruct r as [[prs| |]|]; simpl.
  - left. split; [done|]. done.
  - right. by left.
  - right. by right.
  - done.
Qed.
End proofs.

(** ** Instances *)

(** The mechanical bump gets exactly one command. *)
Lemma one_command_per_pr_witness :
  length (creates (trace (snd (runM (processPR demo_watcher demo_pr_1)
    (demo_start demo_opted_in demo_bump))))) = 1%nat.
Proof.
  destruct (proj1 (wp_alone _ _ _) (one_command_per_pr demo_watcher demo_pr_1 (demo_start demo_opted_in demo_bump)))
    as (s & Ht & Hs & _).
  rewrite Ht. change (trace (demo_start demo_opted_in demo_bump) ++ s) with s.
  destruct Hs as [Hs|(d & cmd & ok & _ & _ & -> & _)]; [|reflexivity].
  exfalso. change s with (trace (demo_start demo_opted_in demo_bump) ++ s) in Hs.
  rewrite <- Ht in Hs. vm_compute in Hs. discriminate Hs.
Defined.

(** Its override passed the gate before it was sent. *)
Lemma override_needs_label_or_gate_witness :
  exists before after, trace (snd (runM (processPR demo_watcher demo_pr_1)
    (demo_start demo_opted_in demo_bump))) = before ++ after /\ creates before = [] /\
    label_on demo_watcher demo_pr_1 before.
Proof.
  destruct (proj1 (wp_alone _ _ _) (override_needs_label_or_gate demo_watcher demo_pr_1 (demo_start demo_opted_in demo_bump)))
    as (s & Ht & Hs).
  set (run := runM (processPR demo_watcher demo_pr_1) (demo_start demo_opted_in demo_bump)) in *.
  assert (s = trace (snd run)) as -> by (rewrite Ht; reflexivity).
  destruct (creates (trace (snd run))) as [|[cmd ok] l] eqn:Hc; [vm_compute in Hc; discriminate Hc|].
  assert (is_override cmd = true) as Ho.
  { vm_compute in Hc. injection Hc as <- _ _. vm_compute. reflexivity. }
  destruct (Hs cmd ok (list_elem_of_here _ _) Ho) as [(_ & pr' & [->| ->] & Hl)|(d & b & a & Hba & Hb & _ & _ & Hl)];
    [vm_compute in Hl; discriminate Hl|vm_compute in Hl; discriminate Hl|].
  exists b, a. auto.
Defined.

Lemma writes_justified_witness :
  let s := trace (snd (runM (processPR demo_watcher demo_pr_1) (demo_start demo_opted_in demo_bump))) in
  length (writes s) = 2%nat /\
  exists d, answered_details demo_pr_1 d s /\ Forall (justified demo_watcher demo_pr_1 d s) (writes s).
Proof.
  cbn zeta. split; [vm_compute; reflexivity|].
  destruct (proj1 (wp_alone _ _ _) (writes_justified demo_watcher demo_pr_1 (demo_start demo_opted_in demo_bump)))
    as (s & Ht & H). change (trace (demo_start demo_opted_in demo_bump) ++ s) with s in Ht. rewrite Ht.
  destruct H as [Hs|(d & Hd & Hs)]; [exfalso|exists d; split; [exact Hd|exact Hs]].
  rewrite <- Ht in Hs. vm_compute in Hs. discriminate Hs.
Defined.

(** The batch publishes the override, the same batch with its cursor none. *)
Lemma publish_once_witness :
  exists s1 s2,
    trace (snd (runM (processPRs demo_watcher [demo_pr_1]) (snd (runM (processPRs demo_watcher [demo_pr_1])
      (demo_start demo_opted_in demo_bump))))) = s1 ++ s2 /\
    length (published_ids s1) = 1%nat /\ NoDup (published_ids (s1 ++ s2)).
Proof.
  destruct (proj1 (wp_alone _ _ _)
    (publish_once demo_watcher [demo_pr_1] [demo_pr_1] (demo_start demo_opted_in demo_bump)))
    as (s1 & Ht1 & _ & (s2 & Ht2 & Hd)%wp_alone).
  exists s1, s2. split; [by rewrite Ht2, Ht1|]. split; [|exact Hd].
  change s1 with (trace (demo_start demo_opted_in demo_bump) ++ s1). rewrite <- Ht1.
  vm_compute. reflexivity.
Defined.

(** The context was found done. *)
Definition cancels (ev : event) : bool :=
  match ev with
  | Ev q a => match q in request A return A -> bool with CtxDone => id | _ => fun _ => false end a
  end.

Lemma cancels_in s : (Ev CtxDone true ∈ s) -> existsb cancels s = true.
Proof. intros H. apply existsb_exists. exists (Ev CtxDone true). split; [by apply list_elem_of_In|done]. Qed.

(** A PR of another author, updated later. *)
Definition demo_pr_2 : PullRequest :=
  mkPullRequest 2 8 "bborbe" "errors" "fix" "https://github.com/bborbe/errors/pull/8" ""
    "somebody" false 2000 [].

(** The first PR is deferred and the second reviewed: the cursor stays at the
    first. *)
Lemma cursor_clamp_witness :
  let m := runM (processPRs demo_watcher [demo_pr_2; demo_pr_1]) (demo_start demo_unreadable demo_bump) in
  fst m = 1000 /\ length (published_ids (trace (snd m))) = 1%nat /\
  exists o2 o1, fst m = held_back (reached 0 [(demo_pr_2, o2); (demo_pr_1, o1)]) [(demo_pr_2, o2); (demo_pr_1, o1)].
Proof.
  cbn zeta. split; [vm_compute; reflexivity|]. split; [vm_compute; reflexivity|].
  destruct (proj1 (wp_alone _ _ _) (cursor_clamp demo_watcher [demo_pr_2; demo_pr_1] (demo_start demo_unreadable demo_bump)))
    as (s & Ht & os & c & w2 & Hrun & _ & H). change (trace (demo_start demo_unreadable demo_bump) ++ s) with s in Ht.
  destruct c.
  - destruct H as [Hin _]. exfalso. rewrite <- Ht in Hin. apply cancels_in in Hin. vm_compute in Hin. discriminate Hin.
  - destruct H as (Hl & Hm & _). destruct os as [|o2 [|o1 [|]]]; try discriminate Hl. exists o2, o1. exact Hm.
Defined.

(** The third unreadable poll of a head defers it, and no later one does. *)
Lemma deferrals_bounded_witness :
  deferred (fst (runM (mechanicalOverrideOutcome demo_watcher demo_pr_1 demo_pr_details)
    (demo_world (demo_surrounding demo_unreadable demo_bump)
       (set_Deferrals {[deferralKey demo_pr_1 "0123abcd" := 3]} (cold_start 0))))) = false.
Proof.
  destruct (proj1 (wp_alone _ _ _) (deferrals_bounded demo_watcher demo_pr_1 demo_pr_details
    (demo_world (demo_surrounding demo_unreadable demo_bump)
       (set_Deferrals {[deferralKey demo_pr_1 "0123abcd" := 3]} (cold_start 0))) ltac:(vm_compute; split; discriminate)))
    as (s & _ & _ & _ & _ & H & _).
  apply H. vm_compute. reflexivity.
Defined.

(** The saved demo cursor is read back. *)
Lemma cursor_file_roundtrip_witness :
  fst (runM (LoadCursor "/data/cursor.json" 0) (snd (runM (SaveCursor "/data/cursor.json" demo_cursor)
    (demo_start demo_opted_in demo_bump)))) = Ok demo_cursor.
Proof.
  pose proof (cursor_file_roundtrip "/data/cursor.json" 0 demo_cursor
    (demo_start demo_opted_in demo_bump)) as H.
  destruct (runM (SaveCursor "/data/cursor.json" demo_cursor) (demo_start demo_opted_in demo_bump))
    as [r w1] eqn:Hs.
  assert (is_Ok r = true) as Hr by (change r with (fst (r, w1)); rewrite <- Hs; vm_compute; reflexivity).
  destruct H as [_ H]. destruct (H Hr) as [Hl|Hl]; [exact Hl|].
  exfalso. change w1 with (snd (r, w1)) in Hl. rewrite <- Hs in Hl. vm_compute in Hl. discriminate Hl.
Defined.
