(* ===== verification/Scanner.v ===== *)
(** * Scanner: the unreviewed-PR scan (pkg/unreviewed_scanner.go)

    [Scan] runs at the end of each poll. Its mutex turns away an
    overlapping scan; its two maps, [retryState] and [reviewedCache], are
    shared by all polls and touched only under it. As in Watcher, the
    page bound of the search is an argument and [None] says it was hit. *)
From S2P Require Import Prelude GoStrings Types Titles Trust Coalesce Filters SizeGate Commands World Publisher CursorFile Watcher.
Local Open Scope Z_scope.

Record UnreviewedConfig : Type := mkUnreviewedConfig {
  Logins : list string;
  Threshold : Duration;
  RetryMax : Z }.

(** [unreviewedScanner], less the collaborators. *)
Record unreviewedScanner : Type := mkScanner {
  sc_scope : string;
  sc_filter : TaskCreationFilter;
  sc_trust : Trust.Trust;
  sc_overrideLabel : string;
  sc_maxAdditions : Z;
  sc_maxChangedFiles : Z;
  sc_cfg : UnreviewedConfig }.

(** [unreviewedCandidate] *)
Record candidate : Type := mkCandidate { cd_pr : PullRequest; cd_details : PRDetails }.

(** ** Configuration *)

(** [libtime.ParseDuration]: library code; nil for an empty string. *)
Class DurationParser : Type := { ParseDuration : string -> result (option Duration) }.

Section config.
Context `{DurationParser}.

Definition parseUnreviewedThreshold (raw : string) : result Duration :=
  match ParseDuration raw with
  | Err _ => Err (ErrOther "parse UNREVIEWED_THRESHOLD")
  | Ok None => Err (ErrOther "UNREVIEWED_THRESHOLD must be positive")
  | Ok (Some parsed) =>
      if parsed <=? 0 then Err (ErrOther "UNREVIEWED_THRESHOLD must be positive") else Ok parsed
  end.

Definition ParseUnreviewedConfig (rawLogins rawThreshold : string) (retryMax : Z)
  : result UnreviewedConfig :=
  match ParseBotAllowlist rawLogins with
  | [] => Ok (mkUnreviewedConfig [] 0 retryMax)
  | logins =>
      if retryMax <? 0 then Err (ErrOther "UNREVIEWED_RETRY_MAX must not be negative")
      else
        match parseUnreviewedThreshold rawThreshold with
        | Err e => Err e
        | Ok threshold => Ok (mkUnreviewedConfig logins threshold retryMax)
        end
  end.
End config.

(** ** Reviewer logins *)
Section logins.
Context `{U : UnicodeTables}.

Definition normalizeReviewerLogin (login : string) : string :=
  TrimSuffix (ToLower login) botLoginSuffix.

Definition matchesReviewerLogin (reviewLogin : string) (logins : list string) : bool :=
  let normalized := normalizeReviewerLogin reviewLogin in
  if normalized =?s "" then false
  else existsb (fun login => normalizeReviewerLogin login =?s normalized) logins.

(** A review of [headSHA] by a configured reviewer. *)
Definition has_verdict (logins : list string) (headSHA : string) (reviews : list Review) : bool :=
  existsb (fun review => (CommitID review =?s headSHA)
                         && matchesReviewerLogin (r_AuthorLogin review) logins) reviews.
End logins.

(** ** The scan *)
Section scan.
Context {St : Type} `{P : TaskPublisher St} `{U : UUID} `{UT : UnicodeTables}
  `{G : GitIgnore}.
Context (sc : unreviewedScanner).

Definition candidate_id (c : candidate) : string :=
  DeriveTaskID (Owner (cd_pr c)) (Repo (cd_pr c)) (Number (cd_pr c)) (HeadSHA (cd_details c)).

Definition repo_name (pr : PullRequest) : string := Owner pr +:+ "/" +:+ Repo pr.

Definition fetchAllOpenPRs (fuel : nat) : M St (option (option (list PullRequest))) :=
  r ← paginate fuel (fun page => call (SearchOpenPRs (sc_scope sc) page)) 1 [];
  mret ((fun f => match f with Fetched prs => Some prs | _ => None end) <$> (r : option fetched)).

Definition cachedReviewed (pr : PullRequest) : M St bool :=
  cache ← gets_maps reviewedCache;
  match cache !! prKey pr with
  | None => mret false
  | Some cached =>
      if dt_Equal cached (UpdatedAt pr) then mret true
      else
        modify_maps (fun x => set_reviewedCache (delete (prKey pr) (reviewedCache x)) x);;
        mret false
  end.

Definition parked (pr : PullRequest) (details : PRDetails) : M St bool :=
  if negb (oversized details zero_exclusion (sc_maxAdditions sc) (sc_maxChangedFiles sc))
  then mret false
  else
    exclusion ← ReviewIgnoreExclusion (Owner pr) (Repo pr) (Number pr);
    mret (oversized details exclusion (sc_maxAdditions sc) (sc_maxChangedFiles sc)).

(** [Ok None]: not counted. *)
Definition qualify (pr : PullRequest) (now : DateTime) : M St (result (option PRDetails)) :=
  if Skip (sc_filter sc) (filter_pr pr) then mret (Ok None)
  else if negb (sc_overrideLabel sc =?s "") && slices_Contains (Labels pr) (sc_overrideLabel sc)
  then mret (Ok None)
  else if dt_Sub now (UpdatedAt pr) <? Threshold (sc_cfg sc) then mret (Ok None)
  else
    cached ← cachedReviewed pr;
    if (cached : bool) then mret (Ok None)
    else
      r ← call (GetPRDetails (Owner pr) (Repo pr) (Number pr));
      match r with
      | Err e => mret (Err e)
      | Ok details =>
          match sc_trust sc (trust_pr pr details) with
          | Err e => mret (Err e)
          | Ok trustResult =>
              if negb (Success trustResult) then mret (Ok None)
              else if HeadSHA details =?s "" then mret (Ok None)
              else
                isParked ← parked pr details;
                if (isParked : bool) then mret (Ok None)
                else
                  r ← call (ListReviews (Owner pr) (Repo pr) (Number pr));
                  match r with
                  | Err e => mret (Err e)
                  | Ok reviews =>
                      if has_verdict (Logins (sc_cfg sc)) (HeadSHA details) reviews then
                        modify_maps (fun x => set_reviewedCache
                          (<[prKey pr := UpdatedAt pr]> (reviewedCache x)) x);;
                        mret (Ok None)
                      else mret (Ok (Some details))
                  end
          end
      end.

(** The PR loop of [Scan]; [None]: the scan is abandoned. *)
Fixpoint qualify_loop (prs : list PullRequest) (now : DateTime) (acc : list candidate)
  : M St (option (list candidate)) :=
  match prs with
  | [] => mret (Some acc)
  | pr :: prs' =>
      done ← call CtxDone;
      if (done : bool) then mret None
      else
        r ← qualify pr now;
        match r with
        | Err _ => mret None
        | Ok None => qualify_loop prs' now acc
        | Ok (Some details) => qualify_loop prs' now (acc ++ [mkCandidate pr details])
        end
  end.

Definition retry_entry (taskID : string) (m : gmap string unreviewedRetry) : unreviewedRetry :=
  default zero_retry (m !! taskID).

(** One candidate of [retry]. *)
Definition retry_one (c : candidate) (now : DateTime) : M St unit :=
  let taskID := candidate_id c in
  entry ← gets_maps (fun x => retry_entry taskID (retryState x));
  if RetryMax (sc_cfg sc) <=? attempts entry then mret tt
  else if (0 <? attempts entry) && (dt_Sub now (lastAttempt entry) <? Threshold (sc_cfg sc))
  then mret tt
  else
    published ← PublishCreate (cd_pr c) taskID (cd_details c);
    if negb published then mret tt
    else
      modify_maps (fun x => set_retryState
        (<[taskID := mkRetry (prKey (cd_pr c)) (attempts entry + 1) now]> (retryState x)) x);;
      call (IncUnreviewedRetry (repo_name (cd_pr c))).

Fixpoint retry (candidates : list candidate) (now : DateTime) : M St unit :=
  match candidates with
  | [] => mret tt
  | c :: candidates' =>
      done ← call CtxDone;
      if (done : bool) then mret tt
      else retry_one c now;; retry candidates' now
  end.

Definition retriesExhausted (c : candidate) (now : DateTime) (m : gmap string unreviewedRetry)
  : bool :=
  if RetryMax (sc_cfg sc) =? 0 then true
  else
    let entry := retry_entry (candidate_id c) m in
    (RetryMax (sc_cfg sc) <=? attempts entry)
    && (Threshold (sc_cfg sc) <=? dt_Sub now (lastAttempt entry)).

Definition unreviewed_of (now : DateTime) (m : gmap string unreviewedRetry) (c : candidate)
  : UnreviewedPR :=
  mkUnreviewedPR (repo_name (cd_pr c)) (Number (cd_pr c)) (retriesExhausted c now m).

Definition pruneState (prs : list PullRequest) : M St unit :=
  let open := list_to_set (C:=gset string) (prKey <$> prs) in
  modify_maps (fun x => set_retryState
    (filter (fun kv => ur_prKey (snd kv) ∈ open) (retryState x)) x);;
  modify_maps (fun x => set_reviewedCache
    (filter (fun kv => fst kv ∈ open) (reviewedCache x)) x).

(** [Scan] from the fetch on, under the mutex. *)
Definition scan_body (fuel : nat) : M St (option unit) :=
  r ← fetchAllOpenPRs fuel;
  match r with
  | None => mret None
  | Some None => mret (Some tt)
  | Some (Some prs) =>
      now ← call Now;
      cs ← qualify_loop prs now [];
      match cs with
      | None => mret (Some tt)
      | Some candidates =>
          retry candidates now;;
          m ← gets_maps retryState;
          call (SetUnreviewedPRs (unreviewed_of now m <$> candidates) now);;
          pruneState prs;;
          mret (Some tt)
      end
  end.

Definition Scan (fuel : nat) : M St (option unit) :=
  match Logins (sc_cfg sc) with
  | [] => mret (Some tt)
  | _ =>
      locked ← act TryLock;
      if negb locked then mret (Some tt)
      else r ← scan_body fuel; act UnlockScan;; mret r
  end.
End scan.
