(* ===== verification/Tame.v ===== *)
(** * Tame: the poll and the scan send no command and write no file

    What processing the PRs, the labelled pass and the scan can never do,
    read off their code with [every] of Code.v. *)
From S2P Require Import Prelude Coalesce GoStrings KV Ledger Types GitHubApi Titles Trust Filters SizeGate Commands World Code Publisher CursorFile Watcher Scanner.
Local Open Scope Z_scope.

(** ** Code that sends no command and writes no file *)

Definition tame {St} A (o : action St A) : Prop :=
  match o with
  | Request q =>
      match q with
      | SendTrigger _ | SendStatus _ | WriteFile _ _ | Rename _ _ => False
      | _ => True
      end
  | _ => True
  end.

Section tame.
Context {St : Type} `{UT : UnicodeTables} `{G : GitIgnore} `{U : UUID}.

Lemma paginate_every (P : forall A, action St A -> Prop) fuel (ask : Z -> M St (result SearchResult)) page acc :
  P bool (Request CtxDone) -> (forall p, every P (ask p)) -> every P (paginate fuel ask page acc).
Proof. intros Hc Ha. revert page acc. induction fuel; intros; cbn [paginate]; every_steps; done. Qed.

Lemma search_tame {A} fuel (q : Z -> request (result SearchResult)) page acc (k : option fetched -> M St A) :
  (forall p, tame _ (Request (St:=St) (q p))) -> (forall r, every tame (k r)) ->
  every tame (paginate fuel (fun p => call (q p)) page acc ≫= k).
Proof. intros Hq Hk. apply every_bind; [|done]. apply paginate_every; [done|]. intros p. by apply every_act. Qed.

(** A publisher that does neither, and what is built on it. *)
Class TamePublisher (Pub : TaskPublisher St) : Prop := {
  tame_create pr id d : every tame (PublishCreate pr id d);
  tame_override pr id d : every tame (PublishOverride pr id d);
  tame_mechanical pr id d : every tame (PublishMechanicalOverride pr id d) }.

Context `{Pub : TaskPublisher St} `{TP : !TamePublisher Pub}.
Hint Resolve tame_create tame_override tame_mechanical : every.

Lemma processPRs_loop_tame wt prs b : every tame (processPRs_loop wt prs b).
Proof. revert b. induction prs; intros b; cbn [processPRs_loop]; every_steps. Qed.
Hint Resolve processPRs_loop_tame : every.
Lemma processPRs_tame wt prs : every tame (processPRs wt prs).
Proof. every_steps. Qed.

Lemma processLabeledPRs_loop_tame wt prs : every tame (processLabeledPRs_loop wt prs : M St _).
Proof. induction prs; cbn [processLabeledPRs_loop]; every_steps. Qed.
Hint Resolve processLabeledPRs_loop_tame : every.
Lemma processLabeledPRs_tame wt fuel : every tame (processLabeledPRs wt fuel : M St _).
Proof.
  unfold processLabeledPRs. every_step; [every_steps|]. every_step; [|every_steps].
  unfold fetchLabeledPRs. apply search_tame; [done|]. intros r. every_steps.
Qed.
Lemma fetchAllPRs_tame wt fuel since : every tame (fetchAllPRs wt fuel since : M St _).
Proof. unfold fetchAllPRs. apply search_tame; [done|]. intros r. every_steps. Qed.

Lemma qualify_loop_tame sc prs now acc : every tame (qualify_loop sc prs now acc : M St _).
Proof. revert acc. induction prs; intros; cbn [qualify_loop]; every_steps. Qed.
Lemma retry_tame sc cs now : every tame (retry sc cs now).
Proof. induction cs; cbn [retry]; every_steps. Qed.
Hint Resolve qualify_loop_tame retry_tame : every.
Lemma scan_body_tame sc fuel : every tame (scan_body sc fuel).
Proof.
  unfold scan_body. every_step; [|every_steps]. unfold fetchAllOpenPRs. apply search_tame; [done|]. intros r. every_steps.
Qed.
Hint Resolve scan_body_tame : every.
Lemma Scan_tame sc fuel : every tame (Scan sc fuel).
Proof. every_steps. Qed.
End tame.

#[export] Instance taskPublisher_tame `{K : KV St Hd It} `{C : RecordCodec} `{U : UnicodeTables} `{G : GitIgnore}
  trustDecision cfg : TamePublisher (taskPublisher trustDecision cfg).
Proof. split; intros; simpl; every_steps. Qed.
