(* ===== verification/PollCycles.v ===== *)
(** * PollCycles: one poll after another, through the cursor file

    What a whole [Poll] publishes, from the load of the cursor to its save,
    and what the next one makes of the file: the bookkeeping of WatcherFacts
    carried across polls, and across restarts, by the cursor file alone. *)
From S2P Require Import Prelude GoStrings KV MemDB Ledger Types GitHubApi Titles Trust Coalesce Filters SizeGate Commands World Code Publisher CursorFile Watcher WatcherFacts WatcherProofs Scanner Tame DemoEnv.
Local Open Scope Z_scope.

Section polls.
Context `{EN : Env E} `{F : !FileEnv E} {St : Type} `{P : TaskPublisher St} `{PL : !TaskPublisherLaws P}
  `{TP : !TamePublisher P} `{U : UUID} `{UT : UnicodeTables} `{G : GitIgnore} `{J : CursorCodec} `{JL : !CursorCodecLaws J}.
Context (wt : watcher) (sc : unreviewedScanner).
Implicit Types w : World E St.

Abbreviation path := (cursorPath wt).

(** The save's last request put a new cursor file in place. *)
Definition saves (ev : event) : bool :=
  match ev with
  | Ev q a =>
      match q in request A return A -> bool with
      | Rename _ new => fun r => (new =? path)%string && is_Ok r
      | _ => fun _ => false
      end a
  end.
Definition saved (s : list event) : Prop := existsb saves s = true.

Lemma not_saved s : Forall (event_ok (St:=St) tame) s -> ~ saved s.
Proof.
  unfold saved. induction 1 as [|[A q a] s Hq _ IH]; simpl; [done|]. intros [H|H]%orb_true_iff; [by destruct q|done].
Qed.

(** Tame code leaves the files alone. *)
Lemma files_kept {A} (m : M St A) w :
  every tame m -> wp m (fun _ s w' => files (env w') = files (env w) /\ ~ saved s) w.
Proof.
  intros Hm. eapply wp_mono; [apply wp_conj; [|exact (wp_every tame m w Hm)]|].
  2:{ cbn beta. intros a s w' [H Hs]. split; [exact H|by apply not_saved]. }
  revert w Hm. induction m as [a|B o k IH]; intros w; [done|]. intros [Ho Hk] b w' Hb.
  assert (files (env w') = files (env w)) as Hf.
  { destruct o; simpl in Hb; destruct_and?; subst; try done; try (by destruct Hb as (? & _ & _ & ->)).
    destruct Hb as (e & Hs & ->). simpl. pose proof (other_law q (env w)) as Hq. rewrite Hs in Hq.
    by destruct q. }
  eapply wp_mono; [by apply IH|]. cbn beta. intros a s w2 H. by rewrite H.
Qed.

Lemma tame_wp {A} (m : M St A) (Q : A -> list event -> World E St -> Prop) w : every tame m -> wp m Q w ->
  wp m (fun a s w' => Q a s w' /\ files (env w') = files (env w) /\ ~ saved s) w.
Proof. intros Hm HQ. apply wp_conj; [done|by apply files_kept]. Qed.

Ltac saves_in := unfold saved in *; cbn [app]; repeat (rewrite existsb_app || rewrite orb_true_iff || cbn [existsb saves]); naive_solver.
Ltac unsaved := let H := fresh in intros H; exfalso; revert H; saves_in.

(** What a segment published, without its quiet parts. *)
Ltac publishes := rewrite ?published_ids_app;
  repeat match goal with |- context [published_ids ?s] => rewrite (published_ids_quiet s) by done end;
  rewrite ?app_nil_l, ?app_nil_r.

Lemma SaveCursor_saves c w :
  wp (SaveCursor path c) (fun _ s w' => quiet s /\
    (saved s -> exists data, marshal_cursor c = Some data /\ files (env w') !! path = Some data)) w.
Proof.
  unfold SaveCursor. destruct (marshal_cursor c) as [data|]; [|wp_steps; split; [done|done]].
  wp_step. apply wp_call_alone. intros a e1 Hw. cbn beta.
  pose proof (write_law (path +:+ ".tmp") data (env w)) as [_ Hw2]. rewrite Hw in Hw2. simpl in Hw2.
  destruct a as [[]|er]; [|wp_steps; split; [done|unsaved]].
  wp_step. apply wp_call_alone. intros r e2 Hr. cbn beta. simpl in Hr.
  pose proof (rename_law (path +:+ ".tmp") path data e1 (Hw2 eq_refl)) as Hf. rewrite Hr in Hf. simpl in Hf.
  destruct r as [[]|er]; wp_steps; (split; [done|]).
  - intros _. exists data. split; [done|]. simpl. by rewrite Hf, lookup_insert_eq.
  - unfold saved. simpl. by rewrite andb_false_r.
Qed.

(** ** A poll *)

(** The segment of a scan, which makes its own retries (scan_retry_budget). *)
Definition scan_segment (t : list event) : Prop :=
  exists fuel w, trace (snd (runM (Scan sc fuel) w)) = trace w ++ t.

(** What a poll did up to the scan: after it come the scan, if it got there,
    and metrics. *)
Definition batch_of (s b : list event) : Prop :=
  exists t e, s = b ++ t ++ e /\ (t = [] \/ scan_segment t) /\ quiet e.

Lemma batch_of_all s : batch_of s s.
Proof. exists [], []. rewrite !app_nil_r. split; [done|]. split; [by left|done]. Qed.
Lemma batch_of_pre q s b : batch_of s b -> batch_of (q ++ s) (q ++ b).
Proof. intros (t & e & -> & Ht & He). exists t, e. by rewrite !app_assoc. Qed.
Lemma batch_of_post s b q : quiet q -> batch_of s b -> batch_of (s ++ q) b.
Proof.
  intros Hq (t & e & -> & Ht & He). exists t, (e ++ q). rewrite !app_assoc. split; [done|]. split; [done|].
  by apply quiet_app.
Qed.

Lemma Scan_segment fuel w :
  wp (Scan sc fuel) (fun _ t w' => scan_segment t /\ files (env w') = files (env w) /\ ~ saved t) w.
Proof.
  apply tame_wp; [apply Scan_tame|]. apply wp_alone.
  destruct (proj1 (wp_alone (Scan sc fuel) (fun _ _ _ => True) w)) as (t & Ht & _); [by apply wp_any|].
  exists t. split; [done|]. by exists fuel, w.
Qed.

(** What a cycle publishes is new to the cursor in hand, and in the cursor it
    puts in place. *)
Lemma poll_cycle_publishes fuel w :
  wp (poll_cycle (Scan sc) wt fuel) (fun _ s w' => exists b, batch_of s b /\
    NoDup (published_ids b) /\
    (forall id, (id ∈ published_ids b) -> id ∉ dom (HeadSHAs (cursorState w))) /\
    (saved s -> exists c data, marshal_cursor c = Some data /\ files (env w') !! path = Some data /\
       forall id, (id ∈ published_ids b) -> id ∈ dom (HeadSHAs c))) w.
Proof.
  unfold poll_cycle. do 3 wp_step.
  eapply wp_mono; [apply tame_wp; [apply fetchAllPRs_tame|apply fetch_complete]|]. cbn beta.
  intros r s1 w1 ((Hw1 & [Hc1 _] & _) & _ & Hn1). destruct Hw1 as (e1 & t1 & ->).
  destruct r as [[prs reason]|].
  2:{ wp_steps. eexists. split; [apply batch_of_all|]. publishes. split_and!; [constructor|set_solver|unsaved]. }
  wp_step.
  { wp_steps. eexists. split; [apply batch_of_all|]. publishes. split_and!; [constructor|set_solver|unsaved]. }
  do 2 wp_step.
  wp_step.
  { wp_steps. eexists. split; [apply batch_of_all|]. publishes. split_and!; [constructor|set_solver|unsaved]. }
  wp_step. eapply wp_mono; [apply tame_wp; [apply processPRs_tame|apply processPRs_booked]|]. cbn beta.
  intros m s2 w2 ((Hd2 & Hi2) & Hf2 & Hn2).
  change (cursorState (set_env e _ (set_env e1 t1 w))) with (cursorState w) in Hi2.
  wp_step. eapply wp_mono; [apply tame_wp; [apply processLabeledPRs_tame|apply labelled_pass_scope]|]. cbn beta.
  intros r s3 w3 (((c3 & e3 & t3 & ->) & Hc3 & _) & Hf3 & Hn3).
  destruct r as [[]|].
  2:{ wp_steps. eexists. split; [apply batch_of_all|]. publishes. split_and!; [done|set_solver|unsaved]. }
  do 5 wp_step. wp_use SaveCursor_saves. intros r s4 w4 ([Hc4 _] & Hsave). wp_step.
  wp_use Scan_segment. intros done t5 w5 (Hseg & Hf5 & Hn5).
  set (b := [] ++ s1 ++ [Ev CtxDone false] ++ s2 ++ s3 ++ [] ++ [] ++ s4).
  assert (published_ids b = published_ids s2) as Hb by (subst b; by publishes).
  assert (forall tl w', quiet tl -> ~ saved tl -> files (env w') = files (env w5) ->
    exists b0, batch_of (b ++ t5 ++ tl) b0 /\ NoDup (published_ids b0) /\
      (forall id, (id ∈ published_ids b0) -> id ∉ dom (HeadSHAs (cursorState w))) /\
      (saved (b ++ t5 ++ tl) -> exists c data, marshal_cursor c = Some data /\ files (env w') !! path = Some data /\
         forall id, (id ∈ published_ids b0) -> id ∈ dom (HeadSHAs c))) as Hend.
  { intros tl w' Hq Htl Hf6. exists b. rewrite Hb. split; [by exists t5, tl; split; [|split; [right|]]|].
    split; [done|]. split; [intros id Hid; by apply Hi2|].
    intros Hs. destruct Hsave as (data & Hm & Hdata); [revert Hs; subst b; saves_in|].
    eexists _, data. split; [exact Hm|]. split; [simpl in *; congruence|].
    intros id Hid. destruct (Hi2 id Hid) as [_ Hin]. by destruct (dt_After _ _). }
  destruct done as [[]|].
  - wp_step. apply wp_call_alone. intros [] e6 H6.
    pose proof (other_law (IncPollCycle "success") (env w5)) as Hf6. rewrite H6 in Hf6. wp_steps.
    specialize (Hend [Ev (IncPollCycle "success") tt] (set_env e6 (trace w5 ++ [Ev (IncPollCycle "success") tt]) w5)).
    subst b. rewrite ?app_nil_r, <- ?app_assoc in *. by apply Hend.
  - wp_steps. specialize (Hend [] w5). subst b. rewrite ?app_nil_r, <- ?app_assoc in *. by apply Hend.
Qed.

Lemma rateLimit_wp w : wp rateLimitRemainingForGauge (fun _ s w' => same_state w w' /\ quiet s) w.
Proof. unfold rateLimitRemainingForGauge. wp_steps; (split; [frame|done]). Qed.

(** A poll whose batch publishes anything loaded a cursor without it, from the
    file if there is one that can be read; a poll that put a new cursor file
    in place put what its batch published there. *)
Record polled w (s b : list event) w' : Prop := mkPolled {
  po_batch : batch_of s b;
  po_once : NoDup (published_ids b);
  po_new c data id : marshal_cursor c = Some data -> files (env w) !! path = Some data ->
    (id ∈ published_ids b) -> id ∉ dom (HeadSHAs c);
  po_saved : saved s -> exists c data, marshal_cursor c = Some data /\ files (env w') !! path = Some data /\
    forall id, (id ∈ published_ids b) -> id ∈ dom (HeadSHAs c) }.

Lemma polled_quiet w q s b w' : creates q = [] -> ~ saved q -> polled w s b w' -> polled w (q ++ s) (q ++ b) w'.
Proof.
  intros Hc Hn [Hb Ho Hf Hs].
  split; rewrite ?published_ids_app, ?(published_ids_quiet q Hc); [by apply batch_of_pre|done|done|].
  intros H. apply Hs. revert H. saves_in.
Qed.

(** From the cursor in hand on. *)
Lemma Poll_tail_wp fuel c w w0 :
  (forall c0 data, marshal_cursor c0 = Some data -> files (env w0) !! path = Some data -> HeadSHAs c = HeadSHAs c0) ->
  wp (modify_cursor (fun _ => c);; remaining ← rateLimitRemainingForGauge;
      r ← poll_cycle (Scan sc) wt fuel; call (SetRateLimitRemaining remaining);; mret r)
    (fun _ s w' => exists b, polled w0 s b w') w.
Proof.
  intros Hc. do 3 wp_step. eapply wp_mono; [apply tame_wp; [every_steps|apply rateLimit_wp]|]. cbn beta.
  intros rem s1 w1 (((e2 & t2 & ->) & [Hc1 _]) & Hf2 & Hn1). wp_step.
  wp_use poll_cycle_publishes. intros r s2 w2 (b & Hb & Hd2 & Hi2 & Hs2). wp_step. apply wp_call_alone.
  intros [] e3 H3. pose proof (other_law (SetRateLimitRemaining rem) (env w2)) as Hf3. rewrite H3 in Hf3.
  wp_steps. exists ([] ++ s1 ++ b). apply polled_quiet, polled_quiet; [done..|]. split; [|done| |].
  - apply batch_of_post; [done|]. done.
  - intros c0 data id Hm Hfile Hid. rewrite <- (Hc c0 data Hm Hfile). by apply Hi2.
  - intros Hs. destruct Hs2 as (c' & data & Hm & Hdata & Hin); [revert Hs; saves_in|].
    exists c', data. split; [done|]. split; [simpl in *; congruence|done].
Qed.

Lemma Poll_wp fuel w : wp (Poll (Scan sc) wt fuel) (fun _ s w' => exists b, polled w s b w') w.
Proof.
  unfold Poll, LoadCursor. do 2 wp_step. apply wp_call_alone. intros fr e1 H1. cbn beta.
  pose proof (read_law path (env w)) as [Hf1 Hr1]. rewrite H1 in Hf1, Hr1. simpl in Hf1, Hr1. wp_step.
  assert (forall c, (forall c0 data, marshal_cursor c0 = Some data -> files (env w) !! path = Some data ->
      HeadSHAs c = HeadSHAs c0) -> forall w1, wp (modify_cursor (fun _ => c);; remaining ← rateLimitRemainingForGauge;
      r ← poll_cycle (Scan sc) wt fuel; call (SetRateLimitRemaining remaining);; mret r)
    (fun _ s w' => exists b, polled w (([Ev (ReadFile path) fr] ++ []) ++ s) b w') w1) as Hrest.
  { intros c Hc w1. eapply wp_mono; [by apply (Poll_tail_wp fuel c w1 w)|]. cbn beta. intros _ s w' [b H].
    eexists. apply polled_quiet; [done|saves_in|exact H]. }
  destruct fr as [data| |].
  - destruct (unmarshal_cursor data) as [raw|] eqn:Hun; apply Hrest; intros c0 data' Hm Hfile;
      rewrite Hr1 in Hfile; injection Hfile as <-; rewrite (cursor_roundtrip _ _ Hm) in Hun; [|done].
    by injection Hun as <-.
  - apply Hrest. intros c0 data' Hm Hfile. congruence.
  - wp_steps. eexists. split; [apply batch_of_all|publishes; constructor|publishes; set_solver|unsaved].
Qed.

(** (C4) Polls publish once, restarts included. Apart from the retries of its
    scan, no poll publishes an identifier twice; and once a poll has put its
    cursor file in place, the next poll that finds that file, in the same
    process or in one started since with empty ledgers and a coalescer of its
    own, publishes nothing the first one published. *)
Theorem polls_publish_once fuel1 fuel2 w :
  wp (Poll (Scan sc) wt fuel1) (fun _ s1 w1 => exists b1, batch_of s1 b1 /\ NoDup (published_ids b1) /\
    forall w2, saved s1 -> files (env w2) !! path = files (env w1) !! path ->
      wp (Poll (Scan sc) wt fuel2) (fun _ s2 _ => exists b2, batch_of s2 b2 /\
        NoDup (published_ids (b1 ++ b2))) w2) w.
Proof.
  wp_use Poll_wp. intros _ s1 w1 [b1 [Hb1 Ho1 _ Hs1]]. exists b1. split; [done|]. split; [done|].
  intros w2 Hs Hfile. destruct (Hs1 Hs) as (c & data & Hm & Hdata & Hin).
  wp_use Poll_wp. intros _ s2 w3 [b2 [Hb2 Ho2 Hn2 _]]. exists b2. split; [done|].
  rewrite published_ids_app. apply NoDup_app. split_and!; [done| |done]. intros id H1 H2. rewrite Hdata in Hfile.
  exact (Hn2 c data id Hm Hfile H2 (Hin id H1)).
Qed.
End polls.

(** ** Instances *)

(** The cursor that the bump's poll leaves, and a codec that has it. *)
Definition bump_cursor : Cursor :=
  mkCursor 1000 {[override_id demo_pr_1 demo_pr_details := "0123abcd"]} ∅.
Definition bump_codec : CursorCodec := {|
  marshal_cursor c := if decide (c = bump_cursor) then Some "{}" else None;
  unmarshal_cursor data :=
    if data =?s "{}" then Some (mkRawCursor 1000 (Some (HeadSHAs bump_cursor)) None) else None |}.

Lemma bump_codec_laws : CursorCodecLaws bump_codec.
Proof.
  split. intros c data. simpl. destruct (decide (c = bump_cursor)) as [->|]; [|done]. by intros [= <-].
Qed.

Definition demo_scan : unreviewedScanner :=
  mkScanner "bborbe" NewDraftFilter (production_trust ["updater[bot]"]) "override-review" 0 0
    (mkUnreviewedConfig ["pr-reviewer"] Hour 2).

Definition bump_poll : M memDB (option (result unit)) := Poll (J:=bump_codec) (Scan demo_scan) demo_watcher 3.

(** The first poll sends the override; after a restart with its file, the
    second sends nothing it sent but the scan's retry. *)
Lemma polls_publish_once_witness :
  let w1 := snd (runM bump_poll (demo_start demo_opted_in demo_bump)) in
  length (published_ids (trace w1)) = 1%nat /\
  exists b1 s2 b2, batch_of demo_scan (trace w1) b1 /\
    trace (snd (runM bump_poll (demo_world (env w1) (cold_start 0)))) = s2 /\ batch_of demo_scan s2 b2 /\
    NoDup (published_ids (b1 ++ b2)).
Proof.
  cbn zeta. split; [vm_compute; reflexivity|].
  destruct (proj1 (wp_alone _ _ _) (polls_publish_once (J:=bump_codec) (JL:=bump_codec_laws) demo_watcher demo_scan
    3 3 (demo_start demo_opted_in demo_bump))) as (s1 & Ht1 & b1 & Hb1 & _ & H).
  fold bump_poll in Ht1, H. set (w1 := snd (runM bump_poll (demo_start demo_opted_in demo_bump))) in *.
  change (trace w1 = s1) in Ht1. exists b1.
  assert (saved demo_watcher s1) as Hs by (rewrite <- Ht1; vm_compute; reflexivity).
  destruct (proj1 (wp_alone _ _ _) (H (demo_world (env w1) (cold_start 0)) Hs eq_refl)) as (s2 & Ht2 & b2 & Hb2 & Hd).
  exists s2, b2. split; [rewrite Ht1; exact Hb1|]. split; [exact Ht2|]. split; [exact Hb2|exact Hd].
Defined.
