(* ===== verification/ScannerProofs.v ===== *)
(** * ScannerProofs: the scan's retry budget and its gauge

    Of a scan alone or among any other goroutines that leave the scanner's
    maps to it ([MapsHeld]): [Scan] has their mutex, which ProcessProofs shows
    to be enough. *)
From S2P Require Import Prelude GoStrings KV MemDB Ledger Types Titles Trust Coalesce Filters SizeGate Commands World Publisher CursorFile Watcher WatcherFacts DemoEnv Scanner.
Local Open Scope Z_scope.

(** How often a segment published a task identifier. *)
Definition times (id : string) (s : list event) : Z :=
  Z.of_nat (length (filter (fun x => x = id) (published_ids s))).

Lemma times_app id s t : times id (s ++ t) = times id s + times id t.
Proof. unfold times. rewrite published_ids_app, filter_app, length_app. lia. Qed.

Lemma times_none id s : creates s = [] -> times id s = 0.
Proof. intros Hs. unfold times. by rewrite published_ids_quiet. Qed.

Lemma times_nonneg id s : 0 <= times id s.
Proof. unfold times. lia. Qed.

Section proofs.
Context {E St : Type} `{SC : Sched E St} `{MH : !MapsHeld SC} `{P : TaskPublisher St} `{PL : !TaskPublisherLaws P} `{U : UUID}
  `{UT : UnicodeTables} `{G : GitIgnore}.
Context (sc : unreviewedScanner).
Implicit Types w : World E St.

(** The retries an identifier has used. *)
Definition spent (id : string) w : Z := attempts (retry_entry id (retryState w)).

(** One step of the retry pass: it leaves the entry of every identifier it
    does not publish alone, and publishes only within budget and spacing. *)
Record retry_step (keys : list string) (now : DateTime) (s : list event) w w' : Prop := mkRetryStep {
  rs_quiet : writes s = [];
  rs_spent id : spent id w' = spent id w + times id s;
  rs_kept id : times id s = 0 -> retryState w' !! id = retryState w !! id;
  rs_once id : times id s <= 1;
  rs_budget id : 0 < times id s ->
    spent id w < RetryMax (sc_cfg sc) /\
    (spent id w = 0 \/
     Threshold (sc_cfg sc) <= dt_Sub now (lastAttempt (retry_entry id (retryState w)))) /\
    lastAttempt (retry_entry id (retryState w')) = now;
  rs_key id : 0 < times id s ->
    exists e, retryState w' !! id = Some e /\ (ur_prKey e ∈ keys) }.

Lemma retry_step_none keys now s w w' :
  quiet s -> retryState w' = retryState w -> retry_step keys now s w w'.
Proof.
  intros [Hc Hw] Hr. split; [done| | | | |]; intros id; rewrite times_none by done; try done; try lia.
  - unfold spent. rewrite Hr. lia.
  - by rewrite Hr.
Qed.

Lemma retry_entry_insert id id' e m :
  retry_entry id (<[id' := e]> m) = if decide (id' = id) then e else retry_entry id m.
Proof.
  unfold retry_entry. destruct (decide (id' = id)) as [<-|Hne].
  - by rewrite lookup_insert_eq.
  - by rewrite lookup_insert_ne.
Qed.

Lemma retry_one_wp c now w : (forall id, 0 <= spent id w) ->
  wp (retry_one sc c now) (fun _ s w' =>
    gauges s = [] /\ retry_step [prKey (cd_pr c)] now s w w') w.
Proof.
  intros Hpos. unfold retry_one. do 2 wp_step.
  do 2 (wp_step; [wp_steps; split; [done|by apply retry_step_none]|]).
  wp_step. eapply wp_mono; [apply wp_conj; [apply PublishCreate_law|apply PublishCreate_gauges]|].
  cbn beta. intros ok s w1 [(Hw & Hs & Hc) Hg]. destruct Hw as (e & t & st & ->).
  wp_step.
  - wp_steps. rewrite app_nil_r.
    assert (published_ids s = []) as Hp.
    { unfold published_ids. destruct Hc as [[-> _]|(cmd & -> & _)]; [done|].
      destruct ok; [discriminate|done]. }
    assert (forall id, times id s = 0) as Ht by (intros id; unfold times; by rewrite Hp).
    split; [by seg|]. split; [by seg| | | | |]; intros id; cbn [app]; rewrite Ht; try done; try lia.
    unfold spent. simpl. lia.
  - wp_steps. destruct ok; [|discriminate]. destruct Hc as [[_ [=]]|(cmd & Hc & _ & Hid)].
    assert (forall id, times id ([] ++ s ++ [] ++ [Ev (IncUnreviewedRetry (repo_name (cd_pr c))) a]) =
      if decide (candidate_id c = id) then 1 else 0) as Ht.
    { intros id. unfold times, published_ids. autorewrite with segment. cbn [create_of app].
      rewrite Hc. simpl. rewrite Hid. rewrite filter_cons, filter_nil.
      destruct (decide (candidate_id c = id)); by simpl. }
    split; [by seg|]. split; [by seg| | | | |]; intros id; rewrite ?Ht.
    + unfold spent at 1. simpl. rewrite retry_entry_insert.
      destruct (decide (candidate_id c = id)) as [<-|]; [done|unfold spent; simpl; lia].
    + destruct (decide (candidate_id c = id)); [lia|]. intros _. simpl. by rewrite lookup_insert_ne.
    + destruct (decide (candidate_id c = id)); lia.
    + destruct (decide (candidate_id c = id)) as [<-|]; [|lia]. intros _. split_and!.
      * unfold spent. bool_props. lia.
      * specialize (Hpos (candidate_id c)). unfold spent in *. apply andb_false_iff in Heqb0 as [Hb|Hb];
          bool_props; [left|right]; lia.
      * simpl. rewrite retry_entry_insert. by rewrite decide_True.
    + destruct (decide (candidate_id c = id)) as [<-|]; [|lia]. intros _. simpl.
      rewrite lookup_insert_eq. eexists. split; [done|]. by left.
Qed.

Lemma retry_step_entry keys now s w w' id : retry_step keys now s w w' -> times id s = 0 ->
  retry_entry id (retryState w') = retry_entry id (retryState w).
Proof. intros [] Ht. unfold retry_entry. by rewrite rs_kept0. Qed.

Lemma retry_step_mono keys keys' now s w w' :
  keys ⊆ keys' -> retry_step keys now s w w' -> retry_step keys' now s w w'.
Proof.
  intros Hk []. split; try done. intros id H. destruct (rs_key0 id H) as (e & ? & ?). exists e. auto.
Qed.

(** Two steps of one scan: the spacing test stops a second publish. *)
Lemma retry_step_trans keys now s t w w1 w2 :
  0 < Threshold (sc_cfg sc) -> (forall id, 0 <= spent id w) ->
  retry_step keys now s w w1 -> retry_step keys now t w1 w2 -> retry_step keys now (s ++ t) w w2.
Proof.
  intros Hth Hpos H1 H2. pose proof H1 as [Hw1 Hs1 Hk1 Ho1 Hb1 Hy1].
  pose proof H2 as [Hw2 Hs2 Hk2 Ho2 Hb2 Hy2].
  assert (forall id, 0 < times id s -> times id t = 0) as Hx.
  { intros id Hp. pose proof (times_nonneg id t). destruct (decide (times id t = 0)); [done|].
    destruct (Hb1 id Hp) as (_ & _ & Hl). destruct (Hb2 id) as (_ & [Hz|Hz] & _); [lia| |].
    - specialize (Hpos id). rewrite Hs1 in Hz. lia.
    - rewrite Hl in Hz. unfold dt_Sub, sat64, int_min, int_max in Hz. lia. }
  split; [by seg| | | | |]; intros id; rewrite times_app;
    pose proof (times_nonneg id s); pose proof (times_nonneg id t).
  - rewrite Hs2, Hs1. lia.
  - intros Hz. rewrite Hk2, Hk1 by lia. done.
  - specialize (Hx id). specialize (Ho1 id). specialize (Ho2 id). lia.
  - intros Hp. destruct (decide (times id s = 0)) as [Hz|Hz].
    + destruct (Hb2 id) as (Hr & Hsp & Hl); [lia|].
      rewrite (retry_step_entry _ _ _ _ _ _ H1 Hz) in Hsp. rewrite Hs1, Hz, Z.add_0_r in Hr, Hsp. done.
    + destruct (Hb1 id) as (Hr & Hsp & Hl); [lia|]. split_and!; [done|done|].
      by rewrite (retry_step_entry _ _ _ _ _ _ H2) by (apply Hx; lia).
  - intros Hp. destruct (decide (times id s = 0)) as [Hz|Hz]; [apply Hy2; lia|].
    rewrite Hk2 by (apply Hx; lia). apply Hy1. lia.
Qed.

Lemma retry_step_pos keys now s w w' :
  (forall id, 0 <= spent id w) -> retry_step keys now s w w' -> forall id, 0 <= spent id w'.
Proof. intros Hpos [] id. rewrite rs_spent0. specialize (Hpos id). pose proof (times_nonneg id s). lia. Qed.

Definition candidate_keys (cs : list candidate) : list string := (fun c => prKey (cd_pr c)) <$> cs.

Lemma retry_wp now cs : 0 < Threshold (sc_cfg sc) -> forall w, (forall id, 0 <= spent id w) ->
  wp (retry sc cs now) (fun _ s w' =>
    gauges s = [] /\ retry_step (candidate_keys cs) now s w w') w.
Proof.
  intros Hth. induction cs as [|c cs IH]; intros w Hpos; simpl.
  { wp_steps. split; [done|by apply retry_step_none]. }
  do 2 wp_step. wp_step; [wp_steps; split; [done|by apply retry_step_none]|].
  wp_step. wp_use retry_one_wp; [done|]. intros [] s1 w1 [Hg1 H1].
  wp_use IH; [by eapply retry_step_pos; [|exact H1]|]. intros [] s2 w2 [Hg2 H2]. split; [by seg|].
  apply (retry_step_mono _ (candidate_keys (c :: cs))) in H1; [|intros ? ?%list_elem_of_singleton; subst; by left].
  apply (retry_step_mono _ (candidate_keys (c :: cs))) in H2; [|by right].
  eapply retry_step_trans; [done|done| |eapply retry_step_trans; [done| |exact H1|exact H2]; done].
  by apply retry_step_none.
Qed.

(** ** Qualification *)

Definition details_read (pr : PullRequest) (d : PRDetails) (s : list event) : Prop :=
  Ev (GetPRDetails (Owner pr) (Repo pr) (Number pr)) (Ok d) ∈ s.

(** The size gate lets a PR pass: it is within the caps as it is, or less what
    the rules of its repository exclude from review. *)
Definition within_caps (d : PRDetails) (ex : Exclusion) : Prop :=
  oversized d ex (sc_maxAdditions sc) (sc_maxChangedFiles sc) = false.

Definition not_parked (pr : PullRequest) (d : PRDetails) (s : list event) : Prop :=
  within_caps d zero_exclusion \/
  exists ex, exclusion_read (Owner pr) (Repo pr) (Number pr) ex s /\ within_caps d ex.

(** It is beyond the caps, also less what is excluded. *)
Definition is_parked (pr : PullRequest) (d : PRDetails) (s : list event) : Prop :=
  ~ within_caps d zero_exclusion /\
  exists ex, exclusion_read (Owner pr) (Repo pr) (Number pr) ex s /\ ~ within_caps d ex.

(** Why a PR is reported, read in the segment [s]. *)
Definition unreviewed_evidence (pr : PullRequest) (d : PRDetails) (now : DateTime) (s : list event)
  : Prop :=
  Skip (sc_filter sc) (filter_pr pr) = false /\
  (sc_overrideLabel sc = "" \/ slices_Contains (Labels pr) (sc_overrideLabel sc) = false) /\
  Threshold (sc_cfg sc) <= dt_Sub now (UpdatedAt pr) /\
  details_read pr d s /\
  (exists r, sc_trust sc (trust_pr pr d) = Ok r /\ Success r = true) /\ HeadSHA d <> "" /\
  not_parked pr d s /\
  exists reviews, Ev (ListReviews (Owner pr) (Repo pr) (Number pr)) (Ok reviews) ∈ s /\
    has_verdict (Logins (sc_cfg sc)) (HeadSHA d) reviews = false.

(** A configured reviewer's verdict on the head of a PR with this key and
    update time was read in [s]. *)
Definition verdict_seen (key : string) (t : DateTime) (s : list event) : Prop :=
  exists pr d reviews, prKey pr = key /\ UpdatedAt pr = t /\ details_read pr d s /\
    (Ev (ListReviews (Owner pr) (Repo pr) (Number pr)) (Ok reviews) ∈ s) /\
    has_verdict (Logins (sc_cfg sc)) (HeadSHA d) reviews = true.

(** Why a PR is not: [w0] is the world the scan started in. *)
Definition not_counted (pr : PullRequest) (now : DateTime) (w0 : World E St) (s : list event) : Prop :=
  Skip (sc_filter sc) (filter_pr pr) = true \/
  (sc_overrideLabel sc <> "" /\ slices_Contains (Labels pr) (sc_overrideLabel sc) = true) \/
  dt_Sub now (UpdatedAt pr) < Threshold (sc_cfg sc) \/
  (reviewedCache w0 !! prKey pr = Some (UpdatedAt pr) \/ verdict_seen (prKey pr) (UpdatedAt pr) s) \/
  exists d, details_read pr d s /\
    ((exists r, sc_trust sc (trust_pr pr d) = Ok r /\ Success r = false) \/ HeadSHA d = "" \/
     is_parked pr d s).

Lemma not_parked_mono pr d s t : s ⊆ t -> not_parked pr d s -> not_parked pr d t.
Proof.
  intros Hst [?|(ex & Hex & ?)]; [by left|right]. exists ex. split; [by eapply exclusion_read_mono|done].
Qed.

Lemma is_parked_mono pr d s t : s ⊆ t -> is_parked pr d s -> is_parked pr d t.
Proof. intros Hst [? (ex & Hex & ?)]. split; [done|]. exists ex. split; [by eapply exclusion_read_mono|done]. Qed.

Lemma unreviewed_evidence_mono pr d now s t :
  s ⊆ t -> unreviewed_evidence pr d now s -> unreviewed_evidence pr d now t.
Proof.
  intros Hst (? & ? & ? & ? & ? & ? & ? & rs & ? & ?). unfold details_read in *.
  split_and!; try done; [by apply Hst|by eapply not_parked_mono|]. exists rs. split; [by apply Hst|done].
Qed.

Lemma verdict_seen_mono key u s t : s ⊆ t -> verdict_seen key u s -> verdict_seen key u t.
Proof.
  intros Hst (pr & d & rs & ? & ? & ? & ? & ?). exists pr, d, rs. unfold details_read in *.
  split_and!; try done; by apply Hst.
Qed.

Lemma not_counted_mono pr now w0 s t : s ⊆ t -> not_counted pr now w0 s -> not_counted pr now w0 t.
Proof.
  intros Hst [?|[?|[?|[[?|?]|(d & ? & Hd)]]]]; unfold not_counted; auto 10.
  - do 3 right. left. right. by eapply verdict_seen_mono.
  - do 4 right. exists d. unfold details_read in *. split; [by apply Hst|].
    destruct Hd as [?|[?|?]]; [by left|by right; left|]. do 2 right. by eapply is_parked_mono.
Qed.

(** Every cached verdict was there at the start or was read since. *)
Definition cache_known (w : World E St) (s : list event) (w' : World E St) : Prop :=
  forall key t, reviewedCache w' !! key = Some t ->
    reviewedCache w !! key = Some t \/ verdict_seen key t s.

Lemma not_counted_later pr now w0 s w1 t :
  cache_known w0 s w1 -> not_counted pr now w1 t -> not_counted pr now w0 (s ++ t).
Proof.
  intros Hk [?|[?|[?|[[Hc|?]|(d & ? & Hd)]]]]; unfold not_counted; auto 10.
  - do 3 right. left. apply Hk in Hc as [?|?]; [by left|right]. eapply verdict_seen_mono; [|done].
    set_solver.
  - do 3 right. left. right. eapply verdict_seen_mono; [|done]. set_solver.
  - do 4 right. exists d. unfold details_read in *. rewrite elem_of_app. split; [auto|].
    destruct Hd as [?|[?|?]]; [by left|by right; left|]. do 2 right. eapply is_parked_mono; [|done]. set_solver.
Qed.

(** A silent step that leaves the retry entries alone. *)
Definition unretried (s : list event) w w' : Prop :=
  quiet s /\ gauges s = [] /\ retryState w' = retryState w /\ cache_known w s w'.

Lemma unretried_same s w w' : quiet s -> gauges s = [] -> retryState w' = retryState w ->
  reviewedCache w' = reviewedCache w -> unretried s w w'.
Proof. intros ? ? ? Hc. split_and!; try done. intros k t. rewrite Hc. by left. Qed.

Lemma unretried_trans s t w w1 w2 :
  unretried s w w1 -> unretried t w1 w2 -> unretried (s ++ t) w w2.
Proof.
  intros (? & Hg & Hr & Hk) (? & Hg' & Hr' & Hk').
  split_and!; [by apply quiet_app|by seg|congruence|]. intros k u [Hc|Hc]%Hk'.
  - apply Hk in Hc as [?|Hc]; [by left|right]. eapply verdict_seen_mono; [|exact Hc]. set_solver.
  - right. eapply verdict_seen_mono; [|exact Hc]. set_solver.
Qed.

Lemma cachedReviewed_wp pr w :
  wp (cachedReviewed pr) (fun b s w' => s = [] /\ unretried s w w' /\
    (b = true -> reviewedCache w !! prKey pr = Some (UpdatedAt pr))) w.
Proof.
  unfold cachedReviewed, dt_Equal. wp_steps; (split_and!; [done| |]); try done;
    try by apply unretried_same.
  - intros _. bool_props. by subst.
  - split_and!; try done. intros k u. simpl. rewrite lookup_delete_Some. intros [_ ?]. by left.
Qed.

Lemma parked_wp pr d w :
  wp (parked sc pr d) (fun b s w' => unretried s w w' /\
    if b : bool then is_parked pr d s else not_parked pr d s) w.
Proof.
  unfold parked, is_parked, not_parked, within_caps.
  wp_step; [wp_steps; split; [by apply unretried_same|left; by bool_props]|]. wp_step.
  wp_use ReviewIgnoreExclusion_wp.
  intros ex s w' ((? & ? & ->) & ? & ? & Hex). wp_steps. rewrite app_nil_r.
  split; [by apply unretried_same|]. bool_props.
  destruct (oversized d ex _ _) eqn:Hs; [split; [congruence|]|right]; exists ex; by rewrite Hs.
Qed.

Lemma qualify_wp pr now w :
  wp (qualify sc pr now) (fun r s w' => unretried s w w' /\
    (forall d, r = Ok (Some d) -> unreviewed_evidence pr d now s) /\
    (r = Ok None -> not_counted pr now w s)) w.
Proof.
  assert (unretried [] w w) as H0 by by apply unretried_same.
  unfold qualify. wp_step; [wp_steps; split_and!; try done; by left|].
  wp_step; [wp_steps; split_and!; try done; right; left; bool_props; done|].
  wp_step; [wp_steps; split_and!; try done; do 2 right; left; bool_props; done|].
  wp_step. wp_use cachedReviewed_wp. intros b s1 w1 (-> & H1 & Hb). cbn [app].
  wp_step; [wp_steps; split_and!; try done; do 3 right; left; left; auto|].
  do 2 wp_step.
  assert (unretried [Ev (GetPRDetails (Owner pr) (Repo pr) (Number pr)) a] w (set_env e
    (trace w1 ++ [Ev (GetPRDetails (Owner pr) (Repo pr) (Number pr)) a]) w1)) as Ha.
  { apply (unretried_trans [] _ _ w1); [done|]. by apply unretried_same. }
  assert (forall d, a = Ok d -> details_read pr d [Ev (GetPRDetails (Owner pr) (Repo pr) (Number pr)) a])
    as Hr by (intros d ->; by left).
  wp_step; [|wp_steps; by split_and!].
  match goal with H : a = Ok ?x |- _ => subst a; rename x into d end. specialize (Hr d eq_refl).
  set (s1 := [Ev (GetPRDetails (Owner pr) (Repo pr) (Number pr)) (Ok d)]) in *.
  wp_step; [|wp_steps; by split_and!].
  wp_step; [wp_steps; split_and!; try done; do 4 right; exists d; rewrite app_nil_r; split;
    [done|left; eexists; split; [done|by bool_props]]|].
  wp_step; [wp_steps; split_and!; try done; do 4 right; exists d; rewrite app_nil_r; split;
    [done|right; left; by bool_props]|].
  wp_step. wp_use parked_wp. intros pk s2 w2 [H2 Hp].
  pose proof (unretried_trans _ _ _ _ _ Ha H2) as H12.
  wp_step; [wp_steps; rewrite ?app_nil_r; split_and!; try done; do 4 right; exists d; split;
    [unfold details_read in *; rewrite elem_of_app; by left
    |do 2 right; eapply is_parked_mono; [|exact Hp]; set_solver]|].
  do 2 wp_step.
  assert (forall a0 w3, retryState w3 = retryState w2 -> reviewedCache w3 = reviewedCache w2 ->
    unretried (s1 ++ s2 ++ [Ev (ListReviews (Owner pr) (Repo pr) (Number pr)) a0]) w w3) as H3.
  { intros a1 w3 ? ?. rewrite app_assoc. eapply unretried_trans; [exact H12|]. by apply unretried_same. }
  wp_step; [|wp_steps; rewrite ?app_nil_r; split_and!; try done; by apply H3].
  match goal with H : ?x = Ok ?y |- _ => is_var x; subst x; rename y into rs end.
  set (s := s1 ++ s2 ++ [Ev (ListReviews (Owner pr) (Repo pr) (Number pr)) (Ok rs)]).
  assert (details_read pr d s) as Hr3 by (unfold details_read in *; subst s; rewrite elem_of_app; by left).
  assert (Ev (ListReviews (Owner pr) (Repo pr) (Number pr)) (Ok rs) ∈ s) as Hrs
    by (subst s; rewrite !elem_of_app; right; right; by left).
  wp_step; wp_steps; rewrite ?app_nil_r; fold s.
  - assert (verdict_seen (prKey pr) (UpdatedAt pr) s) as Hv by (exists pr, d, rs; by split_and!).
    split_and!; [|done|by do 3 right; left; right].
    destruct (H3 (Ok rs) w2 eq_refl eq_refl) as (? & ? & Hr2 & Hk). split_and!; [done|done|done|].
    intros k t. simpl. rewrite lookup_insert_Some. intros [[<- <-]|[_ Hc]]; [by right|by apply Hk].
  - split_and!; [by apply H3| |done]. intros d' [= <-]. bool_props.
    split_and!; try done; [|by eexists|eapply not_parked_mono; [|exact Hp]; subst s; set_solver|by exists rs].
    apply andb_false_iff in Heqb0 as [?|?]; bool_props; auto.
Qed.

(** The candidates of a loop over [prs]. *)
Record qualified (now : DateTime) (prs : list PullRequest) (acc cs : list candidate) (w : World E St)
  (s : list event) : Prop := mkQualified {
  q_kept : acc ⊆ cs;
  q_sound c : (c ∈ cs) -> (c ∈ acc) \/
    (cd_pr c ∈ prs) /\ unreviewed_evidence (cd_pr c) (cd_details c) now s;
  q_complete pr : (pr ∈ prs) -> (exists c, (c ∈ cs) /\ cd_pr c = pr) \/ not_counted pr now w s }.

Lemma qualified_cons now pr prs acc acc' cs w w1 s t :
  cache_known w s w1 -> acc ⊆ acc' ->
  (forall c, (c ∈ acc') -> (c ∈ acc) \/ cd_pr c = pr /\ unreviewed_evidence pr (cd_details c) now s) ->
  (exists c, (c ∈ acc') /\ cd_pr c = pr) \/ not_counted pr now w s ->
  qualified now prs acc' cs w1 t -> qualified now (pr :: prs) acc cs w (s ++ t).
Proof.
  intros Hk Ha Hs Hc [Hk' Hs' Hc']. split.
  - by trans acc'.
  - intros c [Hin|[Hin He]]%Hs'.
    + destruct (Hs c Hin) as [?|[<- He]]; [by left|right]. split; [by left|].
      eapply unreviewed_evidence_mono; [|exact He]. set_solver.
    + right. split; [by right|]. eapply unreviewed_evidence_mono; [|exact He]. set_solver.
  - intros pr' [->|Hin]%elem_of_cons.
    + destruct Hc as [(c & ? & ?)|Hn]; [left; exists c; auto|right].
      eapply not_counted_mono; [|exact Hn]. set_solver.
    + destruct (Hc' pr' Hin) as [?|Hn]; [by left|right]. by eapply not_counted_later.
Qed.

Lemma qualify_loop_wp prs now : forall acc w,
  wp (qualify_loop sc prs now acc) (fun r s w' => unretried s w w' /\
    forall cs, r = Some cs -> qualified now prs acc cs w s) w.
Proof.
  induction prs as [|pr prs IH]; intros acc w; simpl.
  { wp_steps. split; [by apply unretried_same|]. intros cs [= <-]. split; [done|by left|].
    by intros ? ?%elem_of_nil. }
  do 2 wp_step.
  match goal with |- wp _ _ ?w1 => set (w0 := w1) end.
  assert (unretried [Ev CtxDone a] w w0) as H0 by by apply unretried_same.
  wp_step; [wp_steps; by split|]. wp_step. wp_use qualify_wp.
  intros r s1 w1 (H1 & He & Hn). pose proof (unretried_trans _ _ _ _ _ H0 H1) as H01.
  wp_step; [|wp_steps; split; [by rewrite app_nil_r|done]].
  wp_step; wp_use IH; intros r2 s2 w2 [H2 Hc]; (split; [rewrite app_assoc; eapply unretried_trans; [exact H01|done]|]);
    intros cs Hcs; specialize (Hc cs Hcs); rewrite app_assoc; subst.
  - eapply qualified_cons; [by apply H01| | | |exact Hc]; [set_solver| |].
    + intros c [Hin|Hin]%elem_of_app; [by left|right]. apply list_elem_of_singleton in Hin as ->.
      split; [done|]. simpl. eapply unreviewed_evidence_mono; [|by apply He]. set_solver.
    + left. exists (mkCandidate pr p). split; [|done]. rewrite elem_of_app. right. by left.
  - eapply qualified_cons; [by apply H01| | | |exact Hc]; [done|by left|].
    right. apply (not_counted_later _ _ _ [Ev CtxDone false] w0); [by apply H0|by apply Hn].
Qed.

Lemma qualified_frame t now prs acc cs w w0 s :
  qualified now prs acc cs w0 s -> unretried t w w0 -> qualified now prs acc cs w (t ++ s).
Proof.
  intros [Hk Hs Hc] (_ & _ & _ & Ht). split; [done| |].
  - intros c [?|[? He]]%Hs; [by left|right]. split; [done|].
    eapply unreviewed_evidence_mono; [|exact He]. set_solver.
  - intros pr Hin. destruct (Hc pr Hin) as [?|Hn]; [by left|right]. by eapply not_counted_later.
Qed.

Lemma qualified_mono now prs acc cs w s t :
  s ⊆ t -> qualified now prs acc cs w s -> qualified now prs acc cs w t.
Proof.
  intros Hst [Hk Hs Hc]. split; [done| |].
  - intros c [?|[? He]]%Hs; [by left|right]. split; [done|]. by eapply unreviewed_evidence_mono.
  - intros pr Hin. destruct (Hc pr Hin) as [?|Hn]; [by left|right]. by eapply not_counted_mono.
Qed.

(** ** One scan *)

(** A search of every open PR that ended with [prs]. *)
Definition complete_search (prs : list PullRequest) (s : list event) : Prop :=
  exists s1 s2 rs last, s = s1 ++ s2 /\ answered (SearchOpenPRs (sc_scope sc)) 1 (rs ++ [last]) s1 /\
    Forall (fun r => HasNextPage r = true) rs /\ HasNextPage last = false /\
    prs = concat (PullRequests <$> rs ++ [last]).

(** A scan that got past the qualification. *)
Record scanned (prs : list PullRequest) (now : DateTime) (cs : list candidate) (s : list event)
    (w w' : World E St) : Prop := mkScanned {
  sn_search : complete_search prs s;
  sn_now : Ev Now now ∈ s;
  sn_qualified : qualified now prs [] cs w s;
  sn_step : exists w1, retry_step (candidate_keys cs) now s w w1 /\
    gauges s = [unreviewed_of sc now (retryState w1) <$> cs] /\
    retryState w' = filter (fun kv => ur_prKey (snd kv) ∈ list_to_set (C:=gset string) (prKey <$> prs))
      (retryState w1) }.

Lemma paginate_gauges q fuel : (forall p a, gauges [Ev (q p) a] = []) -> forall page acc w,
  wp (paginate fuel (fun p => call (q p)) page acc) (fun _ s _ => gauges s = []) w.
Proof.
  intros Hq. induction fuel as [|fuel IH]; intros page acc w; simpl; [by wp_steps|].
  do 2 wp_step. wp_step; [by wp_steps|]. do 2 wp_step. pose proof (Hq page a0) as Hq0.
  wp_step; [|wp_steps; by rewrite !gauges_app, Hq0]. wp_step; [wp_steps; by rewrite !gauges_app, Hq0|].

  wp_use IH. intros r s w' Hg. by rewrite !gauges_app, Hq0, Hg.
Qed.

(** A scan with nobody to look for, or another one at work, does nothing;
    otherwise it is its body, under the mutex. *)
Lemma Scan_body fuel (Q : option unit -> list event -> World E St -> Prop) w :
  Q (Some tt) [] w -> wp (scan_body sc fuel) Q w -> wp (Scan sc fuel) Q w.
Proof.
  intros Hn Hb. unfold Scan. destruct (Logins _); [by apply wp_ret|].
  wp_step. apply wp_trylock_any. intros locked. cbn beta. wp_step; [by apply wp_ret|].
  wp_step. wp_use Hb. intros r s' w' HQ. wp_steps. by rewrite !app_nil_r.
Qed.

Lemma Scan_wp fuel m w : (m ∈ [Scan sc fuel; scan_body sc fuel]) ->
  0 < Threshold (sc_cfg sc) -> (forall id, 0 <= spent id w) ->
  wp m (fun _ s w' =>
    quiet s /\ gauges s = [] /\ retryState w' = retryState w \/
    exists prs now cs, scanned prs now cs s w w') w.
Proof.
  intros Hm Hth Hpos.
  assert (wp (scan_body sc fuel) (fun _ s w' => quiet s /\ gauges s = [] /\ retryState w' = retryState w \/
    exists prs now cs, scanned prs now cs s w w') w) as Hb; [|].
  2:{ set_unfold in Hm. destruct Hm as [->|[->|[]]]; [apply Scan_body; [by left|]|]; done. }
  clear m Hm. unfold scan_body.
  wp_step. unfold fetchAllOpenPRs. wp_step.
  eapply wp_mono; [apply wp_conj; [by apply (paginate_wp (SearchOpenPRs (sc_scope sc)))|
    by apply (paginate_gauges (SearchOpenPRs (sc_scope sc)))]|]; cbn beta.
  intros r s1 w1 ((Hw1 & Hq1 & Hr) & Hg1). destruct Hw1 as (e1 & t1 & ->). wp_step.
  rewrite app_nil_r. destruct r as [[prs| |]|]; simpl; [|wp_steps; rewrite app_nil_r; by left..].
  do 2 wp_step. rename a into now. wp_step. wp_use qualify_loop_wp. intros r s2 w2 (Hq & Hcs).
  match type of Hq with unretried _ ?v _ => set (w0 := v) in * end.
  assert (unretried (s1 ++ [Ev Now now]) w w0) as H0.
  { apply unretried_same; [|by seg|done|done]. by apply quiet_app. }
  pose proof (unretried_trans _ _ _ _ _ H0 Hq) as H02. rewrite <- app_assoc in H02.
  destruct r as [cs|]; [|wp_steps; rewrite app_nil_r; left; by destruct H02 as (? & ? & ? & _)].
  specialize (Hcs cs eq_refl).
  assert (retryState w2 = retryState w) as Hrs by apply H02.
  wp_step. wp_use retry_wp; [done|unfold spent; by rewrite Hrs|]. intros [] s3 w3 [Hg3 Hstep].
  wp_step. wp_step. unfold pruneState. wp_steps. right. exists prs, now, cs. cbn [app].
  split.
  - destruct Hr as (rs & last & ? & ? & ? & ->). eexists s1, _, rs, last. by split_and!.
  - rewrite elem_of_app. right. by left.
  - eapply qualified_mono; [|eapply qualified_frame; [exact Hcs|exact H0]].
    set_solver.
  - exists w3. split_and!; [|destruct Hq as (_ & Hg2 & _); by seg|done].
    assert (retry_step (candidate_keys cs) now (s1 ++ Ev Now now :: s2) w w2) as Hpre
      by (apply retry_step_none; [apply H02|done]).
    rewrite app_comm_cons, !app_assoc.
    eapply retry_step_trans; [done|done| |by apply (retry_step_none _ _ [_])].
    eapply retry_step_trans; done.
Qed.

Lemma exhausted_iff keys now s w w1 c :
  0 < Threshold (sc_cfg sc) -> (forall id, 0 <= spent id w) -> retry_step keys now s w w1 ->
  retriesExhausted sc c now (retryState w1) = true <->
  RetryMax (sc_cfg sc) = 0 \/
  times (candidate_id c) s = 0 /\ RetryMax (sc_cfg sc) <= spent (candidate_id c) w /\
  Threshold (sc_cfg sc) <= dt_Sub now (lastAttempt (retry_entry (candidate_id c) (retryState w))).
Proof.
  intros Hth Hpos Hst. unfold retriesExhausted. set (id := candidate_id c).
  destruct (Z.eqb_spec (RetryMax (sc_cfg sc)) 0) as [->|Hne]; [split; [by left|done]|].
  pose proof (times_nonneg id s). destruct (decide (times id s = 0)) as [Hz|Hz].
  - rewrite (retry_step_entry _ _ _ _ _ _ Hst Hz). unfold spent. rewrite andb_true_iff, !Z.leb_le. tauto.
  - destruct (rs_budget _ _ _ _ _ Hst id) as (_ & _ & Hl); [lia|]. rewrite Hl, andb_true_iff, !Z.leb_le.
    unfold dt_Sub, sat64, int_min, int_max. lia.
Qed.

(** (C26) The retry budget. A scan writes nothing to GitHub. It publishes each
    task identifier at most once, and only while its retries are below the
    maximum and the previous one is at least the threshold ago; each publish
    is counted, and the count of any other identifier stays until a complete
    search no longer lists its PR. *)
Theorem scan_retry_budget fuel m w :
  (m ∈ [Scan sc fuel; scan_body sc fuel]) ->
  0 < Threshold (sc_cfg sc) -> (forall id, 0 <= spent id w) ->
  wp m (fun _ s w' => writes s = [] /\ forall id,
    times id s <= 1 /\
    (0 < times id s ->
       spent id w < RetryMax (sc_cfg sc) /\ spent id w' = spent id w + 1 /\
       (spent id w = 0 \/ exists now, (Ev Now now ∈ s) /\
          Threshold (sc_cfg sc) <= dt_Sub now (lastAttempt (retry_entry id (retryState w))))) /\
    (times id s = 0 ->
       retryState w' !! id = retryState w !! id \/
       exists e prs, retryState w !! id = Some e /\ complete_search prs s /\
         (ur_prKey e ∉ prKey <$> prs) /\ retryState w' !! id = None)) w.
Proof.
  intros Hm Hth Hpos. eapply wp_mono; [exact (Scan_wp fuel m w Hm Hth Hpos)|]; cbn beta.
  intros _ s w' [([Hc Hw] & Hg & Hr)|(prs & now & cs & [Hs Hn Hq (w1 & Hst & Hg & Hr)])].
  { split; [done|]. intros id. rewrite times_none by done. split_and!; [lia|lia|]. rewrite Hr. by left. }
  destruct Hst as [Hw Hsp Hkept Hone Hb Hkey]. split; [done|]. intros id. split; [apply Hone|]. split.
  - intros Hp. destruct (Hb id Hp) as (? & Hspace & _). destruct (Hkey id Hp) as (e & He & Hin).
    split_and!; [done| |destruct Hspace; [by left|right; by exists now]].
    pose proof (Hsp id) as Hsp'. specialize (Hone id).
    assert (retryState w' !! id = Some e) as He'.
    { rewrite Hr. apply map_lookup_filter_Some. split; [done|]. simpl. apply elem_of_list_to_set.
      unfold candidate_keys in Hin. apply list_elem_of_fmap in Hin as (c & -> & Hc).
      apply list_elem_of_fmap. exists (cd_pr c). split; [done|].
      by destruct (q_sound _ _ _ _ _ _ Hq c Hc) as [?%elem_of_nil|[? _]]. }
    unfold spent, retry_entry in *. rewrite He in Hsp'. rewrite He'. simpl in *. lia.
  - intros Hz. rewrite Hr. rewrite <- (Hkept id Hz).
    destruct (retryState w1 !! id) as [e|] eqn:He.
    + destruct (decide (ur_prKey e ∈ list_to_set (C:=gset string) (prKey <$> prs))) as [Hin|Hin].
      * left. by apply map_lookup_filter_Some.
      * right. exists e, prs. split_and!; [done|done| |].
        -- by rewrite elem_of_list_to_set in Hin.
        -- apply map_lookup_filter_None. right. intros x Hx. rewrite He in Hx. by injection Hx as <-.
    + left. apply map_lookup_filter_None. by left.
Qed.

(** (C27) The gauge is exact. A scan either leaves the gauge alone or sets it
    once, after a complete search of the open PRs: every PR on it was listed,
    has no configured reviewer's verdict on its head and met every condition,
    the size gate with the exclusions GitHub has for the PR among them; every
    listed PR that is not on it failed one of them; and a PR is marked
    exhausted exactly when no retries are allowed, or it used them all and
    the last one, not of this scan, is at least the threshold ago. *)
Theorem gauge_exact fuel m w :
  (m ∈ [Scan sc fuel; scan_body sc fuel]) ->
  0 < Threshold (sc_cfg sc) -> (forall id, 0 <= spent id w) ->
  wp m (fun _ s w' =>
    gauges s = [] \/
    exists prs now cs us, complete_search prs s /\ (Ev Now now ∈ s) /\ gauges s = [us] /\
      (forall c, (c ∈ cs) -> (cd_pr c ∈ prs) /\ unreviewed_evidence (cd_pr c) (cd_details c) now s) /\
      (forall pr, (pr ∈ prs) -> (exists c, (c ∈ cs) /\ cd_pr c = pr) \/ not_counted pr now w s) /\
      Forall2 (fun c u => u_Repo u = repo_name (cd_pr c) /\ u_Number u = Number (cd_pr c) /\
        (u_RetriesExhausted u = true <->
           RetryMax (sc_cfg sc) = 0 \/
           times (candidate_id c) s = 0 /\ RetryMax (sc_cfg sc) <= spent (candidate_id c) w /\
           Threshold (sc_cfg sc) <=
             dt_Sub now (lastAttempt (retry_entry (candidate_id c) (retryState w))))) cs us) w.
Proof.
  intros Hm Hth Hpos. eapply wp_mono; [exact (Scan_wp fuel m w Hm Hth Hpos)|]; cbn beta.
  intros _ s w' [([Hc Hw] & Hg & Hr)|(prs & now & cs & [Hs Hn Hq (w1 & Hst & Hg & Hr)])]; [by left|].
  right. exists prs, now, cs, (unreviewed_of sc now (retryState w1) <$> cs).
  split_and!; [done|done|done| | |].
  - intros c Hc. by destruct (q_sound _ _ _ _ _ _ Hq c Hc) as [?%elem_of_nil|?].
  - apply (q_complete _ _ _ _ _ _ Hq).
  - apply Forall2_fmap_r. apply Forall_Forall2_diag, Forall_forall. intros c Hc. simpl.
    split_and!; [done|done|]. by eapply exhausted_iff.
Qed.
End proofs.

(** ** Instances *)

Definition demo_scanner : unreviewedScanner :=
  mkScanner "bborbe" NewDraftFilter (production_trust ["updater[bot]"]) "override-review" 0 0
    (mkUnreviewedConfig ["pr-reviewer"] Hour 2).

(** Ten hours after its last update the unreviewed PR is published again. *)
Lemma scan_retry_budget_witness :
  let w := demo_world (demo_surrounding demo_opted_in demo_bump) (cold_start 0) in
  let id := candidate_id (mkCandidate demo_pr_1 demo_pr_details) in
  times id (trace (snd (runM (Scan demo_scanner 3) w))) = 1 /\ spent id (snd (runM (Scan demo_scanner 3) w)) = 1.
Proof.
  cbn zeta.
  destruct (proj1 (wp_alone _ _ _) (scan_retry_budget demo_scanner 3 _
    (demo_world (demo_surrounding demo_opted_in demo_bump) (cold_start 0))
    (list_elem_of_here _ _) ltac:(by vm_compute) ltac:(by intros id)))
    as (s & Ht & _ & Hid).
  destruct (Hid (candidate_id (mkCandidate demo_pr_1 demo_pr_details))) as (_ & Hp & _).
  assert (s = trace (snd (runM (Scan demo_scanner 3) (demo_world (demo_surrounding demo_opted_in demo_bump) (cold_start 0)))))
    as -> by (rewrite Ht; reflexivity).
  split; [by vm_compute|]. apply Hp. by vm_compute.
Defined.

(** It is on the gauge, with retries left. *)
Lemma gauge_exact_witness :
  exists us, gauges (trace (snd (runM (Scan demo_scanner 3)
    (demo_world (demo_surrounding demo_opted_in demo_bump) (cold_start 0))))) = [us] /\
    us = [mkUnreviewedPR "bborbe/errors" 7 false].
Proof.
  destruct (proj1 (wp_alone _ _ _) (gauge_exact demo_scanner 3 _
    (demo_world (demo_surrounding demo_opted_in demo_bump) (cold_start 0))
    (list_elem_of_here _ _) ltac:(by vm_compute) ltac:(by intros id)))
    as (s & Ht & [Hg|(prs & now & cs & us & _ & _ & Hg & _)]).
  - exfalso. change s with (trace (demo_world (demo_surrounding demo_opted_in demo_bump) (cold_start 0)) ++ s) in Hg.
    rewrite <- Ht in Hg. vm_compute in Hg. discriminate Hg.
  - exists us.
    assert (s = trace (snd (runM (Scan demo_scanner 3) (demo_world (demo_surrounding demo_opted_in demo_bump) (cold_start 0)))))
      as Hs by (rewrite Ht; reflexivity).
    rewrite <- Hs. split; [exact Hg|]. rewrite Hs in Hg. vm_compute in Hg. by injection Hg as <-.
Defined.
