(* ===== verification/RetryGuard.v ===== *)
(** * RetryGuard: may a forced re-review be published? (pkg/retry_guard.go)

    [Check] and [decideFresh] over the guard's ledger (Ledger.v), the clock
    and the list of reviews on GitHub. A decision of [None] is Go's zero
    value, returned only beside an error. *)
From S2P Require Import Prelude GoStrings KV Ledger Types Titles Trust Coalesce Filters SizeGate Commands World Publisher CursorFile Watcher Scanner.
Local Open Scope Z_scope.

Section guard.
Context `{K : KV St Hd It} `{C : RecordCodec} `{UT : UnicodeTables}.
(** [retryGuard.reviewerLogins]: set at construction. *)
Context (reviewerLogins : list string).

Definition decideFresh (pr : RetryGuardPR) (record : retryGuardRecord) (age : Duration)
  : M St (option RetryGuardDecision * option error) :=
  r ← call (ListReviews (pr_Owner pr) (pr_Repo pr) (pr_Number pr));
  match r with
  | Err _ =>
      mret (Some (mkGuardDecision RetryGuardActionCreate RetryGuardReasonCreate "" 0), None)
  | Ok reviews =>
      if has_verdict reviewerLogins (pr_HeadSHA pr) reviews then
        mret (Some (mkGuardDecision RetryGuardActionCreate
          RetryGuardReasonCreateForceOverrodeVerdict "" age), None)
      else
        call (IncPRPublished "inflight_skipped");;
        mret (Some (mkGuardDecision RetryGuardActionSkip RetryGuardReasonSkipInflight
          (TaskID record) age), Some ErrCommandObjectSkipped)
  end.

Definition guard_Check (pr : RetryGuardPR) : M St (option RetryGuardDecision * option error) :=
  r ← gets_db (readRecord pr);
  match r with
  | Err e => mret (None, Some e)
  | Ok None =>
      mret (Some (mkGuardDecision RetryGuardActionCreate RetryGuardReasonCreate "" 0), None)
  | Ok (Some record) =>
      now ← call Now;
      let age := recordAge now (PublishedAt record) in
      if retryGuardStaleAfter <? age then
        mret (Some (mkGuardDecision RetryGuardActionCreate
          RetryGuardReasonCreateStaleRecordIgnored "" age), None)
      else decideFresh pr record age
  end.
End guard.
