(* ===== verification/Executor.v ===== *)
(** * Executor: the two commands the pod consumes (pkg/command)

    [TriggerPRReviewCommand] asks for a review of one PR: fetch, filter,
    trust, deferral, the two ledgers, publish. [SetDoNotMergeStatusCommand]
    posts a commit status. An executor returns its error, if any; the sentinel
    [ErrCommandObjectSkipped] tells the framework not to redeliver. The
    consumer holds one transaction around an executor run. *)
From S2P Require Import Prelude GoStrings KV Ledger Types Titles Trust Coalesce Filters SizeGate Commands World Publisher CursorFile Watcher Scanner RetryGuard.
Local Open Scope Z_scope.

(** ** Library code *)

(** [prurl.PRInfo], the fields read here, and [prurl.ParsePRURL]. *)
Record PRInfo : Type := mkPRInfo {
  pi_Platform : string;
  pi_Owner : string;
  pi_Repo : string;
  pi_Number : Z }.

Class PRURL : Type := {
  ParsePRURL : string -> result PRInfo;
  PlatformGitHub : string }.

(** [base.ParseEvent] and [Event.MarshalInto] at the two command types. *)
Class Payloads (Event : Type) : Type := {
  ParseEvent_trigger : TriggerPRReviewCommand -> option Event;
  MarshalInto_trigger : Event -> option TriggerPRReviewCommand;
  ParseEvent_status : SetDoNotMergeStatusCommand -> option Event;
  MarshalInto_status : Event -> option SetDoNotMergeStatusCommand }.

Class PayloadLaws {Event} (L : Payloads Event) : Prop := {
  trigger_roundtrip cmd e : ParseEvent_trigger cmd = Some e -> MarshalInto_trigger e = Some cmd;
  status_roundtrip cmd e : ParseEvent_status cmd = Some e -> MarshalInto_status e = Some cmd }.

(** ** The commands *)

Definition DoNotMergeStatusContext : string := "do-not-merge".
Definition DoNotMergeLabel : string := "do-not-merge".

Definition Blocked (cmd : SetDoNotMergeStatusCommand) : bool :=
  existsb (fun label => label =?s DoNotMergeLabel) (sc_Labels cmd).

Section commands.
Context `{PU : PRURL}.

(** The URL rule both commands share. *)
Definition validate_url (url : string) : result unit :=
  if url =?s "" then Err (ErrOther "url must not be empty")
  else
    match ParsePRURL url with
    | Err e => Err e
    | Ok prInfo =>
        if negb (pi_Platform prInfo =?s PlatformGitHub)
        then Err (ErrOther "only github platform is supported")
        else Ok tt
    end.

Definition Validate_trigger (cmd : TriggerPRReviewCommand) : result unit :=
  validate_url (tc_URL cmd).

(** [validation.All] runs both rules; either error fails it. *)
Definition Validate_status (cmd : SetDoNotMergeStatusCommand) : result unit :=
  match validate_url (sc_URL cmd) with
  | Err e => Err e
  | Ok _ =>
      if sc_HeadSHA cmd =?s "" then Err (ErrOther "head_sha must not be empty") else Ok tt
  end.

(** ** Sending *)
Section sending.
Context {St : Type} `{L : Payloads Event}.

Definition trigger_SendCommand (cmd : TriggerPRReviewCommand) : M St (result unit) :=
  match Validate_trigger cmd with
  | Err e => mret (Err e)
  | Ok _ =>
      match ParseEvent_trigger cmd with
      | None => mret (Err (ErrOther "parse TriggerPRReviewCommand event"))
      | Some _ => call (SendTrigger cmd)
      end
  end.

Definition status_SendCommand (cmd : SetDoNotMergeStatusCommand) : M St (result unit) :=
  match Validate_status cmd with
  | Err e => mret (Err e)
  | Ok _ =>
      match ParseEvent_status cmd with
      | None => mret (Err (ErrOther "parse SetDoNotMergeStatusCommand event"))
      | Some _ => call (SendStatus cmd)
      end
  end.
End sending.

(** ** The commit status *)
Section status.
Context {St : Type} `{L : Payloads Event}.

Definition runSetDoNotMergeStatus (data : Event) : M St (option error) :=
  match MarshalInto_status data with
  | None => mret (Some ErrCommandObjectSkipped)
  | Some cmd =>
      match Validate_status cmd with
      | Err _ => mret (Some ErrCommandObjectSkipped)
      | Ok _ =>
          match ParsePRURL (sc_URL cmd) with
          | Err _ => mret (Some ErrCommandObjectSkipped)
          | Ok prInfo =>
              let state := if Blocked cmd then CommitStateFailure else CommitStateSuccess in
              r ← call (PostCommitStatus (pi_Owner prInfo) (pi_Repo prInfo) (sc_HeadSHA cmd)
                          state DoNotMergeStatusContext);
              mret match r with
                   | Ok _ => None
                   | Err ErrPermanent => Some ErrCommandObjectSkipped
                   | Err e => Some e
                   end
          end
      end
  end.
End status.

(** ** The review *)
Section trigger.
Context `{K : KV St Hd It} `{C : RecordCodec} `{UT : UnicodeTables}
  `{G : GitIgnore} `{U : UUID} `{L : Payloads Event}.
Context (taskCreationFilter : TaskCreationFilter) (trustDecision : Trust.Trust)
  (mechanicalOverrideAuthors : list string) (cfg : TaskConfig) (reviewerLogins : list string).

Definition newRetryGuardPR (prInfo : PRInfo) (details : PRDetails) : RetryGuardPR :=
  mkPR (pi_Owner prInfo) (pi_Repo prInfo) (pi_Number prInfo) (HeadSHA details).

Definition unmarshalAndValidate (data : Event) : result TriggerPRReviewCommand :=
  match MarshalInto_trigger data with
  | None => Err ErrCommandObjectSkipped
  | Some cmd =>
      match Validate_trigger cmd with
      | Err _ => Err ErrCommandObjectSkipped
      | Ok _ => Ok cmd
      end
  end.

Definition executor_filter_pr (prInfo : PRInfo) (details : PRDetails) : FilterPR :=
  mkFilterPR (d_AuthorLogin details) (d_IsDraft details) (d_Title details) (d_UpdatedAt details)
    ("github.com/" +:+ pi_Owner prInfo +:+ "/" +:+ pi_Repo prInfo).

Definition executor_trust_pr (details : PRDetails) : TrustPR :=
  mkTrustPR (d_AuthorLogin details) (HeadRepoFullName details) (BaseRepoFullName details).

Definition applyFilter (prInfo : PRInfo) (details : PRDetails) : M St (bool * option error) :=
  if negb (Skip taskCreationFilter (executor_filter_pr prInfo details)) then mret (false, None)
  else call (IncPRPublished "skipped");; mret (true, Some ErrCommandObjectSkipped).

(** [Ok None] is not returned: Go's nil result comes with an error. *)
Definition applyTrust (details : PRDetails) : M St (result Result) :=
  match trustDecision (executor_trust_pr details) with
  | Err e => call (IncPRPublished "trust_error");; mret (Err e)
  | Ok trustResult =>
      if Success trustResult then mret (Ok trustResult)
      else call (IncPRPublished "skipped");; mret (Err ErrCommandObjectSkipped)
  end.

Definition info_key (prInfo : PRInfo) : Key :=
  mkKey (pi_Owner prInfo) (pi_Repo prInfo) (pi_Number prInfo).

Definition deferWebhookMechanicalOverride (cmd : TriggerPRReviewCommand) (prInfo : PRInfo)
    (details : PRDetails) : M St (option error) :=
  if negb (Webhook cmd) || Force cmd
     || negb (slices_Contains mechanicalOverrideAuthors (d_AuthorLogin details))
  then mret None
  else
    coalescer_call (fun c => (tt, Release (info_key prInfo) (HeadSHA details) c));;
    call (IncPRPublished "deferred");;
    mret (Some ErrCommandObjectSkipped).

Definition suppressForOverride (pr : RetryGuardPR) : M St (option error) :=
  now ← call Now;
  r ← gets_db (SuppressedTx now pr);
  match r with
  | Err _ => mret None
  | Ok false => mret None
  | Ok true => call (IncPRPublished "override_owns_sha");; mret (Some ErrCommandObjectSkipped)
  end.

Definition checkRetryGuard (cmd : TriggerPRReviewCommand) (guardPR : RetryGuardPR)
  : M St (option error) :=
  if negb (Force cmd) then mret None
  else
    r ← guard_Check reviewerLogins guardPR;
    mret (snd r).

(** A failed record is logged; the store keeps what it did. *)
Definition recordRetryGuard (guardPR : RetryGuardPR) (taskIDStr : string) : M St unit :=
  now ← call Now; modify_db (RecordPublish now guardPR taskIDStr).

(** [DateTime.UnixMicro]: microseconds since 1970; an instant counts
    nanoseconds since the year 1. *)
Definition unix_epoch : DateTime := 62135596800 * Second.
Definition UnixMicro (t : DateTime) : Z := (t - unix_epoch) / 1000.

Definition deriveTaskID (prInfo : PRInfo) (cmd : TriggerPRReviewCommand) (headSHA : string)
  : M St string :=
  if Force cmd then
    now ← call Now;
    mret (DeriveTaskIDForce (pi_Owner prInfo) (pi_Repo prInfo) (pi_Number prInfo) headSHA
            (Itoa (UnixMicro now)))
  else mret (DeriveTaskID (pi_Owner prInfo) (pi_Repo prInfo) (pi_Number prInfo) headSHA).

Definition executor_pr (prInfo : PRInfo) (cmd : TriggerPRReviewCommand) (details : PRDetails)
  : PullRequest :=
  mkPullRequest 0 (pi_Number prInfo) (pi_Owner prInfo) (pi_Repo prInfo) (d_Title details)
    (tc_URL cmd) "" (d_AuthorLogin details) (d_IsDraft details) dt_zero [].

Definition publishCreateCommand (prInfo : PRInfo) (cmd : TriggerPRReviewCommand)
    (details : PRDetails) (trustResult : Result) (taskIDStr : string) (exclusion : Exclusion)
  : M St (option error) :=
  let createCmd := BuildCreateCommand (executor_pr prInfo cmd details) details taskIDStr cfg
                     trustResult (Force cmd) exclusion in
  sent ← call (SendCreate createCmd);
  match sent with
  | Err e => call (IncPRPublished "kafka_error");; mret (Some e)
  | Ok _ => call (IncPRPublished "create");; mret None
  end.

(** From the ledgers on. *)
Definition publishTriggered (cmd : TriggerPRReviewCommand) (prInfo : PRInfo) (details : PRDetails)
    (trustResult : Result) : M St (option error) :=
  let guardPR := newRetryGuardPR prInfo details in
  err ← suppressForOverride guardPR;
  match err with
  | Some e => mret (Some e)
  | None =>
      err ← checkRetryGuard cmd guardPR;
      match err with
      | Some e => mret (Some e)
      | None =>
          taskIDStr ← deriveTaskID prInfo cmd (HeadSHA details);
          exclusion ← ReviewIgnoreExclusion (pi_Owner prInfo) (pi_Repo prInfo) (pi_Number prInfo);
          err ← publishCreateCommand prInfo cmd details trustResult taskIDStr exclusion;
          match err with
          | Some e => mret (Some e)
          | None => recordRetryGuard guardPR taskIDStr;; mret None
          end
      end
  end.

Definition runTriggerPRReview (data : Event) : M St (option error) :=
  match unmarshalAndValidate data with
  | Err e => mret (Some e)
  | Ok cmd =>
      match ParsePRURL (tc_URL cmd) with
      | Err _ => mret (Some ErrCommandObjectSkipped)
      | Ok prInfo =>
          r ← call (GetPRDetails (pi_Owner prInfo) (pi_Repo prInfo) (pi_Number prInfo));
          match r with
          | Err e => mret (Some e)
          | Ok details =>
              f ← applyFilter prInfo details;
              match f with
              | (_, Some e) => mret (Some e)
              | (true, None) => mret None
              | (false, None) =>
                  t ← applyTrust details;
                  match t with
                  | Err e => mret (Some e)
                  | Ok trustResult =>
                      err ← deferWebhookMechanicalOverride cmd prInfo details;
                      match err with
                      | Some e => mret (Some e)
                      | None => publishTriggered cmd prInfo details trustResult
                      end
                  end
              end
          end
      end
  end.
End trigger.
End commands.
