(* ===== verification/ExecutorProofs.v ===== *)
(** * ExecutorProofs: what a consumed command may do

    Of a command alone or among any other goroutines that leave the store to
    it ([StoreHeld]): the consumer executes it inside one update. *)
From S2P Require Import Prelude GoStrings KV MemDB Ledger LedgerProofs Types Titles Trust Coalesce CoalesceProofs Filters SizeGate Commands World Publisher CursorFile Watcher WatcherFacts Scanner RetryGuard Executor DemoEnv.
Local Open Scope Z_scope.

Section proofs.
Context {E St : Type} `{SC : Sched E St} `{SH : !StoreHeld SC} `{K : KV St Hd It} `{C : RecordCodec} `{UT : UnicodeTables}
  `{G : GitIgnore} `{U : UUID} `{L : Payloads Event} `{PU : PRURL}.
Context (taskCreationFilter : TaskCreationFilter) (trustDecision : Trust.Trust)
  (mechanicalOverrideAuthors : list string) (cfg : TaskConfig) (reviewerLogins : list string).
Implicit Types w : World E St.

Abbreviation run := (runTriggerPRReview taskCreationFilter trustDecision mechanicalOverrideAuthors
  cfg reviewerLogins).

(** Why the retry guard let a forced trigger through. *)
Definition guard_allows (pr : RetryGuardPR) (st : St) (s : list event) : Prop :=
  readRecord pr st = Ok None \/
  exists r now, readRecord pr st = Ok (Some r) /\ (Ev Now now ∈ s) /\
    (retryGuardStaleAfter < recordAge now (PublishedAt r) \/
     (exists e, Ev (ListReviews (pr_Owner pr) (pr_Repo pr) (pr_Number pr)) (Err e) ∈ s) \/
     exists rs, (Ev (ListReviews (pr_Owner pr) (pr_Repo pr) (pr_Number pr)) (Ok rs) ∈ s) /\
       has_verdict reviewerLogins (pr_HeadSHA pr) rs = true).

Lemma guard_allows_mono pr st s t : s ⊆ t -> guard_allows pr st s -> guard_allows pr st t.
Proof.
  intros Hst [?|(r & now & ? & ? & Hr)]; [by left|right]. exists r, now.
  split_and!; [done|by apply Hst|]. destruct Hr as [?|[[e ?]|(rs & ? & ?)]]; [by left| |].
  - right. left. exists e. by apply Hst.
  - right. right. exists rs. split; [by apply Hst|done].
Qed.

Lemma guard_Check_wp pr w :
  wp (guard_Check reviewerLogins pr) (fun r s w' =>
    same_state w w' /\ quiet s /\
    match snd r with
    | None => guard_allows pr (db w) s
    | Some e => e = ErrCommandObjectSkipped \/ readRecord pr (db w) = Err e
    end) w.
Proof.
  unfold guard_Check, decideFresh. do 2 wp_step. wp_step; [|wp_steps; split_and!; [frame|done|by right]].
  wp_step; [|wp_steps; split_and!; [frame|done|by left]].
  do 2 wp_step. wp_step.
  { wp_steps. split_and!; [frame|done|]. right. bool_props. do 2 eexists.
    split_and!; [done|in_segment|by left]. }
  do 2 wp_step. wp_step.
  - wp_step; wp_steps; (split_and!; [frame|done|]); [|by left].
    right. do 2 eexists. split_and!; [done|in_segment|]. right. right.
    eexists. split; [in_segment|done].
  - wp_steps. split_and!; [frame|done|]. right. do 2 eexists. split_and!; [done|in_segment|].
    right. left. eexists. in_segment.
Qed.

(** A review handed to Kafka for a command, and what it passed. [s] is the
    segment of the run. *)
Record gates (cmd : TriggerPRReviewCommand) (info : PRInfo) (d : PRDetails) (tr : Result)
    (s : list event) w : Prop := mkGates {
  g_url : ParsePRURL (tc_URL cmd) = Ok info;
  g_github : pi_Platform info = PlatformGitHub;
  g_details : Ev (GetPRDetails (pi_Owner info) (pi_Repo info) (pi_Number info)) (Ok d) ∈ s;
  g_filter : Skip taskCreationFilter (executor_filter_pr info d) = false;
  g_trust : trustDecision (executor_trust_pr d) = Ok tr /\ Success tr = true;
  g_defer : Webhook cmd = true -> Force cmd = false ->
    slices_Contains mechanicalOverrideAuthors (d_AuthorLogin d) = false;
  g_override : exists now, (Ev Now now ∈ s) /\
    SuppressedTx now (newRetryGuardPR info d) (db w) <> Ok true;
  g_guard : Force cmd = true -> guard_allows (newRetryGuardPR info d) (db w) s }.

(** The identifier of the task. *)
Definition triggered_id (cmd : TriggerPRReviewCommand) (info : PRInfo) (d : PRDetails) (id : string)
    (s : list event) : Prop :=
  if Force cmd then exists now, (Ev Now now ∈ s) /\
    id = DeriveTaskIDForce (pi_Owner info) (pi_Repo info) (pi_Number info) (HeadSHA d) (Itoa (UnixMicro now))
  else id = DeriveTaskID (pi_Owner info) (pi_Repo info) (pi_Number info) (HeadSHA d).

Lemma suppressForOverride_wp pr w :
  wp (suppressForOverride pr) (fun r s w' =>
    same_state w w' /\ quiet s /\ exists now, (Ev Now now ∈ s) /\
    ((r = Some ErrCommandObjectSkipped /\ SuppressedTx now pr (db w) = Ok true) \/
     (r = None /\ SuppressedTx now pr (db w) <> Ok true))) w.
Proof.
  unfold suppressForOverride. do 4 wp_step. rename a into now.
  change (db (set_env e _ w)) with (db w).
  wp_step; [wp_step|]; wp_steps; (split_and!; [frame|done|]); exists now; (split; [in_segment|]);
    [left|right|right]; split; congruence.
Qed.

Lemma checkRetryGuard_wp cmd pr w :
  wp (checkRetryGuard reviewerLogins cmd pr) (fun r s w' =>
    same_state w w' /\ quiet s /\
    match r with
    | None => Force cmd = true -> guard_allows pr (db w) s
    | Some e => e = ErrCommandObjectSkipped \/ readRecord pr (db w) = Err e
    end) w.
Proof.
  unfold checkRetryGuard. wp_step; [wp_steps; split_and!; [frame|done|]; bool_props; by rewrite Heqb|].
  wp_step. wp_use guard_Check_wp. intros [dec err] s w' (? & ? & Hr). wp_steps. rewrite app_nil_r.
  split_and!; [done|done|]. simpl in *. by destruct err.
Qed.

Lemma deriveTaskID_wp cmd info d w :
  wp (deriveTaskID info cmd (HeadSHA d)) (fun id s w' =>
    same_state w w' /\ quiet s /\ triggered_id cmd info d id s) w.
Proof.
  unfold deriveTaskID, triggered_id. destruct (Force cmd); wp_steps; (split_and!; [frame|done|]); [|done].
  eexists. split; [in_segment|done].
Qed.

(** How a run from the ledgers on ends. *)
Definition triggered (cmd : TriggerPRReviewCommand) (info : PRInfo) (d : PRDetails) (tr : Result)
    (r : option error) (s : list event) w w' : Prop :=
  let pr := newRetryGuardPR info d in
  (creates s = [] /\ db w' = db w /\ exists e, r = Some e /\
     (e = ErrCommandObjectSkipped \/ readRecord pr (db w) = Err e)) \/
  exists ok id ex,
    creates s = [(BuildCreateCommand (executor_pr info cmd d) d id cfg tr (Force cmd) ex, ok)] /\
    (ok = true <-> r = None) /\ triggered_id cmd info d id s /\
    (exists now, (Ev Now now ∈ s) /\ SuppressedTx now pr (db w) <> Ok true) /\
    (Force cmd = true -> guard_allows pr (db w) s) /\
    (if ok then exists now, (Ev Now now ∈ s) /\ db w' = RecordPublish now pr id (db w)
     else db w' = db w).

Lemma triggered_id_mono cmd info d id s t : s ⊆ t -> triggered_id cmd info d id s -> triggered_id cmd info d id t.
Proof.
  intros Hst. unfold triggered_id. destruct (Force cmd); [|done]. intros (now & ? & ?).
  exists now. split; [by apply Hst|done].
Qed.

Lemma publishTriggered_wp cmd info d tr w :
  wp (publishTriggered cfg reviewerLogins cmd info d tr) (fun r s w' =>
    writes s = [] /\ coal w' = coal w /\ triggered cmd info d tr r s w w') w.
Proof.
  unfold publishTriggered. set (pr := newRetryGuardPR info d).
  wp_step. wp_use suppressForOverride_wp. intros r1 s1 w1 ((e1 & t1 & ->) & [Hc1 Hw1] & now & Hn & H1).
  destruct H1 as [[-> H1]|[-> H1]].
  { wp_steps. rewrite app_nil_r. split_and!; [done|done|]. left. split_and!; [done|done|]. eauto. }
  wp_step. wp_use checkRetryGuard_wp. intros r2 s2 w2 ((e2 & t2 & ->) & [Hc2 Hw2] & H2).
  destruct r2 as [er|]; [wp_steps; rewrite app_nil_r|].
  { split_and!; [by seg|done|]. left. split_and!; [by seg|done|]. eauto. }
  wp_step. wp_use deriveTaskID_wp. intros id s3 w3 ((e3 & t3 & ->) & [Hc3 Hw3] & H3).
  wp_step. wp_use ReviewIgnoreExclusion_quiet. intros ex s4 w4 ((e4 & t4 & ->) & [Hc4 Hw4] & _).
  unfold publishCreateCommand, recordRetryGuard, recorder_RecordPublish. do 3 wp_step.
  assert (forall t, triggered_id cmd info d id (s1 ++ s2 ++ s3 ++ s4 ++ t)) as Hid
    by (intros t; eapply triggered_id_mono; [|exact H3]; set_solver).
  assert (forall t, exists now, (Ev Now now ∈ s1 ++ s2 ++ s3 ++ s4 ++ t) /\
    SuppressedTx now pr (db w) <> Ok true) as Hov by (intros t; exists now; split; [set_solver|done]).
  assert (forall t, Force cmd = true -> guard_allows pr (db w) (s1 ++ s2 ++ s3 ++ s4 ++ t)) as Hg
    by (intros t Hf; eapply guard_allows_mono; [|by apply H2]; set_solver).
  wp_step; wp_steps; rewrite ?app_nil_r; (split_and!; [by seg|done|]); right;
    [exists true, id, ex|exists false, id, ex]; split_and!; try done; try (by seg); try apply Hg.
  eexists. split; [|done]. set_solver.
Qed.
(** An error that is not a skip is one the surroundings returned. *)
Definition passed_on (e : error) (s : list event) w : Prop :=
  e = ErrCommandObjectSkipped \/
  (exists o r n, Ev (GetPRDetails o r n) (Err e) ∈ s) \/
  (exists pr, trustDecision pr = Err e) \/
  (exists pr, readRecord pr (db w) = Err e).

(** How a run ends. *)
Definition executed (data : Event) (r : option error) (s : list event) w w' : Prop :=
  (creates s = [] /\ db w' = db w /\ exists e, r = Some e /\ passed_on e s w) \/
  exists cmd info d tr, unmarshalAndValidate data = Ok cmd /\ gates cmd info d tr s w /\
    exists ok id ex,
      creates s = [(BuildCreateCommand (executor_pr info cmd d) d id cfg tr (Force cmd) ex, ok)] /\
      (ok = true <-> r = None) /\ triggered_id cmd info d id s /\
      (if ok then exists now, (Ev Now now ∈ s) /\
         db w' = RecordPublish now (newRetryGuardPR info d) id (db w)
       else db w' = db w).

(** What it may do to the coalescer. *)
Definition released (s : list event) w w' : Prop :=
  coal w' = coal w \/
  creates s = [] /\ exists info d,
    (Ev (GetPRDetails (pi_Owner info) (pi_Repo info) (pi_Number info)) (Ok d) ∈ s) /\
    (d_AuthorLogin d ∈ mechanicalOverrideAuthors) /\
    exists c, finds (coal w) c /\ coal w' = Release (info_key info) (HeadSHA d) c.

Lemma unmarshalAndValidate_github data cmd info :
  unmarshalAndValidate data = Ok cmd -> ParsePRURL (tc_URL cmd) = Ok info ->
  pi_Platform info = PlatformGitHub.
Proof.
  unfold unmarshalAndValidate, Validate_trigger, validate_url.
  destruct (MarshalInto_trigger data) as [c|]; [|done]. intros Hv Hp.
  destruct (tc_URL c =?s ""); [done|].
  destruct (ParsePRURL (tc_URL c)) as [i|] eqn:Hi; [|done].
  destruct (negb (pi_Platform i =?s PlatformGitHub)) eqn:Hb; [done|].
  injection Hv as <-. rewrite Hi in Hp. injection Hp as <-. by bool_props.
Qed.

(** A command that stops with nothing sent. *)
Lemma executed_stop data e s w w' :
  creates s = [] -> db w' = db w -> passed_on e s w -> executed data (Some e) s w w'.
Proof. intros ? ? ?. left. eauto. Qed.

Lemma applyFilter_wp info d w :
  wp (applyFilter taskCreationFilter info d) (fun r s w' => same_state w w' /\ quiet s /\
    if Skip taskCreationFilter (executor_filter_pr info d)
    then r = (true, Some ErrCommandObjectSkipped) else r = (false, None)) w.
Proof.
  unfold applyFilter. destruct (Skip _ _); simpl; wp_steps; (split_and!; [frame|done|done]).
Qed.

Lemma applyTrust_wp d w :
  wp (applyTrust trustDecision d) (fun r s w' => same_state w w' /\ quiet s /\
    match r with
    | Ok tr => trustDecision (executor_trust_pr d) = Ok tr /\ Success tr = true
    | Err e => trustDecision (executor_trust_pr d) = Err e \/
        e = ErrCommandObjectSkipped /\
        exists tr, trustDecision (executor_trust_pr d) = Ok tr /\ Success tr = false
    end) w.
Proof.
  unfold applyTrust. destruct (trustDecision _) as [tr|e]; [destruct (Success tr) eqn:Hs|];
    wp_steps; (split; [frame|split; [done|]]); eauto.
Qed.

(** Whether a command is left to the poll path. *)
Definition defers (cmd : TriggerPRReviewCommand) (d : PRDetails) : bool :=
  Webhook cmd && negb (Force cmd) && slices_Contains mechanicalOverrideAuthors (d_AuthorLogin d).

Lemma defer_wp cmd info d w :
  wp (deferWebhookMechanicalOverride mechanicalOverrideAuthors cmd info d) (fun r s w' =>
    quiet s /\ db w' = db w /\
    if defers cmd d
    then r = Some ErrCommandObjectSkipped /\
      exists c, finds (coal w) c /\ coal w' = Release (info_key info) (HeadSHA d) c
    else r = None /\ w' = w) w.
Proof.
  unfold deferWebhookMechanicalOverride, defers.
  destruct (Webhook cmd), (Force cmd), (slices_Contains _ _); simpl; try by wp_steps.
  wp_step. apply wp_coalescer_any. intros c Hc. cbn beta. wp_steps.
  split_and!; [done|done|done|]. by exists c.
Qed.

Lemma executed_published data cmd info d tr r s t w w1 w' :
  unmarshalAndValidate data = Ok cmd -> ParsePRURL (tc_URL cmd) = Ok info ->
  Ev (GetPRDetails (pi_Owner info) (pi_Repo info) (pi_Number info)) (Ok d) ∈ s ->
  Skip taskCreationFilter (executor_filter_pr info d) = false ->
  trustDecision (executor_trust_pr d) = Ok tr /\ Success tr = true -> defers cmd d = false ->
  db w1 = db w -> creates s = [] -> triggered cmd info d tr r t w1 w' ->
  executed data r (s ++ t) w w'.
Proof.
  intros Hv Hp Hdet Hf Ht Hdef Hdb Hs [(Hc & Hdb' & e & -> & He)|(ok & id & ex & Hc & Hr & Hid & Hov & Hg & Hst)].
  - apply executed_stop; [by seg|congruence|]. rewrite Hdb in He. destruct He as [->|He]; [by left|].
    do 3 right. by eexists.
  - right. exists cmd, info, d, tr. split; [done|]. split.
    + split; try done.
      * by eapply unmarshalAndValidate_github.
      * set_solver.
      * intros Hw Hfo. unfold defers in Hdef. by rewrite Hw, Hfo in Hdef.
      * destruct Hov as (now & ? & ?). exists now. rewrite Hdb in *. split; [set_solver|done].
      * intros Hfo. rewrite <- Hdb. eapply guard_allows_mono; [|by apply Hg]. set_solver.
    + exists ok, id, ex. split_and!; [by seg|done| |].
      * eapply triggered_id_mono; [|exact Hid]. set_solver.
      * rewrite <- Hdb. destruct ok; [|done]. destruct Hst as (now & ? & ?). exists now.
        split; [set_solver|done].
Qed.

Lemma run_wp data w :
  wp (run data) (fun r s w' => writes s = [] /\ executed data r s w w' /\ released s w w') w.
Proof.
  unfold runTriggerPRReview.
  destruct (unmarshalAndValidate data) as [cmd|e] eqn:Hv.
  2:{ wp_steps. split_and!; [done| |by left]. apply executed_stop; try done. left.
      unfold unmarshalAndValidate in Hv. destruct (MarshalInto_trigger data); [|by injection Hv].
      destruct (Validate_trigger _); [done|by injection Hv]. }
  destruct (ParsePRURL (tc_URL cmd)) as [info|] eqn:Hp.
  2:{ wp_steps. split_and!; [done| |by left]. by apply executed_stop; [..|left]. }
  do 2 wp_step. rename a into a0.
  destruct a0 as [d|er].
  2:{ wp_steps. split_and!; [done| |by left]. apply executed_stop; try done. right. left.
      do 3 eexists. by left. }
  set (s0 := [Ev (GetPRDetails (pi_Owner info) (pi_Repo info) (pi_Number info)) (Ok d)]).
  assert (Ev (GetPRDetails (pi_Owner info) (pi_Repo info) (pi_Number info)) (Ok d) ∈ s0) as Hdet by by left.
  assert (creates s0 = [] /\ writes s0 = []) as [Hc0 Hw0] by done.
  clearbody s0. match goal with |- wp _ _ ?w => set (w0 := w) end.
  assert (db w0 = db w /\ coal w0 = coal w) as [Hdb0 Hco0] by done. clearbody w0.
  wp_step. wp_use applyFilter_wp. intros f s1 w1 ((e1 & t1 & ->) & [Hc1 Hw1] & Hf).
  destruct (Skip taskCreationFilter _) eqn:Hskip; subst f.
  { wp_steps. rewrite app_nil_r. split_and!; [by seg| |by left].
    apply executed_stop; [by seg|done|by left]. }
  wp_step. wp_use applyTrust_wp. intros tr s2 w2 ((e2 & t2 & ->) & [Hc2 Hw2] & Ht).
  destruct tr as [tr|er].
  2:{ wp_steps. rewrite app_nil_r. split_and!; [by seg| |by left].
      apply executed_stop; [by seg|done|]. destruct Ht as [Ht|[-> _]]; [|by left]. do 2 right. left. eauto. }
  wp_step. wp_use defer_wp. intros r s3 w3 ([Hc3 Hw3] & Hdb3 & Hdef).
  destruct (defers cmd d) eqn:Hde; destruct Hdef as [-> Hdef].
  - wp_steps. rewrite app_nil_r. split_and!; [by seg| |].
    + apply executed_stop; [by seg|by rewrite Hdb3|by left].
    + right. split; [by seg|]. exists info, d. split_and!; [set_solver| |].
      * unfold defers in Hde. bool_props. by apply slices_Contains_spec.
      * destruct Hdef as (c & Hc & Hdef). exists c. by rewrite <- Hco0.
  - subst w3. wp_use publishTriggered_wp. intros r s4 w4 (Hw4 & Hco4 & H4).
    split_and!; [by seg| |left; by rewrite Hco4].
    rewrite !app_assoc. eapply executed_published; try done.
    + set_solver.
    + by seg.
Qed.

(** (C16) A review needs every gate. A consumed trigger command hands at most one
    task to Kafka, a review built for the PR it names and its fetched head,
    and only if it decoded and validated, the PR passed the filters, its
    author is trusted, the command is not one the poll path owns, no fresh
    override owns the head, and a forced one got past the guard; it reports
    success exactly when the task was sent, and exactly then the guard's
    ledger records it. In every other case nothing is sent, the ledgers are
    untouched, and the error is the skip sentinel or one GitHub, the trust
    check or the ledger returned. It never writes to GitHub. *)
Theorem review_needs_every_gate data w :
  wp (run data) (fun r s w' => writes s = [] /\ executed data r s w w' /\ released s w w') w.
Proof. apply run_wp. Qed.

(** (C21) Replays are idempotent, unless forced. The request topic is read from
    its start whenever the process starts, so a command may be consumed again,
    in any later world, with ledgers and a coalescer that know nothing of the
    first time. Two consumptions of one command that is not forced and that
    saw the same head hand Kafka the same task identifier, by which the
    receiver drops the second. A forced command gets an identifier that is
    salted with the time each consumption reads. *)
Theorem replay_idempotent data w1 :
  wp (run data) (fun _ s1 _ => forall w2, wp (run data) (fun _ s2 _ => forall c1 b1 c2 b2,
    ((c1, b1) ∈ creates s1) -> ((c2, b2) ∈ creates s2) -> exists cmd info d1 d2,
      unmarshalAndValidate data = Ok cmd /\ ParsePRURL (tc_URL cmd) = Ok info /\
      (Ev (GetPRDetails (pi_Owner info) (pi_Repo info) (pi_Number info)) (Ok d1) ∈ s1) /\
      (Ev (GetPRDetails (pi_Owner info) (pi_Repo info) (pi_Number info)) (Ok d2) ∈ s2) /\
      if Force cmd then exists t1 t2, (Ev Now t1 ∈ s1) /\ (Ev Now t2 ∈ s2) /\
        TaskIdentifier c1 = DeriveTaskIDForce (pi_Owner info) (pi_Repo info) (pi_Number info) (HeadSHA d1) (Itoa (UnixMicro t1)) /\
        TaskIdentifier c2 = DeriveTaskIDForce (pi_Owner info) (pi_Repo info) (pi_Number info) (HeadSHA d2) (Itoa (UnixMicro t2))
      else HeadSHA d1 = HeadSHA d2 -> TaskIdentifier c1 = TaskIdentifier c2) w2) w1.
Proof.
  wp_use run_wp. intros r1 s1 w1' (_ & H1 & _) w2. wp_use run_wp. intros r2 s2 w2' (_ & H2 & _) c1 b1 c2 b2 Hc1 Hc2.
  destruct H1 as [(H1 & _)|(cmd & info & d1 & tr1 & Hv & G1 & ok1 & id1 & ex1 & H1 & _ & I1 & _)];
    [rewrite H1 in Hc1; by apply elem_of_nil in Hc1|].
  destruct H2 as [(H2 & _)|(cmd' & info' & d2 & tr2 & Hv' & G2 & ok2 & id2 & ex2 & H2 & _ & I2 & _)];
    [rewrite H2 in Hc2; by apply elem_of_nil in Hc2|].
  rewrite Hv in Hv'. injection Hv' as <-. pose proof (g_url _ _ _ _ _ _ G1) as Hu.
  pose proof (g_url _ _ _ _ _ _ G2) as Hu'. rewrite Hu in Hu'. injection Hu' as <-.
  rewrite H1 in Hc1. rewrite H2 in Hc2. apply list_elem_of_singleton in Hc1 as [= -> ->].
  apply list_elem_of_singleton in Hc2 as [= -> ->]. rewrite !BuildCreateCommand_id.
  exists cmd, info, d1, d2. split; [done|]. split; [done|]. split; [apply G1|]. split; [apply G2|].
  unfold triggered_id in *. destruct (Force cmd).
  - destruct I1 as (t1 & ? & ?), I2 as (t2 & ? & ?). exists t1, t2. by split_and!.
  - intros Hh. by rewrite I1, I2, Hh.
Qed.

Lemma prune_entry_either hold c now k :
  entry_of k (prune hold now c) = entry_of k c \/ entry_of k (prune hold now c) = zero_entry.
Proof.
  unfold prune, entry_of. destruct (_ <=? _)%nat; [by left|]. simpl.
  destruct (filter _ (entries c) !! k) as [e|] eqn:He; [left|by right].
  apply map_lookup_filter_Some in He as [-> _]. done.
Qed.

(** A head whose claim was given back is not settled. *)
Lemma Release_not_settled k head hold pushAt now c :
  fst (Admit hold k head pushAt now (Release k head c)) <> Settled.
Proof.
  unfold Admit. cbn zeta. cbn [fst].
  destruct (head =?s "") eqn:Hh; [done|]. apply String.eqb_neq in Hh.
  match goal with |- context [pendingURL ?x] => set (e := x) end.
  assert (lastHead e <> head) as He.
  { subst e. destruct (prune_entry_either hold (Release k head c) now k) as [Hp|Hp]; rewrite Hp.
    - rewrite Release_entry_of, decide_True by done.
      destruct (lastHead (entry_of k c) =?s head) eqn:Hl; [|apply String.eqb_neq in Hl]; by destruct (_ && _).
    - destruct (_ && _); simpl; congruence. }
  clearbody e. destruct (head =?s lastHead e) eqn:Hl; [bool_props; congruence|].
  by repeat match goal with |- context [if ?b then _ else _] => destruct b end.
Qed.

Lemma Release_others k head k' c :
  k <> k' -> entries (Release k head c) !! k' = entries c !! k'.
Proof.
  intros Hne. unfold Release. destruct (entries c !! k) as [e|]; [|done].
  destruct (_ =?s _); [|done]. simpl. by rewrite lookup_insert_ne.
Qed.

(** (C29) A deferred command is handed over. A consumed command asks for the
    details of the PR it names first. When it is a webhook command, the author
    is on the mechanical-override list, and the filters and the trust check
    let the PR pass, it publishes nothing, leaves the ledgers alone and gives
    the head it fetched back: whatever claim the webhook had recorded, the
    poll's admission test does not answer Settled for that head, at any hold
    window and instant, and the entries of other PRs stay as it found them. *)
Theorem deferral_hands_over data cmd info w :
  unmarshalAndValidate data = Ok cmd -> ParsePRURL (tc_URL cmd) = Ok info ->
  wp (run data) (fun r s w' => exists details s',
    s = Ev (GetPRDetails (pi_Owner info) (pi_Repo info) (pi_Number info)) details :: s' /\
    forall d tr, details = Ok d -> Skip taskCreationFilter (executor_filter_pr info d) = false ->
      trustDecision (executor_trust_pr d) = Ok tr -> Success tr = true -> defers cmd d = true ->
      r = Some ErrCommandObjectSkipped /\ quiet s /\ db w' = db w /\
      (forall hold pushAt now, fst (Admit hold (info_key info) (HeadSHA d) pushAt now (coal w')) <> Settled) /\
      exists c, finds (coal w) c /\ forall k, k <> info_key info -> entries (coal w') !! k = entries c !! k) w.
Proof.
  intros Hv Hp. unfold runTriggerPRReview. rewrite Hv, Hp.
  do 2 wp_step. destruct a as [d|er]; [|wp_steps; do 2 eexists; by split].
  set (w0 := set_env _ _ _). assert (db w0 = db w /\ coal w0 = coal w) as [Hdb0 Hco0] by done. clearbody w0.
  wp_step. wp_use applyFilter_wp. intros f s1 w1 ((e1 & t1 & ->) & [Hc1 Hw1] & Hf).
  destruct (Skip taskCreationFilter _) eqn:Hskip; subst f; cbn beta iota.
  { wp_steps. do 2 eexists. split; [done|]. intros d' tr [= <-] Hf'. by rewrite Hf' in Hskip. }
  wp_step. wp_use applyTrust_wp. intros rt s2 w2 ((e2 & t2 & ->) & [Hc2 Hw2] & Ht).
  destruct rt as [tr|er]; cbn beta iota.
  2:{ wp_steps. do 2 eexists. split; [done|]. intros d' tr [= <-] _ Ht' Hs.
      destruct Ht as [Ht|(_ & tr' & Ht & Hs')]; rewrite Ht in Ht'; [done|]. injection Ht' as ->. congruence. }
  wp_step. wp_use defer_wp. intros r s3 w3 ([Hc3 Hw3] & Hdb3 & Hdef).
  destruct (defers cmd d) eqn:Hde; destruct Hdef as [-> Hdef]; cbn beta iota.
  - destruct Hdef as (c & Hc & Hdef). wp_steps. do 2 eexists. split; [done|].
    intros d' tr' [= <-] _ _ _ _. rewrite app_nil_r. split_and!; [done|by seg|by rewrite Hdb3| |].
    + intros hold pushAt now. rewrite Hdef. apply Release_not_settled.
    + exists c. split; [by rewrite <- Hco0|]. intros k Hk. rewrite Hdef. by apply Release_others.
  - subst w3. wp_use publishTriggered_wp. intros r s4 w4 _. do 2 eexists. split; [done|].
    intros d' tr' [= <-] _ _ _ Hd'. congruence.
Qed.
End proofs.

(** ** Instances *)

#[export] Instance demo_prurl : PRURL :=
  {| ParsePRURL url :=
       if url =?s "https://github.com/bborbe/errors/pull/7"
       then Ok (mkPRInfo "github" "bborbe" "errors" 7) else Err (ErrOther "parse");
     PlatformGitHub := "github" |}.

#[export] Instance demo_payloads : Payloads (TriggerPRReviewCommand + SetDoNotMergeStatusCommand) :=
  {| ParseEvent_trigger cmd := Some (inl cmd);
     MarshalInto_trigger e := match e with inl cmd => Some cmd | inr _ => None end;
     ParseEvent_status cmd := Some (inr cmd);
     MarshalInto_status e := match e with inr cmd => Some cmd | inl _ => None end |}.

#[export] Instance demo_payload_laws : PayloadLaws demo_payloads.
Proof. split; by intros cmd e [= <-]. Qed.

Definition demo_cmd (force webhook : bool) : TriggerPRReviewCommand :=
  mkTriggerPRReviewCommand "https://github.com/bborbe/errors/pull/7" force webhook.

(** The details a segment read. *)
Definition details_of (ev : event) : list (result PRDetails) :=
  match ev with
  | Ev q a =>
      match q in request A return A -> list (result PRDetails) with
      | GetPRDetails _ _ _ => fun r => [r]
      | _ => fun _ => []
      end a
  end.

(** A webhook command for the bot's bump, whose head the webhook claimed. *)
Lemma deferral_hands_over_witness :
  let w := set_coal (MarkEmitted (mkKey "bborbe" "errors" 7) "0123abcd" 5
             (NewCoalescer 5)) (demo_start demo_opted_in demo_bump) in
  fst (Admit (5 * Minute) (mkKey "bborbe" "errors" 7) "0123abcd" 6 7 (coal w)) = Settled /\
  fst (Admit (5 * Minute) (mkKey "bborbe" "errors" 7) "0123abcd" 6 7
    (coal (snd (runM (runTriggerPRReview NewDraftFilter (production_trust ["updater[bot]"]) ["updater[bot]"]
       demo_config ["pr-reviewer"] (inl (demo_cmd false true))) w)))) <> Settled.
Proof.
  cbn zeta. split; [vm_compute; reflexivity|].
  pose proof (deferral_hands_over NewDraftFilter (production_trust ["updater[bot]"]) ["updater[bot]"]
    demo_config ["pr-reviewer"] (inl (demo_cmd false true) : TriggerPRReviewCommand + SetDoNotMergeStatusCommand) (demo_cmd false true)
    (mkPRInfo "github" "bborbe" "errors" 7)
    (set_coal (MarkEmitted (mkKey "bborbe" "errors" 7) "0123abcd" 5
             (NewCoalescer 5)) (demo_start demo_opted_in demo_bump)) eq_refl eq_refl) as H.
  apply wp_alone in H as (s & Ht & details & s' & -> & H).
  assert (details = Ok demo_pr_details) as ->.
  { apply (f_equal (fun t => t ≫= details_of)) in Ht. vm_compute in Ht. injection Ht as Ht _. by rewrite <- Ht. }
  destruct (H demo_pr_details (NewResult true (Description (match production_trust ["updater[bot]"] (executor_trust_pr demo_pr_details)
       with Ok r => r | Err _ => NewResult true "" end))) eq_refl) as (_ & _ & _ & Hs & _);
    try (vm_compute; reflexivity).
  apply Hs.
Defined.

(** After a restart ten hours later. *)
Definition demo_restarted : World demo memDB :=
  demo_world (mkDemo (20 * Hour) false [demo_pr_1] demo_pr_details demo_opted_in demo_bump [] true ∅) (cold_start 0).

Definition demo_run (force : bool) (w : World demo memDB) : list (CreateCommand * bool) :=
  creates (trace (snd (runM (runTriggerPRReview NewDraftFilter (production_trust ["updater[bot]"]) ["updater[bot]"]
    demo_config ["pr-reviewer"] (inl (demo_cmd force false))) w))).

(** A forced command for a head with no review on record passes every gate. *)
Lemma review_needs_every_gate_witness :
  let data := inl (demo_cmd true false) : TriggerPRReviewCommand + SetDoNotMergeStatusCommand in
  let w := demo_start demo_opted_in demo_bump in
  let '(r, w') := runM (runTriggerPRReview NewDraftFilter (production_trust ["updater[bot]"]) ["updater[bot]"]
    demo_config ["pr-reviewer"] data) w in
  r = None /\ length (creates (trace w')) = 1%nat /\ writes (trace w') = [] /\
  executed NewDraftFilter (production_trust ["updater[bot]"]) ["updater[bot]"] demo_config ["pr-reviewer"]
    data r (trace w') w w'.
Proof.
  cbn zeta. destruct (proj1 (wp_alone _ _ _) (review_needs_every_gate NewDraftFilter (production_trust ["updater[bot]"])
    ["updater[bot]"] demo_config ["pr-reviewer"] (inl (demo_cmd true false) : TriggerPRReviewCommand + SetDoNotMergeStatusCommand)
    (demo_start demo_opted_in demo_bump))) as (s & Ht & Hw & He & _).
  destruct (runM _ _) as [r w'] eqn:Hr. cbn [fst snd] in *. change (trace w' = s) in Ht. subst s.
  assert (r = fst (r, w') /\ w' = snd (r, w')) as [Er Ew] by done. rewrite <- Hr in Er, Ew.
  split; [rewrite Er; vm_compute; reflexivity|]. split; [rewrite Ew; vm_compute; reflexivity|].
  split; [exact Hw|exact He].
Defined.

(** The replay of a forced command is a task of its own. *)
Example forced_replay_differs :
  match demo_run true (demo_start demo_opted_in demo_bump), demo_run true demo_restarted with
  | [(c1, true)], [(c2, true)] => TaskIdentifier c1 <> TaskIdentifier c2
  | _, _ => False
  end.
Proof. vm_compute. discriminate. Qed.

Lemma details_read_in o r n d s : (Ev (GetPRDetails o r n) (Ok d) ∈ s) -> Ok d ∈ s ≫= details_of.
Proof. intros Hin. apply list_elem_of_bind. eexists. split; [|exact Hin]. by left. Qed.

Lemma replay_idempotent_witness :
  exists c1 c2, demo_run false (demo_start demo_opted_in demo_bump) = [(c1, true)] /\
    demo_run false demo_restarted = [(c2, true)] /\ TaskIdentifier c1 = TaskIdentifier c2.
Proof.
  set (data := inl (demo_cmd false false) : TriggerPRReviewCommand + SetDoNotMergeStatusCommand).
  destruct (proj1 (wp_alone _ _ _) (replay_idempotent NewDraftFilter (production_trust ["updater[bot]"]) ["updater[bot]"]
    demo_config ["pr-reviewer"] data (demo_start demo_opted_in demo_bump))) as (s1 & Ht1 & H).
  destruct (proj1 (wp_alone _ _ _) (H demo_restarted)) as (s2 & Ht2 & H2). clear H.
  assert (forall d, Ok d ∈ s1 ≫= details_of -> d = demo_pr_details) as D1.
  { intros d Hd. apply (f_equal (fun t => t ≫= details_of)) in Ht1.
    change (trace (demo_start demo_opted_in demo_bump) ++ s1) with s1 in Ht1. rewrite <- Ht1 in Hd.
    vm_compute in Hd. by apply list_elem_of_singleton in Hd as [= ->]. }
  assert (forall d, Ok d ∈ s2 ≫= details_of -> d = demo_pr_details) as D2.
  { intros d Hd. apply (f_equal (fun t => t ≫= details_of)) in Ht2.
    change (trace demo_restarted ++ s2) with s2 in Ht2. rewrite <- Ht2 in Hd.
    vm_compute in Hd. by apply list_elem_of_singleton in Hd as [= ->]. }
  apply (f_equal creates) in Ht1, Ht2. change (trace (demo_start demo_opted_in demo_bump) ++ s1) with s1 in Ht1.
  change (trace demo_restarted ++ s2) with s2 in Ht2.
  change (demo_run false (demo_start demo_opted_in demo_bump) = creates s1) in Ht1.
  change (demo_run false demo_restarted = creates s2) in Ht2. rewrite Ht1, Ht2.
  assert (exists c1, creates s1 = [(c1, true)]) as [c1 H1] by (rewrite <- Ht1; vm_compute; eexists; reflexivity).
  assert (exists c2, creates s2 = [(c2, true)]) as [c2 H2'] by (rewrite <- Ht2; vm_compute; eexists; reflexivity).
  exists c1, c2. split; [exact H1|]. split; [exact H2'|].
  destruct (H2 c1 true c2 true) as (cmd & info & d1 & d2 & Hv & Hu & Hd1 & Hd2 & Hid);
    [rewrite H1; by left|rewrite H2'; by left|].
  vm_compute in Hv. injection Hv as <-. apply Hid.
  apply details_read_in, D1 in Hd1 as ->. by apply details_read_in, D2 in Hd2 as ->.
Defined.
