(* ===== verification/Producers.v ===== *)
(** * Producers: the ledgers across all the paths that publish

    A poll, a scan and a consumed command all publish tasks and all share the
    two ledgers. This file runs any sequence of publishes, whoever makes
    them, and shows that a record stays visible for its hour. *)
From S2P Require Import Prelude GoStrings KV MemDB Ledger LedgerProofs Records Types Titles Trust Coalesce Filters SizeGate Commands World Publisher CursorFile Watcher WatcherFacts Scanner RetryGuard Executor ExecutorProofs DemoEnv.
Local Open Scope Z_scope.

(** Every clock reading of a segment is within the hour after [t0]. *)
Definition clock_within (t0 : DateTime) (s : list event) : Prop :=
  forall t, (Ev Now t ∈ s) -> t0 <= t <= t0 + Hour.

(** The readings, as a list. *)
Definition clock_of (ev : event) : list DateTime :=
  match ev with
  | Ev q a => match q in request A return A -> list DateTime with Now => fun t => [t] | _ => fun _ => [] end a
  end.

Lemma clock_within_readings t0 s :
  forallb (fun t => (t0 <=? t) && (t <=? t0 + Hour)) (s ≫= clock_of) = true -> clock_within t0 s.
Proof.
  rewrite forallb_forall. intros H t Hin. specialize (H t).
  rewrite andb_true_iff, !Z.leb_le in H. apply H, list_elem_of_In, list_elem_of_bind.
  exists (Ev Now t). split; [by left|done].
Qed.

Lemma reading t s : (Ev Now t ∈ s) -> t ∈ s ≫= clock_of.
Proof. intros Hin. apply list_elem_of_bind. exists (Ev Now t). split; [by left|done]. Qed.

Definition reviews_of (ev : event) : list (result (list Review)) :=
  match ev with
  | Ev q a =>
      match q in request A return A -> list (result (list Review)) with
      | ListReviews _ _ _ => fun r => [r]
      | _ => fun _ => []
      end a
  end.

Lemma reviews_read o r n a s : (Ev (ListReviews o r n) a ∈ s) -> a ∈ s ≫= reviews_of.
Proof. intros Hin. apply list_elem_of_bind. eexists. split; [|exact Hin]. by left. Qed.

(** What was read in the new part of a trace. *)
Lemma new_events {A} (f : event -> list A) (t t' s : list event) :
  t' = t ++ s -> s ≫= f = drop (length (t ≫= f)) (t' ≫= f).
Proof. intros ->. by rewrite bind_app, drop_app_length. Qed.

Lemma clock_within_app t0 s t : clock_within t0 (s ++ t) <-> clock_within t0 s /\ clock_within t0 t.
Proof.
  unfold clock_within. setoid_rewrite elem_of_app. split; [intros H; split; intros; apply H; auto|].
  intros [H1 H2] x [?|?]; auto.
Qed.

(** ** Publishing, whoever does it *)
Section producers.
Context `{EN : Env E} `{K : KV St Hd It} `{C : RecordCodec} `{CL : !RecordCodecLaws C}
  `{UT : UnicodeTables} `{G : GitIgnore} `{U : UUID} `{L : Payloads Event} `{PU : PRURL}.
Context (taskCreationFilter : TaskCreationFilter) (trustDecision : Trust.Trust)
  (mechanicalOverrideAuthors : list string) (cfg : TaskConfig) (reviewerLogins : list string).
Implicit Types w : World E St.

Abbreviation run := (runTriggerPRReview taskCreationFilter trustDecision mechanicalOverrideAuthors
  cfg reviewerLogins).

(** One publish: of the poll or the scan through the publisher, or of the
    consumer. *)
Inductive publish : Type :=
| PReview (pr : PullRequest) (id : string) (d : PRDetails)
| POverride (mechanical : bool) (pr : PullRequest) (id : string) (d : PRDetails)
| PTrigger (data : Event).

(** Either override, reporting whether the command was sent. *)
Definition publish_override (mechanical : bool) (pr : PullRequest) (id : string) (d : PRDetails)
  : M St bool :=
  if mechanical then publisher_PublishMechanicalOverride cfg pr id d
  else he ← publisher_PublishOverride trustDecision cfg pr id d; mret (snd he).

Definition run_publish (op : publish) : M St unit :=
  match op with
  | PReview pr id d => publisher_PublishCreate trustDecision cfg pr id d;; mret tt
  | POverride mechanical pr id d => publish_override mechanical pr id d;; mret tt
  | PTrigger data => run data;; mret tt
  end.

Fixpoint run_publishes (ops : list publish) : M St unit :=
  match ops with
  | [] => mret tt
  | op :: ops' => run_publish op;; run_publishes ops'
  end.

(** A command for a head: what GitHub answers in [w] has that head. *)
Definition commands_head (data : Event) (cmd : TriggerPRReviewCommand) (head : RetryGuardPR) w : Prop :=
  exists info d, unmarshalAndValidate data = Ok cmd /\ ParsePRURL (tc_URL cmd) = Ok info /\
    fst (serve (GetPRDetails (pi_Owner info) (pi_Repo info) (pi_Number info)) (env w)) = Ok d /\
    newRetryGuardPR info d = head.

(** A publish that would review a head. *)
Definition reviews_head (op : publish) (head : RetryGuardPR) w : Prop :=
  match op with
  | PReview pr _ d => guard_pr pr d = head
  | POverride _ _ _ _ => False
  | PTrigger data => exists cmd, commands_head data cmd head w
  end.

(** Records survive, as long as the clock stays within the hour. *)
Definition keeps (t0 : DateTime) (s : list event) w w' : Prop :=
  clock_within t0 s -> forall n key, holds n key t0 (db w) -> holds n key t0 (db w').

Lemma keeps_same t0 s w w' : db w' = db w -> keeps t0 s w w'.
Proof. intros Hdb _ n key. by rewrite Hdb. Qed.

Lemma keeps_trans t0 s t w w1 w2 : keeps t0 s w w1 -> keeps t0 t w1 w2 -> keeps t0 (s ++ t) w w2.
Proof. intros H1 H2 [Hs Ht]%clock_within_app n key Hh. by apply H2, H1. Qed.

Lemma keeps_override t0 s now pr id w w' :
  (Ev Now now ∈ s) -> db w' = Record_override now pr id (db w) -> keeps t0 s w w'.
Proof. intros Hin Hdb Hc n key Hh. rewrite Hdb. by apply holds_override; [apply Hc|]. Qed.

Lemma keeps_review t0 s now pr id w w' :
  (Ev Now now ∈ s) -> db w' = RecordPublish now pr id (db w) -> keeps t0 s w w'.
Proof. intros Hin Hdb Hc n key Hh. rewrite Hdb. by apply holds_review; [apply Hc|]. Qed.

Lemma suppressedByOverride_wp pr d w :
  wp (suppressedByOverride pr d) (fun b s w' => same_state w w' /\ quiet s /\
    exists now, (Ev Now now ∈ s) /\ b = Suppressed now (guard_pr pr d) (db w)) w.
Proof.
  unfold suppressedByOverride, ledger_Suppressed. do 4 wp_step. rename a into now.
  wp_step. change (db (set_env e _ w)) with (db w). destruct (Suppressed now _ _) eqn:Hs; wp_steps;
    (split_and!; [frame|done|]); exists now; (split; [in_segment|done]).
Qed.

(** The publisher's review, against the ledgers. *)
Lemma PublishCreate_ledger pr id d w :
  wp (publisher_PublishCreate trustDecision cfg pr id d) (fun ok s w' =>
    (creates s = [] /\ db w' = db w \/
     (exists now, (Ev Now now ∈ s) /\ Suppressed now (guard_pr pr d) (db w) = false) /\
     exists c ok, creates s = [(c, ok)] /\
       if (ok : bool) then exists now, (Ev Now now ∈ s) /\ db w' = RecordPublish now (guard_pr pr d) id (db w)
       else db w' = db w)) w.
Proof.
  unfold publisher_PublishCreate. wp_step. wp_use suppressedByOverride_wp.
  intros b s w1 ((e & t & ->) & [Hc Hw] & now & Hn & ->).
  destruct (Suppressed now _ _) eqn:Hs; [wp_steps; left; split; [by seg|done]|].
  destruct (trustDecision _) as [tr|]; [|wp_steps; left; split; [by seg|done]].
  wp_step. wp_use ReviewIgnoreExclusion_quiet. intros ex s' w' ((e' & t' & ->) & [Hc' Hw'] & _).
  unfold recordPublished, recorder_RecordPublish. wp_steps; right; (split; [exists now; split; [set_solver|done]|]).
  - eexists _, true. split; [by seg|]. eexists. split; [|reflexivity]. set_solver.
  - eexists _, false. split; [by seg|done].
Qed.

(** The two overrides, against the ledgers. *)
Lemma publish_override_ledger mechanical pr id d w :
  wp (publish_override mechanical pr id d) (fun sent s w' =>
    if sent : bool then exists now, (Ev Now now ∈ s) /\ db w' = Record_override now (guard_pr pr d) id (db w)
    else db w' = db w) w.
Proof.
  unfold publish_override, publisher_PublishMechanicalOverride, publisher_PublishOverride,
    recordOverride, ledger_Record.
  destruct mechanical; wp_steps; simpl; try done; (eexists; split; [|reflexivity]; set_solver).
Qed.

(** A consumed command whose details are known. *)
Lemma run_known data cmd info d w :
  unmarshalAndValidate data = Ok cmd -> ParsePRURL (tc_URL cmd) = Ok info ->
  fst (serve (GetPRDetails (pi_Owner info) (pi_Repo info) (pi_Number info)) (env w)) = Ok d ->
  wp (run data) (fun r s w' =>
    creates s = [] /\ db w' = db w /\ r <> None \/
    exists tr s' w1, s' ⊆ s /\ db w1 = db w /\ creates s = creates s' /\
      triggered cfg reviewerLogins cmd info d tr r s' w1 w') w.
Proof.
  intros Hv Hp Hdet. unfold runTriggerPRReview. rewrite Hv, Hp.
  wp_step. eapply wp_serve; [exact Hdet|]. intros e0. cbn beta iota.
  wp_step. wp_use applyFilter_wp. intros f s1 w1 ((e1 & t1 & ->) & [Hc1 Hw1] & Hf).
  destruct (Skip taskCreationFilter _); subst f; cbn beta iota.
  { wp_steps. left. split_and!; [by seg|done|done]. }
  wp_step. wp_use applyTrust_wp. intros tr s2 w2 ((e2 & t2 & ->) & [Hc2 Hw2] & Ht).
  destruct tr as [tr|er]; cbn beta iota; [|wp_steps; left; split_and!; [by seg|done|done]].
  wp_step. wp_use defer_wp. intros r s3 w3 ([Hc3 Hw3] & Hdb3 & Hdef).
  destruct (defers _ cmd d); destruct Hdef as [-> Hdef]; cbn beta iota.
  { wp_steps. left. split_and!; [by seg|by rewrite Hdb3|done]. }
  subst w3. wp_use publishTriggered_wp. intros r s4 w4 (Hw4 & Hco4 & H4). right.
  exists tr, s4, (set_env e2 t2 (set_env e1 t1 (set_env e0 (trace w ++ [Ev (GetPRDetails (pi_Owner info) (pi_Repo info) (pi_Number info)) (Ok d)]) w))).
  split_and!; [set_solver|done|by seg|done].
Qed.

Lemma run_publish_keeps t0 op w : wp (run_publish op) (fun _ s w' => keeps t0 s w w') w.
Proof.
  destruct op as [pr id d|m pr id d|data]; simpl; wp_step.
  - wp_use PublishCreate_ledger. intros ok s w' H. wp_steps. rewrite app_nil_r.
    destruct H as [[_ Hdb]|(_ & c & [] & _ & Hdb)]; [by apply keeps_same| |by apply keeps_same].
    destruct Hdb as (now & ? & ?). by eapply keeps_review.
  - wp_use publish_override_ledger. intros [] s w' H; wp_steps; rewrite app_nil_r; [|by apply keeps_same].
    destruct H as (now & ? & ?). by eapply keeps_override.
  - wp_use run_wp. intros r s w' (_ & H & _). wp_steps. rewrite app_nil_r.
    destruct H as [(_ & Hdb & _)|(cmd & info & d & tr & _ & _ & ok & id & ex & _ & _ & _ & Hdb)];
      [by apply keeps_same|]. destruct ok; [|by apply keeps_same].
    destruct Hdb as (now & ? & ?). by eapply keeps_review.
Qed.

Lemma run_publishes_keeps t0 ops : forall w, wp (run_publishes ops) (fun _ s w' => keeps t0 s w w') w.
Proof.
  induction ops as [|op ops IH]; intros w; simpl; [wp_steps; by apply keeps_same|].
  wp_step. wp_use run_publish_keeps. intros [] s1 w1 H1. wp_use IH. intros [] s2 w2 H2.
  by eapply keeps_trans.
Qed.

(** A publish for a head that an override owns sends nothing. *)
Lemma run_publish_owned op head t0 w :
  holds overrideLedgerBucketName (overrideLedgerKey head) t0 (db w) -> reviews_head op head w ->
  wp (run_publish op) (fun _ s _ => clock_within t0 s -> creates s = []) w.
Proof.
  intros Hh Hop. destruct op as [pr id d|m pr id d|data]; simpl in *; [| done |].
  - wp_step. wp_use PublishCreate_ledger. intros ok s w' H. wp_steps. rewrite app_nil_r. intros Hc.
    destruct H as [[? _]|((now & Hn & Hs) & _)]; [done|]. exfalso.
    unfold Suppressed in Hs. subst head. erewrite suppressed_holds in Hs; [done|exact Hh|by apply Hc].
  - destruct Hop as (cmd & info & d & Hv & Hp & Hdet & <-).
    wp_step. wp_use run_known; [exact Hv|exact Hp|exact Hdet|]. intros r s w' H. wp_steps.
    rewrite app_nil_r. intros Hc.
    destruct H as [(? & _)|(tr & s' & w1 & Hsub & Hdb & -> & H)]; [done|].
    destruct H as [(? & _)|(ok & id & ex & _ & _ & _ & (now & Hn & Hs) & _)]; [done|]. exfalso. apply Hs.
    rewrite Hdb. eapply suppressed_holds; [exact Hh|]. by apply Hc, Hsub.
Qed.
(** (C8) An override owns its head, among publishes that follow one another.
    Once an override of a head was sent, either kind, and its record could be
    encoded, then as long as the clock stays within the hour after it was
    recorded, no publish that begins afterwards sends a review of that head:
    not the poll or the scan through the publisher, not a consumed command,
    forced or not, whatever other publishes were made, from beginning to end,
    in between. A publish that overlaps the override's is another matter: it
    may have looked the head up before (ProcessProofs, ProcessExamples). *)
Theorem override_owns_head mechanical pr id d ops op w :
  kv_ok (db w) ->
  wp (publish_override mechanical pr id d) (fun sent s0 w0 => sent = true ->
    exists t0, (Ev Now t0 ∈ s0) /\
      (is_Some (encode_record (mkPublished id t0)) ->
       wp (run_publishes ops) (fun _ s1 w1 =>
         clock_within t0 s1 -> reviews_head op (guard_pr pr d) w1 ->
         wp (run_publish op) (fun _ s2 _ => clock_within t0 s2 -> creates s2 = []) w1) w0)) w.
Proof.
  intros Hok. wp_use publish_override_ledger. intros sent s0 w0 H Hsent. subst sent.
  destruct H as (t0 & Hin & Hdb). exists t0. split; [done|]. intros Henc.
  wp_use (run_publishes_keeps t0). intros _ s1 w1 Hk Hc Hop.
  destruct (holds_recorded overrideLedgerBucketName t0 (overrideLedgerKey (guard_pr pr d)) id (db w) Hok Henc)
    as (s' & E0 & Hh).
  apply run_publish_owned with (head := guard_pr pr d); [|done]. apply Hk; [done|].
  rewrite Hdb. unfold Record_override, override_record, overrideSuppressionWindow. by rewrite E0.
Qed.

(** A forced command for a head whose review is on the guard's ledger. *)
Lemma run_forced data cmd head t0 w :
  holds retryGuardBucketName (retryGuardKey head) t0 (db w) ->
  commands_head data cmd head w -> Force cmd = true ->
  wp (run data) (fun _ s _ => clock_within t0 s ->
    creates s = [] \/
    (exists e, Ev (ListReviews (pr_Owner head) (pr_Repo head) (pr_Number head)) (Err e) ∈ s) \/
    exists rs, (Ev (ListReviews (pr_Owner head) (pr_Repo head) (pr_Number head)) (Ok rs) ∈ s) /\
      has_verdict reviewerLogins (pr_HeadSHA head) rs = true) w.
Proof.
  intros Hh (info & d & Hv & Hp & Hdet & <-) Hf. wp_use run_known; [exact Hv|exact Hp|exact Hdet|].
  intros r s w' H Hc. destruct H as [(? & _)|(tr & s' & w1 & Hsub & Hdb & -> & H)]; [by left|].
  destruct H as [(? & _)|(ok & id & ex & _ & _ & _ & _ & Hg & _)]; [by left|right].
  specialize (Hg Hf). rewrite Hdb in Hg. destruct Hg as [Hg|(r' & now & Hr & Hn & Hg)].
  - destruct (readRecord_holds _ t0 t0 (db w) Hh) as (r' & Hr & _); [unfold Hour, Minute, Second; lia|].
    congruence.
  - destruct (readRecord_holds _ t0 now (db w) Hh) as (r2 & Hr2 & Hage); [by apply Hc, Hsub|].
    rewrite Hr in Hr2. injection Hr2 as <-. destruct Hg as [?|[[e ?]|(rs & ? & ?)]]; [lia|left|right].
    + exists e. by apply Hsub.
    + exists rs. split; [by apply Hsub|done].
Qed.

(** A sent review is on the guard's ledger. *)
Lemma review_recorded op head w :
  kv_ok (db w) -> reviews_head op head w ->
  wp (run_publish op) (fun _ s w' => forall c, creates s = [(c, true)] ->
    exists t0 id, (Ev Now t0 ∈ s) /\
      (is_Some (encode_record (mkPublished id t0)) ->
       holds retryGuardBucketName (retryGuardKey head) t0 (db w'))) w.
Proof.
  intros Hok Hop.
  assert (forall t0 id s', s' = RecordPublish t0 head id (db w) -> is_Some (encode_record (mkPublished id t0)) ->
    holds retryGuardBucketName (retryGuardKey head) t0 s') as Hrec.
  { intros t0 id s' -> Henc.
    destruct (holds_recorded retryGuardBucketName t0 (retryGuardKey head) id (db w) Hok Henc) as (s2 & E0 & Hh).
    unfold RecordPublish, guard_Record, retryGuardStaleAfter. by rewrite E0. }
  destruct op as [pr id d|m pr id d|data]; simpl in *; [|done|].
  - wp_step. wp_use PublishCreate_ledger. intros ok s w' H. wp_steps. rewrite app_nil_r. intros c Hc.
    destruct H as [[H _]|(_ & c' & ok' & Hc' & H)]; [congruence|]. rewrite Hc in Hc'. injection Hc' as <- <-.
    destruct H as (now & ? & Hdb). exists now, id. split; [done|]. apply Hrec. by rewrite Hdb, Hop.
  - destruct Hop as (cmd & info & d & Hv & Hp & Hdet & <-).
    wp_step. wp_use run_known; [exact Hv|exact Hp|exact Hdet|]. intros r s w' H. wp_steps. rewrite app_nil_r.
    intros c Hc. destruct H as [(? & _)|(tr & s' & w1 & Hsub & Hdb & Hc1 & H)]; [congruence|].
    rewrite Hc in Hc1. destruct H as [(? & _)|(ok & id & ex & Hc2 & _ & _ & _ & _ & H)]; [congruence|].
    rewrite <- Hc1 in Hc2. injection Hc2 as _ <-. destruct H as (now & Hn & Hdb'). exists now, id.
    split; [by apply Hsub|]. apply Hrec. by rewrite Hdb', Hdb.
Qed.

(** (C19) No duplicate review in flight. Once a review of a head was sent, by
    the publisher or for a consumed command, and its record could be encoded,
    then within the hour after it was recorded a forced command for that head
    sends nothing, whatever other publishes happened in between, unless
    GitHub's reviews could not be read or already held a configured
    reviewer's verdict on that head. *)
Theorem no_duplicate_in_flight op head ops data cmd w :
  kv_ok (db w) -> reviews_head op head w -> Force cmd = true ->
  wp (run_publish op) (fun _ s0 w0 => forall c, creates s0 = [(c, true)] ->
    exists t0 id, (Ev Now t0 ∈ s0) /\
      (is_Some (encode_record (mkPublished id t0)) ->
       wp (run_publishes ops) (fun _ s1 w1 =>
         clock_within t0 s1 -> commands_head data cmd head w1 ->
         wp (run data) (fun _ s2 _ => clock_within t0 s2 ->
           creates s2 = [] \/
           (exists e, Ev (ListReviews (pr_Owner head) (pr_Repo head) (pr_Number head)) (Err e) ∈ s2) \/
           exists rs, (Ev (ListReviews (pr_Owner head) (pr_Repo head) (pr_Number head)) (Ok rs) ∈ s2) /\
             has_verdict reviewerLogins (pr_HeadSHA head) rs = true) w1) w0)) w.
Proof.
  intros Hok Hop Hf. wp_use review_recorded; [done|exact Hop|]. intros _ s0 w0 H c Hc.
  destruct (H c Hc) as (t0 & id & Hin & Hrec). exists t0, id. split; [done|]. intros Henc.
  wp_use (run_publishes_keeps t0). intros _ s1 w1 Hk Hcl Hcmd.
  by apply (run_forced data cmd head); [apply Hk; [|apply Hrec]| |].
Qed.
End producers.

(** ** Instances *)

(** The bump's mechanical override is sent; a forced command for the same
    head then sends nothing. *)
Lemma override_owns_head_witness :
  let tr := production_trust ["updater[bot]"] in
  let w0 := snd (runM (publish_override tr demo_config true demo_pr_1 "o" demo_pr_details) (demo_start demo_opted_in demo_bump)) in
  length (creates (trace w0)) = 1%nat /\
  exists s2, trace (snd (runM (run_publish NewDraftFilter tr ["updater[bot]"] demo_config ["pr-reviewer"]
      (PTrigger (inl (demo_cmd true false)))) w0)) = trace w0 ++ s2 /\ creates s2 = [].
Proof.
  cbn zeta. split; [vm_compute; reflexivity|].
  destruct (proj1 (wp_alone _ _ _) (override_owns_head NewDraftFilter (production_trust ["updater[bot]"]) ["updater[bot]"] demo_config
    ["pr-reviewer"] true demo_pr_1 "o" demo_pr_details [] (PTrigger (inl (demo_cmd true false)))
    (demo_start demo_opted_in demo_bump) NewMemDB_kv_ok)) as (s0 & Ht0 & H).
  destruct (H ltac:(vm_compute; reflexivity)) as (t0 & Hin & H1). clear H.
  change s0 with (trace (demo_start demo_opted_in demo_bump) ++ s0) in Hin. rewrite <- Ht0 in Hin.
  apply reading in Hin. vm_compute in Hin. apply list_elem_of_singleton in Hin as ->.
  destruct (proj1 (wp_alone _ _ _) (H1 ltac:(eexists; reflexivity))) as (s1 & Ht1 & H2). clear H1.
  match type of Ht1 with _ = trace ?w ++ _ => set (w0 := w) in * end.
  assert (s1 = []) as -> by (apply (app_inv_head (trace w0)); rewrite app_nil_r; symmetry; exact Ht1).
  destruct (fun Hc Hop => proj1 (wp_alone _ _ _) (H2 Hc Hop)) as (s2 & Ht2 & H3); clear H2; [| |rename H3 into H2].
  - intros t Ht. apply elem_of_nil in Ht. destruct Ht.
  - exists (demo_cmd true false), (mkPRInfo "github" "bborbe" "errors" 7), demo_pr_details.
    split_and!; vm_compute; reflexivity.
  - exists s2. split; [exact Ht2|]. apply H2, clock_within_readings.
    rewrite (new_events (A:=Z) clock_of _ _ _ Ht2). vm_compute. reflexivity.
Defined.

(** Its review is sent by the poll's publisher; a forced command that finds
    no verdict then sends nothing. *)
Lemma no_duplicate_in_flight_witness :
  let tr := production_trust ["updater[bot]"] in
  let op := PReview demo_pr_1 "r" demo_pr_details in
  let w0 := snd (runM (run_publish NewDraftFilter tr ["updater[bot]"] demo_config ["pr-reviewer"] op) (demo_start demo_opted_in demo_bump)) in
  length (creates (trace w0)) = 1%nat /\
  exists s2, trace (snd (runM (runTriggerPRReview NewDraftFilter tr ["updater[bot]"] demo_config ["pr-reviewer"]
      (inl (demo_cmd true false))) w0)) = trace w0 ++ s2 /\ creates s2 = [].
Proof.
  cbn zeta. split; [vm_compute; reflexivity|].
  destruct (proj1 (wp_alone _ _ _) (no_duplicate_in_flight NewDraftFilter (production_trust ["updater[bot]"]) ["updater[bot]"] demo_config
    ["pr-reviewer"] (PReview demo_pr_1 "r" demo_pr_details) (guard_pr demo_pr_1 demo_pr_details) []
    (inl (demo_cmd true false)) (demo_cmd true false)
    (demo_start demo_opted_in demo_bump) NewMemDB_kv_ok eq_refl eq_refl)) as (s0 & Ht0 & H).
  assert (s0 = trace (snd (runM (run_publish NewDraftFilter (production_trust ["updater[bot]"]) ["updater[bot]"]
    demo_config ["pr-reviewer"] (PReview demo_pr_1 "r" demo_pr_details)) (demo_start demo_opted_in demo_bump)))) as E
    by (rewrite Ht0; reflexivity).
  destruct (creates s0) as [|[c ok] l] eqn:Hc; [rewrite E in Hc; vm_compute in Hc; discriminate Hc|].
  assert (ok = true /\ l = []) as [-> ->]
    by (rewrite E in Hc; vm_compute in Hc; injection Hc; intros; subst; split; reflexivity).
  destruct (H c eq_refl) as (t0 & id & Hin & H1). clear H Hc.
  rewrite E in Hin. apply reading in Hin. vm_compute in Hin.
  assert (t0 = 10 * Hour) as ->.
  { repeat (apply elem_of_cons in Hin as [->|Hin]; [reflexivity|]). by apply elem_of_nil in Hin. }
  destruct (proj1 (wp_alone _ _ _) (H1 ltac:(eexists; reflexivity))) as (s1 & Ht1 & H2). clear H1.
  match type of Ht1 with _ = trace ?w ++ _ => set (w0 := w) in * end.
  assert (s1 = []) as -> by (apply (app_inv_head (trace w0)); rewrite app_nil_r; symmetry; exact Ht1).
  destruct (fun Hc Hop => proj1 (wp_alone _ _ _) (H2 Hc Hop)) as (s2 & Ht2 & H3); clear H2; [| |rename H3 into H2].
  - intros t Ht. apply elem_of_nil in Ht. destruct Ht.
  - exists (mkPRInfo "github" "bborbe" "errors" 7), demo_pr_details.
    split_and!; vm_compute; reflexivity.
  - exists s2. split; [exact Ht2|].
    assert (clock_within (10 * Hour) s2) as Hc.
    { apply clock_within_readings. rewrite (new_events (A:=Z) clock_of _ _ _ Ht2). vm_compute. reflexivity. }
    assert (forall r, Ev (ListReviews "bborbe" "errors" 7) r ∈ s2 -> r = Ok []) as Hr.
    { intros r Hr. apply reviews_read in Hr. rewrite (new_events reviews_of _ _ _ Ht2) in Hr.
      vm_compute in Hr. by apply list_elem_of_singleton in Hr. }
    destruct (H2 Hc) as [H3|[[e H3]|(rs & H3 & Hv)]]; [exact H3| |].
    + apply Hr in H3. discriminate H3.
    + apply Hr in H3. injection H3 as ->. discriminate Hv.
Defined.
