(* ===== verification/Crypto.v ===== *)
(** * Crypto: the part of crypto/hmac, crypto/sha256 and encoding/hex the
    webhook handler uses

    The Go standard library's HMAC-SHA256, executable: words are integers
    below 2^32 with the wrap-around written out, messages lists of bytes as
    integers below 256. The examples are the published test vectors. *)
From S2P Require Import Prelude GoStrings.
From Stdlib Require Import Ascii.
Local Open Scope Z_scope.

(** ** 32-bit words *)
Definition wrap32 (x : Z) : Z := x mod 2 ^ 32.
Definition add32 (l : list Z) : Z := wrap32 (foldr Z.add 0 l).
Definition rotr (n x : Z) : Z := Z.lor (Z.shiftr x n) (wrap32 (Z.shiftl x (32 - n))).
Definition not32 (x : Z) : Z := Z.lxor x (2 ^ 32 - 1).
Definition xor3 (a b c : Z) : Z := Z.lxor a (Z.lxor b c).

Definition ch (x y z : Z) : Z := Z.lxor (Z.land x y) (Z.land (not32 x) z).
Definition maj (x y z : Z) : Z := xor3 (Z.land x y) (Z.land x z) (Z.land y z).
Definition bsig0 (x : Z) : Z := xor3 (rotr 2 x) (rotr 13 x) (rotr 22 x).
Definition bsig1 (x : Z) : Z := xor3 (rotr 6 x) (rotr 11 x) (rotr 25 x).
Definition ssig0 (x : Z) : Z := xor3 (rotr 7 x) (rotr 18 x) (Z.shiftr x 3).
Definition ssig1 (x : Z) : Z := xor3 (rotr 17 x) (rotr 19 x) (Z.shiftr x 10).

(** The constants are the first 32 fractional bits of the cube roots of the
    first 64 primes, and of the square roots of the first eight. *)
Definition is_prime (n : Z) : bool :=
  forallb (fun d => negb (n mod Z.of_nat d =? 0)) (seq 2 (Z.to_nat (Z.sqrt n) - 1)).
Definition primes (bound : nat) : list Z :=
  List.filter is_prime (Z.of_nat <$> seq 2 (bound - 1)).

(** The integer cube root, bit by bit from bit [n - 1] down. *)
Fixpoint cube_root (n : nat) (acc x : Z) : Z :=
  match n with
  | O => acc
  | S n' =>
      let y := acc + Z.shiftl 1 (Z.of_nat n') in
      cube_root n' (if y * y * y <=? x then y else acc) x
  end.

Definition sha_k : list Z :=
  Eval vm_compute in
    (fun p => wrap32 (cube_root 36 0 (Z.shiftl p 96))) <$> primes 311.
Definition sha_init : list Z :=
  Eval vm_compute in (fun p => wrap32 (Z.sqrt (Z.shiftl p 64))) <$> primes 19.

(** ** Bytes *)

(** [n] bytes of [x], most significant first. *)
Fixpoint be_bytes (n : nat) (x : Z) : list Z :=
  match n with
  | O => []
  | S n' => be_bytes n' (Z.shiftr x 8) ++ [Z.land x 255]
  end.

Fixpoint be_words (l : list Z) : list Z :=
  match l with
  | a :: b :: c :: d :: l' =>
      Z.lor (Z.shiftl a 24) (Z.lor (Z.shiftl b 16) (Z.lor (Z.shiftl c 8) d)) :: be_words l'
  | _ => []
  end.

Definition string_bytes (s : string) : list Z := bcode <$> bytes_of s.

(** ** SHA-256 *)

(** The padded message: 0x80, zeros to 56 bytes mod 64, the bit length. *)
Definition sha_pad (m : list Z) : list Z :=
  let n := Z.of_nat (length m) in
  m ++ [128] ++ repeat 0 (Z.to_nat ((55 - n) mod 64)) ++ be_bytes 8 (wrap64 (8 * n)).

(** The message schedule, newest word first. *)
Fixpoint sha_schedule (n : nat) (w : list Z) : list Z :=
  match n with
  | O => w
  | S n' =>
      let at_ i := nth i w 0 in
      sha_schedule n' (add32 [ssig1 (at_ 1%nat); at_ 6%nat; ssig0 (at_ 14%nat); at_ 15%nat] :: w)
  end.

Definition sha_round (s : list Z) (kw : Z * Z) : list Z :=
  match s with
  | [a; b; c; d; e; f; g; h] =>
      let t1 := add32 [h; bsig1 e; ch e f g; fst kw; snd kw] in
      let t2 := add32 [bsig0 a; maj a b c] in
      [add32 [t1; t2]; a; b; c; add32 [d; t1]; e; f; g]
  | _ => s
  end.

Definition sha_block (s block : list Z) : list Z :=
  let w := rev (sha_schedule 48 (rev (be_words block))) in
  zip_with (fun x y => add32 [x; y]) s (foldl sha_round s (zip sha_k w)).

Fixpoint sha_blocks (n : nat) (s m : list Z) : list Z :=
  match n with
  | O => s
  | S n' => sha_blocks n' (sha_block s (take 64 m)) (drop 64 m)
  end.

Definition sha256 (m : list Z) : list Z :=
  let p := sha_pad m in
  sha_blocks (Nat.div (length p) 64) sha_init p ≫= be_bytes 4.

(** ** HMAC *)

Definition hmac_key (key : list Z) : list Z :=
  let k := if (64 <? length key)%nat then sha256 key else key in
  k ++ repeat 0 (64 - length k).

Definition hmac_sha256 (key m : list Z) : list Z :=
  let k := hmac_key key in
  sha256 ((Z.lxor 92 <$> k) ++ sha256 ((Z.lxor 54 <$> k) ++ m)).

(** [hex.EncodeToString]. *)
Definition hex_encode (l : list Z) : string :=
  of_bytes (l ≫= fun b => [hex_digit (Z.shiftr b 4); hex_digit (Z.land b 15)]).

(** ** Test vectors *)
Example sha256_empty :
  hex_encode (sha256 []) = "e3b0c44298fc1c149afbf4c8996fb92427ae41e4649b934ca495991b7852b855".
Proof. vm_compute. reflexivity. Qed.
Example sha256_two_blocks :
  hex_encode (sha256 (string_bytes "abcdbcdecdefdefgefghfghighijhijkijkljklmklmnlmnomnopnopq")) =
  "248d6a61d20638b8e5c026930c3e6039a33ce45964ff2167f6ecedd419db06c1".
Proof. vm_compute. reflexivity. Qed.
Example hmac_rfc4231_2 :
  hex_encode (hmac_sha256 (string_bytes "Jefe") (string_bytes "what do ya want for nothing?")) =
  "5bdcc146bf60754e6a042426089575c75a003f089d2739839dec58b964ec3843".
Proof. vm_compute. reflexivity. Qed.

(** ** Lengths *)
Lemma length_be_bytes n x : length (be_bytes n x) = n.
Proof. revert x. induction n as [|n IH]; intros x; simpl; [done|]. rewrite length_app, IH. simpl. lia. Qed.
