(* ===== verification/Handlers.v ===== *)
(** * Handlers: the HTTP receivers (pkg/handler, pkg/factory/webhook.go)

    The webhook receiver and the operator's trigger endpoint, and the
    dispatcher the coalescer calls for a trailing push. A handler answers with
    a status or fails with one; response bodies are constant and left out.
    HMAC-SHA256 is Crypto's; the JSON decoding of the payload and the boolean
    parser are library code. *)
From S2P Require Import Prelude GoStrings KV Ledger Types Titles Trust Coalesce Filters SizeGate Commands World Publisher CursorFile Watcher Executor Crypto.
From Stdlib Require Import Ascii.
Local Open Scope Z_scope.

(** ** Data *)

(** What a handler reads of a request; [None]: the body could not be read. *)
Record webhook_request : Type := mkWebhookRequest {
  rq_body : option string;
  rq_signature : string;                   (* X-Hub-Signature-256 *)
  rq_event : string }.                     (* X-GitHub-Event *)

(** [webhookPullRequestEvent] *)
Record webhookPullRequestEvent : Type := mkWebhookEvent {
  we_Action : string;
  we_HTMLURL : string;
  we_SHA : string;
  we_Labels : list string }.

Class WebhookCodec : Type := {
  unmarshal_webhook : string -> option webhookPullRequestEvent }.

(** A handler writes a response or returns an error with a status. *)
Inductive http : Type := Respond (status : Z) | Fail (status : Z).

Definition StatusOK : Z := 200.
Definition StatusAccepted : Z := 202.
Definition StatusBadRequest : Z := 400.
Definition StatusUnauthorized : Z := 401.
Definition StatusBadGateway : Z := 502.

Definition dispatchActions (action : string) : bool :=
  slices_Contains ["opened"; "reopened"; "synchronize"; "ready_for_review"] action.
Definition statusActions (action : string) : bool :=
  slices_Contains ["opened"; "reopened"; "synchronize"; "ready_for_review"; "labeled"; "unlabeled"]
    action.
Definition coalescingActions (action : string) : bool := slices_Contains ["synchronize"] action.

(** ** The signature *)
Definition equals_sign : ascii := "="%char.

Definition verifyWebhookSignature (secret provided body : string) : result unit :=
  if secret =?s "" then Err (ErrOther "webhook secret not configured")
  else if provided =?s "" then Err (ErrOther "missing webhook signature header")
  else
    match Cut provided equals_sign with
    | None => Err (ErrOther "malformed webhook signature header")
    | Some (_, sigHex) =>
        if sigHex =?s "" then Err (ErrOther "malformed webhook signature header")
        else
          let expected := hex_encode (hmac_sha256 (string_bytes secret) (string_bytes body)) in
          if negb (expected =?s sigHex) then Err (ErrOther "invalid webhook signature") else Ok tt
    end.

(** ** The webhook *)
Section webhook.
Context {St : Type} `{PU : PRURL} `{L : Payloads Event} `{J : WebhookCodec}.
Context (hold : Duration) (secret : string).

Definition writeWebhookAck : M St http := mret (Respond StatusOK).
Definition writeWebhookDispatched : M St http := mret (Respond StatusAccepted).

Definition sendDoNotMergeStatus (payload : webhookPullRequestEvent) : M St (result unit) :=
  if (we_HTMLURL payload =?s "") || (we_SHA payload =?s "")
  then mret (Err (ErrOther "pull_request payload missing html_url or head.sha"))
  else
    status_SendCommand (mkSetDoNotMergeStatusCommand (we_HTMLURL payload) (we_SHA payload)
      (we_Labels payload)).

(** The error carries status 502. *)
Definition postDoNotMergeStatus (payload : webhookPullRequestEvent) : M St (result unit) :=
  if negb (statusActions (we_Action payload)) then mret (Ok tt) else sendDoNotMergeStatus payload.

Definition shouldDispatch (payload : webhookPullRequestEvent) : M St (result (Key * bool)) :=
  match ParsePRURL (we_HTMLURL payload) with
  | Err e => mret (Err e)
  | Ok prInfo =>
      let key := info_key prInfo in
      if negb (coalescingActions (we_Action payload)) then mret (Ok (key, true))
      else
        now ← call Now;
        publish ← coalescer_call (Push hold key (we_SHA payload) (we_HTMLURL payload) now);
        if (publish : bool) then mret (Ok (key, true))
        else call (IncWebhookDelivery "coalesced");; mret (Ok (key, false))
  end.

(** From the send of the review command on. *)
Definition dispatchReview (start : DateTime) (payload : webhookPullRequestEvent) (key : Key)
  : M St http :=
  sent ← trigger_SendCommand (mkTriggerPRReviewCommand (we_HTMLURL payload) false true);
  match sent with
  | Err _ => mret (Fail StatusBadGateway)
  | Ok _ =>
      now ← call Now;
      coalescer_call (fun c => (tt, MarkEmitted key (we_SHA payload) now c));;
      call (IncWebhookDelivery "success");;
      now ← call Now;
      call (ObserveWebhookDispatchLatency (dt_Sub now start));;
      writeWebhookDispatched
  end.

(** A verified pull_request delivery. *)
Definition handlePullRequest (start : DateTime) (body : string) : M St http :=
  match unmarshal_webhook body with
  | None => mret (Fail StatusBadRequest)
  | Some payload =>
      if we_HTMLURL payload =?s "" then mret (Fail StatusBadRequest)
      else
        posted ← postDoNotMergeStatus payload;
        match posted with
        | Err _ => mret (Fail StatusBadGateway)
        | Ok _ =>
            if negb (dispatchActions (we_Action payload)) then
              call (IncWebhookDelivery "skip");; writeWebhookAck
            else
              r ← shouldDispatch payload;
              match r with
              | Err _ => mret (Fail StatusBadRequest)
              | Ok (key, false) => writeWebhookDispatched
              | Ok (key, true) => dispatchReview start payload key
              end
        end
  end.

Definition webhook_ServeHTTP (req : webhook_request) : M St http :=
  start ← call Now;
  match rq_body req with
  | None => mret (Fail StatusBadRequest)
  | Some body =>
      match verifyWebhookSignature secret (rq_signature req) body with
      | Err _ => call IncWebhookSignatureRejected;; mret (Fail StatusUnauthorized)
      | Ok _ =>
          if rq_event req =?s "ping" then writeWebhookAck
          else if negb (rq_event req =?s "pull_request") then writeWebhookAck
          else handlePullRequest start body
      end
  end.

(** [webhookDispatcher.Dispatch]: the trailing edge. *)
Definition Dispatch (url : string) : M St (result unit) :=
  r ← trigger_SendCommand (mkTriggerPRReviewCommand url false true);
  match r with
  | Err e => call (IncWebhookDelivery "error");; mret (Err e)
  | Ok _ => call (IncWebhookDelivery "trailing");; mret (Ok tt)
  end.
End webhook.

(** ** The operator's trigger *)

(** [libparse.ParseBoolDefault(ctx, value, false)]: library code. *)
Class BoolParser : Type := { ParseBoolDefault : string -> bool }.

Section trigger.
Context {St : Type} `{PU : PRURL} `{L : Payloads Event} `{B : BoolParser}.

Definition validateTriggerURL (rawURL : string) : result unit :=
  if rawURL =?s "" then Err (ErrOther "url query parameter is required")
  else
    match ParsePRURL rawURL with
    | Err e => Err e
    | Ok prInfo =>
        if negb (pi_Platform prInfo =?s PlatformGitHub)
        then Err (ErrOther "only github platform is supported")
        else Ok tt
    end.

(** The two query values. *)
Definition trigger_ServeHTTP (rawURL forceValue : string) : M St http :=
  let force := ParseBoolDefault forceValue in
  match validateTriggerURL rawURL with
  | Err _ => mret (Fail StatusBadRequest)
  | Ok _ =>
      sent ← trigger_SendCommand (mkTriggerPRReviewCommand rawURL force false);
      mret match sent with
           | Err _ => Fail StatusBadGateway
           | Ok _ => Respond StatusAccepted
           end
  end.
End trigger.
