(* ===== verification/HandlersProofs.v ===== *)
(** * HandlersProofs: what a delivery may do, and what it may lose

    Of a request alone or among any other goroutines: the coalescer it finds
    may be any at each of its calls. *)
From S2P Require Import Prelude GoStrings KV MemDB Ledger LedgerProofs Types Titles Trust Coalesce Filters SizeGate Commands World Publisher CursorFile Watcher Executor ExecutorProofs Crypto Handlers DemoEnv.
From Stdlib Require Import Ascii.
Local Open Scope Z_scope.

(** The commands a segment handed to Kafka for the consumer. *)
Inductive command : Type :=
| CTrigger (cmd : TriggerPRReviewCommand)
| CStatus (cmd : SetDoNotMergeStatusCommand).

Definition send_of (ev : event) : list (command * bool) :=
  match ev with
  | Ev q a =>
      match q in request A return A -> list (command * bool) with
      | SendTrigger cmd => fun r => [(CTrigger cmd, is_Ok r)]
      | SendStatus cmd => fun r => [(CStatus cmd, is_Ok r)]
      | _ => fun _ => []
      end a
  end.

Definition sends (s : list event) : list (command * bool) := s ≫= send_of.

Lemma sends_app s t : sends (s ++ t) = sends s ++ sends t.
Proof. apply bind_app. Qed.

(** The commands of a payload. *)
Definition status_cmd (p : webhookPullRequestEvent) : SetDoNotMergeStatusCommand :=
  mkSetDoNotMergeStatusCommand (we_HTMLURL p) (we_SHA p) (we_Labels p).
Definition trigger_cmd (p : webhookPullRequestEvent) : TriggerPRReviewCommand :=
  mkTriggerPRReviewCommand (we_HTMLURL p) false true.

(** What a passed status step sent. *)
Definition status_sent (p : webhookPullRequestEvent) : list (command * bool) :=
  if statusActions (we_Action p) then [(CStatus (status_cmd p), true)] else [].

Lemma dispatch_is_status action : dispatchActions action = true -> statusActions action = true.
Proof.
  unfold dispatchActions, statusActions. rewrite !slices_Contains_spec, !elem_of_cons. tauto.
Qed.

Section proofs.
Context {E St : Type} `{SC : Sched E St} `{PU : PRURL} `{L : Payloads Event} `{J : WebhookCodec}.
Context (hold : Duration) (secret : string).
Implicit Types w : World E St.

(** The header carries the hexadecimal HMAC of the body under the secret. *)
Definition signed (signature body : string) : Prop :=
  secret <> "" /\
  exists prefix sig, signature = prefix +:+ String equals_sign sig /\
    ~ In equals_sign (bytes_of prefix) /\ sig <> "" /\
    sig = hex_encode (hmac_sha256 (string_bytes secret) (string_bytes body)).

Lemma verifyWebhookSignature_spec signature body :
  verifyWebhookSignature secret signature body = Ok tt <-> signed signature body.
Proof.
  unfold verifyWebhookSignature, signed. generalize (hex_encode (hmac_sha256 (string_bytes secret) (string_bytes body))).
  intros expected. cbn zeta. destruct (String.eqb_spec secret ""); [split; [done|tauto]|].
  destruct (String.eqb_spec signature "") as [->|]; [split; [done|]; by intros (_ & [|] & ? & [=] & _)|].
  destruct (Cut signature equals_sign) as [[prefix sig]|] eqn:Hc.
  - apply Cut_Some in Hc as [-> Hp].
    destruct (String.eqb_spec sig "") as [->|Hs].
    { split; [done|]. intros (_ & prefix' & sig' & He & Hp' & Hne & _).
      by apply app_sep_inj in He as [-> <-]. }
    destruct (String.eqb_spec expected sig) as [->|Hne]; simpl.
    + split; [|done]. intros _. split; [done|]. by exists prefix, sig.
    + split; [done|]. intros (_ & prefix' & sig' & He & Hp' & _ & ->).
      by apply app_sep_inj in He as [_ <-].
  - split; [done|]. intros (_ & prefix & sig & -> & Hp & _). by rewrite Cut_app in Hc.
Qed.

(** A verified pull_request delivery with a payload. *)
Definition verified (req : webhook_request) (p : webhookPullRequestEvent) : Prop :=
  exists body, rq_body req = Some body /\ signed (rq_signature req) body /\
    rq_event req = "pull_request" /\ unmarshal_webhook body = Some p /\ we_HTMLURL p <> "".

(** The commands that can be sent: valid, and the codec encodes them. *)
Definition sendable (cmd : command) : Prop :=
  match cmd with
  | CTrigger cmd => Validate_trigger cmd = Ok tt /\ is_Some (ParseEvent_trigger cmd)
  | CStatus cmd => Validate_status cmd = Ok tt /\ is_Some (ParseEvent_status cmd)
  end.

(** One attempt to send, which reports [ok]; none for a command that cannot be
    sent, and that is a failure. *)
Definition attempted (cmd : command) (ok : bool) (l : list (command * bool)) : Prop :=
  sendable cmd /\ l = [(cmd, ok)] \/ ~ sendable cmd /\ l = [] /\ ok = false.

(** A status step that passed sent a command the consumer accepts. *)
Definition status_valid (p : webhookPullRequestEvent) : Prop :=
  statusActions (we_Action p) = true -> sendable (CStatus (status_cmd p)).

(** The push step of a dispatch: its verdict and the coalescer after it. *)
Definition pushed (p : webhookPullRequestEvent) (info : PRInfo) (now : DateTime) (c : coalescer)
    (r : bool * coalescer) : Prop :=
  if coalescingActions (we_Action p)
  then exists c0, finds c c0 /\ Push hold (info_key info) (we_SHA p) (we_HTMLURL p) now c0 = r
  else r = (true, c).

(** How a delivery ends: the answer, the commands sent, the coalescer before
    and after. *)
Inductive delivery (req : webhook_request) (c : coalescer)
  : http -> list (command * bool) -> coalescer -> Prop :=
| D_Unread : rq_body req = None -> delivery req c (Fail StatusBadRequest) [] c
| D_Rejected body e : rq_body req = Some body ->
    verifyWebhookSignature secret (rq_signature req) body = Err e ->
    delivery req c (Fail StatusUnauthorized) [] c
| D_Ignored : rq_event req <> "pull_request" -> delivery req c (Respond StatusOK) [] c
| D_Malformed : (forall p, ~ verified req p) -> delivery req c (Fail StatusBadRequest) [] c
| D_StatusFailed p l : verified req p -> statusActions (we_Action p) = true ->
    attempted (CStatus (status_cmd p)) false l ->
    delivery req c (Fail StatusBadGateway) l c
| D_Skipped p : verified req p -> status_valid p -> dispatchActions (we_Action p) = false ->
    delivery req c (Respond StatusOK) (status_sent p) c
| D_Coalesced p info now c' : verified req p -> status_valid p -> dispatchActions (we_Action p) = true ->
    ParsePRURL (we_HTMLURL p) = Ok info -> pushed p info now c (false, c') ->
    delivery req c (Respond StatusAccepted) (status_sent p) c'
| D_SendFailed p info now c' l : verified req p -> status_valid p -> dispatchActions (we_Action p) = true ->
    ParsePRURL (we_HTMLURL p) = Ok info -> pushed p info now c (true, c') ->
    attempted (CTrigger (trigger_cmd p)) false l ->
    delivery req c (Fail StatusBadGateway) (status_sent p ++ l) c'
| D_Sent p info now now' c' c0 : verified req p -> status_valid p -> dispatchActions (we_Action p) = true ->
    ParsePRURL (we_HTMLURL p) = Ok info -> pushed p info now c (true, c') ->
    finds c' c0 -> sendable (CTrigger (trigger_cmd p)) ->
    delivery req c (Respond StatusAccepted) (status_sent p ++ [(CTrigger (trigger_cmd p), true)])
      (MarkEmitted (info_key info) (we_SHA p) now' c0).

Lemma trigger_SendCommand_wp cmd w :
  wp (trigger_SendCommand (L:=L) cmd) (fun r s w' => same_state w w' /\ quiet s /\
    attempted (CTrigger cmd) (is_Ok r) (sends s)) w.
Proof.
  unfold trigger_SendCommand, attempted, sendable. destruct (Validate_trigger cmd) as [[]|] eqn:Hv.
  2:{ wp_steps. split; [frame|split; [done|right]]. split; [by intros [? _]|done]. }
  destruct (ParseEvent_trigger cmd) as [data|] eqn:Hp.
  2:{ wp_steps. split; [frame|split; [done|right]]. split; [by intros [_ [? ?]]|done]. }
  wp_steps. split; [frame|split; [done|left]]. split; [|done]. split; [done|by eexists].
Qed.

Lemma status_SendCommand_wp cmd w :
  wp (status_SendCommand (L:=L) cmd) (fun r s w' => same_state w w' /\ quiet s /\
    attempted (CStatus cmd) (is_Ok r) (sends s)) w.
Proof.
  unfold status_SendCommand, attempted, sendable. destruct (Validate_status cmd) as [[]|] eqn:Hv.
  2:{ wp_steps. split; [frame|split; [done|right]]. split; [by intros [? _]|done]. }
  destruct (ParseEvent_status cmd) as [data|] eqn:Hp.
  2:{ wp_steps. split; [frame|split; [done|right]]. split; [by intros [_ [? ?]]|done]. }
  wp_steps. split; [frame|split; [done|left]]. split; [|done]. split; [done|by eexists].
Qed.

(** A valid status command names a head. *)
Lemma status_sendable_payload p : sendable (CStatus (status_cmd p)) -> we_HTMLURL p <> "" /\ we_SHA p <> "".
Proof.
  intros [Hv _]. unfold Validate_status, validate_url in Hv. simpl in Hv.
  destruct (we_HTMLURL p =?s "") eqn:?; [done|]. destruct (ParsePRURL _) as [info|]; [|done].
  destruct (pi_Platform info =?s _); [|done]. destruct (we_SHA p =?s "") eqn:?; [done|]. by bool_props.
Qed.

Lemma postDoNotMergeStatus_wp p w :
  wp (postDoNotMergeStatus (L:=L) p) (fun r s w' => same_state w w' /\ quiet s /\
    if is_Ok r then sends s = status_sent p /\ status_valid p
    else statusActions (we_Action p) = true /\ attempted (CStatus (status_cmd p)) false (sends s)) w.
Proof.
  unfold postDoNotMergeStatus, sendDoNotMergeStatus, status_sent, status_valid.
  destruct (statusActions (we_Action p)) eqn:Ha; cbn [negb]; cbn iota.
  2:{ wp_steps. split; [frame|split; [done|]]. by simpl. }
  wp_step.
  { wp_steps. split; [frame|split; [done|]]. split; [done|right]. split; [|done].
    intros [? ?]%status_sendable_payload. apply orb_true_iff in Heqb as [?|?]; by bool_props. }
  wp_use status_SendCommand_wp. intros r s w' (Hw & Hq & H). split; [done|split; [done|]].
  destruct (is_Ok r); [|by split]. by destruct H as [[? ?]|(_ & _ & ?)].
Qed.

Lemma status_valid_info p : sendable (CStatus (status_cmd p)) ->
  exists info, ParsePRURL (we_HTMLURL p) = Ok info /\ pi_Platform info = PlatformGitHub.
Proof.
  intros [H _]. unfold Validate_status, validate_url in H. simpl in H.
  destruct (we_HTMLURL p =?s ""); [done|]. destruct (ParsePRURL (we_HTMLURL p)) as [info|]; [|done].
  exists info. split; [done|]. destruct (pi_Platform info =?s PlatformGitHub) eqn:Hq; [by bool_props|done].
Qed.

Lemma shouldDispatch_wp p info w : ParsePRURL (we_HTMLURL p) = Ok info ->
  wp (shouldDispatch hold p) (fun r s w' => quiet s /\ db w' = db w /\ sends s = [] /\
    exists now b, r = Ok (info_key info, b) /\ pushed p info now (coal w) (b, coal w')) w.
Proof.
  intros Hp. unfold shouldDispatch, pushed. rewrite Hp.
  destruct (coalescingActions (we_Action p)); cbn [negb]; cbn iota.
  2:{ wp_steps. split_and!; [done|done|done|]. by exists dt_zero, true. }
  do 2 wp_step. rename a into now. wp_step. wp_step.
  match goal with H : finds _ _ |- _ => rename H into Hc end. change (coal (set_env e _ w)) with (coal w) in Hc.
  destruct (Push _ _ _ _ _ _) as [b c'] eqn:Hpush; simpl fst; destruct b; cbn iota; wp_steps;
    (split_and!; [done|done|done|]); exists now; eexists; (split; [done|]); eexists; (split; [exact Hc|]);
    by rewrite Hpush.
Qed.

Lemma dispatchReview_wp start p key w :
  wp (dispatchReview (L:=L) start p key) (fun r s w' => quiet s /\ db w' = db w /\
    (r = Fail StatusBadGateway /\ coal w' = coal w /\ attempted (CTrigger (trigger_cmd p)) false (sends s) \/
     r = Respond StatusAccepted /\ attempted (CTrigger (trigger_cmd p)) true (sends s) /\
       exists now c, finds (coal w) c /\ coal w' = MarkEmitted key (we_SHA p) now c)) w.
Proof.
  unfold dispatchReview, writeWebhookDispatched. wp_step. wp_use trigger_SendCommand_wp. intros r s w' ((e & t & ->) & [Hc Hw] & H).
  destruct r as [[]|er]; simpl in H; wp_steps.
  - split; [by seg|]. split; [done|]. right. split; [done|]. split; [|by do 2 eexists].
    rewrite !sends_app. by rewrite app_nil_r.
  - rewrite app_nil_r. split; [by seg|]. split; [done|]. by left.
Qed.

Lemma webhook_wp req w :
  wp (webhook_ServeHTTP (L:=L) hold secret req) (fun r s w' => quiet s /\ db w' = db w /\
    delivery req (coal w) r (sends s) (coal w')) w.
Proof.
  unfold webhook_ServeHTTP, writeWebhookAck. do 2 wp_step. rename a into start.
  destruct (rq_body req) as [body|] eqn:Hb; [|wp_steps; split; [done|split; [done|by apply D_Unread]]].
  destruct (verifyWebhookSignature _ _ body) as [[]|er] eqn:Hv;
    [|wp_steps; split; [done|split; [done|by eapply D_Rejected]]].
  destruct (rq_event req =?s "ping") eqn:Hping.
  { wp_steps. split; [done|split; [done|]]. apply D_Ignored. bool_props. by rewrite Hping. }
  wp_step; [wp_steps; split; [done|split; [done|]]; apply D_Ignored; by bool_props|]. bool_props.
  unfold handlePullRequest, writeWebhookAck. destruct (unmarshal_webhook body) as [p|] eqn:Hp.
  2:{ wp_steps. split; [done|split; [done|]]. apply D_Malformed. intros p (b & ? & _ & _ & ? & _). congruence. }
  wp_step; [wp_steps; split; [done|split; [done|]]; apply D_Malformed; bool_props;
    intros p' (b & ? & _ & _ & ? & ?); congruence|].
  assert (verified req p) as Hver.
  { exists body. bool_props. apply verifyWebhookSignature_spec in Hv. by split_and!. }
  wp_step. wp_use postDoNotMergeStatus_wp. intros r s1 w1 ((e1 & t1 & ->) & [Hc1 Hw1] & H1).
  destruct r as [[]|er]; simpl in H1.
  2:{ wp_steps. rewrite app_nil_r, sends_app. split; [by seg|split; [done|]]. destruct H1 as [Ha H1].
      by eapply D_StatusFailed. }
  destruct H1 as [Hs1 Hinfo].
  wp_step.
  { wp_steps. split; [by seg|split; [done|]]. rewrite !sends_app, Hs1. simpl. rewrite app_nil_r.
    apply D_Skipped; [done|done|by bool_props]. }
  bool_props. destruct (status_valid_info p) as (info & Hi & _); [by apply Hinfo, dispatch_is_status|].
  wp_step. wp_use shouldDispatch_wp; [exact Hi|].
  intros r s2 w2 ([Hc2 Hw2] & Hdb2 & Hs2 & now & b & -> & Hpush).
  change (coal (set_env e1 t1 (set_env e (trace w ++ [Ev Now start]) w))) with (coal w) in Hpush.
  destruct b; simpl in *.
  - wp_use dispatchReview_wp. intros r s3 w3 ([Hc3 Hw3] & Hdb3 & H3).
    split; [by seg|]. split; [by rewrite Hdb3, Hdb2|].
    change (Ev Now start :: s1 ++ s2 ++ s3) with ([Ev Now start] ++ s1 ++ s2 ++ s3).
    rewrite !sends_app, Hs1, Hs2. simpl.
    destruct H3 as [(-> & -> & H3)|(-> & [[Hsd ->]|(_ & _ & [=])] & now' & c0 & Hc0 & ->)].
    + by eapply D_SendFailed.
    + by eapply D_Sent.
  - unfold writeWebhookDispatched. wp_steps.
    change (Ev Now start :: s1 ++ s2 ++ []) with ([Ev Now start] ++ s1 ++ s2 ++ []).
    rewrite !sends_app, Hs1, Hs2, !app_nil_r. simpl. split; [by seg|]. split; [by rewrite Hdb2|].
    by eapply D_Coalesced.
Qed.
Lemma verified_unique req p p' : verified req p -> verified req p' -> p = p'.
Proof. intros (b & ? & _ & _ & ? & _) (b' & ? & _ & _ & ? & _). congruence. Qed.

(** (C17) Only a verified delivery acts, and it acts as its payload says. A
    webhook request whose body does not carry the HMAC of the configured
    secret, or that is not a pull_request event with a payload, sends nothing
    and leaves the coalescer alone. A verified one whose action cannot change
    the status does not either. Any other makes one attempt to send the status
    command of its payload. When Kafka did not take it, that is all, and the
    answer is a 502. When Kafka took it, an action that asks for a review pushes
    the head to the coalescer, and when that lets it through makes one attempt
    to send the review command; the head is claimed exactly when Kafka took
    that, and the answer is a 502 otherwise. Nothing else is sent. *)
Theorem only_verified_acts req w :
  wp (webhook_ServeHTTP (L:=L) hold secret req) (fun r s w' =>
    quiet s /\ db w' = db w /\
    ((forall p, ~ verified req p) /\ sends s = [] /\ coal w' = coal w \/
     exists p, verified req p /\
       if statusActions (we_Action p) then exists posted l1 l2,
         sends s = l1 ++ l2 /\ attempted (CStatus (status_cmd p)) posted l1 /\
         if posted && dispatchActions (we_Action p) then exists info now through c',
           ParsePRURL (we_HTMLURL p) = Ok info /\ pushed p info now (coal w) (through, c') /\
           if through : bool then exists sent, attempted (CTrigger (trigger_cmd p)) sent l2 /\
             if sent : bool then exists now' c0, finds c' c0 /\ coal w' = MarkEmitted (info_key info) (we_SHA p) now' c0
             else r = Fail StatusBadGateway /\ coal w' = c'
           else l2 = [] /\ coal w' = c'
         else l2 = [] /\ coal w' = coal w /\ (posted = false -> r = Fail StatusBadGateway)
       else sends s = [] /\ coal w' = coal w)) w.
Proof.
  wp_use webhook_wp. intros r s w' (Hq & Hdb & Hd). split; [done|split; [done|]].
  remember (sends s) as l. remember (coal w') as c'. destruct Hd as [Hb|body e Hb He|Hev|Hn|p l Hv Ha Hl|p Hv Hsv Ha|p info now c' Hv Hsv Ha Hi Hp|
    p info now c' l Hv Hsv Ha Hi Hp Hl|p info now now' c' c0 Hv Hsv Ha Hi Hp Hc0 Hsd];
    try (left; split_and!; [|done|done]); try (right; exists p; split; [done|]).
  - intros p (? & ? & _). congruence.
  - intros p (? & ? & Hs & _). apply verifyWebhookSignature_spec in Hs. congruence.
  - intros p (? & _ & _ & ? & _). done.
  - done.
  - rewrite Ha. exists false, l, []. rewrite app_nil_r. by split_and!.
  - unfold status_sent. destruct (statusActions (we_Action p)) eqn:Hs; [|done].
    exists true, [(CStatus (status_cmd p), true)], []. rewrite Ha. split_and!; try done. left. by split; [apply Hsv|].
  - unfold status_sent. rewrite (dispatch_is_status _ Ha). exists true, [(CStatus (status_cmd p), true)], [].
    rewrite Ha. split_and!; [done|left; by split; [apply Hsv, dispatch_is_status|]|]. exists info, now, false, c'. by split_and!.
  - unfold status_sent. rewrite (dispatch_is_status _ Ha). exists true, [(CStatus (status_cmd p), true)], l.
    rewrite Ha. split_and!; [done|left; by split; [apply Hsv, dispatch_is_status|]|]. exists info, now, true, c'.
    split_and!; [done|done|]. by exists false.
  - unfold status_sent. rewrite (dispatch_is_status _ Ha).
    exists true, [(CStatus (status_cmd p), true)], [(CTrigger (trigger_cmd p), true)].
    rewrite Ha. split_and!; [done|left; by split; [apply Hsv, dispatch_is_status|]|]. exists info, now, true, c'.
    split_and!; [done|done|]. exists true. split; [by left|]. by exists now', c0.
Qed.

(** (C18) An acknowledged delivery is not lost. When a verified delivery is
    answered with success, the status command of an action that can change
    the status reached Kafka, and for an action that asks for a review either
    the review command reached Kafka and its head is claimed, or the
    coalescer took the push and refused it a dispatch of its own. *)
Theorem acknowledged_not_lost req p w :
  verified req p ->
  wp (webhook_ServeHTTP (L:=L) hold secret req) (fun r s w' => forall code, r = Respond code ->
    (statusActions (we_Action p) = true -> (CStatus (status_cmd p), true) ∈ sends s) /\
    (dispatchActions (we_Action p) = true ->
       exists info now, ParsePRURL (we_HTMLURL p) = Ok info /\
         ((CTrigger (trigger_cmd p), true) ∈ sends s /\
            (exists now' c', coal w' = MarkEmitted (info_key info) (we_SHA p) now' c') \/
          coalescingActions (we_Action p) = true /\ exists c, finds (coal w) c /\
            Push hold (info_key info) (we_SHA p) (we_HTMLURL p) now c = (false, coal w')))) w.
Proof.
  intros Hv. wp_use webhook_wp. intros r s w' (_ & _ & Hd) code ->.
  assert (forall p', verified req p' -> p' = p) as Hu by (intros; by eapply verified_unique).
  remember (Respond code) as o. remember (sends s) as l. remember (coal w') as c'. unfold status_sent in Hd.
  destruct Hd as [?|? ? ? ?|?|?|p' l Hv' Ha Hl|p' Hv' ? Ha|p' info now c' Hv' ? Ha Hi Hp|p' info now c' l Hv' ? Ha Hi Hp Hl|
    p' info now now' c' c0 Hv' ? Ha Hi Hp Hc0 ?]; try discriminate.
  - destruct Hv as (? & _ & _ & ? & _). done.
  - apply Hu in Hv' as ->. rewrite Ha. split; [|done]. intros Hs. unfold status_sent. rewrite Hs. by left.
  - apply Hu in Hv' as ->. split; [intros Hs; unfold status_sent; rewrite Hs; by left|]. intros _.
    exists info, now. split; [done|]. right. unfold pushed in Hp.
    destruct (coalescingActions (we_Action p)); [|done]. by split.
  - apply Hu in Hv' as ->. split; [intros Hs; unfold status_sent; rewrite Hs; by left|]. intros _.
    exists info, now. split; [done|]. left. split; [|by exists now', c0].
    rewrite elem_of_app. right. by left.
Qed.

Lemma Blocked_spec cmd : Blocked cmd = bool_decide (DoNotMergeLabel ∈ sc_Labels cmd).
Proof.
  apply Bool.eq_iff_eq_true. unfold Blocked. rewrite existsb_exists, bool_decide_eq_true. split.
  - intros (l & Hl & He). bool_props. subst. by apply list_elem_of_In.
  - intros H. exists DoNotMergeLabel. split; [by apply list_elem_of_In|]. by bool_props.
Qed.

(** A delivery's status commands that reached Kafka come from its payload. *)
Lemma status_from_payload req c o l c' cmd :
  delivery req c o l c' -> ((CStatus cmd, true) ∈ l) ->
  exists p, verified req p /\ cmd = status_cmd p /\ sendable (CStatus (status_cmd p)).
Proof.
  intros Hd Hin.
  assert (forall p, status_valid p -> ((CStatus cmd, true) ∈ status_sent p) ->
            cmd = status_cmd p /\ sendable (CStatus (status_cmd p))) as Hs.
  { intros p Hv. unfold status_valid, status_sent in *. destruct (statusActions _).
    - intros [= ->]%list_elem_of_singleton. auto.
    - by intros ?%not_elem_of_nil. }
  destruct Hd; try (by apply not_elem_of_nil in Hin); try (exists p; split; [done|]; by apply Hs).
  - by destruct H1 as [[_ ->]|(_ & -> & _)]; [apply list_elem_of_singleton in Hin|apply not_elem_of_nil in Hin].
  - apply elem_of_app in Hin as [Hin|Hin]; [exists p; split; [done|]; by apply Hs|].
    by destruct H4 as [[_ ->]|(_ & -> & _)]; [apply list_elem_of_singleton in Hin|apply not_elem_of_nil in Hin].
  - apply elem_of_app in Hin as [Hin|Hin]; [exists p; split; [done|]; by apply Hs|].
    by apply list_elem_of_singleton in Hin.
Qed.

(** (C30) The label decides the merge gate. A status command a webhook
    delivery got into Kafka, decoded by the consumer from what was encoded,
    makes exactly one attempt to post a commit status, on the delivered head
    of the PR the payload names: a failure exactly when the delivered labels
    have the blocking one, a success otherwise. The consumer reports success
    exactly when GitHub took it, and writes nothing else. *)
Theorem label_decides_gate `{LL : !PayloadLaws L} req w :
  wp (webhook_ServeHTTP (L:=L) hold secret req) (fun r s w' =>
    forall cmd, ((CStatus cmd, true) ∈ sends s) -> exists p info, verified req p /\
      ParsePRURL (we_HTMLURL p) = Ok info /\ pi_Platform info = PlatformGitHub /\
      forall data w2, ParseEvent_status cmd = Some data ->
        wp (runSetDoNotMergeStatus data) (fun r2 s2 w2' => same_state w2 w2' /\ creates s2 = [] /\
          exists posted, (posted = true <-> r2 = None) /\
          writes s2 = [(WPostCommitStatus (pi_Owner info) (pi_Repo info) (we_SHA p)
            (if bool_decide (DoNotMergeLabel ∈ we_Labels p) then CommitStateFailure else CommitStateSuccess)
            DoNotMergeStatusContext, posted)]) w2) w.
Proof.
  wp_use webhook_wp. intros r s w' (_ & _ & Hd) cmd Hin.
  destruct (status_from_payload _ _ _ _ _ _ Hd Hin) as (p & Hv & -> & Hval).
  destruct (status_valid_info p Hval) as (info & Hi & Hplat).
  exists p, info. split_and!; [done..|]. intros data w2 Hdata.
  unfold runSetDoNotMergeStatus. rewrite (status_roundtrip _ _ Hdata), (proj1 Hval). simpl sc_URL. rewrite Hi.
  do 2 wp_step. wp_step. split; [frame|]. split; [done|]. exists (is_Ok a).
  rewrite Blocked_spec. split; [|done].
  by destruct a as [[]|[]].
Qed.
End proofs.

(** ** A concrete delivery *)

(** A new head of a labelled PR. *)
Definition demo_payload : webhookPullRequestEvent :=
  mkWebhookEvent "synchronize" "https://github.com/bborbe/errors/pull/7" "0123abcd" ["do-not-merge"].

#[export] Instance demo_webhook_codec : WebhookCodec :=
  {| unmarshal_webhook body := if body =?s "{}" then Some demo_payload else None |}.

Definition demo_request : webhook_request :=
  mkWebhookRequest (Some "{}")
    ("sha256=" +:+ hex_encode (hmac_sha256 (string_bytes "key") (string_bytes "{}")))
    "pull_request".

Lemma demo_verified : verified "key" demo_request demo_payload.
Proof.
  exists "{}". split_and!; try (vm_compute; reflexivity); [|done].
  apply verifyWebhookSignature_spec. vm_compute. reflexivity.
Qed.

(** It is accepted, its review command is sent and its head claimed. *)
Lemma acknowledged_not_lost_witness :
  let w := demo_start demo_opted_in demo_bump in
  fst (runM (webhook_ServeHTTP (5 * Minute) "key" demo_request) w) = Respond StatusAccepted /\
  exists s, trace (snd (runM (webhook_ServeHTTP (5 * Minute) "key" demo_request) w)) = trace w ++ s /\
    ((CStatus (status_cmd demo_payload), true) ∈ sends s).
Proof.
  cbn zeta. split; [vm_compute; reflexivity|].
  destruct (proj1 (wp_alone _ _ _) (acknowledged_not_lost (5 * Minute) "key" demo_request demo_payload
    (demo_start demo_opted_in demo_bump) demo_verified)) as (s & Ht & H).
  exists s. split; [exact Ht|]. apply (H StatusAccepted); vm_compute; reflexivity.
Defined.

(** Its label makes the consumer post a failure. *)
Lemma label_decides_gate_witness :
  exists s cmd, ((CStatus cmd, true) ∈ sends s) /\
    trace (snd (runM (webhook_ServeHTTP (5 * Minute) "key" demo_request)
      (demo_start demo_opted_in demo_bump))) = s /\
    exists p info, verified "key" demo_request p /\ ParsePRURL (we_HTMLURL p) = Ok info /\
      bool_decide (DoNotMergeLabel ∈ we_Labels p) = true.
Proof.
  destruct (proj1 (wp_alone _ _ _) (label_decides_gate (5 * Minute) "key" demo_request
    (demo_start demo_opted_in demo_bump))) as (s & Ht & H).
  assert ((CStatus (status_cmd demo_payload), true) ∈ sends s) as Hin.
  { apply (app_inv_head (trace (demo_start demo_opted_in demo_bump))) in Ht. subst s.
    vm_compute. by left. }
  destruct (H _ Hin) as (p & info & Hv & Hi & _). exists s, (status_cmd demo_payload).
  split; [exact Hin|]. split; [exact Ht|]. exists p, info. split; [exact Hv|]. split; [exact Hi|].
  by rewrite (verified_unique _ _ _ _ Hv demo_verified).
Defined.

(** The consumer may give a deferred head back before the handler that sent
    its command claims it: the claim then stands, and the poll finds the head
    settled though nothing was published for it. *)
Example release_before_claim_strands :
  let k := mkKey "bborbe" "errors" 7 in
  fst (Admit (5 * Minute) k "0123abcd" 6 7
         (MarkEmitted k "0123abcd" 5 (Release k "0123abcd" (NewCoalescer 5)))) = Settled.
Proof. vm_compute. reflexivity. Qed.
