(* ===== verification/GoPath.v ===== *)
(** * GoPath: the parts of the Go packages path, strconv and time the client
    and the configuration use *)
From S2P Require Import Prelude GoStrings.
From Stdlib Require Import Ascii.
Local Open Scope Z_scope.

(** ** [path] *)
Definition slash : ascii := "/"%char.

(** [path.Split]: up to and including the last slash, and the rest. *)
Fixpoint path_Split (p : string) : string * string :=
  match p with
  | EmptyString => ("", "")
  | String c p' =>
      let '(dir, file) := path_Split p' in
      if (dir =?s "") && negb (Ascii.eqb c slash) then ("", String c file)
      else (String c dir, file)
  end.

(** One element of [path.Clean]; the elements kept are on a stack. *)
Definition clean_step (rooted : bool) (stack : list string) (elem : string) : list string :=
  if (elem =?s "") || (elem =?s ".") then stack
  else if elem =?s ".." then
    match stack with
    | [] => if rooted then [] else [".."]
    | top :: rest => if top =?s ".." then ".." :: stack else rest
    end
  else elem :: stack.

Definition Clean (p : string) : string :=
  let rooted := HasPrefix p "/" in
  let elems := rev (foldl (clean_step rooted) [] (Split p slash)) in
  let body := Join elems "/" in
  if rooted then "/" +:+ body else if body =?s "" then "." else body.

Example Clean_examples :
  map Clean ["https://api.github.com/repos/o/"; ""; "a/../../b"; "/../a//b/."; "a/.."] =
  ["https:/api.github.com/repos/o"; "."; "../b"; "/a/b"; "."].
Proof. reflexivity. Qed.
Example path_Split_examples :
  map path_Split ["a/b/c"; "c"; "a/"; ""] = [("a/b/", "c"); ("", "c"); ("a/", ""); ("", "")].
Proof. reflexivity. Qed.

Lemma path_Split_app d f : ~ In slash (bytes_of f) ->
  path_Split (d +:+ String slash f) = (d +:+ String slash "", f).
Proof.
  intros Hf. induction d as [|c d IH]; rewrite ?string_app_nil_l, ?string_app_cons; simpl.
  - assert (path_Split f = ("", f)) as ->; [|done].
    induction f as [|c f IHf]; simpl in *; [done|]. rewrite IHf by tauto.
    destruct (Ascii.eqb_spec c slash); [tauto|done].
  - rewrite IH. by destruct d.
Qed.

(** ** [strconv] *)

(** [strconv.Atoi]: an optional sign and digits, within the integers. *)
Fixpoint digits_value (l : list ascii) (acc : Z) : option Z :=
  match l with
  | [] => Some acc
  | c :: l' => if is_digit c then digits_value l' (10 * acc + (bcode c - 48)) else None
  end.
Definition Atoi (s : string) : option Z :=
  let '(neg, digits) :=
    match bytes_of s with
    | c :: l => if Ascii.eqb c "-" then (true, l) else if Ascii.eqb c "+" then (false, l) else (false, c :: l)
    | [] => (false, [])
    end in
  match digits with
  | [] => None
  | _ =>
      match digits_value digits 0 with
      | None => None
      | Some n =>
          let n := if (neg : bool) then - n else n in
          if (int_min <=? n) && (n <=? int_max) then Some n else None
      end
  end.

(** ** [time.RFC3339] *)

(** The local zone a time value carries, in seconds east of UTC. *)
Class Zone : Type := { zone_offset : DateTime -> Z }.

Definition pad (width : nat) (n : Z) : string :=
  let s := Itoa n in of_bytes (repeat "0"%char (width - String.length s) ++ bytes_of s).

(** Year, month and day of a count of days since 0000-03-01. *)
Definition civil (days : Z) : Z * Z * Z :=
  let era := days / 146097 in
  let doe := days mod 146097 in
  let yoe := (doe - doe / 1460 + doe / 36524 - doe / 146096) / 365 in
  let doy := doe - (365 * yoe + yoe / 4 - yoe / 100) in
  let mp := (5 * doy + 2) / 153 in
  let month := if mp <? 10 then mp + 3 else mp - 9 in
  (yoe + 400 * era + (if month <=? 2 then 1 else 0), month, doy - (153 * mp + 2) / 5 + 1).

(** Instants count from 0001-01-01, 306 days after 0000-03-01. *)
Definition FormatRFC3339 (offset : Z) (t : DateTime) : string :=
  let s := t / Second + offset in
  let '(y, m, d) := civil (s / 86400 + 306) in
  let sod := s mod 86400 in
  let zone := Z.quot offset 60 in
  pad 4 y +:+ "-" +:+ pad 2 m +:+ "-" +:+ pad 2 d +:+ "T"
    +:+ pad 2 (sod / 3600) +:+ ":" +:+ pad 2 (sod / 60 mod 60) +:+ ":" +:+ pad 2 (sod mod 60)
    +:+ (if offset =? 0 then "Z"
         else (if zone <? 0 then "-" else "+") +:+ pad 2 (Z.abs zone / 60) +:+ ":"
              +:+ pad 2 (Z.abs zone mod 60)).

Example FormatRFC3339_examples :
  [FormatRFC3339 0 0; FormatRFC3339 0 (63906000000 * Second + 999);
   FormatRFC3339 (-5400) (62135596800 * Second); FormatRFC3339 0 (63844847999 * Second)] =
  ["0001-01-01T00:00:00Z"; "2026-02-06T18:40:00Z"; "1969-12-31T22:30:00-01:30"; "2024-02-29T23:59:59Z"].
Proof. vm_compute. reflexivity. Qed.

(** ** [time.ParseDuration] *)

(** A positive rational rounded to a float64, the nearest with a 53-bit
    significand, ties to even: the pair [(m, e)] is [m * 2^e]. *)
Definition round_even (n d : Z) : Z :=
  let q := n / d in
  let r := 2 * (n mod d) in
  if r <? d then q else if d <? r then q + 1 else if Z.even q then q else q + 1.
Definition float64 (n d : Z) : Z * Z :=
  let e0 := Z.log2 n - Z.log2 d - 52 in
  let scaled e := if 0 <=? e then (n, d * 2 ^ e) else (n * 2 ^ (- e), d) in
  let '(a, b) := scaled e0 in
  let e := if a / b <? 2 ^ 52 then e0 - 1 else e0 in
  let '(a, b) := scaled e in
  (round_even a b, e).
(** Its value as a fraction, and [uint64] of it. *)
Definition float_num (f : Z * Z) : Z := fst f * 2 ^ Z.max 0 (snd f).
Definition float_den (f : Z * Z) : Z := 2 ^ Z.max 0 (- snd f).

(** [uint64(float64(f) * (float64(unit) / scale))]; a unit and a scale are
    exact floats. *)
Definition fraction_value (f unit scale : Z) : Z :=
  if f =? 0 then 0
  else
    let a := float64 f 1 in
    let b := float64 unit scale in
    let p := float64 (float_num a * float_num b) (float_den a * float_den b) in
    float_num p / float_den p.

(** [leadingInt]: the digits at the front, unless their value passes 2^63. *)
Fixpoint leadingInt (l : list ascii) (x : Z) : option (Z * list ascii) :=
  match l with
  | c :: l' =>
      if is_digit c then
        if 2 ^ 63 / 10 <? x then None
        else
          let x := 10 * x + (bcode c - 48) in
          if 2 ^ 63 <? x then None else leadingInt l' x
      else Some (x, l)
  | [] => Some (x, [])
  end.

(** [leadingFraction]: the digits that fit, and the power of ten they are
    over; the rest of the digits is skipped. *)
Fixpoint leadingFraction (l : list ascii) (x scale : Z) (overflow : bool) : Z * Z * list ascii :=
  match l with
  | c :: l' =>
      if is_digit c then
        if overflow then leadingFraction l' x scale true
        else if (2 ^ 63 - 1) / 10 <? x then leadingFraction l' x scale true
        else
          let y := 10 * x + (bcode c - 48) in
          if 2 ^ 63 <? y then leadingFraction l' x scale true
          else leadingFraction l' y (10 * scale) false
      else (x, scale, l)
  | [] => (x, scale, [])
  end.

Fixpoint unit_span (l : list ascii) : list ascii * list ascii :=
  match l with
  | c :: l' =>
      if Ascii.eqb c "." || is_digit c then ([], l)
      else let '(u, rest) := unit_span l' in (c :: u, rest)
  | [] => ([], [])
  end.

(** The microsecond has three spellings. *)
Definition unit_value (u : string) : option Z :=
  if u =?s "ns" then Some 1
  else if (u =?s "us") || (u =?s of_bytes [byte 194; byte 181; byte 115])
          || (u =?s of_bytes [byte 206; byte 188; byte 115]) then Some 1000
  else if u =?s "ms" then Some (10 ^ 6)
  else if u =?s "s" then Some Second
  else if u =?s "m" then Some Minute
  else if u =?s "h" then Some Hour
  else None.

(** The terms of a duration; each consumes a byte at least. *)
Fixpoint duration_terms (fuel : nat) (l : list ascii) (d : Z) : option Z :=
  match fuel, l with
  | _, [] => Some d
  | O, _ => None
  | S fuel', c :: _ =>
      if negb (Ascii.eqb c "." || is_digit c) then None
      else
        match leadingInt l 0 with
        | None => None
        | Some (v, l1) =>
            let pre := negb (length l1 =? length l)%nat in
            let '(f, scale, l2, post) :=
              match l1 with
              | c :: l1' =>
                  if Ascii.eqb c "." then
                    let '(f, scale, l2) := leadingFraction l1' 0 1 false in
                    (f, scale, l2, negb (length l2 =? length l1')%nat)
                  else (0, 1, l1, false)
              | [] => (0, 1, l1, false)
              end in
            if negb pre && negb post then None
            else
              let '(u, rest) := unit_span l2 in
              match u with
              | [] => None
              | _ =>
                  match unit_value (of_bytes u) with
                  | None => None
                  | Some unit =>
                      if 2 ^ 63 / unit <? v then None
                      else
                        let v := v * unit + fraction_value f unit scale in
                        if 2 ^ 63 <? v then None
                        else if 2 ^ 63 <? d + v then None
                        else duration_terms fuel' rest (d + v)
                  end
              end
        end
  end.

Definition time_ParseDuration (s : string) : option Duration :=
  let '(neg, l) :=
    match bytes_of s with
    | c :: l => if Ascii.eqb c "-" then (true, l) else if Ascii.eqb c "+" then (false, l) else (false, c :: l)
    | [] => (false, [])
    end in
  match l with
  | [] => None
  | _ =>
      if of_bytes l =?s "0" then Some 0
      else
        match duration_terms (length l) l 0 with
        | None => None
        | Some d =>
            if (neg : bool) then Some (- d)
            else if int_max <? d then None else Some d
        end
  end.

Example time_ParseDuration_examples :
  map time_ParseDuration ["5m"; "1h30m"; "-1.5h"; "0"; "1.5"; ""; "1d"; "0.1s"; "9223372036854775808ns"; "3m"; ".s"] =
  [Some (5 * Minute); Some (90 * Minute); Some (-90 * Minute); Some 0; None; None; None;
   Some (10 ^ 8); None; Some (3 * Minute); None].
Proof. vm_compute. reflexivity. Qed.
