(* ===== verification/GitHubClient.v ===== *)
(** * GitHubClient: the GitHub client (pkg/githubclient.go)

    The methods the watcher, the scanner, the guard and the executors call,
    each over the calls it makes of go-github (file GitHubApi). An inner
    environment answers those; [client_serve] answers the outer requests by
    running the client, so that [client_env] is itself an environment and
    every property of the programs above holds of them over this client.

    A listing is followed page by page with a bound on the pages; [None]
    says that the bound was reached. *)
From S2P Require Import Prelude GoStrings GoPath Types GitHubApi SizeGate Commands World.
From Stdlib Require Import Ascii.
Local Open Scope Z_scope.

(** [maintainerconfig.Parse]: library code. *)
Class MaintainerParser : Type := { maintainer_Parse : string -> option MaintainerConfig }.

(** ** Errors *)

Definition isPermanentGitHubError (err : api_error) : bool :=
  match err with
  | ErrorResponse (Some code) =>
      (400 <=? code) && (code <? 500) && negb (code =? 408) && negb (code =? 429)
  | ErrorResponse None => false
  | OtherError _ => false
  end.

(** ** From the library's objects *)

Fixpoint label_loop (labels : list (option gh_label)) : list string :=
  match labels with
  | [] => []
  | label :: rest =>
      let name := GetName label in
      if negb (name =?s "") then name :: label_loop rest else label_loop rest
  end.
Definition labelNames (labels : list (option gh_label)) : list string :=
  match labels with [] => [] | _ => label_loop labels end.

Definition parseOwnerRepo (repoURL : string) : string * string :=
  let '(dir, repoName) := path_Split repoURL in
  let '(_, ownerName) := path_Split (Clean dir) in
  (ownerName, repoName).

Definition issue_pr (issue : gh_issue) : PullRequest :=
  let '(owner, repo) := parseOwnerRepo (get_str (is_RepositoryURL issue)) in
  mkPullRequest (get_int (is_ID issue)) (get_int (is_Number issue)) owner repo
    (get_str (is_Title issue)) (get_str (is_HTMLURL issue)) "" (GetLogin (is_User issue))
    (get_bool (is_Draft issue)) (get_time (is_UpdatedAt issue)) (labelNames (is_Labels issue)).

Definition pull_details (pr : gh_pull) : PRDetails :=
  mkPRDetails (GetSHA (gp_Head pr)) (GetCloneURL (gp_Base pr)) (GetRef (gp_Base pr))
    (GetRef (gp_Head pr)) (GetFullName (gp_Head pr)) (GetFullName (gp_Base pr))
    (GetLogin (gp_User pr)) (get_str (gp_Title pr)) (get_bool (gp_Draft pr))
    (get_time (gp_UpdatedAt pr)) (labelNames (gp_Labels pr)) (get_int (gp_Additions pr))
    (get_int (gp_ChangedFiles pr)) (get_str (gp_MergeableState pr)).

Definition pr_file (f : gh_file) : PRFile :=
  mkPRFile (get_str (gf_Filename f)) (get_str (gf_Patch f)) (get_int (gf_Additions f)).
Definition pr_review (r : gh_review) : Review :=
  mkReview (GetLogin (gr_User r)) (get_str (gr_CommitID r)).

(** [string(state)] *)
Definition commit_state (state : CommitState) : string :=
  match state with CommitStateSuccess => "success" | CommitStateFailure => "failure" end.

Definition api_failed {A} : result A := Err (ErrOther "github").

(** ** The client *)
Section client.
Context `{EN : Env E} {St : Type} `{UT : UnicodeTables} `{ZN : Zone} `{MP : MaintainerParser}.
Context (pages : nat).

(** The mapping loop of a search, cancelled between two issues. *)
Fixpoint issue_loop (issues : list gh_issue) (prs : list PullRequest)
  : M St (option (list PullRequest)) :=
  match issues with
  | [] => mret (Some prs)
  | issue :: rest =>
      done ← call CtxDone;
      if (done : bool) then mret None else issue_loop rest (prs ++ [issue_pr issue])
  end.

Definition searchIssuePRs (query : string) (page : Z) : M St (result SearchResult) :=
  r ← call (Api (SearchIssues query page 100));
  match r with
  | ApiErr _ _ => mret api_failed
  | ApiOk issues resp =>
      prs ← issue_loop issues [];
      mret match prs with
           | None => api_failed
           | Some prs =>
               Ok (mkSearchResult prs (0 <? rs_NextPage resp) (rs_NextPage resp)
                     (rs_RateRemaining resp) (rs_RateReset resp))
           end
  end.

Definition client_SearchPRs (scope : string) (since : DateTime) (page : Z)
  : M St (result SearchResult) :=
  searchIssuePRs ("is:pr is:open archived:false user:" +:+ scope +:+ " updated:>="
    +:+ FormatRFC3339 (zone_offset since) since) page.

Definition client_SearchLabeledPRs (scope label : string) (page : Z)
  : M St (result SearchResult) :=
  searchIssuePRs ("is:pr is:open archived:false user:" +:+ scope +:+ " label:" +:+ Quote label) page.

Definition client_SearchOpenPRs (scope : string) (page : Z) : M St (result SearchResult) :=
  searchIssuePRs ("is:pr is:open archived:false user:" +:+ scope) page.

Definition client_GetPRDetails (owner repo : string) (number : Z) : M St (result PRDetails) :=
  r ← call (Api (PullGet owner repo number));
  mret match r with
       | ApiErr _ _ => api_failed
       | ApiOk pr _ => Ok (pull_details pr)
       end.

Definition auto_merge_mutation : string :=
  "mutation($id:ID!){enablePullRequestAutoMerge(input:{pullRequestId:$id,mergeMethod:MERGE}){pullRequest{number}}}".

Definition client_EnableAutoMerge (owner repo : string) (number : Z) : M St (result unit) :=
  r ← call (Api (PullGet owner repo number));
  match r with
  | ApiErr _ _ => mret api_failed
  | ApiOk pr _ =>
      let nodeID := get_str (gp_NodeID pr) in
      if nodeID =?s "" then mret (Err (ErrOther "missing node id"))
      else
        r ← call (Api (GraphQL auto_merge_mutation nodeID));
        mret match r with
             | ApiErr _ _ => api_failed
             | ApiOk errs _ => if (0 <? length errs)%nat then api_failed else Ok tt
             end
  end.

Definition client_UpdateBranch (owner repo : string) (number : Z) : M St (result unit) :=
  r ← call (Api (PullUpdateBranch owner repo number));
  mret match r with ApiErr _ _ => api_failed | ApiOk _ _ => Ok tt end.

(** A failed comment is logged. *)
Definition client_ClosePR (owner repo : string) (number : Z) (comment : string)
  : M St (result unit) :=
  (if negb (comment =?s "") then call (Api (CreateComment owner repo number comment));; mret tt
   else mret tt);;
  r ← call (Api (PullEdit owner repo number "closed"));
  mret match r with ApiErr _ _ => api_failed | ApiOk _ _ => Ok tt end.

(** [resp != nil && resp.StatusCode == http.StatusNotFound] *)
Definition not_found (resp : option api_response) : bool :=
  match resp with Some resp => rs_StatusCode resp =? 404 | None => false end.

Definition client_GetMaintainerConfig (owner repo : string) : M St (result MaintainerConfig) :=
  r ← call (Api (GetContents owner repo ".maintainer.yaml"));
  mret match r with
       | ApiErr resp _ => if not_found resp then Ok (mkMaintainerConfig false false) else api_failed
       | ApiOk None _ => Err (ErrOther "decode .maintainer.yaml")
       | ApiOk (Some raw) _ =>
           match maintainer_Parse raw with
           | None => Err (ErrOther "parse .maintainer.yaml")
           | Some cfg => Ok cfg
           end
       end.

Definition client_GetReviewIgnore (owner repo : string) : M St (result (option matcher)) :=
  r ← call (Api (GetContents owner repo reviewignore_Filename));
  mret match r with
       | ApiErr resp _ => if not_found resp then Ok (Some (Parse "")) else api_failed
       | ApiOk None _ => Err (ErrOther "decode .reviewignore")
       | ApiOk (Some raw) _ => Ok (Some (Parse raw))
       end.

(** [for { ... opts.Page = resp.NextPage }], the loop of both listings. *)
Fixpoint list_pages {A B} (ask : Z -> api (api_result (list A))) (conv : A -> B) (fuel : nat)
    (page : Z) (acc : list B) : M St (option (result (list B))) :=
  match fuel with
  | O => mret None
  | S fuel' =>
      done ← call CtxDone;
      if (done : bool) then mret (Some api_failed)
      else
        r ← call (Api (ask page));
        match r with
        | ApiErr _ _ => mret (Some api_failed)
        | ApiOk items resp =>
            let acc := acc ++ (conv <$> items) in
            if rs_NextPage resp =? 0 then mret (Some (Ok acc))
            else list_pages ask conv fuel' (rs_NextPage resp) acc
        end
  end.

Definition client_ListPRFiles (owner repo : string) (number : Z)
  : M St (option (result (list PRFile))) :=
  list_pages (fun page => PullListFiles owner repo number page 100) pr_file pages 0 [].

Definition client_ListReviews (owner repo : string) (number : Z)
  : M St (option (result (list Review))) :=
  list_pages (fun page => PullListReviews owner repo number page 100) pr_review pages 0 [].

Definition client_AddLabel (owner repo : string) (number : Z) (label : string)
  : M St (result unit) :=
  r ← call (Api (AddLabelsToIssue owner repo number [label]));
  mret match r with ApiErr _ _ => api_failed | ApiOk _ _ => Ok tt end.

Definition client_PostCommitStatus (owner repo sha : string) (state : CommitState)
    (statusContext : string) : M St (result unit) :=
  r ← call (Api (CreateStatus owner repo sha (commit_state state) statusContext));
  mret match r with
       | ApiErr _ e => if isPermanentGitHubError e then Err ErrPermanent else api_failed
       | ApiOk _ _ => Ok tt
       end.

Definition client_GetRateLimitCoreRemaining : M St (result Z) :=
  r ← call (Api RateLimitGet);
  mret match r with ApiErr _ _ => api_failed | ApiOk n _ => Ok n end.

(** A listing longer than the bound answers an error here. *)
Definition bounded {A} (m : M St (option (result A))) : M St (result A) :=
  r ← m;
  mret match r with Some r => r | None => Err (ErrOther "pages") end.

(** A request of the programs above, answered by the client; the rest is
    passed on. *)
Definition client_serve {A : Type} (q : request A) : M St A :=
  match q in request A return M St A with
  | SearchPRs scope since page => client_SearchPRs scope since page
  | SearchLabeledPRs scope label page => client_SearchLabeledPRs scope label page
  | SearchOpenPRs scope page => client_SearchOpenPRs scope page
  | GetPRDetails o r n => client_GetPRDetails o r n
  | EnableAutoMerge o r n => client_EnableAutoMerge o r n
  | UpdateBranch o r n => client_UpdateBranch o r n
  | ClosePR o r n comment => client_ClosePR o r n comment
  | GetMaintainerConfig o r => client_GetMaintainerConfig o r
  | GetReviewIgnore o r => client_GetReviewIgnore o r
  | ListPRFiles o r n => bounded (client_ListPRFiles o r n)
  | ListReviews o r n => bounded (client_ListReviews o r n)
  | AddLabel o r n label => client_AddLabel o r n label
  | PostCommitStatus o r sha state ctx => client_PostCommitStatus o r sha state ctx
  | GetRateLimitCoreRemaining => client_GetRateLimitCoreRemaining
  | q => call q
  end.

(** The programs above run in this environment. *)
Definition client_env : Env (World E St) := {| serve A q e := runM (client_serve q) e |}.
End client.
