(* ===== verification/ClientProofs.v ===== *)
(** * ClientProofs: what the GitHub client makes of GitHub's answers

    The writes it makes for each write of the watcher, the listings it
    follows to their end, the owner and repository of a search hit, and the
    errors of a commit status up to the consumer that redelivers. *)
From S2P Require Import Prelude GoStrings GoPath Types GitHubApi SizeGate Commands World Executor ExecutorProofs GitHubClient DemoEnv MemDB.
From Stdlib Require Import Ascii.
Local Open Scope Z_scope.

(** ** Owner and repository *)

Lemma Split_app x y : Split (x +:+ String slash y) slash = Split x slash ++ Split y slash.
Proof.
  induction x as [|c x IH]; rewrite ?string_app_nil_l, ?string_app_cons; simpl; [done|].
  rewrite IH. destruct (Ascii.eqb c slash); [done|].
  destruct (Split x slash) as [|v vs] eqn:Hx; [by destruct (Split_nonempty x slash)|]. done.
Qed.

Lemma Split_word w : ~ In slash (bytes_of w) -> Split w slash = [w].
Proof.
  induction w as [|c w IH]; simpl; [done|]. intros Hw.
  destruct (Ascii.eqb_spec c slash) as [->|_]; [tauto|]. by rewrite IH by tauto.
Qed.

Lemma Join_snoc l x : Join (l ++ [x]) "/" = match l with [] => x | _ => Join l "/" +:+ String slash x end.
Proof.
  unfold Join. induction l as [|a l IH]; [done|]. simpl. destruct l as [|b l]; [done|].
  simpl in *. rewrite IH. by rewrite !string_app_assoc.
Qed.

(** A name GitHub gives an owner. *)
Definition path_name (w : string) : Prop :=
  ~ In slash (bytes_of w) /\ w <> "" /\ w <> "." /\ w <> "..".

Lemma Clean_last x w : path_name w -> snd (path_Split (Clean (x +:+ String slash (w +:+ "/")))) = w.
Proof.
  intros (Hw & Hne & Hd & Hdd). unfold Clean. rewrite Split_app.
  change (w +:+ "/") with (w +:+ String slash ""). rewrite Split_app, (Split_word w) by done.
  rewrite !foldl_app. simpl. unfold clean_step at 1 3.
  change (("" =?s "") || ("" =?s ".")) with true. cbn iota.
  set (rooted := HasPrefix _ _). set (stack := foldl _ _ (Split x slash)).
  assert (clean_step rooted stack w = w :: stack) as ->.
  { unfold clean_step. rewrite (proj2 (String.eqb_neq w "") Hne), (proj2 (String.eqb_neq w ".") Hd).
    by rewrite (proj2 (String.eqb_neq w "..") Hdd). }
  simpl rev. rewrite Join_snoc.
  assert (forall d, snd (path_Split (d +:+ String slash w)) = w) as Hp by (intros d; by rewrite path_Split_app).
  assert (snd (path_Split w) = w) as Hpw.
  { pose proof (path_Split_app "" w Hw) as H. rewrite !string_app_nil_l in H. simpl in H.
    destruct (path_Split w) as [d f]. destruct ((d =?s "") && _); by simplify_eq. }
  destruct (rev stack) as [|y ys]; destruct rooted; simpl.
  - apply (Hp "").
  - by rewrite (proj2 (String.eqb_neq w "") Hne).
  - rewrite <- string_app_assoc. apply (Hp ("/" +:+ _)).
  - destruct (_ =?s "") eqn:He; [|apply Hp]. exfalso. apply String.eqb_eq in He.
    apply (f_equal String.length) in He. rewrite string_app_length in He. simpl in He. lia.
Qed.

(** A search hit is attributed to its repository. The owner and the
    name read out of a repository URL are the last two elements of its path,
    for an owner without slashes that is neither empty nor a dot name, and a
    name without slashes. *)
Theorem parseOwnerRepo_roundtrip base owner repo :
  path_name owner -> ~ In slash (bytes_of repo) ->
  parseOwnerRepo (base +:+ "/" +:+ owner +:+ "/" +:+ repo) = (owner, repo).
Proof.
  intros Ho Hr. unfold parseOwnerRepo.
  change ("/" +:+ repo) with (String slash repo).
  rewrite <- !string_app_assoc, path_Split_app by done.
  rewrite !string_app_assoc. change ("/" +:+ (owner +:+ String slash "")) with (String slash (owner +:+ "/")).
  pose proof (Clean_last base owner Ho) as H. destruct (path_Split (Clean _)). simpl in H. by subst.
Qed.

Lemma parseOwnerRepo_roundtrip_witness :
  is_Number (mkGhIssue None (Some 7) (Some "https://api.github.com/repos/bborbe/errors") None None None None None [])
    = Some 7 /\
  parseOwnerRepo ("https://api.github.com/repos" +:+ "/" +:+ "bborbe" +:+ "/" +:+ "errors") = ("bborbe", "errors").
Proof.
  split; [reflexivity|]. apply parseOwnerRepo_roundtrip; [|by compute; intuition discriminate].
  split_and!; try done. compute. intuition discriminate.
Defined.

(** ** Listings *)
Section listing.
Context `{EN : Env E} {St : Type} {A B : Type}.
Context (ask : Z -> api (api_result (list A))) (conv : A -> B).
Implicit Types w : World E St.

(** The pages from [page] on, one request each, every one but the last
    announcing the next. *)
Inductive complete : Z -> list (list A) -> list event -> Prop :=
| C_last page items resp : rs_NextPage resp = 0 ->
    complete page [items] [Ev CtxDone false; Ev (Api (ask page)) (ApiOk items resp)]
| C_more page items resp pgs s : rs_NextPage resp <> 0 -> complete (rs_NextPage resp) pgs s ->
    complete page (items :: pgs)
      (Ev CtxDone false :: Ev (Api (ask page)) (ApiOk items resp) :: s).

(** GitHub numbers the pages upwards and has at most [n] of them. *)
Definition numbered (n : Z) : Prop :=
  forall page e, match fst (serve (Api (ask page)) e) with
    | ApiOk _ resp => rs_NextPage resp = 0 \/ page < rs_NextPage resp <= n
    | ApiErr _ _ => True
    end.

Lemma list_pages_wp n fuel page acc w :
  numbered n -> 0 <= page -> n + 1 - page <= Z.of_nat fuel -> (1 <= fuel)%nat ->
  wp (list_pages ask conv fuel page acc) (fun r s w' => same_state w w' /\ quiet s /\
    exists o, r = Some o /\
    match o with
    | Ok l => exists pgs, complete page pgs s /\ l = acc ++ (conv <$> concat pgs)
    | Err _ => (Ev CtxDone true ∈ s) \/ exists p resp e, Ev (Api (ask p)) (ApiErr resp e) ∈ s
    end) w.
Proof.
  intros Hn. revert page acc w. induction fuel as [|fuel IH]; intros page acc w Hp Hf H1; [lia|].
  cbn [list_pages]. do 2 wp_step. wp_step.
  { wp_steps. split; [frame|]. split; [done|]. eexists. split; [done|]. left. by left. }
  wp_step. eapply wp_serve; [reflexivity|]. intros e'. cbn beta.
  specialize (Hn page e) as Hpage. simpl env.
  destruct (fst (serve _ _)) as [items resp|resp er].
  2:{ wp_steps. split; [frame|]. split; [done|]. eexists. split; [done|]. right.
      exists page, resp, er. in_segment. }
  wp_step.
  { wp_steps. split; [frame|]. split; [done|]. eexists. split; [done|]. exists [items]. simpl. rewrite app_nil_r.
    bool_props. by split; [constructor|]. }
  bool_props. destruct Hpage as [?|Hpage]; [done|].
  wp_use IH; [lia..|]. intros r s w' (Hw & Hq & o & -> & H).
  split; [frame|]. split; [by seg|]. exists o. split; [done|]. destruct o as [l|er].
  - destruct H as (pgs & Hc & ->). exists (items :: pgs). split; [by constructor|].
    simpl. by rewrite fmap_app, app_assoc.
  - destruct H as [H|(p & rs & er' & H)]; [left|right; exists p, rs, er']; set_solver.
Qed.

(** (C33) Listings are exhaustive. When GitHub numbers the pages upwards and
    has at most [n], following a listing with room for [n + 1] pages ends,
    and with every item of every page in order, each page asked for by the
    number its predecessor announced and the last announcing none; or with an
    error, when the context was done or a page failed: never with a part. *)
Theorem listing_complete n w :
  0 <= n -> numbered n ->
  wp (list_pages ask conv (S (Z.to_nat n)) 0 []) (fun r s w' => same_state w w' /\ quiet s /\
    exists o, r = Some o /\
    match o with
    | Ok l => exists pgs, complete 0 pgs s /\ l = conv <$> concat pgs
    | Err _ => (Ev CtxDone true ∈ s) \/ exists p resp e, Ev (Api (ask p)) (ApiErr resp e) ∈ s
    end) w.
Proof. intros H0 Hn. apply (list_pages_wp n); [done|lia..]. Qed.
End listing.

(** ** Writes *)

(** The writes the client makes of GitHub's API, with whether they took. *)
Inductive api_write : Type :=
| AMutation (query id : string)
| AUpdateBranch (owner repo : string) (number : Z)
| AComment (owner repo : string) (number : Z) (body : string)
| AClose (owner repo : string) (number : Z) (state : string)
| ALabels (owner repo : string) (number : Z) (labels : list string)
| AStatus (owner repo sha state context : string).

Definition took {A} (r : api_result A) : bool :=
  match r with ApiOk _ _ => true | ApiErr _ _ => false end.

Definition api_write_of (ev : event) : list (api_write * bool) :=
  match ev with
  | Ev q a =>
      match q in request A return A -> list (api_write * bool) with
      | Api q =>
          match q in api A return A -> list (api_write * bool) with
          | GraphQL query id => fun r => [(AMutation query id, match r with ApiOk [] _ => true | _ => false end)]
          | PullUpdateBranch o r n => fun b => [(AUpdateBranch o r n, took b)]
          | CreateComment o r n c => fun b => [(AComment o r n c, took b)]
          | PullEdit o r n st => fun b => [(AClose o r n st, took b)]
          | AddLabelsToIssue o r n l => fun b => [(ALabels o r n l, took b)]
          | CreateStatus o r sha st c => fun b => [(AStatus o r sha st c, took b)]
          | _ => fun _ => []
          end
      | _ => fun _ => []
      end a
  end.

Definition api_writes (s : list event) : list (api_write * bool) := s ≫= api_write_of.

Lemma api_writes_app s t : api_writes (s ++ t) = api_writes s ++ api_writes t.
Proof. apply bind_app. Qed.
Lemma api_writes_cons ev s : api_writes (ev :: s) = api_write_of ev ++ api_writes s.
Proof. done. Qed.

(** The mutation of GitHub's GraphQL API that arms a pull request. *)
Definition arming_query : string :=
  "mutation($id:ID!){enablePullRequestAutoMerge(input:{pullRequestId:$id,mergeMethod:MERGE}){pullRequest{number}}}".

(** The node identifiers GitHub gave in a segment, with their pull requests. *)
Definition node_answer (ev : event) : list (string * string * Z * option string) :=
  match ev with
  | Ev q a =>
      match q in request A return A -> list (string * string * Z * option string) with
      | Api q =>
          match q in api A return A -> list (string * string * Z * option string) with
          | PullGet o r n => fun a => match a with ApiOk pr _ => [(o, r, n, gp_NodeID pr)] | ApiErr _ _ => [] end
          | _ => fun _ => []
          end
      | _ => fun _ => []
      end a
  end.
Definition nodes (s : list event) : list (string * string * Z * option string) := s ≫= node_answer.

(** The API writes of a segment that answered the request [q] with [a]. *)
Definition writes_for {A} (q : request A) (a : A) (s : list event) : Prop :=
  match q in request A return A -> Prop with
  | EnableAutoMerge o r n => fun a =>
      (exists id, id <> "" /\ nodes s = [(o, r, n, Some id)] /\ api_writes s = [(AMutation arming_query id, is_Ok a)]) \/
      (forall id, nodes s = [(o, r, n, Some id)] -> id = "") /\ is_Ok a = false /\ api_writes s = []
  | UpdateBranch o r n => fun a => api_writes s = [(AUpdateBranch o r n, is_Ok a)]
  | ClosePR o r n comment => fun a => exists b, api_writes s =
      (if decide (comment = "") then [] else [(AComment o r n comment, b)]) ++ [(AClose o r n "closed", is_Ok a)]
  | AddLabel o r n label => fun a => api_writes s = [(ALabels o r n [label], is_Ok a)]
  | PostCommitStatus o r sha state ctx => fun a => api_writes s =
      [(AStatus o r sha match state with CommitStateSuccess => "success" | CommitStateFailure => "failure" end ctx, is_Ok a)]
  | _ => fun _ => api_writes s = []
  end a.

(** A direct API call is not a request of the programs above. *)
Definition is_api {A} (q : request A) : bool :=
  match q with Api _ => true | _ => false end.

Section client.
Context `{EN : Env E} {St : Type} `{UT : UnicodeTables} `{ZN : Zone} `{MP : MaintainerParser}.
Context (pages : nat).
Implicit Types w : World E St.

(** What answering one request did. *)
Definition refined {A} (q : request A) (a : A) (s : list event) w (w' : World E St) : Prop :=
  same_state w w' /\ creates s = creates [Ev q a] /\ writes_for q a s.

Lemma no_write {A} (q : request A) a s w w' :
  quiet [Ev q a] -> same_state w w' -> creates s = [] -> api_writes s = [] -> refined q a s w w'.
Proof.
  intros [Hc Hw] ? ? ?. unfold refined. rewrite Hc. split_and!; [done|done|]. by destruct q.
Qed.

Lemma search_refined {A} (q : request A) (conv : result SearchResult -> A) query page w :
  (forall a, quiet [Ev q a]) ->
  wp (searchIssuePRs query page) (fun a s w' => refined q (conv a) s w w') w.
Proof.
  intros Hq. unfold searchIssuePRs. wp_step. wp_step.
  assert (forall issues prs w1, wp (issue_loop issues prs) (fun _ s w' => same_state w1 w' /\
    creates s = [] /\ api_writes s = []) w1) as Hloop.
  { induction issues as [|i issues IH]; intros prs w1; simpl; [wp_steps; by split; [frame|]|].
    do 2 wp_step. wp_step; [wp_steps; by split; [frame|]|].
    wp_use IH. intros r s w2 (? & Hs & Hs'). split; [frame|]. by rewrite creates_app, api_writes_app, Hs, Hs'. }
  wp_step.
  - wp_step. wp_use Hloop. intros r s w2 (? & Hs & Hs'). wp_steps; apply no_write; try done; try frame;
      rewrite ?creates_app, ?api_writes_app, ?Hs, ?Hs'; done.
  - wp_steps. by apply no_write; [|frame|..].
Qed.

Lemma pages_refined {A X B} (q : request A) (ask : Z -> api (api_result (list X))) (conv : X -> B) f w :
  (forall a, quiet [Ev q a]) ->
  (forall p r, api_write_of (Ev (Api (ask p)) r) = []) ->
  wp (list_pages ask conv pages 0 []) (fun a s w' => refined q (f a) s w w') w.
Proof.
  intros Hq Ha.
  assert (forall fuel page acc w1, wp (list_pages ask conv fuel page acc) (fun _ s w' => same_state w1 w' /\
    creates s = [] /\ api_writes s = []) w1) as Hloop.
  { induction fuel as [|fuel IH]; intros page acc w1; simpl; [wp_steps; by split; [frame|]|].
    do 2 wp_step. wp_step; [wp_steps; by split; [frame|]|].
    wp_step. wp_step. wp_step; [wp_step|]; wp_steps;
      try (split; [frame|]; cbn [app]; by rewrite !api_writes_cons, Ha).
    wp_use IH. intros r s w2 (? & Hs & Hs'). split; [frame|].
    cbn [app]. by rewrite !api_writes_cons, Ha, !creates_cons, Hs, Hs'. }
  wp_use Hloop. intros a s w' (? & ? & ?). by apply no_write.
Qed.

(** The segment of a write is its API write; the answer decides the report. *)
Ltac write_done :=
  split; [frame|split; [done|]]; cbn;
  repeat match goal with
  | r : api_result _ |- _ => destruct r; cbn
  | |- context [if isPermanentGitHubError ?e then _ else _] => destruct (isPermanentGitHubError e); cbn
  end.

(** (C32) The client makes the writes it is asked for. Answering a request of
    the programs above, the client hands Kafka what the request hands it,
    makes no write of GitHub's API for a request that is no write, and for a
    write exactly the one it stands for, reported as GitHub answered it: a
    pull request gets the comment that was asked for and is closed whatever
    becomes of the comment; auto-merge is armed by its mutation, on the node
    GitHub gave for that pull request and only with one, and only a mutation
    whose answer lists no error is reported done. *)
Theorem client_writes {A} (q : request A) w : is_api q = false ->
  wp (client_serve pages q) (fun a s w' => refined q a s w w') w.
Proof.
  intros Hq. destruct q; try done; cbn [client_serve];
    try (by apply search_refined with (conv := id));
    try (wp_step; by apply no_write; [|frame|..]).
  - unfold client_GetPRDetails. wp_steps; by apply no_write; [|frame|..].
  - unfold client_EnableAutoMerge. wp_steps; (split; [frame|split; [done|]]); cbn.
    + right. bool_props. split_and!; [|done|done]. intros id [= Hid]. by rewrite Hid in *.
    + left. bool_props. exists (get_str (gp_NodeID value)). split; [done|].
      split; [by destruct (gp_NodeID value)|by destruct a0 as [[|x errs] ?|? ?]].
    + right. by split_and!.
  - unfold client_UpdateBranch. wp_steps; by write_done.
  - unfold client_ClosePR. do 2 wp_step; wp_steps; bool_props; write_done; try done.
    all: try (by exists true; case_decide).
    all: try (by exists false; case_decide).
  - unfold client_GetMaintainerConfig. wp_steps; by apply no_write; [|frame|..].
  - unfold client_GetReviewIgnore. wp_steps; by apply no_write; [|frame|..].
  - unfold bounded, client_ListPRFiles. wp_step.
    wp_use (pages_refined (ListPRFiles owner repo number) _ _ (default (Err (ErrOther "pages")))); [done..|].
    intros o s w' H. wp_steps; by rewrite app_nil_r.
  - unfold bounded, client_ListReviews. wp_step.
    wp_use (pages_refined (ListReviews owner repo number) _ _ (default (Err (ErrOther "pages")))); [done..|].
    intros o s w' H. wp_steps; by rewrite app_nil_r.
  - unfold client_AddLabel. wp_steps; by write_done.
  - unfold client_PostCommitStatus. wp_steps; write_done; by destruct state.
  - unfold client_GetRateLimitCoreRemaining. wp_steps; by apply no_write; [|frame|..].
  - wp_step. by split; [frame|].
Qed.
End client.

(** ** The programs over the client *)
Section stack.
Context `{EN : Env E} {St St' : Type} `{UT : UnicodeTables} `{ZN : Zone} `{MP : MaintainerParser}
  `{PU : PRURL} `{L : Payloads Event}.
Context (pages : nat).

(** A request of an outer program is a run of the client underneath. *)
Lemma wp_client_call {A} (q : request A) P (Q : A -> list event -> World (World E St) St' -> Prop) w :
  wp (client_serve pages q) P (env w) ->
  (forall a s e, trace e = trace (env w) ++ s -> P a s e ->
     Q a [Ev q a] (set_env e (trace w ++ [Ev q a]) w)) ->
  wp (SC:=solo (EN:=client_env pages)) (call q) Q w.
Proof.
  intros (s & Ht & HP)%wp_alone HQ. apply wp_act. intros a w' (e & Hs & ->).
  cbn [says solo serve client_env] in Hs. rewrite Hs in Ht, HP. by apply (HQ a s e).
Qed.

(** A GitHub error that no redelivery can mend: a client error other than a
    timeout and a rate limit. *)
Definition permanent (ans : api_result unit) : Prop :=
  exists resp code, ans = ApiErr resp (ErrorResponse (Some code)) /\
    400 <= code < 500 /\ code <> 408 /\ code <> 429.

Lemma isPermanent_spec resp e :
  isPermanentGitHubError e = true <-> permanent (ApiErr resp e).
Proof.
  unfold permanent. destruct e as [[code|]|msg]; simpl.
  - rewrite !andb_true_iff, !negb_true_iff, !Z.eqb_neq, Z.leb_le, Z.ltb_lt. split.
    + intros. exists resp, code. split; [done|lia].
    + intros (r & c & [= _ <-] & ?). lia.
  - split; [done|]. by intros (? & ? & [=] & _).
  - split; [done|]. by intros (? & ? & [=] & _).
Qed.

(** (C31) A lost commit status is retried. The consumer of a valid status
    command, over the client, makes one call of GitHub's status endpoint with
    the head, the state of the labels and the context of the merge rule. It
    reports success exactly when GitHub took it and asks not to be redelivered
    exactly for a client error other than a timeout or a rate limit; after any
    other failure the command comes again. *)
Theorem status_redelivery data cmd info (w : World (World E St) St') :
  MarshalInto_status data = Some cmd -> Validate_status cmd = Ok tt ->
  ParsePRURL (sc_URL cmd) = Ok info ->
  wp (SC:=solo (EN:=client_env pages)) (runSetDoNotMergeStatus data) (fun r _ w' => exists ans,
    trace (env w') = trace (env w) ++
      [Ev (Api (CreateStatus (pi_Owner info) (pi_Repo info) (sc_HeadSHA cmd)
         (if Blocked cmd then "failure" else "success") "do-not-merge")) ans] /\
    (r = None <-> took ans = true) /\
    (r = Some ErrCommandObjectSkipped <-> permanent ans)) w.
Proof.
  intros Hd Hv Hp. unfold runSetDoNotMergeStatus. rewrite Hd, Hv, Hp. cbn zeta. wp_step.
  apply (wp_client_call _ (fun a s _ => exists ans, s = [Ev (Api (CreateStatus (pi_Owner info) (pi_Repo info)
      (sc_HeadSHA cmd) (if Blocked cmd then "failure" else "success") "do-not-merge")) ans] /\
    a = match ans with
        | ApiErr _ e => if isPermanentGitHubError e then Err ErrPermanent else api_failed
        | ApiOk _ _ => Ok tt
        end)).
  - cbn [client_serve]. unfold client_PostCommitStatus. wp_steps; exists a; (split; [|done]); by destruct (Blocked cmd).
  - intros a s e Ht (ans & -> & ->). wp_step. exists ans. split; [done|]. destruct ans as [v resp|resp er]; simpl.
    + split; [done|]. split; [done|]. by intros (? & ? & [=] & _).
    + destruct (isPermanentGitHubError er) eqn:Her; simpl; (split; [done|]).
      * split; [|done]. intros _. by apply isPermanent_spec.
      * split; [done|]. intros H. apply isPermanent_spec in H. congruence.
Qed.
End stack.

(** ** A concrete GitHub *)

(** One with three pages of reviews, which refuses commit statuses with a
    403. *)
Definition hub_reviews (page : Z) : api_result (list gh_review) :=
  let review sha := mkGhReview (Some (mkGhUser (Some "pr-reviewer"))) (Some sha) in
  let resp next := mkResponse 200 next 4999 0 in
  if page <=? 1 then ApiOk [review "a"; review "b"] (resp 2)
  else if page =? 2 then ApiOk [review "c"] (resp 3) else ApiOk [] (resp 0).

Definition hub_api {A : Type} (q : api A) : A :=
  match q in api A return A with
  | PullListReviews _ _ _ page _ => hub_reviews page
  | CreateStatus _ _ _ _ _ =>
      ApiErr (Some (mkResponse 403 0 4999 0)) (ErrorResponse (Some 403))
  | q => demo_api q
  end.

Definition hub_env : Env demo :=
  {| serve A q := match q in request A return demo -> A * demo with
                  | Api q => fun e => (hub_api q, e)
                  | q => demo_serve q
                  end |}.

#[export] Instance demo_zone : Zone := {| zone_offset _ := 0 |}.
#[export] Instance demo_maintainer : MaintainerParser := {| maintainer_Parse _ := None |}.

Definition hub_ask : Z -> api (api_result (list gh_review)) :=
  fun page => PullListReviews "bborbe" "errors" 7 page 100.

Lemma listing_complete_witness :
  numbered (E:=demo) (EN:=hub_env) hub_ask 3 /\
  exists s pgs, trace (snd (runM (H:=hub_env) (list_pages hub_ask pr_review 4 0 []) (demo_start demo_opted_in demo_bump)))
      = [] ++ s /\
    complete hub_ask 0 pgs s /\ CommitID <$> (pr_review <$> concat pgs) = ["a"; "b"; "c"].
Proof.
  assert (numbered (E:=demo) (EN:=hub_env) hub_ask 3) as Hn.
  { intros page e. cbn. unfold hub_reviews. destruct (Z.leb_spec page 1); [simpl; lia|].
    destruct (Z.eqb_spec page 2); simpl; lia. }
  split; [exact Hn|].
  destruct (proj1 (wp_alone _ _ _) (listing_complete (EN:=hub_env) hub_ask pr_review 3 (demo_start demo_opted_in demo_bump)
    ltac:(lia) Hn)) as (s & Ht & _ & _ & o & Ho & H).
  assert (fst (runM (H:=hub_env) (list_pages hub_ask pr_review 4 0 []) (demo_start demo_opted_in demo_bump)) =
    Some (Ok (mkReview "pr-reviewer" <$> ["a"; "b"; "c"]))) as Hr by (vm_compute; reflexivity).
  change (S (Z.to_nat 3)) with 4%nat in *. rewrite Hr in Ho. injection Ho as <-.
  destruct H as (pgs & Hc & Hl). exists s, pgs. split; [exact Ht|]. split; [exact Hc|].
  rewrite <- Hl. reflexivity.
Defined.

(** A refused status is not asked for again. *)
Definition demo_status : SetDoNotMergeStatusCommand :=
  mkSetDoNotMergeStatusCommand "https://github.com/bborbe/errors/pull/7" "0123abcd" ["do-not-merge"].

Definition hub_world : World (World demo memDB) memDB :=
  mkWorld (demo_start demo_opted_in demo_bump) [] NewMemDB (coal (demo_start demo_opted_in demo_bump))
    (mkLocal demo_cursor ∅ ∅ ∅) (mkMaps ∅ ∅).

Lemma status_redelivery_witness :
  Validate_status demo_status = Ok tt /\
  exists ans, trace (env (snd (runM (H:=client_env (EN:=hub_env) 3) (runSetDoNotMergeStatus (inr demo_status)) hub_world)))
    = [] ++ [Ev (Api (CreateStatus "bborbe" "errors" "0123abcd" "failure" "do-not-merge")) ans] /\
    permanent ans.
Proof.
  split; [vm_compute; reflexivity|].
  destruct (proj1 (wp_alone _ _ _) (status_redelivery (EN:=hub_env) (L:=demo_payloads) (PU:=demo_prurl) 3 (inr demo_status) demo_status
    (mkPRInfo "github" "bborbe" "errors" 7) hub_world eq_refl eq_refl eq_refl))
    as (s & _ & ans & Ht & _ & H).
  exists ans. split; [exact Ht|]. apply H. vm_compute. reflexivity.
Defined.

(** A PR is closed though its comment was refused. *)
Lemma client_writes_witness :
  is_api (ClosePR "bborbe" "errors" 7 "superseded") = false /\
  exists s, trace (snd (runM (H:=hub_env) (client_serve 3 (ClosePR "bborbe" "errors" 7 "superseded"))
      (demo_start demo_opted_in demo_bump))) = [] ++ s /\
    exists b, api_writes s = [(AComment "bborbe" "errors" 7 "superseded", b); (AClose "bborbe" "errors" 7 "closed", false)].
Proof.
  split; [reflexivity|].
  destruct (proj1 (wp_alone _ _ _) (client_writes (EN:=hub_env) 3 (ClosePR "bborbe" "errors" 7 "superseded")
    (demo_start demo_opted_in demo_bump) eq_refl)) as (s & Ht & _ & _ & b & H).
  exists s. split; [exact Ht|]. exists b. exact H.
Defined.
