(* ===== verification/Metrics.v ===== *)
(** * Metrics: the Prometheus series (pkg/metrics.go)

    A vector is a map from label values to the series' value; [WithLabelValues]
    creates a series at zero, [Reset] drops all. Counters are floats in the
    library and integers here, which is exact far beyond any count reached.
    [record] replays the metric calls of a trace. *)
From S2P Require Import Prelude GoStrings Types World.
Local Open Scope Z_scope.

Abbreviation vec := (gmap (list string) Z).

(** [vec.WithLabelValues(labels).Add(n)], [.Set(x)] *)
Definition vec_Add (labels : list string) (n : Z) (v : vec) : vec :=
  <[labels := default 0 (v !! labels) + n]> v.
Definition vec_Set (labels : list string) (x : Z) (v : vec) : vec := <[labels := x]> v.

Record registry : Type := mkRegistry {
  pollCyclesTotal : vec;
  prPublishedTotal : vec;
  webhookDeliveriesTotal : vec;
  webhookSignatureRejectionsTotal : Z;
  webhookDispatchLatencySeconds : list Duration;   (* observations *)
  rateLimitRemaining : Z;
  unreviewedPRs : vec;
  unreviewedRetriesTotal : vec;
  unreviewedScanLastSuccess : Z }.

(** [init]: the series that exist from the start. *)
Fixpoint preregister (values : list string) (v : vec) : vec :=
  match values with
  | [] => v
  | x :: rest => preregister rest (vec_Add [x] 0 v)
  end.

Definition init_registry : registry :=
  mkRegistry (preregister ["success"; "rate_limited"; "github_error"] ∅)
    (preregister ["create"; "update_frontmatter"; "skipped"; "error"; "trust_error"; "kafka_error";
       "override"; "override_skipped"; "override_mechanical"; "deferred"; "coalesced"; "auto_merge";
       "auto_merge_skipped"; "auto_merge_not_trivial"; "auto_merge_labeled"; "inflight_skipped";
       "override_owns_sha"] ∅)
    (preregister ["success"; "skip"; "coalesced"; "trailing"; "error"] ∅)
    0 [] 0 ∅ ∅ 0.

(** ** [prometheusMetrics] *)
Definition m_IncPollCycle (result : string) (m : registry) : registry :=
  mkRegistry (vec_Add [result] 1 (pollCyclesTotal m)) (prPublishedTotal m) (webhookDeliveriesTotal m)
    (webhookSignatureRejectionsTotal m) (webhookDispatchLatencySeconds m) (rateLimitRemaining m)
    (unreviewedPRs m) (unreviewedRetriesTotal m) (unreviewedScanLastSuccess m).
Definition m_IncPRPublished (command : string) (m : registry) : registry :=
  mkRegistry (pollCyclesTotal m) (vec_Add [command] 1 (prPublishedTotal m)) (webhookDeliveriesTotal m)
    (webhookSignatureRejectionsTotal m) (webhookDispatchLatencySeconds m) (rateLimitRemaining m)
    (unreviewedPRs m) (unreviewedRetriesTotal m) (unreviewedScanLastSuccess m).
Definition m_IncWebhookDelivery (result : string) (m : registry) : registry :=
  mkRegistry (pollCyclesTotal m) (prPublishedTotal m) (vec_Add [result] 1 (webhookDeliveriesTotal m))
    (webhookSignatureRejectionsTotal m) (webhookDispatchLatencySeconds m) (rateLimitRemaining m)
    (unreviewedPRs m) (unreviewedRetriesTotal m) (unreviewedScanLastSuccess m).
Definition m_IncWebhookSignatureRejected (m : registry) : registry :=
  mkRegistry (pollCyclesTotal m) (prPublishedTotal m) (webhookDeliveriesTotal m)
    (webhookSignatureRejectionsTotal m + 1) (webhookDispatchLatencySeconds m) (rateLimitRemaining m)
    (unreviewedPRs m) (unreviewedRetriesTotal m) (unreviewedScanLastSuccess m).
Definition m_ObserveWebhookDispatchLatency (d : Duration) (m : registry) : registry :=
  mkRegistry (pollCyclesTotal m) (prPublishedTotal m) (webhookDeliveriesTotal m)
    (webhookSignatureRejectionsTotal m) (webhookDispatchLatencySeconds m ++ [d]) (rateLimitRemaining m)
    (unreviewedPRs m) (unreviewedRetriesTotal m) (unreviewedScanLastSuccess m).
Definition m_SetRateLimitRemaining (remaining : Z) (m : registry) : registry :=
  mkRegistry (pollCyclesTotal m) (prPublishedTotal m) (webhookDeliveriesTotal m)
    (webhookSignatureRejectionsTotal m) (webhookDispatchLatencySeconds m) remaining
    (unreviewedPRs m) (unreviewedRetriesTotal m) (unreviewedScanLastSuccess m).
Definition m_IncUnreviewedRetry (repo : string) (m : registry) : registry :=
  mkRegistry (pollCyclesTotal m) (prPublishedTotal m) (webhookDeliveriesTotal m)
    (webhookSignatureRejectionsTotal m) (webhookDispatchLatencySeconds m) (rateLimitRemaining m)
    (unreviewedPRs m) (vec_Add [repo] 1 (unreviewedRetriesTotal m)) (unreviewedScanLastSuccess m).

(** [strconv.FormatBool] *)
Definition FormatBool (b : bool) : string := if b then "true" else "false".

Definition pr_labels (pr : UnreviewedPR) : list string :=
  [u_Repo pr; Itoa (u_Number pr); FormatBool (u_RetriesExhausted pr)].

(** The seconds since 1970 of an instant. *)
Definition Unix (t : DateTime) : Z := t / Second - 62135596800.

Fixpoint set_gauges (prs : list UnreviewedPR) (v : vec) : vec :=
  match prs with
  | [] => v
  | pr :: rest => set_gauges rest (vec_Set (pr_labels pr) 1 v)
  end.

Definition m_SetUnreviewedPRs (prs : list UnreviewedPR) (scannedAt : DateTime) (m : registry)
  : registry :=
  mkRegistry (pollCyclesTotal m) (prPublishedTotal m) (webhookDeliveriesTotal m)
    (webhookSignatureRejectionsTotal m) (webhookDispatchLatencySeconds m) (rateLimitRemaining m)
    (set_gauges prs ∅) (unreviewedRetriesTotal m) (Unix scannedAt).

(** ** The metric calls of a trace *)
Definition record_event (m : registry) (ev : event) : registry :=
  match ev with
  | Ev q _ =>
      match q with
      | IncPollCycle r => m_IncPollCycle r m
      | IncPRPublished c => m_IncPRPublished c m
      | IncWebhookDelivery r => m_IncWebhookDelivery r m
      | IncWebhookSignatureRejected => m_IncWebhookSignatureRejected m
      | ObserveWebhookDispatchLatency d => m_ObserveWebhookDispatchLatency d m
      | SetRateLimitRemaining n => m_SetRateLimitRemaining n m
      | SetUnreviewedPRs prs t => m_SetUnreviewedPRs prs t m
      | IncUnreviewedRetry repo => m_IncUnreviewedRetry repo m
      | _ => m
      end
  end.

Definition record (s : list event) (m : registry) : registry := foldl record_event m s.

(** ** What a scrape shows *)

Definition total (labels : list string) (v : vec) : Z := default 0 (v !! labels).

Lemma vec_Add_total labels n v labels' :
  total labels' (vec_Add labels n v) = total labels' v + (if decide (labels = labels') then n else 0).
Proof.
  unfold total, vec_Add. destruct (decide (labels = labels')) as [<-|Hne].
  - by rewrite lookup_insert_eq.
  - rewrite lookup_insert_ne by done. lia.
Qed.

Lemma set_gauges_lookup prs v labels :
  set_gauges prs v !! labels = if decide (labels ∈ pr_labels <$> prs) then Some 1 else v !! labels.
Proof.
  revert v. induction prs as [|pr prs IH]; intros v; [done|]. cbn [set_gauges fmap list_fmap].
  rewrite IH. unfold vec_Set.
  destruct (decide (labels ∈ pr_labels <$> prs)) as [Hin|Hin];
    [rewrite decide_True; [done|by right]|].
  destruct (decide (labels = pr_labels pr)) as [->|Hne].
  - rewrite lookup_insert_eq, decide_True; [done|by left].
  - rewrite lookup_insert_ne by done. rewrite decide_False; [done|]. by intros [?|?]%elem_of_cons.
Qed.

Lemma FormatBool_inj a b : FormatBool a = FormatBool b -> a = b.
Proof. by destruct a, b. Qed.

Lemma pr_labels_inj a b : pr_labels a = pr_labels b -> a = b.
Proof.
  destruct a, b. unfold pr_labels. simpl. intros [= -> Hn Hb].
  apply Itoa_inj in Hn. apply FormatBool_inj in Hb. by subst.
Qed.

(** The publishes of a trace counted under one label. *)
Definition counted (command : string) (ev : event) : Z :=
  match ev with
  | Ev q _ => match q with IncPRPublished c => if decide (c = command) then 1 else 0 | _ => 0 end
  end.
Definition count (command : string) (s : list event) : Z := foldr (fun ev n => counted command ev + n) 0 s.

Lemma record_published command s m :
  total [command] (prPublishedTotal (record s m)) = total [command] (prPublishedTotal m) + count command s.
Proof.
  revert m. induction s as [|[A q a] s IH]; intros m; cbn [record foldl count foldr]; [lia|].
  unfold record in IH. rewrite IH.
  assert (total [command] (prPublishedTotal (record_event m (Ev q a))) =
    total [command] (prPublishedTotal m) + counted command (Ev q a)) as ->; [|unfold count; lia].
  destruct q; simpl; try lia. rewrite vec_Add_total.
  destruct (decide ([command0] = [command])), (decide (command0 = command)); congruence || done.
Qed.

Lemma record_gauges s m :
  unreviewedPRs (record s m) = default (unreviewedPRs m) ((fun prs => set_gauges prs ∅) <$> last (gauges s)).
Proof.
  revert m. induction s as [|[A q a] s IH]; intros m; cbn [record foldl]; [done|].
  unfold record in IH. rewrite IH, gauges_cons.
  assert (forall prs : list (list UnreviewedPR), last ([] ++ prs) = last prs) as Hn by done.
  destruct q; cbn [gauge_of record_event]; try (by rewrite Hn; destruct (last (gauges s))).
  cbn [app]. rewrite last_cons. by destruct (last (gauges s)).
Qed.

(** A scrape shows the last scan. Whatever was recorded, the series of the
    unreviewed gauge are, once a scan set it, exactly one of value 1 for each
    PR of the last scan, told apart by repository, number and the exhausted
    mark, with nothing left of earlier scans; and the publish counter of a
    command grew by the number of publishes reported under it. *)
Theorem scrape_exact s m :
  (forall command, total [command] (prPublishedTotal (record s m)) =
     total [command] (prPublishedTotal m) + count command s) /\
  match last (gauges s) with
  | None => unreviewedPRs (record s m) = unreviewedPRs m
  | Some prs =>
      (forall labels x, unreviewedPRs (record s m) !! labels = Some x <->
         x = 1 /\ exists pr, (pr ∈ prs) /\ labels = pr_labels pr) /\
      (forall a b, pr_labels a = pr_labels b -> a = b)
  end.
Proof.
  split; [intros command; apply record_published|].
  rewrite record_gauges. destruct (last (gauges s)) as [prs|]; [|done]. split; [|apply pr_labels_inj].
  intros labels x. simpl. rewrite set_gauges_lookup, lookup_empty.
  destruct (decide (labels ∈ pr_labels <$> prs)) as [Hin|Hin].
  - apply list_elem_of_fmap in Hin as (pr & -> & Hpr). naive_solver.
  - split; [done|]. intros (_ & pr & Hpr & ->). destruct Hin. by apply list_elem_of_fmap_2.
Qed.
