(* ===== verification/Transport.v ===== *)
(** * Transport: the HTTP transport under the client (pkg/githubclient.go,
    pkg/github_api_metrics.go, pkg/non2xx_log.go)

    Each round trip is counted, its remaining quota captured, and a response
    outside 2xx logged with the start of its body, which is put back for the
    caller. The inner transport's answer, a response and an error, either of
    them nil or not, is an argument. A header is looked up by its canonical
    name, absent and empty alike. *)
From S2P Require Import Prelude GoStrings GoPath Metrics.
From Stdlib Require Import Ascii.
Local Open Scope Z_scope.

(** ** Requests and responses *)
Record http_url : Type := mkURL { url_Host : string; url_Path : string }.
Record http_req : Type := mkReq { hr_Method : string; hr_URL : option http_url }.

(** A reader, by what it still gives. [Done data joint]: the bytes of [data],
    then end of file, for good, as [io.Reader] asks. [Broken data e joint rest]:
    the bytes, then the error [e]; of a read after an error nothing is promised,
    so [rest] is any reader. [Failing e]: the error at every read. [joint]: the
    end comes with the last bytes, not with a read of its own. How the bytes are
    cut into reads is not observable here. *)
Inductive reader : Type :=
| Done (data : string) (joint : bool)
| Broken (data : string) (e : error) (joint : bool) (rest : reader)
| Failing (e : error).

(** What a caller reads who stops at the end: the bytes, and the error unless
    it is end of file. *)
Definition read (r : reader) : string * option error :=
  match r with
  | Done data _ => (data, None)
  | Broken data e _ _ => (data, Some e)
  | Failing e => ("", Some e)
  end.

Record http_resp : Type := mkResp {
  StatusCode : Z;
  Header : gmap string string;
  Body : option reader }.

Definition Header_Get (resp : http_resp) (name : string) : string := default "" (Header resp !! name).

(** ** Buckets *)
Definition githubAPIBucketSearch : string := "search".
Definition githubAPIBucketGraphQL : string := "graphql".
Definition githubAPIBucketCore : string := "core".
Definition githubAPIOutcomeSuccess : string := "success".
Definition githubAPIOutcomeError : string := "error".
Definition githubAPIRateLimitClassUnclassified : string := "unclassified".
Definition githubAPIServiceName : string := "github-pr-watcher".

Definition GitHubAPIBucket (req : option http_req) : string :=
  match req ≫= hr_URL with
  | None => githubAPIBucketCore
  | Some url =>
      let path := url_Path url in
      if HasPrefix path "/search/" || HasPrefix path "/api/v3/search/" then githubAPIBucketSearch
      else if (path =?s "/graphql") || (path =?s "/api/graphql") then githubAPIBucketGraphQL
      else githubAPIBucketCore
  end.

(** ** The counters *)
Record api_counters : Type := mkApiCounters {
  githubAPICallsTotal : vec;
  githubAPIRateLimitedTotal : vec }.

Section metrics.
Context (credential cluster : string).

Definition call_labels (bucket outcome : string) : list string :=
  [githubAPIServiceName; credential; bucket; outcome; cluster].

Definition IncGitHubAPICall (bucket outcome : string) (m : api_counters) : api_counters :=
  mkApiCounters (vec_Add (call_labels bucket outcome) 1 (githubAPICallsTotal m))
    (githubAPIRateLimitedTotal m).
Definition IncGitHubAPIRateLimited (bucket class : string) (m : api_counters) : api_counters :=
  mkApiCounters (githubAPICallsTotal m)
    (vec_Add (call_labels bucket class) 1 (githubAPIRateLimitedTotal m)).

(** Every series at zero. *)
Definition preregister_bucket (m : api_counters) (bucket : string) : api_counters :=
  mkApiCounters
    (vec_Add (call_labels bucket githubAPIOutcomeError) 0
       (vec_Add (call_labels bucket githubAPIOutcomeSuccess) 0 (githubAPICallsTotal m)))
    (vec_Add (call_labels bucket githubAPIRateLimitClassUnclassified) 0 (githubAPIRateLimitedTotal m)).
Definition NewGitHubAPIMetrics (m : api_counters) : api_counters :=
  foldl preregister_bucket m [githubAPIBucketSearch; githubAPIBucketGraphQL; githubAPIBucketCore].

(** ** The round trip *)

Definition isRateLimitedResponse (resp : http_resp) : bool :=
  if StatusCode resp =? 429 then true
  else if negb (StatusCode resp =? 403) then false
  else (Header_Get resp "X-Ratelimit-Remaining" =?s "0")
       || negb (Header_Get resp "Retry-After" =?s "").

Definition recordCall (req : option http_req) (resp : option http_resp) (err : option error)
    (m : api_counters) : api_counters :=
  let bucket := GitHubAPIBucket req in
  match err, resp with
  | Some _, _ | None, None => IncGitHubAPICall bucket githubAPIOutcomeError m
  | None, Some resp =>
      let outcome := if 400 <=? StatusCode resp then githubAPIOutcomeError else githubAPIOutcomeSuccess in
      let m := IncGitHubAPICall bucket outcome m in
      if isRateLimitedResponse resp
      then IncGitHubAPIRateLimited bucket githubAPIRateLimitClassUnclassified m else m
  end.

(** The remaining quota a response reports for the core bucket. *)
Definition captureRemaining (resp : http_resp) (remaining : Z) : Z :=
  let resource := Header_Get resp "X-Ratelimit-Resource" in
  if negb (resource =?s "") && negb (resource =?s "core") then remaining
  else
    let v := Header_Get resp "X-Ratelimit-Remaining" in
    if v =?s "" then remaining
    else match Atoi v with None => remaining | Some n => n end.

(** ** The log line *)
Definition non2xxBodyLimit : nat := 200.
Definition non2xxAbsent : string := "absent".
Definition non2xxPeekBytes : nat := 4096.
Definition ellipsis : string := of_bytes [byte 226; byte 128; byte 166].

Definition orAbsent (v : string) : string := if v =?s "" then non2xxAbsent else v.

(** [utf8.ValidString] and [strings.ToValidUTF8(s, "?")]: a run of invalid
    bytes becomes one question mark. *)
Fixpoint to_valid (fuel : nat) (in_run : bool) (l : list ascii) : list ascii :=
  match fuel, l with
  | O, _ | _, [] => []
  | S f, c :: _ =>
      let '(r, width) := decode_rune l in
      if (r =? RuneError) && (width =? 1)%nat
      then (if in_run then [] else ["?"%char]) ++ to_valid f true (drop 1 l)
      else take width l ++ to_valid f false (drop width l)
  end.
Definition ToValidUTF8 (s : string) : string :=
  of_bytes (to_valid (String.length s) false (bytes_of s)).

Definition bodySnippet (body : string) : string :=
  let s := Join (Fields body) " " in
  if s =?s "" then non2xxAbsent
  else
    let s := ToValidUTF8 s in
    if (length (runes s) <=? non2xxBodyLimit)%nat then s
    else of_bytes (concat (map encode_rune (take non2xxBodyLimit (runes s)))) +:+ ellipsis.

Definition non2xxLine (req : option http_req) (resp : http_resp) (body : string) : string :=
  let method := match req with None => non2xxAbsent | Some req => hr_Method req end in
  let '(host, path) :=
    match req ≫= hr_URL with
    | None => (non2xxAbsent, non2xxAbsent)
    | Some url => (orAbsent (url_Host url), orAbsent (url_Path url))
    end in
  "github non-2xx method=" +:+ method +:+ " host=" +:+ host +:+ " path=" +:+ path
    +:+ " status=" +:+ Itoa (StatusCode resp)
    +:+ " resource=" +:+ orAbsent (Header_Get resp "X-Ratelimit-Resource")
    +:+ " remaining=" +:+ orAbsent (Header_Get resp "X-Ratelimit-Remaining")
    +:+ " retry_after=" +:+ orAbsent (Header_Get resp "Retry-After")
    +:+ " body=" +:+ bodySnippet body.

(** [io.ReadAll(io.LimitReader(r, n))]: what was read, an error other than
    the end, and the reader after it. Once the limit is reached nothing more is
    read: an end that comes after the [n]-th byte is not seen. *)
Definition limit_first (n : nat) (data : string) (joint : bool) : bool :=
  let l := String.length data in (n <? l)%nat || ((n =? l)%nat && negb (joint && negb (l =? 0)%nat)).

Definition ReadAllLimit (n : nat) (r : reader) : string * option error * reader :=
  match r with
  | Done data joint =>
      if limit_first n data joint then (take_string n data, None, Done (drop_string n data) joint)
      else (data, None, Done "" false)
  | Broken data e joint rest =>
      if limit_first n data joint then (take_string n data, None, Broken (drop_string n data) e joint rest)
      else (data, Some e, rest)
  | Failing e => if (n =? 0)%nat then ("", None, r) else ("", Some e, r)
  end.

(** [errReader]: the error at every read. *)
Definition errReader (e : error) : reader := Failing e.

(** [io.MultiReader] of a buffered prefix and a reader, which it keeps after an
    error. *)
Definition MultiReader (prefix : string) (r : reader) : reader :=
  match r with
  | Done data joint => Done (prefix +:+ data) joint
  | Broken data e joint rest => Broken (prefix +:+ data) e joint rest
  | Failing e => Broken prefix e false (Failing e)
  end.

Definition set_Body (b : option reader) (resp : http_resp) : http_resp :=
  mkResp (StatusCode resp) (Header resp) b.

Definition logNon2xxResponse (req : option http_req) (resp : http_resp)
  : http_resp * list string :=
  if (200 <=? StatusCode resp) && (StatusCode resp <=? 299) then (resp, [])
  else
    match Body resp with
    | None => (resp, [non2xxLine req resp ""])
    | Some body =>
        let '(prefix, readErr, after) := ReadAllLimit non2xxPeekBytes body in
        let rest := match readErr with Some e => errReader e | None => after end in
        (set_Body (Some (MultiReader prefix rest)) resp, [non2xxLine req resp prefix])
    end.

Record transport : Type := mkTransport {
  rateRemaining : Z;
  counters : api_counters;
  lines : list string }.

(** [metrics] and [log] may be nil. *)
Definition RoundTrip (has_metrics has_log : bool) (req : option http_req)
    (resp : option http_resp) (err : option error) (t : transport)
  : option http_resp * option error * transport :=
  let counters := if has_metrics then recordCall req resp err (counters t) else counters t in
  match err, resp with
  | Some _, _ | None, None => (resp, err, mkTransport (rateRemaining t) counters (lines t))
  | None, Some resp =>
      let remaining := captureRemaining resp (rateRemaining t) in
      let '(resp, logged) := if has_log then logNon2xxResponse req resp else (resp, []) in
      (Some resp, err, mkTransport remaining counters (lines t ++ logged))
  end.
End metrics.

(** ** The caller's view *)

Lemma MultiReader_read prefix r : read (MultiReader prefix r) = (prefix +:+ fst (read r), snd (read r)).
Proof. destruct r; simpl; by rewrite ?string_app_nil_r. Qed.

(** The body the caller is given: read on from where the log stopped, or, when
    the log met an error, broken by that error in the same place. *)
Definition peeked (r : reader) : reader :=
  let '(prefix, readErr, after) := ReadAllLimit non2xxPeekBytes r in
  MultiReader prefix (match readErr with Some e => errReader e | None => after end).

(** The start of a body, as far as the log reads it. *)
Definition body_start (r : reader) : string := take_string non2xxPeekBytes (fst (read r)).

Lemma limit_first_all n data joint : limit_first n data joint = false -> take_string n data = data.
Proof. intros [Hl _]%orb_false_iff. apply Nat.ltb_ge in Hl. by apply take_string_all. Qed.

Lemma ReadAll_start r : fst (fst (ReadAllLimit non2xxPeekBytes r)) = body_start r.
Proof.
  unfold body_start. generalize non2xxPeekBytes. intros n.
  destruct r as [data joint|data e joint rest|e]; simpl; [| |by destruct n];
    destruct (limit_first _ _ _) eqn:Hl; simpl; by rewrite ?(limit_first_all _ _ _ Hl).
Qed.

Lemma peeked_read r : read (peeked r) = read r.
Proof.
  unfold peeked. generalize non2xxPeekBytes. intros n.
  destruct r as [data joint|data e joint rest|e]; simpl; [| |by destruct n];
    destruct (limit_first _ _ _); simpl; by rewrite ?take_drop_string, ?string_app_nil_r.
Qed.

(** A response outside 2xx. *)
Definition non2xx (resp : http_resp) : Prop := ~ 200 <= StatusCode resp <= 299.

#[export] Instance non2xx_dec resp : Decision (non2xx resp).
Proof. unfold non2xx. apply _. Defined.

(** What the log makes of a response: its line, and the body put back. *)
Definition relayed (resp : http_resp) : http_resp := set_Body (peeked <$> Body resp) resp.
Definition log_line (req : option http_req) (resp : http_resp) : string :=
  non2xxLine req resp (default "" (body_start <$> Body resp)).

Lemma logNon2xx_spec req resp :
  logNon2xxResponse req resp =
  if decide (non2xx resp) then (relayed resp, [log_line req resp]) else (resp, []).
Proof.
  unfold logNon2xxResponse, non2xx, relayed, log_line.
  destruct (_ && _) eqn:Hs; case_decide as Hd; bool_props; try done; try lia.
  destruct (Body resp) as [body|] eqn:Hb; simpl; [|by destruct resp; simpl in *; subst].
  rewrite <- ReadAll_start. unfold peeked. by destruct (ReadAllLimit _ _) as [[prefix readErr] after].
Qed.

(** The caller cannot tell two responses apart who stops at the end of the
    body. *)
Definition same_response (r r' : http_resp) : Prop :=
  StatusCode r' = StatusCode r /\ Header r' = Header r /\ (read <$> Body r') = (read <$> Body r).

Lemma relayed_same resp : same_response resp (relayed resp).
Proof. split_and!; [done|done|]. unfold relayed. simpl. destruct (Body resp); simpl; [by rewrite peeked_read|done]. Qed.

(** (C37) The transport is transparent. Whatever it counts and logs, the
    caller gets the inner transport's answer: its error; a response exactly
    when it gave one, with the same status and headers, and a body that reads
    the same bytes to the same end, an error in the middle included, though
    the log read the start of it. When there was an error, no log, or a status
    in 2xx, the response is not touched at all. One line is logged for each
    response outside 2xx that came without an error, from its first 4096
    bytes, and none otherwise. *)
Theorem transport_transparent credential cluster has_metrics has_log req resp err t :
  let '(resp', err', t') := RoundTrip credential cluster has_metrics has_log req resp err t in
  err' = err /\
  match resp with
  | None => resp' = None /\ lines t' = lines t
  | Some r => exists r', resp' = Some r' /\ same_response r r' /\
      if bool_decide (err = None /\ has_log = true /\ non2xx r)
      then lines t' = lines t ++ [log_line req r]
      else r' = r /\ lines t' = lines t
  end.
Proof.
  unfold RoundTrip. destruct err as [e|], resp as [r|]; try done.
  - split; [done|]. exists r. split; [done|]. by split.
  - destruct has_log; [rewrite logNon2xx_spec; destruct (decide (non2xx r)) as [Hd|Hd]|]; cbn iota beta; (split; [done|]).
    + exists (relayed r). split; [done|]. split; [apply relayed_same|]. by rewrite bool_decide_eq_true_2.
    + exists r. split; [done|]. split; [by split|]. rewrite bool_decide_eq_false_2 by tauto. simpl. by rewrite app_nil_r.
    + exists r. split; [done|]. split; [by split|]. rewrite bool_decide_eq_false_2 by (by intros (_ & ? & _)).
      simpl. by rewrite app_nil_r.
Qed.

(** ** The accounts *)
Section accounts.
Context (credential cluster : string).

(** One round trip of a sequence. *)
Definition answer : Type := option http_resp * option error.
Definition trip : Type := option http_req * answer.

Definition step (has_log : bool) (t : transport) (x : trip) : transport :=
  snd (RoundTrip credential cluster true has_log (fst x) (fst (snd x)) (snd (snd x)) t).

Definition failed (a : answer) : bool :=
  match a with (Some r, None) => 400 <=? StatusCode r | _ => true end.
Definition limited (a : answer) : bool :=
  match a with (Some r, None) => isRateLimitedResponse r | _ => false end.

(** The round trips of a bucket with a property. *)
Definition tally (P : answer -> bool) (bucket : string) (xs : list trip) : Z :=
  Z.of_nat (length (List.filter (fun x => (GitHubAPIBucket (fst x) =?s bucket) && P (snd x)) xs)).

Definition calls (bucket outcome : string) (t : transport) : Z :=
  total (call_labels credential cluster bucket outcome) (githubAPICallsTotal (counters t)).
Definition rate_limited (bucket : string) (t : transport) : Z :=
  total (call_labels credential cluster bucket githubAPIRateLimitClassUnclassified)
    (githubAPIRateLimitedTotal (counters t)).

Lemma call_labels_inj b o b' o' :
  call_labels credential cluster b o = call_labels credential cluster b' o' -> b = b' /\ o = o'.
Proof. by intros [= -> ->]. Qed.

Lemma step_counters has_log t x :
  counters (step has_log t x) =
  recordCall credential cluster (fst x) (fst (snd x)) (snd (snd x)) (counters t).
Proof.
  unfold step, RoundTrip. destruct x as [req [[r|] [e|]]]; simpl; try done.
  by destruct has_log; [destruct (logNon2xxResponse _ _)|].
Qed.

Lemma limited_failed a : limited a = true -> failed a = true.
Proof.
  destruct a as [[r|] [e|]]; try done. unfold limited, failed, isRateLimitedResponse.
  destruct (Z.eqb_spec (StatusCode r) 429) as [->|]; [done|].
  destruct (Z.eqb_spec (StatusCode r) 403) as [->|]; done.
Qed.

Lemma tally_cons P bucket x xs :
  tally P bucket (x :: xs) =
  tally P bucket xs + (if (GitHubAPIBucket (fst x) =?s bucket) && P (snd x) then 1 else 0).
Proof. unfold tally. simpl. destruct (_ && _); simpl; lia. Qed.

(** What one round trip adds to each series. *)
Lemma recordCall_counts bucket req resp err m :
  let m' := recordCall credential cluster req resp err m in
  let here := GitHubAPIBucket req =?s bucket in
  total (call_labels credential cluster bucket githubAPIOutcomeError) (githubAPICallsTotal m') =
    total (call_labels credential cluster bucket githubAPIOutcomeError) (githubAPICallsTotal m)
    + (if here && failed (resp, err) then 1 else 0) /\
  total (call_labels credential cluster bucket githubAPIOutcomeSuccess) (githubAPICallsTotal m') =
    total (call_labels credential cluster bucket githubAPIOutcomeSuccess) (githubAPICallsTotal m)
    + (if here && negb (failed (resp, err)) then 1 else 0) /\
  total (call_labels credential cluster bucket githubAPIRateLimitClassUnclassified) (githubAPIRateLimitedTotal m') =
    total (call_labels credential cluster bucket githubAPIRateLimitClassUnclassified) (githubAPIRateLimitedTotal m)
    + (if here && limited (resp, err) then 1 else 0).
Proof.
  cbn zeta. unfold recordCall, failed, limited.
  destruct resp as [r|], err as [e|]; [|destruct (isRateLimitedResponse r), (400 <=? StatusCode r)|..];
    cbn [IncGitHubAPICall IncGitHubAPIRateLimited githubAPICallsTotal githubAPIRateLimitedTotal negb];
    rewrite ?vec_Add_total; (split_and!);
    destruct (GitHubAPIBucket req =?s bucket) eqn:Hb; bool_props; cbn [andb];
    repeat (case_decide as Hd; [apply call_labels_inj in Hd as [? ?]|]); subst; try done; try lia.
Qed.

(** The quota a round trip reports for the shared budget. *)
Definition reported (a : answer) : option Z :=
  match a with
  | (Some r, None) =>
      if (Header_Get r "X-Ratelimit-Resource" =?s "") || (Header_Get r "X-Ratelimit-Resource" =?s "core")
      then (if Header_Get r "X-Ratelimit-Remaining" =?s "" then None
            else Atoi (Header_Get r "X-Ratelimit-Remaining"))
      else None
  | _ => None
  end.

Lemma step_remaining has_log t x :
  rateRemaining (step has_log t x) = default (rateRemaining t) (reported (snd x)).
Proof.
  unfold step, RoundTrip, reported. destruct x as [req [[r|] [e|]]]; try done. simpl.
  assert (captureRemaining r (rateRemaining t) = default (rateRemaining t) (reported (Some r, None))) as H.
  { unfold captureRemaining, reported. rewrite <- negb_orb.
    destruct (_ || _); [|done]. cbn [negb]. destruct (_ =?s ""); [done|]. by destruct (Atoi _). }
  destruct has_log; [destruct (logNon2xxResponse req r)|]; exact H.
Qed.

(** (C38) The accounts are exact. After any sequence of round trips, the two
    call series of each bucket grew by its answers below 400 and by its
    failures, no call is counted twice or under another bucket, every
    rate-limited answer is one of the failures, and the remaining quota is
    the last number GitHub reported for the shared core budget: an answer for
    another budget, or without a number, leaves it. *)
Theorem accounts_exact has_log xs t bucket :
  let t' := foldl (step has_log) t xs in
  calls bucket githubAPIOutcomeError t' = calls bucket githubAPIOutcomeError t + tally failed bucket xs /\
  calls bucket githubAPIOutcomeSuccess t' =
    calls bucket githubAPIOutcomeSuccess t + tally (fun r => negb (failed r)) bucket xs /\
  rate_limited bucket t' = rate_limited bucket t + tally limited bucket xs /\
  tally limited bucket xs <= tally failed bucket xs /\
  rateRemaining t' = default (rateRemaining t) (last (omap (fun x => reported (snd x)) xs)).
Proof.
  cbn zeta. revert t. induction xs as [|x xs IH]; intros t.
  { unfold tally. simpl. split_and!; lia || done. }
  cbn [foldl]. destruct (IH (step has_log t x)) as (H1 & H2 & H3 & H4 & H5).
  rewrite H1, H2, H3, H5, !tally_cons, step_remaining. unfold calls, rate_limited. rewrite step_counters.
  destruct (recordCall_counts bucket (fst x) (fst (snd x)) (snd (snd x)) (counters t)) as (-> & -> & ->).
  rewrite <- surjective_pairing.
  split_and!; [lia..| |].
  - pose proof (limited_failed (snd x)) as Hl.
    destruct (GitHubAPIBucket (fst x) =?s bucket), (limited (snd x)); simpl; rewrite ?Hl by done;
      destruct (failed (snd x)); simpl; lia.
  - cbn [omap list_omap]. destruct (reported (snd x)) as [n|]; [|done].
    rewrite last_cons. by destruct (last _).
Qed.
End accounts.

(** ** Examples *)
Definition demo_resp (status : Z) (headers : gmap string string) (body : string) : http_resp :=
  mkResp status headers (Some (Done body false)).
Definition demo_req (path : string) : option http_req :=
  Some (mkReq "GET" (Some (mkURL "api.github.com" path))).

(** A search answer with its own small budget leaves the quota alone. *)
Example demo_quota :
  let t := mkTransport 4999 (mkApiCounters ∅ ∅) [] in
  let search := demo_resp 200 {["X-Ratelimit-Resource" := "search"; "X-Ratelimit-Remaining" := "29"]} "" in
  let core := demo_resp 200 {["X-Ratelimit-Resource" := "core"; "X-Ratelimit-Remaining" := "4211"]} "" in
  map (fun xs => rateRemaining (foldl (step "1" "nuke" true) t xs))
    [[(demo_req "/search/issues", (Some search, None))];
     [(demo_req "/repos/a/b", (Some core, None)); (demo_req "/search/issues", (Some search, None))]] = [4999; 4211].
Proof. vm_compute. reflexivity. Qed.

Example demo_line :
  snd (logNon2xxResponse (demo_req "/repos/a/b")
    (demo_resp 403 {["Retry-After" := "60"]} ("slow" +:+ nl +:+ "  down"))) =
  ["github non-2xx method=GET host=api.github.com path=/repos/a/b status=403 resource=absent remaining=absent retry_after=60 body=slow down"].
Proof. vm_compute. reflexivity. Qed.

(** A connection that breaks while the log reads, and would read on with other
    bytes: the caller meets the break, in its place. *)
Example demo_broken_body :
  let broken := ErrOther "connection reset" in
  let body := Broken "half" broken false (Done "more" false) in
  let '(resp, err, _) := RoundTrip "1" "nuke" true true (demo_req "/repos/a/b")
    (Some (mkResp 502 ∅ (Some body))) None (mkTransport 0 (mkApiCounters ∅ ∅) []) in
  err = None /\ (Body <$> resp) = Some (Some (Broken "half" broken false (Failing broken))).
Proof. vm_compute. split; reflexivity. Qed.
