(* ===== verification/Config.v ===== *)
(** * Config: the configuration and the start-up checks (main.go)

    [wire] is [Run] up to the point where the three loops start: the checks in
    their order, and the components built from what passed. The environment,
    the Kafka producer and the authenticated client are outside: arguments. *)
From S2P Require Import Prelude GoStrings GoPath Regex Types Coalesce Trust Filters SizeGate Commands World Publisher CursorFile Watcher Scanner.
From Stdlib Require Import Ascii.
Local Open Scope Z_scope.

(** ** Checks *)

(** [^[a-zA-Z0-9_.-]+$] *)
Definition scope_char (c : ascii) : bool :=
  in_range 97 122 c || in_range 65 90 c || in_range 48 57 c || Ascii.eqb c "_" || Ascii.eqb c "."
  || Ascii.eqb c "-".
Definition repoScopePattern : regex := plus (RChar scope_char).

Definition validateLengthCaps (maxSlugLen maxTitleLen : Z) : result unit :=
  if maxSlugLen <=? 0 then Err (ErrOther "MAX_SLUG_LEN must be > 0")
  else if maxTitleLen <=? 0 then Err (ErrOther "MAX_TITLE_LEN must be > 0")
  else if maxTitleLen <=? maxSlugLen then Err (ErrOther "MAX_SLUG_LEN must be < MAX_TITLE_LEN")
  else Ok tt.

Definition validateRepoScope (scope : string) : result unit :=
  if negb (MatchFull repoScopePattern scope) then Err (ErrOther "repo scope") else Ok tt.

Section parsers.
Context `{DurationParser}.

Definition parseMaxPRAge (raw : string) : result Duration :=
  if raw =?s "" then Ok 0
  else
    match ParseDuration raw with
    | Err e => Err e
    | Ok parsed =>
        match parsed with
        | Some d => if d <? 0 then Err (ErrOther "MAX_PR_AGE must not be negative") else Ok d
        | None => Ok 0
        end
    end.

Definition parseBackfillDuration (raw : string) : result Duration :=
  if raw =?s "" then Ok 0
  else
    match ParseDuration raw with
    | Err e => Err e
    | Ok parsed =>
        match parsed with
        | Some d => if d <? 0 then Err (ErrOther "BACKFILL_DURATION must not be negative") else Ok d
        | None => Ok 0
        end
    end.
End parsers.

(** [os.Getenv]: empty when unset. *)
Definition environ : Type := string -> string.

Definition getEnvInt (env : environ) (name : string) : Z := default 0 (Atoi (env name)).

(** ** The application *)
Record application : Type := mkApplication {
  a_Stage : string;
  a_PollInterval : string;
  a_CoalesceHold : string;
  a_RepoScope : string;
  a_BotAllowlist : string;
  a_TrustedAuthors : string;
  a_MaxPRAge : string;
  a_BackfillDuration : string;
  a_RepoAllowlist : string;
  a_MaxSlugLen : Z;
  a_MaxTitleLen : Z;
  a_MaxAdditions : Z;
  a_MaxChangedFiles : Z;
  a_TaskSuffix : string;
  a_TargetVault : string;
  a_OverrideLabel : string;
  a_AutoMergeLabel : string;
  a_TrivialAutoMerge : bool;
  a_MechanicalOverrideAuthors : string;
  a_ReviewerBotLogins : string;
  a_UnreviewedThreshold : string;
  a_UnreviewedRetryMax : Z }.

(** The App identity and its key. *)
Record credentials : Type := mkCredentials {
  appID : Z;
  installationID : Z;
  pemKey : string }.

Definition resolveAuth (env : environ) : result credentials :=
  let appID := getEnvInt env "APP_ID" in
  let installationID := getEnvInt env "INSTALLATION_ID" in
  let pemKey := env "PEM_KEY" in
  let appPartial := negb (appID =? 0) || negb (installationID =? 0) || negb (pemKey =?s "") in
  let appComplete := negb (appID =? 0) && negb (installationID =? 0) && negb (pemKey =?s "") in
  if appPartial && negb appComplete then Err (ErrOther "partial GitHub App config")
  else if negb appComplete then Err (ErrOther "GitHub App credentials not configured")
  else Ok (mkCredentials appID installationID pemKey).

Definition validateConfig (a : application) : result unit :=
  match validateRepoScope (a_RepoScope a) with
  | Err e => Err e
  | Ok _ => validateLengthCaps (a_MaxSlugLen a) (a_MaxTitleLen a)
  end.

(** What [Run] hands the loops: the poll ticker's interval, the watcher, the
    scanner, the publisher's configuration, the guard's logins, and the
    authors the command consumer defers. *)
Record wiring : Type := mkWiring {
  w_pollInterval : Duration;
  w_watcher : watcher;
  w_scanner : unreviewedScanner;
  w_task : TaskConfig;
  w_unreviewed : UnreviewedConfig;
  w_auth : credentials }.

Section run.
Context `{DurationParser} `{RepoAllowlist} `{UnicodeTables}.

(** [pkg.TaskConfig{...}] *)
Definition task_config (a : application) : TaskConfig :=
  mkTaskConfig (a_Stage a) (a_MaxSlugLen a) (a_MaxTitleLen a) (a_TaskSuffix a) (a_TargetVault a)
    (a_MaxAdditions a) (a_MaxChangedFiles a).

(** [factory.CreateWatcher]: the watcher and its scanner. *)
Definition CreateWatcher (a : application) (startTime : DateTime) (filter sideEffect : TaskCreationFilter)
    (trust : Trust.Trust) (unreviewed : UnreviewedConfig) (hold : Duration)
  : watcher * unreviewedScanner :=
  (mkWatcher DefaultCursorPath startTime (a_RepoScope a) filter (Some sideEffect) (a_OverrideLabel a)
     (a_AutoMergeLabel a) (a_TrivialAutoMerge a)
     (ParseMechanicalOverrideAuthors (a_MechanicalOverrideAuthors a)) trust hold,
   mkScanner (a_RepoScope a) filter trust (a_OverrideLabel a) (a_MaxAdditions a) (a_MaxChangedFiles a)
     unreviewed).

(** The cursor's cold-start time. *)
Definition backdate (startTime : DateTime) (backfill : Duration) : DateTime :=
  if 0 <? backfill then dt_Add startTime (- backfill) else startTime.

Definition wire (a : application) (env : environ) (now : DateTime) (producer : result unit)
    (client : credentials -> result unit) : result wiring :=
  (let_ok _ := validateConfig a in
   match time_ParseDuration (a_PollInterval a) with
   | None => Err (ErrOther "parse poll interval")
   | Some pollInterval =>
   match time_ParseDuration (a_CoalesceHold a) with
   | None => Err (ErrOther "parse coalesce hold")
   | Some coalesceHold =>
   let_ok _ := ValidateHold coalesceHold in
   let botAllowlist := ParseBotAllowlist (a_BotAllowlist a) in
   let_ok maxAge := parseMaxPRAge (a_MaxPRAge a) in
   let_ok backfill := parseBackfillDuration (a_BackfillDuration a) in
   let_ok unreviewed :=
     ParseUnreviewedConfig (a_ReviewerBotLogins a) (a_UnreviewedThreshold a) (a_UnreviewedRetryMax a) in
   let startTime := backdate now backfill in
   let repoAllowlist := ParseRepoAllowlist (a_RepoAllowlist a) in
   let taskCreationFilter := taskCreationFilters botAllowlist repoAllowlist maxAge startTime in
   let sideEffectFilter := sideEffectFilters repoAllowlist in
   match ParseTrustedAuthors (a_TrustedAuthors a) with
   | [] => Err (ErrOther "no trusted authors configured")
   | trustedAuthors =>
   let_ok _ := producer in
   let trustDecision := production_trust trustedAuthors in
   let_ok auth := resolveAuth env in
   let_ok _ := client auth in
   match Logins unreviewed with
   | [] => Err (ErrOther "REVIEWER_BOT_LOGINS must name at least one reviewer login")
   | _ =>
     let '(w, s) := CreateWatcher a startTime taskCreationFilter sideEffectFilter trustDecision
                      unreviewed coalesceHold in
     Ok (mkWiring pollInterval w s (task_config a) unreviewed auth)
   end end end end)%watcher.
End run.

(** ** What a started process relies on *)

Lemma scope_star l : matches (RStar (RChar scope_char)) l <-> Forall (fun c => scope_char c = true) l.
Proof.
  induction l as [|c l IH].
  - split; [done|]. constructor.
  - split.
    + intros (u & v & -> & Hu & Hv)%star_cons. apply char_inv in Hu as (d & Hd & Hc). injection Hd as -> ->.
      constructor; [done|]. by apply IH.
    + intros [Hc Hl]%Forall_cons. apply (M_StarApp _ [c] l); [apply char_inv; by exists c|by apply IH].
Qed.

Lemma validateRepoScope_spec scope :
  validateRepoScope scope = Ok tt <->
  scope <> "" /\ Forall (fun c => scope_char c = true) (bytes_of scope).
Proof.
  unfold validateRepoScope, MatchFull, repoScopePattern, plus.
  change (String.list_ascii_of_string scope) with (bytes_of scope).
  assert (match_full (RCat (RChar scope_char) (RStar (RChar scope_char))) (bytes_of scope) = true <->
    scope <> "" /\ Forall (fun c => scope_char c = true) (bytes_of scope)) as H.
  { rewrite match_full_correct, cat_inv. destruct scope as [|c s]; simpl.
    - split; [|tauto]. intros (u & v & Huv & Hu & _). apply char_inv in Hu as (d & -> & _). done.
    - rewrite Forall_cons, <- scope_star. split.
      + intros (u & v & Huv & Hu & Hv). apply char_inv in Hu as (d & -> & Hd). injection Huv as -> ->. done.
      + intros (_ & Hc & Hs). exists [c], (bytes_of s). split; [done|]. split; [|done].
        apply char_inv. by exists c. }
  destruct (match_full _ _); simpl; rewrite <- H; by split.
Qed.

Lemma validateLengthCaps_spec slug title :
  validateLengthCaps slug title = Ok tt <-> 0 < slug < title.
Proof.
  unfold validateLengthCaps. destruct (Z.leb_spec slug 0); [split; [done|lia]|].
  destruct (Z.leb_spec title 0); [split; [done|lia]|].
  destruct (Z.leb_spec title slug); split; try done; lia.
Qed.

Lemma ValidateHold_spec hold : ValidateHold hold = Ok tt <-> 0 < hold <= MaxHold.
Proof.
  unfold ValidateHold. destruct (Z.leb_spec hold 0); [split; [done|lia]|].
  destruct (Z.ltb_spec MaxHold hold); split; try done; lia.
Qed.

Lemma resolveAuth_spec env c :
  resolveAuth env = Ok c <->
  c = mkCredentials (getEnvInt env "APP_ID") (getEnvInt env "INSTALLATION_ID") (env "PEM_KEY") /\
  appID c <> 0 /\ installationID c <> 0 /\ pemKey c <> "".
Proof.
  unfold resolveAuth. cbn zeta.
  destruct (Z.eqb_spec (getEnvInt env "APP_ID") 0), (Z.eqb_spec (getEnvInt env "INSTALLATION_ID") 0),
    (String.eqb_spec (env "PEM_KEY") ""); simpl; split; try done;
    try (intros (-> & ? & ? & ?); done).
  by intros [= <-].
Qed.

Section started.
Context `{DurationParser} `{RepoAllowlist} `{UnicodeTables}.

Definition nonneg_duration (r : result Duration) (d : Duration) : Prop := r = Ok d /\ 0 <= d.

Lemma parseMaxPRAge_nonneg raw d : parseMaxPRAge raw = Ok d -> 0 <= d.
Proof.
  unfold parseMaxPRAge. destruct (raw =?s ""); [intros [= <-]; lia|].
  destruct (ParseDuration raw) as [[x|]|]; try done; [|intros [= <-]; lia].
  destruct (Z.ltb_spec x 0); [done|]. by intros [= <-].
Qed.
Lemma parseBackfillDuration_nonneg raw d : parseBackfillDuration raw = Ok d -> 0 <= d.
Proof.
  unfold parseBackfillDuration. destruct (raw =?s ""); [intros [= <-]; lia|].
  destruct (ParseDuration raw) as [[x|]|]; try done; [|intros [= <-]; lia].
  destruct (Z.ltb_spec x 0); [done|]. by intros [= <-].
Qed.

Lemma ParseUnreviewedConfig_valid logins threshold retryMax u :
  ParseUnreviewedConfig logins threshold retryMax = Ok u -> Logins u <> [] ->
  Logins u = ParseBotAllowlist logins /\ 0 < Threshold u /\ 0 <= RetryMax u.
Proof.
  unfold ParseUnreviewedConfig. destruct (ParseBotAllowlist logins) as [|l ls]; [by intros [= <-]|].
  destruct (Z.ltb_spec retryMax 0); [done|]. unfold parseUnreviewedThreshold.
  destruct (ParseDuration threshold) as [[x|]|]; try done.
  destruct (Z.leb_spec x 0); [done|]. intros [= <-] _. simpl. split; [done|lia].
Qed.

(** What the configuration and the surroundings must be. *)
Record startable (a : application) (env : environ) (producer : result unit)
    (client : credentials -> result unit) : Prop := {
  st_scope : a_RepoScope a <> "" /\ Forall (fun c => scope_char c = true) (bytes_of (a_RepoScope a));
  st_caps : 0 < a_MaxSlugLen a < a_MaxTitleLen a;
  st_poll : is_Some (time_ParseDuration (a_PollInterval a));
  st_hold : exists hold, time_ParseDuration (a_CoalesceHold a) = Some hold /\ 0 < hold <= MaxHold;
  st_age : is_Ok (parseMaxPRAge (a_MaxPRAge a)) = true;
  st_backfill : is_Ok (parseBackfillDuration (a_BackfillDuration a)) = true;
  st_unreviewed : exists u, ParseUnreviewedConfig (a_ReviewerBotLogins a) (a_UnreviewedThreshold a)
                    (a_UnreviewedRetryMax a) = Ok u /\ Logins u <> [];
  st_trusted : ParseTrustedAuthors (a_TrustedAuthors a) <> [];
  st_producer : producer = Ok tt;
  st_auth : exists c, resolveAuth env = Ok c /\ client c = Ok tt }.

(** What a started process is. *)
Record well_formed (a : application) (now : DateTime) (w : wiring) : Prop := {
  wf_hold : window (coalesceHold (w_watcher w)) /\ 0 < coalesceHold (w_watcher w) <= MaxHold;
  wf_caps : 0 < MaxSlugLen (w_task w) < MaxTitleLen (w_task w);
  wf_scope : Forall (fun c => scope_char c = true) (bytes_of (scope (w_watcher w))) /\
             sc_scope (w_scanner w) = scope (w_watcher w);
  wf_logins : Logins (w_unreviewed w) <> [] /\ 0 < Threshold (w_unreviewed w) /\
              0 <= RetryMax (w_unreviewed w) /\ sc_cfg (w_scanner w) = w_unreviewed w;
  wf_trust : exists authors, authors <> [] /\ trustDecision (w_watcher w) = production_trust authors /\
             sc_trust (w_scanner w) = trustDecision (w_watcher w);
  wf_filters : exists maxAge, 0 <= maxAge /\
      taskCreationFilter (w_watcher w) =
        taskCreationFilters (ParseBotAllowlist (a_BotAllowlist a)) (ParseRepoAllowlist (a_RepoAllowlist a))
          maxAge (startTime (w_watcher w)) /\
      sc_filter (w_scanner w) = taskCreationFilter (w_watcher w);
  wf_start : startTime (w_watcher w) <= now;
  wf_auth : appID (w_auth w) <> 0 /\ installationID (w_auth w) <> 0 /\ pemKey (w_auth w) <> "" }.

Lemma wire_inv a env now producer client w :
  wire a env now producer client = Ok w ->
  startable a env producer client /\ well_formed a now w.
Proof.
  unfold wire, validateConfig.
  destruct (validateRepoScope _) as [[]|] eqn:Hscope; [|done]. apply validateRepoScope_spec in Hscope.
  destruct (validateLengthCaps _ _) as [[]|] eqn:Hcaps; [|done]. apply validateLengthCaps_spec in Hcaps.
  destruct (time_ParseDuration (a_PollInterval a)) as [poll|] eqn:Hpoll; [|done].
  destruct (time_ParseDuration (a_CoalesceHold a)) as [hold|] eqn:Hhold; [|done].
  destruct (ValidateHold hold) as [[]|] eqn:Hv; [|done]. apply ValidateHold_spec in Hv.
  destruct (parseMaxPRAge _) as [age|] eqn:Hage; [|done].
  destruct (parseBackfillDuration _) as [back|] eqn:Hback; [|done].
  destruct (ParseUnreviewedConfig _ _ _) as [u|] eqn:Hu; [|done].
  destruct (ParseTrustedAuthors _) as [|t ts] eqn:Htr; [done|].
  destruct producer as [[]|]; [|done]. destruct (resolveAuth env) as [c|] eqn:Ha; [|done].
  destruct (client c) as [[]|] eqn:Hc; [|done]. destruct (Logins u) as [|l ls] eqn:Hl; [done|].
  simpl. intros [= <-].
  assert (Logins u <> []) as Hne by congruence.
  destruct (ParseUnreviewedConfig_valid _ _ _ _ Hu Hne) as (_ & ? & ?).
  pose proof (parseBackfillDuration_nonneg _ _ Hback). split.
  - constructor; eauto; try (by rewrite ?Hage, ?Hback). by rewrite Htr.
  - constructor; cbn; try done.
    + split; [|done]. unfold window, MaxHold, Hour, Minute, Second, int_max in *. lia.
    + by destruct Hscope.
    + by exists (t :: ts).
    + exists age. split; [by apply parseMaxPRAge_nonneg in Hage|done].
    + unfold backdate, dt_Add. destruct (0 <? back) eqn:?; bool_props; lia.
    + by apply resolveAuth_spec in Ha as (_ & ?).
Qed.

(** (C36) The process starts exactly on a sound configuration. Start-up passes
    exactly when every check does, whatever the order they are made in; and
    then the hold window is positive and bounded, as the coalescer's
    guarantees need, the length caps leave the title room for its slug, the
    scope has no character that could add a qualifier to a search, the poll,
    the scan and the guard share one non-empty set of logins and one trust
    decision over a non-empty list, and the credentials are complete. *)
Theorem wire_sound a env now producer client :
  (startable a env producer client <-> exists w, wire a env now producer client = Ok w) /\
  (forall w, wire a env now producer client = Ok w -> well_formed a now w).
Proof.
  split; [split|].
  - intros [Hs Hc [poll Hp] (hold & Hh & Hv) Hage Hback (u & Hu & Hl) Ht -> (c & Ha & Hcl)].
    unfold wire, validateConfig.
    rewrite (proj2 (validateRepoScope_spec _) Hs), (proj2 (validateLengthCaps_spec _ _) Hc), Hp, Hh,
      (proj2 (ValidateHold_spec _) Hv).
    destruct (parseMaxPRAge _); [|done]. destruct (parseBackfillDuration _); [|done].
    rewrite Hu, Ha, Hcl. destruct (ParseTrustedAuthors _); [done|]. destruct (Logins u); [done|]. eauto.
  - intros [w Hw]. by apply wire_inv in Hw as [? _].
  - intros w Hw. by apply wire_inv in Hw as [_ ?].
Qed.
End started.

(** ** The defaults *)

(** The default flags with an author list and reviewer logins. *)
Definition default_application (pollInterval : string) : application :=
  mkApplication "prod" pollInterval "3m" "bborbe" "dependabot[bot],renovate[bot]" "bborbe" "2160h" "720h"
    "" 80 200 0 0 "" "" "override-review" "auto-merge" false "" "pr-reviewer" "30m" 3.
Definition default_environ : environ := fun name =>
  if name =?s "APP_ID" then "42" else if name =?s "INSTALLATION_ID" then "7"
  else if name =?s "PEM_KEY" then "key" else "".

#[local] Instance go_durations : DurationParser :=
  {| ParseDuration raw := match time_ParseDuration raw with
                          | Some d => Ok (Some d)
                          | None => Err (ErrOther "duration")
                          end |}.
#[local] Instance allow_all : RepoAllowlist := {| IsAllowed _ _ := true |}.
#[local] Instance plain_unicode : UnicodeTables := {| lower_table r := r; print_table _ := true |}.

(** The defaults start: the theorem at a concrete configuration. *)
Lemma wire_sound_witness :
  startable (default_application "5m") default_environ (Ok tt) (fun _ => Ok tt) /\
  exists w, wire (default_application "5m") default_environ (10000 * Hour) (Ok tt) (fun _ => Ok tt) = Ok w /\
    well_formed (default_application "5m") (10000 * Hour) w.
Proof.
  destruct (wire_sound (default_application "5m") default_environ (10000 * Hour) (Ok tt) (fun _ => Ok tt))
    as [Hiff Hwf].
  assert (is_Ok (wire (default_application "5m") default_environ (10000 * Hour) (Ok tt) (fun _ => Ok tt)) = true)
    as Hok by (vm_compute; reflexivity).
  destruct (wire _ _ _ _ _) as [w|] eqn:Hw; [|discriminate Hok].
  split; [apply Hiff; by exists w|]. exists w. split; [reflexivity|]. by apply Hwf.
Defined.

(** The poll interval is not checked to be positive, which the ticker of the
    poll loop requires. *)
Example poll_interval_unchecked :
  (w_pollInterval <$> match wire (default_application "-5m") default_environ (10000 * Hour) (Ok tt) (fun _ => Ok tt)
     with Ok w => Some w | Err _ => None end) = Some (-5 * Minute).
Proof. vm_compute. reflexivity. Qed.

(** The age bound counts from the backdated cold-start time: with the
    defaults a PR of 2500 hours passes the bound of 2160. *)
Example age_bound_backdated :
  let pr := mkFilterPR "alice" false "fix" (7500 * Hour) "github.com/bborbe/errors" in
  (fun w => Skip (taskCreationFilter (w_watcher w)) pr) <$>
    match wire (default_application "5m") default_environ (10000 * Hour) (Ok tt) (fun _ => Ok tt)
    with Ok w => Some w | Err _ => None end = Some false.
Proof. vm_compute. reflexivity. Qed.
