(* ===== verification/Process.v ===== *)
(** * Process: the running program (main.go, pkg/factory)

    What [application.Run] starts once the configuration passed: the poll
    loop, the HTTP server with its routes, the command consumer, and the
    callbacks of the coalescer's timers. Each is a tree over the shared state;
    the pool of Concurrent.v interleaves them. *)
From S2P Require Import Prelude Coalesce GoStrings KV Ledger Types Titles Trust Filters SizeGate Commands World Publisher CursorFile Watcher Scanner RetryGuard Executor Crypto Handlers Config Concurrent.
From Stdlib Require Import Ascii.
Local Open Scope Z_scope.

(** ** The HTTP routes *)

Inductive endpoint : Type :=
| EHealthz | EReadiness | EMetrics | ESetLogLevel (level : string) | EGc | ECheck | ETrigger
| EWebhook.

(** [mux]'s [{level}] matches one segment that is not empty. *)
Definition segment_of (prefix path : string) : option string :=
  if HasPrefix path prefix then
    let s := String.substring (String.length prefix) (String.length path - String.length prefix) path in
    if (s =?s "") || existsb (Ascii.eqb "/") (bytes_of s) then None else Some s
  else None.

(** [createHTTPServer]'s router. *)
Definition route (path : string) : option endpoint :=
  if path =?s "/healthz" then Some EHealthz
  else if path =?s "/readiness" then Some EReadiness
  else if path =?s "/metrics" then Some EMetrics
  else match segment_of "/setloglevel/" path with
  | Some level => Some (ESetLogLevel level)
  | None =>
      if path =?s "/gc" then Some EGc
      else if path =?s "/check" then Some ECheck
      else if path =?s "/trigger" then Some ETrigger
      else if path =?s "/webhook/github-pr" then Some EWebhook
      else None
  end.

(** A request to the server: the query values, the webhook's headers and body. *)
Record http_request : Type := mkHttpRequest {
  hr_path : string;
  hr_url : string;                       (* ?url= *)
  hr_force : string;                     (* ?force= *)
  hr_webhook : webhook_request }.

(** ** The goroutines *)
Section process.
Context `{K : KV St Hd It} `{C : RecordCodec} `{UT : UnicodeTables} `{G : GitIgnore} `{U : UUID}
  `{J : CursorCodec} `{L : Payloads Event} `{PU : PRURL} `{WC : WebhookCodec} `{B : BoolParser}.
(** What start-up built, and the webhook's secret. *)
Context (W : wiring) (secret : string).

Definition hold_of : Duration := coalesceHold (w_watcher W).

(** The publisher of the poll and the scan: [CreateWatcher]. *)
Definition publisher_of : TaskPublisher St :=
  taskPublisher (trustDecision (w_watcher W)) (w_task W).

(** [pollOnce]; [fuel] bounds the pages of a search. *)
Definition pollOnce (fuel : nat) : M St (option (result unit)) :=
  Poll (P:=publisher_of) (Scan (P:=publisher_of) (w_scanner W)) (w_watcher W) fuel.

(** What the [select] of [runPollLoop] wakes up for. *)
Inductive wake : Type := Cancelled | Ticked.

(** [runPollLoop]: an error of a poll is logged and the loop goes on. *)
Fixpoint runPollLoop (fuel : nat) (wakes : list wake) : M St unit :=
  match wakes with
  | [] => mret tt
  | Cancelled :: _ => mret tt
  | Ticked :: wakes' => pollOnce fuel;; runPollLoop fuel wakes'
  end.

(** A request of the HTTP server. The answer is the handler's; the endpoints
    that touch none of the program's state are library handlers. *)
Definition serveHTTP (fuel : nat) (req : http_request) : M St unit :=
  match route (hr_path req) with
  | Some ECheck => pollOnce fuel;; mret tt
  | Some ETrigger => trigger_ServeHTTP (hr_url req) (hr_force req);; mret tt
  | Some EWebhook => webhook_ServeHTTP hold_of secret (hr_webhook req);; mret tt
  | _ => mret tt
  end.

(** The two operations [CreateCommandConsumer] registers executors for. *)
Inductive operation : Type := OpTriggerPRReview | OpSetDoNotMergeStatus.

Definition execute (op : operation) (data : Event) : M St (option error) :=
  match op with
  | OpTriggerPRReview =>
      runTriggerPRReview (taskCreationFilter (w_watcher W)) (trustDecision (w_watcher W))
        (mechanicalOverrideAuthors (w_watcher W)) (w_task W) (Logins (w_unreviewed W)) data
  | OpSetDoNotMergeStatus => runSetDoNotMergeStatus data
  end.

(** The consumer runs the executor inside one update of the store, in which
    it also keeps its own books (the offsets): library code. *)
Context (bookkeeping : operation -> Event -> St -> St).

Definition consume (op : operation) (data : Event) : M St (option error) :=
  db_Update (r ← execute op data; modify_db (bookkeeping op data);; mret r).

Fixpoint consumeAll (commands : list (operation * Event)) : M St unit :=
  match commands with
  | [] => mret tt
  | (op, data) :: commands' => consume op data;; consumeAll commands'
  end.

(** The second half of [fire]: the dispatch, and what becomes of the claim. *)
Definition dispatch_held (fl : flight) : M St unit :=
  d ← Dispatch (fl_url fl);
  match d with
  | Err _ => coalescer_call (fun c => (tt, fire_leave hold_of fl false dt_zero c))
  | Ok _ =>
      now ← call Now;
      coalescer_call (fun c => (tt, fire_leave hold_of fl true now c))
  end.

(** [fire]: the goroutine of the timer [t]. *)
Definition fire (t : timer_id) (cb : callback) : M St unit :=
  r ← coalescer_call (fire_enter t cb);
  match r with
  | None => mret tt
  | Some headSHA => dispatch_held (mkFlight t (cb_key cb) (cb_url cb) headSHA)
  end.

(** [run.CancelOnFirstFinish] starts the three loops; the server starts a
    goroutine for each request. The loops of the code go on for ever; here a
    goroutine gets a list of ticks or of commands, as long as one likes, so
    every finite run of the code is a run of a pool here. That a goroutine's
    tree ends says nothing about the loops. *)
Inductive goroutine : M St unit -> Prop :=
| g_poll fuel wakes : goroutine (runPollLoop fuel wakes)
| g_http fuel req : goroutine (serveHTTP fuel req)
| g_consumer commands : goroutine (consumeAll commands).

Definition process_step : pool St -> pool St -> Prop := pstep goroutine fire.

(** Before the first goroutine: [NewMemDB], [NewCoalescer], empty maps. *)
Record initial (p : pool St) : Prop := mkInitial {
  it_threads : p_threads p = ∅;
  it_db : kv_ok (sh_db (p_shared p)) /\ kv_view (sh_db (p_shared p)) = ∅;
  it_rw : rw_free (sh_rw (p_shared p));
  it_coal : exists now, 0 <= now /\ sh_coal (p_shared p) = NewCoalescer now;
  it_scan : sh_scan (p_shared p) = None;
  it_trace : sh_trace (p_shared p) = [] }.

Definition reachable (p : pool St) : Prop := exists p0, initial p0 /\ rtc process_step p0 p.
End process.
