(* ===== verification/RelyGuarantee.v ===== *)
(** * RelyGuarantee: reasoning about one goroutine among many

    A goroutine is verified on its own, against what the others may do
    between its steps ([rely]) and under the promise of what its own steps do
    to them ([guar]). [wpc] says that a computation keeps the promise, takes
    only actions that are [allowed] in the state it takes them in, and ends as
    its postcondition says. [pool_sound] carries it to every interleaving of
    every pool. A [memo] is what a theorem remembers of one moment of a run;
    what is proved holds for any, so the moment need not be a goroutine's
    start. *)
From S2P Require Import Prelude Coalesce GoStrings KV Ledger LedgerProofs Records Types Titles Trust Filters SizeGate Commands World Code Publisher CursorFile Watcher Scanner Concurrent.
Local Open Scope Z_scope.

(** What the program was started with, as far as a review depends on it. *)
Record policy : Type := mkPolicy { pl_task : TaskConfig; pl_logins : list string }.

(** What a theorem remembers of a moment of the run: the overrides on the
    ledger, with the time of the record, and how much had been logged. *)
Record memo : Type := mkMemo { owned_heads : RetryGuardPR -> DateTime -> Prop; since : nat }.

(** ** The log *)

Definition mine (i : tid) (tr : list (tid * event)) : list (tid * event) := filter (fun e => fst e = i) tr.

(** The event is the send of a task. *)
Definition sends_task (ev : event) : Prop :=
  match ev with Ev q _ => match q with SendCreate _ => True | _ => False end end.

(** GitHub's reviews of the PR could not be read, or hold a verdict on the head. *)
Definition excuses `{UT : UnicodeTables} (logins : list string) (head : RetryGuardPR) (ev : event) : Prop :=
  (exists e, ev = Ev (ListReviews (pr_Owner head) (pr_Repo head) (pr_Number head)) (Err e)) \/
  exists rs, ev = Ev (ListReviews (pr_Owner head) (pr_Repo head) (pr_Number head)) (Ok rs) /\
    has_verdict logins (pr_HeadSHA head) rs = true.

Lemma mine_snoc i j ev tr : mine i (tr ++ [(j, ev)]) = mine i tr ++ if decide (j = i) then [(j, ev)] else [].
Proof. unfold mine. by rewrite filter_app. Qed.

(** What was logged since is not the goroutine's. *)
Lemma mine_new i tr tr' k ev : tr `prefix_of` tr' -> mine i tr' = mine i tr ->
  (length tr <= k)%nat -> tr' !! k = Some (i, ev) -> False.
Proof.
  intros [ext ->] Hm Hk Hev. unfold mine in Hm. rewrite filter_app in Hm.
  assert (filter (fun e : tid * event => fst e = i) ext = []) as He.
  { apply (app_inv_head (filter (fun e => fst e = i) tr)). by rewrite app_nil_r. }
  rewrite lookup_app_r in Hev by done. apply list_elem_of_lookup_2 in Hev.
  assert ((i, ev) ∈ filter (fun e : tid * event => fst e = i) ext) as Hin by by apply list_elem_of_filter.
  rewrite He in Hin. by apply elem_of_nil in Hin.
Qed.

Section logic.
Context `{K : KV St Hd It} `{C : RecordCodec} `{UT : UnicodeTables}.
Context (hold : Duration) (cfg : policy).
Implicit Types σ : shared St.

(** ** What every goroutine keeps *)

Definition fresh_timers (c : coalescer) : Prop :=
  forall t cb, timers c !! t = Some cb -> (t < next_timer c)%nat.

(** The store's records are of the past, its lock has one writer or readers. *)
Record Inv σ : Prop := mkInv {
  inv_timers : fresh_timers (sh_coal σ);
  inv_ok : kv_ok (sh_db σ);
  inv_stamped : stamped (now_of σ) (sh_db σ);
  inv_rw : rw_writer (sh_rw σ) = None \/ rw_readers (sh_rw σ) = ∅ }.

(** The runtime has had the timer [t] and launched its callback. *)
Definition spent (t : timer_id) (c : coalescer) : Prop :=
  (t < next_timer c)%nat /\ forall cb, timers c !! t = Some cb -> cb_started cb = true.

(** Time moves on, records stay for their hour, a spent timer stays spent. *)
Record common σ σ' : Prop := mkCommon {
  cm_inv : Inv σ';
  cm_now : now_of σ <= now_of σ';
  cm_holds n key t0 : ledger_bucket n -> now_of σ' <= t0 + Hour ->
    holds n key t0 (sh_db σ) -> holds n key t0 (sh_db σ');
  cm_spent t : spent t (sh_coal σ) -> spent t (sh_coal σ');
  cm_trace : sh_trace σ `prefix_of` sh_trace σ' }.

(** What belongs to the goroutine [i]: the locks it has or has not, what they
    guard, its timer and the dispatch it is making. *)
Record own (i : tid) σ σ' : Prop := mkOwn {
  ow_writer : rw_writer (sh_rw σ') = Some i <-> rw_writer (sh_rw σ) = Some i;
  ow_reader : i ∈ rw_readers (sh_rw σ') <-> i ∈ rw_readers (sh_rw σ);
  ow_db : rw_writer (sh_rw σ) = Some i \/ (i ∈ rw_readers (sh_rw σ)) -> sh_db σ' = sh_db σ;
  ow_scan : sh_scan σ' = Some i <-> sh_scan σ = Some i;
  ow_maps : sh_scan σ = Some i -> sh_maps σ' = sh_maps σ;
  ow_timer t : i = Fire t -> spent t (sh_coal σ) ->
    timers (sh_coal σ') !! t = timers (sh_coal σ) !! t;
  ow_flight fl : i = Fire (fl_timer fl) -> (fl ∈ flights (sh_coal σ)) -> fl ∈ flights (sh_coal σ');
  ow_trace : mine i (sh_trace σ') = mine i (sh_trace σ) }.

Definition rely (i : tid) σ σ' : Prop := common σ σ' /\ own i σ σ'.
Definition guar (i : tid) σ σ' : Prop := common σ σ' /\ forall j, j <> i -> own j σ σ'.

Lemma common_refl σ : Inv σ -> common σ σ.
Proof. intros HI. by split; [done|lia|done|done|]. Qed.
Lemma common_trans σ1 σ2 σ3 : common σ1 σ2 -> common σ2 σ3 -> common σ1 σ3.
Proof.
  intros [Hi Hn Hh Hs Htr] [Hi' Hn' Hh' Hs' Htr']. split; [done|lia| |auto|by etrans].
  intros n key t0 Hb Hle H. apply Hh'; [done|done|]. apply Hh; [done|lia|done].
Qed.

Lemma own_refl i σ : own i σ σ.
Proof. by split. Qed.
Lemma own_trans i σ1 σ2 σ3 : common σ1 σ2 -> own i σ1 σ2 -> own i σ2 σ3 -> own i σ1 σ3.
Proof.
  intros Hc [Hw Hr Hdb Hs Hm Ht Hf Hl] [Hw' Hr' Hdb' Hs' Hm' Ht' Hf' Hl'].
  split; [tauto|tauto| |tauto| | |eauto|congruence].
  - intros H. rewrite Hdb' by tauto. by apply Hdb.
  - intros H. rewrite Hm' by tauto. by apply Hm.
  - intros t Hi Hsp. rewrite Ht'; [by apply Ht|done|]. by apply Hc.
Qed.

Lemma rely_refl i σ : Inv σ -> rely i σ σ.
Proof. split; [by apply common_refl|apply own_refl]. Qed.
Lemma rely_trans i σ1 σ2 σ3 : rely i σ1 σ2 -> rely i σ2 σ3 -> rely i σ1 σ3.
Proof. intros [] []. split; [by eapply common_trans|by eapply own_trans]. Qed.

(** ** What a goroutine may do *)

(** What is remembered is on the ledger from that moment on, for its hour.
    [clear]: a head the memory has no override of, or only an old one. *)
Context (owned : memo).

Definition known σ : Prop := (since owned < length (sh_trace σ))%nat -> forall head t0,
  owned_heads owned head t0 -> now_of σ <= t0 + Hour ->
  holds overrideLedgerBucketName (overrideLedgerKey head) t0 (sh_db σ).

Definition clear (head : RetryGuardPR) σ : Prop :=
  forall t0, owned_heads owned head t0 -> t0 + Hour < now_of σ.

Lemma clear_common head σ σ' : common σ σ' -> clear head σ -> clear head σ'.
Proof. intros Hcm Hc t0 Ho. specialize (Hc t0 Ho). pose proof (cm_now _ _ Hcm). lia. Qed.

(** The goroutine looked the head up: its clock reading is entry [m] of the
    log, and it sent no task since. If that was after the remembered moment,
    the head is clear. *)
Record looked_at (i : tid) (head : RetryGuardPR) (m : nat) σ : Prop := mkLookedAt {
  lk_entry : exists t, sh_trace σ !! m = Some (i, Ev Now t);
  lk_alone k ev : (m < k)%nat -> sh_trace σ !! k = Some (i, ev) -> ~ sends_task ev;
  lk_clear : (since owned <= m)%nat -> clear head σ }.

(** A forced review: no review of the head within the hour is on record in the
    store [s], or GitHub was asked since the look-up and excuses it. *)
Definition excused (i : tid) (head : RetryGuardPR) (m : nat) (s : St) σ : Prop :=
  (forall t0, holds retryGuardBucketName (retryGuardKey head) t0 s -> t0 + Hour < now_of σ) \/
  exists k ev, (m < k)%nat /\ sh_trace σ !! k = Some (i, ev) /\ excuses (pl_logins cfg) head ev.

(** A review is sent for a head that was looked up; by a goroutine that holds
    the store, only if the store has no override of the head, and for a forced
    command only with an excuse. *)
Definition may_review (i : tid) (cmd : CreateCommand) σ : Prop :=
  exists pr d id tr f ex m, cmd = BuildCreateCommand pr d id (pl_task cfg) tr f ex /\
    looked_at i (guard_pr pr d) m σ /\
    (rw_writer (sh_rw σ) = Some i ->
     (exists t, t <= now_of σ /\ suppressed t (guard_pr pr d) (sh_db σ) <> Ok true) /\
     (f = true -> excused i (guard_pr pr d) m (sh_db σ) σ)).

Definition may_request (i : tid) {A} (q : request A) σ : Prop :=
  match q with
  | SendCreate cmd => is_override cmd = true \/ may_review i cmd σ
  | _ => True
  end.

(** A step of the coalescer by the goroutine [i]: a method with a time that is
    not from the future, or a critical section of [fire] by the goroutine of
    the timer. *)
Inductive method_step (i : tid) (c : coalescer) : coalescer -> Prop :=
| ms_push k head url now : url <> "" -> now <= clock c ->
    method_step i c (snd (Push hold k head url now c))
| ms_admit k head pushAt now : now <= clock c ->
    method_step i c (snd (Admit hold k head pushAt now c))
| ms_mark k head now : now <= clock c -> method_step i c (MarkEmitted k head now c)
| ms_release k head : method_step i c (Release k head c)
| ms_enter t cb : i = Fire t -> timers c !! t = Some cb -> cb_started cb = true ->
    method_step i c (snd (fire_enter t cb c))
| ms_leave fl ok now : i = Fire (fl_timer fl) -> (fl ∈ flights c) -> (ok = true -> now <= clock c) ->
    method_step i c (fire_leave hold fl ok now c).

Definition writes_db {A} (f : St -> A * St) σ : Prop :=
  keeps_records (now_of σ) (sh_db σ) (snd (f (sh_db σ))).

Definition allowed (i : tid) {A} (o : action St A) σ : Prop :=
  match o with
  | Request q => may_request i q σ
  | Local _ => True
  | Method f => method_step i (sh_coal σ) (snd (f (sh_coal σ)))
  | Maps _ => sh_scan σ = Some i
  | TryLock => sh_scan σ <> Some i
  | UnlockScan => sh_scan σ = Some i
  | Lock _ => rw_writer (sh_rw σ) <> Some i /\ (i ∉ rw_readers (sh_rw σ))
  | Unlock true => rw_writer (sh_rw σ) = Some i
  | Unlock false => i ∈ rw_readers (sh_rw σ)
  | Access f =>
      rw_writer (sh_rw σ) = Some i /\ writes_db f σ \/
      (i ∈ rw_readers (sh_rw σ)) /\ forall s, snd (f s) = s
  end.

(** ** Steps of the coalescer *)

(** A step that leaves the spent timers, the flights and the clock alone. *)
Record calm (c c' : coalescer) : Prop := mkCalm {
  ca_clock : clock c' = clock c;
  ca_flights : flights c' = flights c;
  ca_fresh : fresh_timers c -> fresh_timers c';
  ca_timer t : spent t c -> spent t c' /\ timers c' !! t = timers c !! t;
  ca_started t cb : timers c' !! t = Some cb -> cb_started cb = true -> timers c !! t = Some cb }.

Lemma calm_refl c : calm c c.
Proof. by split. Qed.
Lemma calm_trans c1 c2 c3 : calm c1 c2 -> calm c2 c3 -> calm c1 c3.
Proof.
  intros [Hc Hf Hn Ht Hst] [Hc' Hf' Hn' Ht' Hst']. split; [congruence|congruence|auto| |auto]. intros t Hs.
  destruct (Ht t Hs) as [Hs2 <-]. by apply Ht'.
Qed.

Lemma calm_same c c' : clock c' = clock c -> flights c' = flights c ->
  timers c' = timers c -> next_timer c' = next_timer c -> calm c c'.
Proof.
  intros ? ? Ht Hn. split; [done..| | |]; [|intros t|by rewrite Ht]; unfold spent, fresh_timers; by rewrite Ht, Hn.
Qed.

Lemma calm_Stop t c : calm c (Stop t c).
Proof.
  unfold Stop. destruct (timers c !! t) as [cb|] eqn:E; [|apply calm_refl].
  destruct (cb_started cb) eqn:Es; [apply calm_refl|]. split; [done..| | |].
  { intros Hfr u cb'. simpl. intros [_ ?]%lookup_delete_Some. by eapply Hfr. }
  2: { intros u cb'. simpl. by intros [_ ?]%lookup_delete_Some. }
  intros u [Hlt Hs]. assert (t <> u) as Hne. { intros ->. by rewrite (Hs cb E) in Es. }
  unfold spent. simpl. rewrite lookup_delete_ne by done. done.
Qed.

Lemma calm_AfterFunc d k u g c : calm c (fst (AfterFunc d k u g c)).
Proof.
  split; [done..| | |].
  { intros Hfr t cb. simpl. intros [[<- _]|[_ Ht]]%lookup_insert_Some; [lia|]. specialize (Hfr t cb Ht). lia. }
  2: { intros t cb. simpl. by intros [[_ <-]|[_ ?]]%lookup_insert_Some. }
  intros t [Hlt Hs]. unfold spent. simpl. rewrite lookup_insert_ne by lia. split; [split; [lia|done]|done].
Qed.

Lemma calm_store k e c : calm c (store k e c).
Proof. by apply calm_same. Qed.

Lemma calm_prune now c : calm c (prune hold now c).
Proof. unfold prune. destruct (_ <=? _)%nat; [apply calm_refl|by apply calm_same]. Qed.

Lemma calm_stopTimer e c : calm c (snd (stopTimer e c)).
Proof. unfold stopTimer. destruct (timer e); [apply calm_Stop|apply calm_refl]. Qed.

Lemma calm_clearPending e c : calm c (snd (clearPending e c)).
Proof.
  unfold clearPending. pose proof (calm_stopTimer e c) as H. by destruct (stopTimer e c).
Qed.

Lemma calm_schedule e k head url c : calm c (snd (schedule hold e k head url c)).
Proof.
  unfold schedule. pose proof (calm_stopTimer (set_pending head url e) c) as H.
  destruct (stopTimer _ c) as [e1 c1]. simpl in H.
  pose proof (calm_AfterFunc hold k url (generation (set_generation (next_generation (generation e1)) e1)) c1) as H2.
  destruct (AfterFunc _ _ _ _ _) as [c2 t]. simpl in *. by eapply calm_trans.
Qed.

(** A pair of the entry and the state is stored. *)
Lemma calm_let_store {A} (a : A) k c0 c (p : entry * coalescer) :
  calm c0 c -> calm c (snd p) -> calm c0 (snd (let '(e, c) := p in (a, store k e c))).
Proof. destruct p. intros. eapply calm_trans; [done|]. eapply calm_trans; [done|]. apply calm_store. Qed.

Lemma calm_Push k head url now c : calm c (snd (Push hold k head url now c)).
Proof.
  unfold Push. pose proof (calm_prune now c) as Hp. set (c1 := prune hold now c) in *.
  destruct (negb _ && _); [by eapply calm_trans; [|apply calm_store]|].
  destruct (_ || _); (eapply calm_let_store; [done|]); [apply calm_clearPending|apply calm_schedule].
Qed.

Lemma calm_Admit k head pushAt now c : calm c (snd (Admit hold k head pushAt now c)).
Proof. unfold Admit. simpl. eapply calm_trans; [apply calm_prune|apply calm_store]. Qed.

Lemma calm_MarkEmitted k head now c : calm c (MarkEmitted k head now c).
Proof.
  unfold MarkEmitted. pose proof (calm_clearPending (set_claim now head (entry_of k c)) c) as H.
  destruct (clearPending _ c). eapply calm_trans; [exact H|apply calm_store].
Qed.

Lemma calm_Release k head c : calm c (Release k head c).
Proof.
  unfold Release. destruct (entries c !! k); [|apply calm_refl].
  destruct (_ =?s _); [apply calm_store|apply calm_refl].
Qed.

Lemma calm_fire_end k url head ok now c : calm c (fire_end hold k url head ok now c).
Proof.
  unfold fire_end. destruct ok; [apply calm_MarkEmitted|].
  destruct (entries c !! k) as [e|]; [|apply calm_refl].
  destruct (_ =?s _); [|apply calm_refl].
  pose proof (calm_schedule e k head url c) as H. destruct (schedule _ _ _ _ _ _).
  eapply calm_trans; [exact H|apply calm_store].
Qed.

Lemma calm_fire_begin k g c : calm c (snd (fire_begin k g c)).
Proof.
  unfold fire_begin. destruct (entries c !! k); [|apply calm_refl].
  destruct (negb _); [apply calm_refl|apply calm_store].
Qed.

Lemma land_keeps fl fl' fls : fl <> fl' -> (fl ∈ fls) -> fl ∈ land fl' fls.
Proof.
  intros Hne. induction fls as [|x fls IH]; [by intros ?%elem_of_nil|].
  rewrite elem_of_cons. simpl. destruct (decide (x = fl')) as [->|]; [by intros [?|?]|].
  rewrite elem_of_cons. intros [?|?]; auto.
Qed.

(** What a step of the goroutine [i] does to the others. *)
Record moves (i : tid) (c c' : coalescer) : Prop := mkMoves {
  mv_clock : clock c' = clock c;
  mv_fresh : fresh_timers c -> fresh_timers c';
  mv_spent t : spent t c -> spent t c';
  mv_timer t : spent t c -> i <> Fire t -> timers c' !! t = timers c !! t;
  mv_started t cb : timers c' !! t = Some cb -> cb_started cb = true -> timers c !! t = Some cb;
  mv_flight fl : i <> Fire (fl_timer fl) -> (fl ∈ flights c) -> fl ∈ flights c' }.

Lemma calm_moves i c c' : calm c c' -> moves i c c'.
Proof.
  intros [Hc Hf Hn Ht Hst]. split; [done|done| | |done|by rewrite Hf].
  - intros t Hs. by apply Ht.
  - intros t Hs _. by apply Ht.
Qed.

Lemma method_moves i c c' : method_step i c c' -> moves i c c'.
Proof.
  intros []; try (apply calm_moves; first [apply calm_Push|apply calm_Admit|apply calm_MarkEmitted|apply calm_Release]).
  - subst i. unfold fire_enter.
    set (c1 := set_timers (delete t (timers c)) c).
    pose proof (calm_fire_begin (cb_key cb) (cb_generation cb) c1) as [Hc Hf Hn Ht Hst].
    assert (forall u, spent u c -> spent u c1) as Hs1.
    { intros u [? Hu]. split; [done|]. simpl. intros cb' [_ ?]%lookup_delete_Some. by apply Hu. }
    destruct (fire_begin _ _ c1) as [r c2]. cbn [fst snd] in *.
    assert (moves (Fire t) c c2) as [Hm1 Hm0 Hm2 Hm3 Hm5 Hm4].
    { split; [done| | | | |by rewrite Hf].
      - intros Hfr. apply Hn. intros u cb'. simpl. intros [_ ?]%lookup_delete_Some. by eapply Hfr.
      - intros u Hu. by apply Ht, Hs1.
      - intros u Hu Hne. rewrite (proj2 (Ht u (Hs1 u Hu))). simpl. by rewrite lookup_delete_ne by congruence.
      - intros u cb' Hu Hs. apply (Hst u cb' Hu) in Hs. simpl in Hs. by apply lookup_delete_Some in Hs as [_ ?]. }
    destruct r; [|by split]. split; [done|by apply Hm0|by apply Hm2|by apply Hm3|by apply Hm5|].
    intros fl Hne Hin. simpl. apply list_elem_of_further. by apply Hm4.
  - subst i. unfold fire_leave.
    pose proof (calm_fire_end (fl_key fl) (fl_url fl) (fl_head fl) ok now
      (set_flights (land fl (flights c)) c)) as [Hc Hf Hn Ht Hst].
    split; [done|by apply Hn| | |done|].
    + intros t Hs. by apply Ht.
    + intros t Hs _. by apply Ht.
    + intros fl' Hne Hin. rewrite Hf. simpl. apply land_keeps; [congruence|done].
Qed.

(** ** An allowed action keeps the promise *)

Lemma common_same σ σ' :
  Inv σ -> sh_db σ' = sh_db σ -> sh_coal σ' = sh_coal σ ->
  rw_writer (sh_rw σ') = None \/ rw_readers (sh_rw σ') = ∅ ->
  (exists ext, sh_trace σ' = sh_trace σ ++ ext) -> common σ σ'.
Proof.
  intros [Hfr Hok Hst _] Hdb Hco Hrw Htr. split; [| | | |done].
  - split; unfold now_of; by rewrite ?Hdb, ?Hco.
  - unfold now_of. by rewrite Hco.
  - intros n key t0 _ _. by rewrite Hdb.
  - intros t. by rewrite Hco.
Qed.

Lemma unlogged σ : exists ext, sh_trace σ = sh_trace σ ++ ext.
Proof. exists []. by rewrite app_nil_r. Qed.

Lemma common_coal σ c' : Inv σ -> now_of σ <= clock c' -> fresh_timers c' ->
  (forall t, spent t (sh_coal σ) -> spent t c') -> common σ (put_coal c' σ).
Proof.
  intros [_ Hok Hst Hrw] Hc Hfr Hs. split; [|done|done|done|done].
  split; [done|done| |done]. by eapply stamped_mono.
Qed.

Lemma allowed_guar i {A} (o : action St A) l σ b l' σ' :
  Inv σ -> allowed i o σ -> atomic i o l σ b l' σ' -> guar i σ σ'.
Proof.
  intros HI. pose proof HI as [Hfr Hok Hst Hrw]. destruct o as [A q|A f|A f|A f| | |[]|[]|A f]; simpl; intros Ha Hat.
  - destruct Hat as (_ & _ & ->). split; [apply common_same; try done; by exists [(i, Ev q b)]|].
    intros j Hj. split; try done. simpl. rewrite mine_snoc, decide_False by done. by rewrite app_nil_r.
  - destruct Hat as (_ & _ & ->). split; [by apply common_refl|]. intros j _. apply own_refl.
  - destruct Hat as (_ & _ & ->). destruct (method_moves _ _ _ Ha) as [Hc Hn Hs Ht _ Hf].
    split; [apply common_coal; [done|unfold now_of; lia|by apply Hn|done]|]. intros j Hj.
    split; try done; simpl.
    + intros t -> Hsp. by apply Ht; [|congruence].
    + intros fl -> Hin. by apply Hf; [congruence|].
  - destruct Hat as (_ & _ & ->). split; [by apply common_same; [..|exact (unlogged σ)]|]. intros j Hj. split; try done; simpl. congruence.
  - destruct Hat as [_ Hat]. destruct (sh_scan σ) as [k|] eqn:Hsc.
    + destruct Hat as [_ ->]. split; [by apply common_refl|]. intros j _. apply own_refl.
    + destruct Hat as [_ ->]. split; [by apply common_same; [..|exact (unlogged σ)]|]. intros j Hj. split; try done; simpl; rewrite Hsc; split; congruence.
  - destruct Hat as [_ ->]. split; [by apply common_same; [..|exact (unlogged σ)]|]. intros j Hj. split; try done; simpl.
    rewrite Ha. split; congruence.
  - destruct Hat as ((Hw & Hr) & _ & ->). split; [apply common_same; try done; [by right|exact (unlogged σ)]|].
    intros j Hj. split; try done; simpl; [rewrite Hw; split; congruence|by rewrite Hr].
  - destruct Hat as (Hw & _ & ->). split; [apply common_same; try done; [by left|exact (unlogged σ)]|].
    intros j Hj. split; try done; simpl; [by rewrite Hw|set_solver].
  - destruct Hat as [_ ->]. split; [apply common_same; try done; [by left|exact (unlogged σ)]|].
    intros j Hj. split; try done; simpl. rewrite Ha. split; congruence.
  - destruct Hat as [_ ->]. split; [apply common_same; try done; [simpl; destruct Hrw as [?|Hr]; [by left|right; set_solver]|exact (unlogged σ)]|].
    intros j Hj. split; try done; simpl. set_solver.
  - destruct Hat as (_ & _ & ->). destruct Ha as [[Hw [Hok' Hst' Hh]]|[_ Hf]].
    + split.
      * split; [by split|done| |done|done]. intros n key t0 Hn Hle. by apply Hh.
      * intros j Hj. split; try done; simpl. intros [Hj'|Hj']; [congruence|].
        destruct Hrw as [Hrw|Hrw]; [congruence|set_solver].
    + rewrite Hf. split; [by apply common_same; [..|exact (unlogged σ)]|]. intros j _. by split.
Qed.

(** ** One goroutine *)

Fixpoint wpc (i : tid) {A} (m : M St A) (Q : A -> local -> shared St -> Prop) (l : local) σ : Prop :=
  forall σ', rely i σ σ' -> known σ' ->
  match m with
  | Ret a => Q a l σ'
  | Act o k => allowed i o σ' /\
      forall b l' σ2, atomic i o l σ' b l' σ2 -> wpc i (k b) Q l' σ2
  end.

Lemma wpc_rely i {A} (m : M St A) Q l σ σ' : rely i σ σ' -> wpc i m Q l σ -> wpc i m Q l σ'.
Proof. intros Hr. destruct m; intros H σ2 Hr2; apply H; by eapply rely_trans. Qed.

Lemma wpc_bind i {A B} (m : M St A) (k : A -> M St B) Q l σ :
  wpc i m (fun a l' σ' => wpc i (k a) Q l' σ') l σ -> wpc i (m ≫= k) Q l σ.
Proof.
  unfold mbind, M_bind. revert l σ. induction m as [a|B' o c IH]; intros l σ Hm.
  - change (wpc i (k a) Q l σ). simpl in Hm.
    destruct (k a) eqn:Hk; intros σ' Hr Hkn; specialize (Hm σ' Hr Hkn); apply Hm;
      [apply rely_refl, Hr|done|apply rely_refl, Hr|done].
  - intros σ' Hr Hkn. destruct (Hm σ' Hr Hkn) as [Ha Hn]. split; [done|].
    intros b l' σ2 Hat. apply IH. by eapply Hn.
Qed.

Lemma wpc_mono i {A} (m : M St A) (P Q : A -> local -> shared St -> Prop) l σ :
  wpc i m P l σ -> (forall a l' σ', Inv σ' -> known σ' -> P a l' σ' -> Q a l' σ') -> wpc i m Q l σ.
Proof.
  intros Hm HPQ. revert l σ Hm. induction m as [a|B o c IH]; intros l σ Hm σ' Hr Hkn.
  - apply HPQ; [apply Hr|done|]. by apply Hm.
  - destruct (Hm σ' Hr Hkn) as [Ha Hn]. split; [done|]. intros b l' σ2 Hat. by eapply IH, Hn.
Qed.

Lemma wpc_ret i {A} (a : A) (Q : A -> local -> shared St -> Prop) l σ :
  (forall σ', rely i σ σ' -> known σ' -> Q a l σ') -> wpc i (mret a) Q l σ.
Proof. intros H σ' Hr Hkn. by apply H. Qed.

(** An action: allowed wherever the others let it happen, and the
    postcondition stable under them. *)
Lemma wpc_act i {A} (o : action St A) (Q : A -> local -> shared St -> Prop) l σ :
  (forall σ1, rely i σ σ1 -> known σ1 -> allowed i o σ1 /\
     forall b l' σ2, atomic i o l σ1 b l' σ2 -> common σ1 σ2 ->
     forall σ3, rely i σ2 σ3 -> known σ3 -> Q b l' σ3) ->
  wpc i (act o) Q l σ.
Proof.
  rewrite act_eq. intros H σ1 Hr Hkn. destruct (H σ1 Hr Hkn) as [Ha Hn]. split; [done|].
  intros b l' σ2 Hat σ3 Hr3 Hkn3.
  assert (common σ1 σ2) as Hc by (eapply allowed_guar; [apply Hr|done|done]).
  by eapply Hn.
Qed.

(** What the shared state only gains is kept. *)
Lemma wpc_frame i {A} (m : M St A) Q (P : shared St -> Prop) l σ :
  (forall σ1 σ2, common σ1 σ2 -> P σ1 -> P σ2) ->
  P σ -> wpc i m Q l σ -> wpc i m (fun a l' σ' => Q a l' σ' /\ P σ') l σ.
Proof.
  intros HP. revert l σ. induction m as [a|B o c IH]; intros l σ HPs Hm σ' Hr Hkn.
  - split; [by apply Hm|]. eapply HP; [apply Hr|done].
  - destruct (Hm σ' Hr Hkn) as [Ha Hn]. split; [done|]. intros b l' σ2 Hat.
    apply IH; [|by apply Hn]. eapply HP; [eapply allowed_guar; [apply Hr|done|done]|].
    eapply HP; [apply Hr|done].
Qed.

(** ** Steps that send no task *)

(** A step by anyone in which the goroutine [i] sends no task. *)
Definition quiet_step (i : tid) σ σ' : Prop := common σ σ' /\
  forall k ev, (length (sh_trace σ) <= k)%nat -> sh_trace σ' !! k = Some (i, ev) -> ~ sends_task ev.

Class Quiet (i : tid) (P : shared St -> Prop) : Prop := quiet : forall σ σ', quiet_step i σ σ' -> P σ -> P σ'.

Lemma rely_quiet i σ σ' : rely i σ σ' -> quiet_step i σ σ'.
Proof.
  intros [Hc Ho]. split; [done|]. intros k ev Hk Hev. exfalso.
  by eapply (mine_new i); [apply Hc|apply Ho|..].
Qed.

Lemma untouched_quiet i σ σ' : common σ σ' -> sh_trace σ' = sh_trace σ -> quiet_step i σ σ'.
Proof. intros Hc Ht. split; [done|]. intros k ev Hk. rewrite Ht, lookup_ge_None_2 by done. done. Qed.

Definition quiet_action {A} (o : action St A) : Prop :=
  match o with Request q => match q with SendCreate _ => False | _ => True end | _ => True end.

Definition quiet_code {A} (m : M St A) : Prop := every (@quiet_action) m.

Lemma quiet_atomic i {A} (o : action St A) l σ b l' σ' :
  quiet_action o -> common σ σ' -> atomic i o l σ b l' σ' -> quiet_step i σ σ'.
Proof.
  intros Hq Hc Hat. destruct o as [A q|A f|A f|A f| | |[]|[]|A f]; simpl in Hat;
    try (apply untouched_quiet; [done|]; by destruct_and?; subst).
  - destruct Hat as (_ & _ & ->). split; [done|]. intros k ev Hk. simpl.
    rewrite lookup_app_r by done. intros Hev. apply list_elem_of_lookup_2, list_elem_of_singleton in Hev.
    injection Hev as ->. destruct q; simpl in *; tauto.
  - apply untouched_quiet; [done|]. destruct Hat as [_ Hat]. by destruct (sh_scan σ); destruct Hat as [_ ->].
Qed.

(** What such steps keep is kept by code that makes no other. *)
Lemma wpc_quiet i {A} (m : M St A) Q P `{HP : !Quiet i P} l σ :
  quiet_code m -> P σ -> wpc i m Q l σ -> wpc i m (fun a l' σ' => Q a l' σ' /\ P σ') l σ.
Proof.
  revert l σ. induction m as [a|B o c IH]; intros l σ Hq HPs Hm σ' Hr Hkn;
    assert (P σ') as HP' by (eapply HP; [by apply rely_quiet|done]).
  - split; [by apply Hm|done].
  - destruct (Hm σ' Hr Hkn) as [Ha Hn], Hq as [Hqo Hqc]. split; [done|]. intros b l' σ2 Hat.
    apply IH; [by apply Hqc| |by apply Hn]. eapply HP; [|exact HP'].
    eapply quiet_atomic; [done| |done]. eapply allowed_guar; [apply Hr|done|done].
Qed.

#[export] Instance looked_at_quiet i head m : Quiet i (looked_at i head m).
Proof.
  intros σ σ' [Hc Hno] [[t Ht] Hal Hcl]. pose proof (cm_trace _ _ Hc) as Hp.
  pose proof (lookup_lt_Some _ _ _ Ht) as Hlt. split.
  - exists t. by eapply prefix_lookup_Some.
  - intros k ev Hk Hev. destruct (decide (k < length (sh_trace σ))%nat) as [Hkl|Hkl].
    + destruct Hp as [ext Hext]. rewrite Hext, lookup_app_l in Hev by done. by eapply Hal.
    + apply (Hno k ev); [lia|done].
  - intros Hs. eapply clear_common; [done|auto].
Qed.
End logic.
