(* ===== verification/Safety.v ===== *)
(** * Safety: computations that keep their locks, and pools of them

    [safe i b c m]: run by the goroutine [i] that holds the store as [b] says
    and the scan mutex as [c] says, [m] takes only allowed actions, ends with
    the same locks, and while it holds the store leaves it alone. It is closed
    under the program's constructs; the transactions and the coalescer's
    calls, which read the clock first, have rules of their own. [pool_sound]:
    a pool whose computations are safe stays so, whatever the interleaving. *)
From S2P Require Import Prelude Coalesce GoStrings KV Ledger LedgerProofs Records Types Titles Trust Filters SizeGate Commands World Code Publisher CursorFile Watcher Scanner Concurrent RelyGuarantee.
Local Open Scope Z_scope.

Section safety.
Context `{K : KV St Hd It} `{C : RecordCodec} `{UT : UnicodeTables}.
Context (hold : Duration) (cfg : policy).
Implicit Types σ : shared St.

(** ** The locks of a goroutine *)

(** [b]: writing or reading the store, or not at all; [c]: scanning. *)
Record mode (i : tid) (b : option bool) (c : bool) σ : Prop := mkMode {
  md_writer : rw_writer (sh_rw σ) = Some i <-> b = Some true;
  md_reader : (i ∈ rw_readers (sh_rw σ)) <-> b = Some false;
  md_scan : sh_scan σ = Some i <-> c = true }.

Lemma mode_own i b c σ σ' : own i σ σ' -> mode i b c σ -> mode i b c σ'.
Proof. intros [? ? _ ? _ _ _ _] []. split; tauto. Qed.
Lemma mode_rely i b c σ σ' : rely i σ σ' -> mode i b c σ -> mode i b c σ'.
Proof. intros []. by apply mode_own. Qed.

Lemma mode_db i b c σ σ' : mode i b c σ -> rely i σ σ' -> b <> None -> sh_db σ' = sh_db σ.
Proof.
  intros [Hw Hr _] [_ Ho] Hb. apply (ow_db _ _ _ Ho). destruct b as [[]|]; [left; by apply Hw|right; by apply Hr|done].
Qed.

Section one.
Context (owned : memo) (i : tid).

Abbreviation wpc := (wpc hold cfg owned i).
Abbreviation allowed := (allowed hold cfg owned i).
Abbreviation known := (known owned).
Abbreviation clear := (clear owned).

(** A fact about the shared state that the goroutines only confirm. *)
Class Stable (P : shared St -> Prop) : Prop := stable : forall σ σ', common σ σ' -> P σ -> P σ'.

#[export] Instance stable_True : Stable (fun _ => True).
Proof. done. Qed.
#[export] Instance stable_past t : Stable (fun σ => t <= now_of σ).
Proof. intros σ σ' Hc ?. pose proof (cm_now _ _ Hc). lia. Qed.
#[export] Instance stable_clear head : Stable (clear head).
Proof. intros σ σ' Hc. by apply clear_common. Qed.
#[export] Instance stable_and P Q : Stable P -> Stable Q -> Stable (fun σ => P σ /\ Q σ).
Proof. intros HP HQ σ σ' Hc []. split; [by eapply HP|by eapply HQ]. Qed.

#[export] Instance stable_quiet P : Stable P -> Quiet i P.
Proof. intros HP σ σ' [Hc _]. by apply HP. Qed.
#[export] Instance quiet_and P Q : Quiet i P -> Quiet i Q -> Quiet i (fun σ => P σ /\ Q σ).
Proof. intros HP HQ σ σ' Hc []. split; [by eapply HP|by eapply HQ]. Qed.
#[export] Instance excused_stable head m s : Stable (excused cfg i head m s).
Proof.
  intros σ σ' Hc [H|(k & ev & Hk & Hev & Hx)].
  - left. intros t0 Ht. specialize (H t0 Ht). pose proof (cm_now _ _ Hc). lia.
  - right. exists k, ev. split_and!; [done| |done]. eapply prefix_lookup_Some; [done|apply Hc].
Qed.

(** What a step that touches neither locks nor store leaves. *)
Definition undisturbed (b : option bool) (c : bool) σ σ' : Prop :=
  mode i b c σ' /\ (b <> None -> sh_db σ' = sh_db σ).

(** [safe], where the fact [P] is known. *)
Definition safe (P : shared St -> Prop) (b : option bool) (c : bool) {A} (m : M St A) : Prop :=
  forall l σ, Inv σ -> known σ -> mode i b c σ -> P σ ->
  wpc m (fun _ _ σ' => undisturbed b c σ σ') l σ.

Lemma undisturbed_rely b c σ σ' σ2 :
  undisturbed b c σ σ' -> rely i σ' σ2 -> undisturbed b c σ σ2.
Proof.
  intros [Hm Hdb] Hr. split; [by eapply mode_rely|]. intros Hb.
  by rewrite (mode_db _ _ _ _ _ Hm Hr), Hdb.
Qed.
Lemma undisturbed_trans b c σ σ' σ2 :
  undisturbed b c σ σ' -> undisturbed b c σ' σ2 -> undisturbed b c σ σ2.
Proof. intros [_ Hdb] [Hm Hdb']. split; [done|]. intros Hb. by rewrite Hdb', Hdb. Qed.
Lemma undisturbed_refl b c σ : mode i b c σ -> undisturbed b c σ σ.
Proof. by split. Qed.

Section rules.
Context (P : shared St -> Prop) `{HP : !Stable P} (b : option bool) (c : bool).

Lemma safe_ret {A} (a : A) : safe P b c (mret a).
Proof.
  intros l σ HI Hk Hm HPs. apply wpc_ret. intros σ' Hr _.
  eapply undisturbed_rely; [by apply undisturbed_refl|done].
Qed.

Lemma safe_bind {A B} (m : M St A) (k : A -> M St B) :
  safe P b c m -> (forall a, safe P b c (k a)) -> safe P b c (m ≫= k).
Proof.
  intros Hm Hk l σ HI Hkn Hmd HPs. apply wpc_bind.
  eapply wpc_mono; [eapply wpc_frame; [exact HP|exact HPs|by apply Hm]|].
  intros a l' σ' HI' Hkn' [Hu HP']. eapply wpc_mono; [by apply Hk; [..|apply Hu|]|].
  intros b' l2 σ2 _ _ Hu2. by eapply undisturbed_trans.
Qed.

(** An action that changes no lock and no store, allowed in this mode. *)
Lemma safe_act {A} (o : action St A) :
  (forall l σ, Inv σ -> mode i b c σ -> P σ -> allowed o σ /\
     forall a l' σ', atomic i o l σ a l' σ' -> sh_rw σ' = sh_rw σ /\ sh_scan σ' = sh_scan σ /\ sh_db σ' = sh_db σ) ->
  safe P b c (act o).
Proof.
  intros H l σ HI Hkn Hm HPs. apply wpc_act. intros σ1 Hr1 Hk1.
  assert (undisturbed b c σ σ1) as Hu1 by (eapply undisturbed_rely; [by apply undisturbed_refl|done]).
  destruct (H l σ1) as [Ha Hn]; [apply Hr1|apply Hu1|eapply HP; [apply Hr1|done]|].
  split; [done|]. intros a l' σ2 Hat _ σ3 Hr3 _. destruct (Hn _ _ _ Hat) as (Hrw & Hsc & Hdb).
  eapply undisturbed_rely; [|exact Hr3]. eapply undisturbed_trans; [exact Hu1|].
  split; [|done]. destruct Hu1 as [[] _]. split; by rewrite ?Hrw, ?Hsc.
Qed.

Lemma safe_call {A} (q : request A) :
  (forall σ, mode i b c σ -> P σ -> may_request cfg owned i q σ) -> safe P b c (call q).
Proof. intros Hq. apply safe_act. intros l σ _ Hm HPs. split; [by apply Hq|]. by intros ? ? ? (_ & _ & ->). Qed.

Lemma safe_local {A} (f : local -> A * local) : safe P b c (act (Local f)).
Proof. apply safe_act. intros l σ _ _ _. split; [done|]. by intros ? ? ? (_ & _ & ->). Qed.
Lemma safe_gets {A} (f : local -> A) : safe P b c (gets f).
Proof. apply safe_local. Qed.
Lemma safe_modify f : safe P b c (modify f).
Proof. apply safe_local. Qed.
Lemma safe_modify_cursor f : safe P b c (modify_cursor f).
Proof. apply safe_local. Qed.

(** A read of the store under either lock. *)
Lemma safe_gets_db {A} (f : St -> A) : b <> None -> safe P b c (gets_db f).
Proof.
  intros Hb. apply safe_act. intros l σ [Hfr Hok Hst Hrw] [Hw Hr _] _. split.
  - destruct b as [[]|]; [left; split; [by apply Hw|by split]|right; split; [by apply Hr|done]|done].
  - by intros ? ? ? (_ & _ & ->).
Qed.

(** A method of the coalescer. *)
Lemma safe_method {A} (f : coalescer -> A * coalescer) :
  (forall σ, P σ -> method_step hold i (sh_coal σ) (snd (f (sh_coal σ)))) -> safe P b c (coalescer_call f).
Proof. intros Hf. apply safe_act. intros l σ _ _ HPs. split; [by apply Hf|]. by intros ? ? ? (_ & _ & ->). Qed.
End rules.

Lemma safe_weaken P Q b c {A} (m : M St A) : (forall σ, Q σ -> P σ) -> safe P b c m -> safe Q b c m.
Proof. intros HPQ Hm l σ HI Hk Hmd HQ. by apply Hm; [..|apply HPQ]. Qed.

Section maps.
Context (P : shared St -> Prop) `{HP : !Stable P} (b : option bool).
Lemma safe_maps {A} (f : scanner_maps -> A * scanner_maps) : safe P b true (act (Maps f)).
Proof.
  apply safe_act; [done|]. intros l σ _ [_ _ Hs] _. split; [by apply Hs|]. by intros ? ? ? (_ & _ & ->).
Qed.
Lemma safe_gets_maps {A} (f : scanner_maps -> A) : safe P b true (gets_maps f).
Proof. apply safe_maps. Qed.
Lemma safe_modify_maps f : safe P b true (modify_maps f).
Proof. apply safe_maps. Qed.
End maps.

(** ** The clock *)

Lemma wpc_now (Q : DateTime -> local -> shared St -> Prop) l σ :
  (forall σ1 σ3, rely i σ σ1 -> rely i (log i (Ev Now (now_of σ1)) σ1) σ3 -> known σ3 ->
     Q (now_of σ1) l σ3) ->
  wpc (call Now) Q l σ.
Proof.
  intros H. apply wpc_act. intros σ1 Hr1 Hk1. split; [done|].
  intros a l' σ2 (Ha & -> & ->) _ σ3 Hr3 Hk3. simpl in Ha. subst a. by eapply H.
Qed.

(** A reading of the clock is not from the future. *)
Lemma wpc_now_past b c l σ : mode i b c σ ->
  wpc (call Now) (fun t _ σ' => undisturbed b c σ σ' /\ t <= now_of σ') l σ.
Proof.
  intros Hm. apply wpc_now. intros σ1 σ3 Hr1 Hr3 _. split; [|apply Hr3].
  eapply undisturbed_rely; [|exact Hr3].
  destruct (undisturbed_rely _ _ _ _ _ (undisturbed_refl _ _ _ Hm) Hr1) as [[] ?].
  by split.
Qed.

Lemma safe_now P `{!Stable P} b c {A} (k : DateTime -> M St A) :
  (forall t, safe (fun σ => P σ /\ t <= now_of σ) b c (k t)) -> safe P b c (t ← call Now; k t).
Proof.
  intros Hk l σ HI Hkn Hm HPs. apply wpc_bind.
  eapply wpc_mono; [eapply wpc_frame; [exact stable|exact HPs|by apply wpc_now_past]|].
  intros t l' σ1 HI1 Hk1 [[Hu Ht] HP1]. eapply wpc_mono; [by apply Hk; [..|apply Hu|]|].
  intros ? ? σ2 _ _ Hu2. by eapply undisturbed_trans.
Qed.

(** ** Transactions *)

(** The body runs with the lock; what it ends with must be stable. *)
Lemma wpc_transaction w c {A} (m : M St A) (R : A -> shared St -> Prop) l σ :
  (forall a, Quiet i (R a)) -> Inv σ -> known σ -> mode i None c σ ->
  (forall σ1, common σ σ1 -> known σ1 -> mode i (Some w) c σ1 ->
     wpc m (fun a _ σ2 => mode i (Some w) c σ2 /\ R a σ2) l σ1) ->
  wpc (transaction w m) (fun a _ σ2 => mode i None c σ2 /\ R a σ2) l σ.
Proof.
  intros HR HI Hk Hm Hbody. unfold transaction. apply wpc_bind, wpc_act. intros σ1 Hr1 Hk1.
  pose proof (mode_rely _ _ _ _ _ Hr1 Hm) as [Hw1 Hrd1 Hs1].
  split.
  { simpl. rewrite Hw1, Hrd1. split; by intros [=]. }
  intros [] l2 σ2 Hat Hc2 σ3 Hr3 Hk3.
  assert (l2 = l /\ mode i (Some w) c σ2) as [-> Hm2].
  { simpl in Hat. destruct w.
    - destruct Hat as ([_ Hrd] & -> & ->). split; [done|]. split; simpl; [done| |done]. split; [set_solver|done].
    - destruct Hat as (Hwr & -> & ->). split; [done|]. split; simpl; [done| |done]. split; [done|set_solver]. }
  apply wpc_bind. eapply wpc_mono; [apply Hbody; [|done|by eapply mode_rely]|].
  { eapply common_trans; [apply Hr1|]. eapply common_trans; [exact Hc2|apply Hr3]. }
  intros a l4 σ4 HI4 Hk4 [Hm4 HR4]. apply wpc_bind, wpc_act. intros σ5 Hr5 Hk5.
  pose proof (mode_rely _ _ _ _ _ Hr5 Hm4) as [Hw5 Hrd5 Hs5].
  split; [destruct w; simpl; [by apply Hw5|by apply Hrd5]|].
  intros [] l6 σ6 Hat6 Hc6 σ7 Hr7 Hk7. apply wpc_ret. intros σ8 Hr8 Hk8.
  assert (mode i None c σ6) as Hm6.
  { simpl in Hat6. destruct w.
    - destruct Hat6 as (-> & ->). split; simpl; [split; by intros [=]| |done]. rewrite Hrd5. split; by intros [=].
    - destruct Hat6 as (-> & ->). split; simpl; [rewrite Hw5; split; by intros [=]| |done].
      split; [set_solver|by intros [=]]. }
  split; [exact (mode_rely _ _ _ _ _ Hr8 (mode_rely _ _ _ _ _ Hr7 Hm6))|].
  eapply (HR a); [by apply rely_quiet|]. eapply (HR a); [by apply rely_quiet|].
  eapply (HR a); [exact (quiet_atomic i (Unlock w) _ _ _ _ _ I Hc6 Hat6)|]. eapply (HR a); [by apply rely_quiet|done].
Qed.

(** A read under the lock at the time the clock shows: [σ2] is where, and
    entry [m] of the log is the reading. *)
Lemma wpc_timed_read b c {A} (f : DateTime -> St -> A) l σ :
  b <> None -> mode i b c σ ->
  wpc (now ← call Now; gets_db (f now)) (fun a _ σ' => undisturbed b c σ σ' /\
    exists t m σ2, a = f t (sh_db σ2) /\ t <= now_of σ2 /\ sh_db σ2 = sh_db σ /\
      sh_trace σ2 !! m = Some (i, Ev Now t) /\
      (forall k ev, (m < k)%nat -> sh_trace σ2 !! k = Some (i, ev) -> ~ sends_task ev) /\
      known σ2 /\ rely i σ2 σ') l σ.
Proof.
  intros Hb Hm. apply wpc_bind, wpc_now. intros σ1 σ3 Hr1 Hr3 _.
  assert (undisturbed b c σ (log i (Ev Now (now_of σ1)) σ1)) as Hu1.
  { destruct (undisturbed_rely _ _ _ _ _ (undisturbed_refl _ _ _ Hm) Hr1) as [[] ?]. by split. }
  apply wpc_act. intros σ2 Hr2 Hk2. pose proof (rely_trans _ _ _ _ Hr3 Hr2) as Hr.
  pose proof (undisturbed_rely _ _ _ _ _ Hu1 Hr) as Hu2.
  assert (HI2 : Inv σ2) by apply Hr2.
  split.
  { destruct Hu2 as [[Hw Hrd _] _]. destruct HI2. destruct b as [[]|]; [left; split; [by apply Hw|by split]|
      right; split; [by apply Hrd|done]|done]. }
  intros a l2 σ4 (-> & -> & ->) _ σ5 Hr5 Hk5. simpl in *.
  assert (put_db (sh_db σ2) σ2 = σ2) as Heq by by destruct σ2. rewrite Heq in Hr5.
  split; [by eapply undisturbed_rely|]. exists (now_of σ1), (length (sh_trace σ1)), σ2.
  pose proof (cm_trace _ _ (proj1 Hr)) as Hp. pose proof (cm_now _ _ (proj1 Hr)) as Hn.
  split_and!; try done; [by apply Hu2| |].
  - eapply prefix_lookup_Some; [|exact Hp]. simpl. rewrite lookup_app_r, Nat.sub_diag by done. done.
  - intros k ev Hk Hev. exfalso. eapply (mine_new i _ _ k ev Hp); [apply Hr| |done].
    simpl. rewrite length_app. simpl. lia.
Qed.

(** A record written under the lock at the time the clock shows. *)
Definition recorder (f : DateTime -> St -> St) : Prop :=
  forall now s, kv_ok s -> stamped now s -> keeps_records now s (f now s).

Lemma wpc_timed_write c f l σ :
  recorder f -> mode i (Some true) c σ ->
  wpc (now ← call Now; modify_db (f now)) (fun _ _ σ' => mode i (Some true) c σ') l σ.
Proof.
  intros Hf Hm. apply wpc_bind, wpc_now. intros σ1 σ2 Hr1 Hr2 Hk2.
  pose proof (mode_rely _ _ _ _ _ Hr1 Hm) as Hm1.
  assert (mode i (Some true) c (log i (Ev Now (now_of σ1)) σ1)) as Hm1' by (destruct Hm1; by split).
  pose proof (mode_db _ _ _ _ _ Hm1' Hr2 ltac:(done)) as Hdb2. simpl in Hdb2.
  pose proof (mode_rely _ _ _ _ _ Hr2 Hm1') as Hm2.
  apply wpc_act. intros σ3 Hr3 Hk3.
  pose proof (mode_db _ _ _ _ _ Hm2 Hr3 ltac:(done)) as Hdb3.
  pose proof (mode_rely _ _ _ _ _ Hr3 Hm2) as Hm3.
  assert (now_of σ1 <= now_of σ3) as Hle.
  { destruct Hr2 as [[_ ? _ _] _], Hr3 as [[_ ? _ _] _]. unfold now_of, log in *. simpl in *. lia. }
  split.
  - left. split; [by apply Hm3|]. unfold writes_db. simpl. rewrite Hdb3, Hdb2.
    destruct Hr1 as [[[_ Hok Hst _] _ _ _] _]. destruct (Hf (now_of σ1) (sh_db σ1) Hok Hst) as [Hok' Hst' Hh].
    split; [done|by eapply stamped_mono|]. intros n key t0 Hn Hle' Hh0. apply Hh; [done|lia|done].
  - intros a l' σ4 (_ & _ & ->) _ σ5 Hr5 _. eapply mode_rely; [exact Hr5|]. destruct Hm3. by split.
Qed.

(** An update of the store in a transaction of its own. *)
Lemma safe_update P `{!Stable P} c f : recorder f -> safe P None c (db_Update (now ← call Now; modify_db (f now))).
Proof.
  intros Hf l σ HI Hk Hm _. eapply wpc_mono; [eapply (wpc_transaction true c _ (fun _ _ => True)); try done|].
  - intros σ1 _ _ Hm1. eapply wpc_mono; [by apply wpc_timed_write|]. done.
  - intros a l' σ' _ _ [Hm' _]. by split.
Qed.
End one.

(** ** Pools *)
Section pools.
Context (spawns : M St unit -> Prop) (run_callback : timer_id -> callback -> M St unit).

Abbreviation pstep := (pstep spawns run_callback).

(** A goroutine that will end without a lock. *)
Definition thread_ok (owned : memo) (i : tid) (th : thread St) σ : Prop :=
  wpc hold cfg owned i (th_code th) (fun _ _ σ' => mode i None false σ') (th_local th) σ.

Record pool_ok (owned : memo) (p : pool St) : Prop := mkPoolOk {
  po_inv : Inv (p_shared p);
  po_known : known owned (p_shared p);
  po_thread i th : p_threads p !! i = Some th -> thread_ok owned i th (p_shared p);
  po_idle i : p_threads p !! i = None -> mode i None false (p_shared p);
  po_fire t th : p_threads p !! Fire t = Some th -> spent t (sh_coal (p_shared p)) }.

(** What may start is safe. *)
Class SafeProgram : Prop := {
  safe_spawn owned n m : spawns m -> safe owned (Go n) (fun _ => True) None false m;
  safe_callback owned t cb l σ :
    Inv σ -> known owned σ -> mode (Fire t) None false σ ->
    spent t (sh_coal σ) -> timers (sh_coal σ) !! t = Some (start cb) ->
    wpc hold cfg owned (Fire t) (run_callback t cb) (fun _ _ σ' => mode (Fire t) None false σ') l σ }.

Context `{SP : !SafeProgram}.

(** The others, and those not yet started, after a step of [i]. *)
Lemma others_ok owned σ σ' ths ths' i :
  pool_ok owned (mkPool σ ths) -> guar i σ σ' -> known owned σ' ->
  (forall j, j <> i -> ths' !! j = ths !! j) ->
  (forall th, ths' !! i = Some th -> thread_ok owned i th σ') ->
  is_Some (ths' !! i) ->
  (forall t, i = Fire t -> spent t (sh_coal σ')) ->
  pool_ok owned (mkPool σ' ths').
Proof.
  intros [HI Hk Hth Hid Hfi] [Hc Ho] Hk' Hths Hi [th0 Hi0] Hsp. simpl in *. split; simpl.
  - apply Hc.
  - done.
  - intros j th Hj. destruct (decide (j = i)) as [->|Hne]; [by apply Hi|].
    rewrite Hths in Hj by done. eapply wpc_rely; [|by apply Hth]. split; [done|by apply Ho].
  - intros j Hj. destruct (decide (j = i)) as [->|Hne]; [congruence|].
    rewrite Hths in Hj by done. eapply mode_own; [by apply Ho|by apply Hid].
  - intros t th Ht. destruct (decide (Fire t = i)) as [<-|Hne]; [by apply Hsp|].
    rewrite Hths in Ht by done. eapply Hc, Hfi. exact Ht.
Qed.

Lemma act_ok owned i th th' σ σ' :
  Inv σ -> known owned σ -> thread_ok owned i th σ -> advance i th σ th' σ' ->
  guar i σ σ' /\ thread_ok owned i th' σ'.
Proof.
  intros HI Hk Hth Had. unfold thread_ok, advance in *. destruct (th_code th) as [a|B o k]; [done|].
  destruct (Hth σ (rely_refl _ _ HI) Hk) as [Ha Hn]. destruct Had as (b & Hat & ->).
  split; [by eapply allowed_guar|]. by eapply Hn.
Qed.

Lemma expire_common σ t cb :
  Inv σ -> timers (sh_coal σ) !! t = Some cb -> cb_started cb = false ->
  let σ' := put_coal (start_callback t cb (sh_coal σ)) σ in
  guar (Fire t) σ σ' /\ spent t (sh_coal σ').
Proof.
  intros HI Ht Hs σ'. pose proof HI as [Hfr _ _ _].
  assert (spent t (sh_coal σ')) as Hsp.
  { split; [by eapply Hfr|]. simpl. intros cb'. rewrite lookup_insert_eq. by intros [= <-]. }
  split; [|done]. split.
  - apply common_coal; [done|simpl; unfold now_of; lia| |].
    + intros u cb'. simpl. intros [[<- _]|[_ Hu]]%lookup_insert_Some; [by eapply Hfr|by eapply Hfr].
    + intros u [Hlt Hu]. split; [done|]. simpl. intros cb' [[<- <-]|[_ ?]]%lookup_insert_Some; [done|by apply Hu].
  - intros j Hj. split; try done; simpl. intros u -> Hu. by rewrite lookup_insert_ne by congruence.
Qed.

(** One step: what every step does, and what it leaves of a pool that is fine. *)
Lemma pool_sound owned p p' : pool_ok owned p -> pstep p p' ->
  common (p_shared p) (p_shared p') /\ (known owned (p_shared p') -> pool_ok owned p').
Proof.
  intros Hok Hst. destruct Hst as [i th th' σ σ' ths Hi Had|n m σ ths Hm Hn|t σ ths Ht|t cb σ ths Ht Hs _].
  - destruct (act_ok owned i th th' σ σ') as [Hg Hth']; [apply Hok|apply Hok|by apply (po_thread _ _ Hok)|done|].
    split; [apply Hg|]. intros Hk. apply (others_ok owned σ σ' ths _ i Hok Hg); [done|..].
    + intros j Hj. by rewrite lookup_insert_ne.
    + intros th2. rewrite lookup_insert_eq. by intros [= <-].
    + rewrite lookup_insert_eq. by eexists.
    + intros t ->. destruct Hg as [Hc _]. eapply Hc, (po_fire _ _ Hok). exact Hi.
  - split; [apply common_refl, Hok|]. intros Hk. apply (others_ok owned σ σ ths _ (Go n) Hok); [|done|..].
    + split; [apply common_refl, Hok|]. intros j _. apply own_refl.
    + intros j Hj. by rewrite lookup_insert_ne.
    + intros th. rewrite lookup_insert_eq. intros [= <-]. unfold thread_ok. simpl.
      eapply wpc_mono; [apply (safe_spawn owned n m Hm); [apply Hok|apply Hok|by apply (po_idle _ _ Hok)|done]|].
      by intros a l' σ' _ _ [? _].
    + rewrite lookup_insert_eq. by eexists.
    + done.
  - destruct Hok as [HI Hk Hth Hid Hfi]. simpl in *.
    assert (common σ (put_coal (set_clock t (sh_coal σ)) σ)) as Hc.
    { apply common_coal; [done|done|apply HI|done]. }
    assert (forall j, own j σ (put_coal (set_clock t (sh_coal σ)) σ)) as Ho by by split.
    split; [done|]. intros Hk'. split; simpl.
    + apply Hc.
    + done.
    + intros j th Hj. eapply wpc_rely; [by split|by apply Hth].
    + intros j Hj. eapply mode_own; [apply Ho|by apply Hid].
    + intros u th Hu. eapply Hc, Hfi. exact Hu.
  - pose proof (po_inv _ _ Hok) as HI. simpl in HI.
    destruct (expire_common σ t cb HI Ht Hs) as [Hg Hsp].
    assert (ths !! Fire t = None) as Hnone.
    { destruct (ths !! Fire t) as [th|] eqn:E; [|done].
      destruct (po_fire _ _ Hok t th E) as [_ Hst]. simpl in Hst. by rewrite (Hst cb Ht) in Hs. }
    split; [apply Hg|]. intros Hk. apply (others_ok owned σ _ ths _ (Fire t) Hok Hg); [done|..].
    + intros j Hj. by rewrite lookup_insert_ne.
    + intros th. rewrite lookup_insert_eq. intros [= <-]. unfold thread_ok. simpl.
      apply safe_callback; [apply Hg|done| |done|].
      * destruct (po_idle _ _ Hok (Fire t) Hnone) as [? ? ?]. by split.
      * simpl. apply lookup_insert_eq.
    + rewrite lookup_insert_eq. by eexists.
    + intros u [= <-]. done.
Qed.

(** What a goroutine notices of a step: it took it, or somebody else did, who
    left what is its own alone. *)
Lemma step_seen owned p p' i th : pool_ok owned p -> pstep p p' -> p_threads p !! i = Some th ->
  (exists th', advance i th (p_shared p) th' (p_shared p') /\ p_threads p' !! i = Some th') \/
  own i (p_shared p) (p_shared p') /\ p_threads p' !! i = Some th.
Proof.
  intros Hok Hst Hi. destruct Hst as [j thj th' σ σ' ths Hj Had|n m σ ths Hm Hn|t σ ths Ht|t cb σ ths Ht Hs Hdue];
    simpl in *.
  - destruct (decide (j = i)) as [->|Hne].
    + left. exists th'. rewrite lookup_insert_eq. split; [|done]. congruence.
    + right. rewrite lookup_insert_ne by done. split; [|done].
      destruct (act_ok owned j thj th' σ σ') as [Hg _]; [apply Hok|apply Hok|by apply (po_thread _ _ Hok)|done|].
      by apply Hg.
  - right. split; [apply own_refl|]. rewrite lookup_insert_ne; [done|]. by intros <-; rewrite Hn in Hi.
  - right. split; [by split|done].
  - assert (Fire t <> i) as Hne.
    { intros <-. destruct (po_fire _ _ Hok t th Hi) as [_ Hst]. simpl in Hst. by rewrite (Hst cb Ht) in Hs. }
    right. rewrite lookup_insert_ne by done. split; [|done].
    by apply (expire_common σ t cb (po_inv _ _ Hok) Ht Hs).
Qed.

(** A run along which the memory stays true. *)
Lemma pool_sound_rtc owned p p' : pool_ok owned p -> rtc pstep p p' ->
  (forall q, rtc pstep p q -> rtc pstep q p' -> known owned (p_shared q)) ->
  common (p_shared p) (p_shared p') /\ pool_ok owned p'.
Proof.
  intros Hok H. induction H as [p|p q p' Hst Hs IH]; intros Hkn; [split; [apply common_refl, Hok|done]|].
  destruct (pool_sound owned p q Hok Hst) as [Hc Hq].
  destruct IH as [Hc' ?]; [apply Hq, Hkn; [by apply rtc_once|done]| |split; [by eapply common_trans|done]].
  intros r Hr Hrs. apply Hkn; [by eapply rtc_l|done].
Qed.
End pools.
End safety.
