(* ===== verification/Goroutines.v ===== *)
(** * Goroutines: every computation of the program is safe

    One lemma per handler, in the vocabulary of Safety: the publisher's
    transactions, the poll, the scan under its mutex, the consumed command
    inside the consumer's transaction, the HTTP handlers. *)
From S2P Require Import Prelude Coalesce GoStrings KV Ledger LedgerProofs Records Types Titles Trust Filters SizeGate Commands World Code Publisher CursorFile Watcher Scanner RetryGuard Executor Crypto Handlers Concurrent RelyGuarantee Safety.
Local Open Scope Z_scope.

Create HintDb safe.

(** One construct of a computation under [safe]. *)
Ltac safe_step :=
  lazymatch goal with
  | |- safe _ _ _ _ _ _ _ (mret _) => apply safe_ret
  | |- safe _ _ _ _ _ _ _ (mbind _ _) => apply safe_bind; [typeclasses eauto| |intros ?]
  | |- safe _ _ _ _ _ _ _ (call _) =>
      first [apply safe_call; [typeclasses eauto|intros ? _ _; exact I] | solve [eauto with safe typeclass_instances]]
  | |- safe _ _ _ _ _ _ _ (gets _) => apply safe_gets; typeclasses eauto
  | |- safe _ _ _ _ _ _ _ (modify _) => apply safe_modify; typeclasses eauto
  | |- safe _ _ _ _ _ _ _ (modify_cursor _) => apply safe_modify_cursor; typeclasses eauto
  | |- safe _ _ _ _ _ _ _ (gets_maps _) => apply safe_gets_maps; typeclasses eauto
  | |- safe _ _ _ _ _ _ _ (modify_maps _) => apply safe_modify_maps; typeclasses eauto
  | |- safe _ _ _ _ _ _ _ (gets_db _) => apply safe_gets_db; [typeclasses eauto|done]
  | |- safe _ _ _ _ _ _ _ (match ?x with _ => _ end) => destruct x eqn:?
  | |- safe _ _ _ _ _ _ _ ((match ?x with _ => _ end) _) => destruct x eqn:?
  | |- safe _ _ _ _ _ _ _ (let _ := _ in _) => cbv zeta
  | |- safe _ _ _ _ _ _ _ _ => solve [eauto with safe typeclass_instances]
  end; cbn beta.

Ltac safe_steps := repeat safe_step.

Section publisher.
Context `{K : KV St Hd It} `{C : RecordCodec} `{CL : !RecordCodecLaws C} `{UT : UnicodeTables} `{G : GitIgnore}.
Context (hold : Duration) (cfg : policy) (trustDecision : Trust.Trust).
Context (owned : memo) (i : tid).
Implicit Types σ : shared St.

Abbreviation safe := (safe hold cfg owned i).
Abbreviation wpc := (wpc hold cfg owned i).

Lemma ReviewIgnoreExclusion_safe P `{!Stable P} b c owner repo number :
  safe P b c (ReviewIgnoreExclusion owner repo number).
Proof. unfold ReviewIgnoreExclusion. safe_steps. Qed.

Lemma paginate_safe P `{!Stable P} b c fuel search page acc :
  (forall p, safe P b c (search p)) -> safe P b c (paginate fuel search page acc).
Proof.
  intros Hs. revert page acc. induction fuel as [|fuel IH]; intros page acc; simpl; safe_steps.
Qed.

Lemma Record_override_recorder pr task : recorder (fun now => Record_override now pr task).
Proof. intros now s. apply override_keeps. Qed.
Lemma RecordPublish_recorder pr task : recorder (fun now => RecordPublish now pr task).
Proof. intros now s. apply review_keeps. Qed.

Lemma ReviewIgnoreExclusion_no_send owner repo number : quiet_code (ReviewIgnoreExclusion owner repo number : M St _).
Proof. unfold ReviewIgnoreExclusion. unfold quiet_code; every_steps. Qed.

(** A look-up that finds no override: of what is remembered nothing is left. *)
Lemma unsuppressed_looked head t m σ :
  known owned σ -> t <= now_of σ -> suppressed t head (sh_db σ) <> Ok true ->
  sh_trace σ !! m = Some (i, Ev Now t) ->
  (forall k ev, (m < k)%nat -> sh_trace σ !! k = Some (i, ev) -> ~ sends_task ev) ->
  looked_at owned i head m σ.
Proof.
  intros Hk Ht Hs Hm Hal. split; [by exists t|done|]. intros Hsince t0 Ho.
  destruct (Z.lt_ge_cases (t0 + Hour) (now_of σ)) as [?|Hge]; [done|].
  destruct Hs. eapply suppressed_holds; [apply Hk; [|done|lia]|lia].
  apply lookup_lt_Some in Hm. lia.
Qed.

#[local] Instance looked_quiet (b : bool) head :
  Quiet i (fun σ => b = false -> exists m, looked_at owned i head m σ).
Proof. intros σ σ' Hq H Hb. destruct (H Hb) as [m Hm]. exists m. by eapply looked_at_quiet. Qed.

Lemma suppressedByOverride_wpc c pr d l σ :
  Inv σ -> known owned σ -> mode i None c σ ->
  wpc (suppressedByOverride pr d) (fun b _ σ' => mode i None c σ' /\
    (b = false -> exists m, looked_at owned i (guard_pr pr d) m σ')) l σ.
Proof.
  intros HI Hk Hm. unfold suppressedByOverride, ledger_Suppressed. apply wpc_bind.
  eapply wpc_mono; [apply (wpc_transaction _ _ _ _ false c _
    (fun b σ' => b = false -> exists m, looked_at owned i (guard_pr pr d) m σ')); try done|].
  - intros b. apply looked_quiet.
  - intros σ1 _ Hk1 Hm1. eapply wpc_mono; [by apply (wpc_timed_read _ _ _ _ (Some false) c)|].
    intros b l' σ2 _ _ [[Hm2 _] (t & m & σ3 & -> & Ht & _ & Hent & Hal & Hk3 & Hr)]. split; [done|]. intros Hs.
    exists m. eapply looked_at_quiet; [by apply rely_quiet|]. eapply unsuppressed_looked; [done|done| |done|done].
    unfold Suppressed in Hs. intros E. by rewrite E in Hs.
  - intros b l' σ1 HI1 Hk1 [Hm1 Hb]. destruct b.
    + apply wpc_bind. eapply wpc_mono; [apply (safe_call _ _ _ _ (fun _ => True) None c); done|].
      intros _ l2 σ2 HI2 Hk2 [Hm2 _]. apply wpc_ret. intros σ3 Hr3 _. split; [by eapply mode_rely|done].
    + apply wpc_ret. intros σ3 Hr3 _. split; [by eapply mode_rely|]. intros _.
      destruct (Hb eq_refl) as [m Hl]. exists m. eapply looked_at_quiet; [by apply rely_quiet|done].
Qed.

(** A review of a head that was looked up may be sent. *)
Lemma send_review_wpc b c pr d id tr f ex m l σ :
  mode i b c σ -> looked_at owned i (guard_pr pr d) m σ ->
  (b = Some true -> (exists t, t <= now_of σ /\ suppressed t (guard_pr pr d) (sh_db σ) <> Ok true) /\
    (f = true -> excused cfg i (guard_pr pr d) m (sh_db σ) σ)) ->
  wpc (call (SendCreate (BuildCreateCommand pr d id (pl_task cfg) tr f ex)))
    (fun _ _ σ' => undisturbed i b c σ σ') l σ.
Proof.
  intros Hm Hl Hb. apply wpc_act. intros σ1 Hr1 _. split.
  - right. exists pr, d, id, tr, f, ex, m. split; [done|].
    split; [eapply looked_at_quiet; [by apply rely_quiet|done]|]. intros Hw.
    assert (b = Some true) as Hbt by by apply (mode_rely _ _ _ _ _ Hr1 Hm). destruct (Hb Hbt) as [(t & Ht & Hs) Hx].
    rewrite (mode_db _ _ _ _ _ Hm Hr1) by by rewrite Hbt. split.
    + exists t. split; [|done]. pose proof (cm_now _ _ (proj1 Hr1)). lia.
    + intros Hf. eapply excused_stable; [apply Hr1|auto].
  - intros a l2 σ2 (_ & -> & ->) _ σ3 Hr3 _. eapply undisturbed_rely; [|exact Hr3].
    destruct (undisturbed_rely _ _ _ _ _ _ (undisturbed_refl _ _ _ _ Hm) Hr1) as [[] ?]. by split.
Qed.

#[local] Hint Resolve ReviewIgnoreExclusion_safe : safe.

Lemma undisturbed_None c σ σ' : undisturbed i None c σ σ' <-> mode i None c σ'.
Proof. unfold undisturbed. intuition congruence. Qed.

Lemma recordOverride_safe P `{!Stable P} c pr id d : safe P None c (recordOverride pr id d).
Proof. apply safe_update; [done|]. apply Record_override_recorder. Qed.
Lemma recordPublished_safe P `{!Stable P} c pr id d : safe P None c (recordPublished pr id d).
Proof. apply safe_update; [done|]. apply RecordPublish_recorder. Qed.
#[local] Hint Resolve recordOverride_safe recordPublished_safe : safe.

Lemma PublishCreate_safe P `{!Stable P} c pr id d :
  safe P None c (publisher_PublishCreate trustDecision (pl_task cfg) pr id d).
Proof.
  intros l σ HI Hk Hm HPs. unfold publisher_PublishCreate. apply wpc_bind.
  eapply wpc_mono; [eapply wpc_frame; [exact stable|exact HPs|by apply suppressedByOverride_wpc]|].
  intros b l1 σ1 HI1 Hk1 [[Hm1 Hb] HP1]. destruct b.
  { apply wpc_ret. intros σ2 Hr _. apply undisturbed_None. by eapply mode_rely. }
  destruct (Hb eq_refl) as [m Hl].
  assert (forall A (n : M St A) l2 σ2, safe P None c n -> Inv σ2 -> known owned σ2 -> mode i None c σ2 -> P σ2 ->
    wpc n (fun _ _ σ' => undisturbed i None c σ σ') l2 σ2) as Hrest.
  { intros A n l2 σ2 Hn HI2 Hk2 Hm2 HP2. eapply wpc_mono; [by apply Hn|].
    intros ? ? σ3 _ _ [? _]. by apply undisturbed_None. }
  destruct (trustDecision _) as [tr|e]; [|apply Hrest; [safe_steps|done..]].
  apply wpc_bind. eapply wpc_mono; [eapply (wpc_quiet _ _ _ _ _ _ (fun σ => P σ /\ looked_at owned i (guard_pr pr d) m σ));
    [apply ReviewIgnoreExclusion_no_send|done|by apply (ReviewIgnoreExclusion_safe (fun _ => True))]|].
  intros ex l2 σ2 HI2 Hk2 [[Hm2 _] [HP2 Hl2]]. cbv zeta.
  apply wpc_bind. eapply wpc_mono; [eapply wpc_frame; [exact stable|exact HP2|by eapply send_review_wpc]|].
  intros sent l3 σ3 HI3 Hk3 [[Hm3 _] HP3]. apply Hrest; [safe_steps|done..].
Qed.

(** An override is no review. *)
Lemma send_override_safe P `{!Stable P} c cmd : is_override cmd = true -> safe P None c (call (SendCreate cmd)).
Proof. intros Hc. apply safe_call; [done|]. intros σ _ _. by left. Qed.

Lemma send_label_override_safe P `{!Stable P} c pr d id :
  safe P None c (call (SendCreate (BuildOverrideCommand pr d id (pl_task cfg)))).
Proof. apply send_override_safe; [done|]. apply BuildOverrideCommand_is_override. Qed.
Lemma send_mechanical_override_safe P `{!Stable P} c pr d id :
  safe P None c (call (SendCreate (BuildMechanicalOverrideCommand pr d id (pl_task cfg)))).
Proof. apply send_override_safe; [done|]. apply BuildMechanicalOverrideCommand_is_override. Qed.
#[local] Hint Resolve send_label_override_safe send_mechanical_override_safe : safe.

Lemma PublishOverride_safe P `{!Stable P} c pr id d :
  safe P None c (publisher_PublishOverride trustDecision (pl_task cfg) pr id d).
Proof. unfold publisher_PublishOverride. safe_steps. Qed.
Lemma PublishMechanicalOverride_safe P `{!Stable P} c pr id d :
  safe P None c (publisher_PublishMechanicalOverride (pl_task cfg) pr id d).
Proof. unfold publisher_PublishMechanicalOverride. safe_steps. Qed.
End publisher.

(** What the poll and the scan need of a publisher. *)
Class SafePublisher `{K : KV St Hd It} `{C : RecordCodec} `{UT : UnicodeTables} (hold : Duration)
    (cfg : policy) (owned : memo) (i : tid) (Pub : TaskPublisher St) : Prop := {
  sp_create (P : shared St -> Prop) `{!Stable P} c pr id d :
    safe hold cfg owned i P None c (PublishCreate pr id d);
  sp_override (P : shared St -> Prop) `{!Stable P} c pr id d :
    safe hold cfg owned i P None c (PublishOverride pr id d);
  sp_mechanical (P : shared St -> Prop) `{!Stable P} c pr id d :
    safe hold cfg owned i P None c (PublishMechanicalOverride pr id d) }.

#[export] Instance taskPublisher_safe `{K : KV St Hd It} `{C : RecordCodec} `{CL : !RecordCodecLaws C}
    `{UT : UnicodeTables} `{G : GitIgnore} hold cfg trustDecision owned i :
  SafePublisher hold cfg owned i (taskPublisher trustDecision (pl_task cfg)).
Proof.
  split; simpl; intros.
  - by apply PublishCreate_safe.
  - by apply PublishOverride_safe.
  - by apply PublishMechanicalOverride_safe.
Qed.

#[export] Hint Resolve sp_create sp_override sp_mechanical ReviewIgnoreExclusion_safe : safe.

(** ** The poll *)
Section watcher.
Context `{K : KV St Hd It} `{C : RecordCodec} `{UT : UnicodeTables} `{U : UUID} `{J : CursorCodec}.
Context (cfg : policy) (wt : watcher).
Context (owned : memo) (i : tid).
Context `{Pub : TaskPublisher St} `{SP : !SafePublisher (coalesceHold wt) cfg owned i Pub}.

Abbreviation safe := (safe (coalesceHold wt) cfg owned i).

Section any.
Context (P : shared St -> Prop) `{HP : !Stable P}.

Lemma LoadCursor_safe b c path t : safe P b c (LoadCursor path t).
Proof. unfold LoadCursor. safe_steps. Qed.
Lemma SaveCursor_safe b c path s : safe P b c (SaveCursor path s).
Proof. unfold SaveCursor. safe_steps. Qed.

Lemma fetchPRDetails_safe b c pr : safe P b c (fetchPRDetails pr).
Proof. unfold fetchPRDetails. safe_steps. Qed.
Lemma tryUpdateBranch_safe b c pr d : safe P b c (tryUpdateBranch wt pr d).
Proof. unfold tryUpdateBranch. safe_steps. Qed.
Lemma trySupersedeDepBump_safe b c pr d : safe P b c (trySupersedeDepBump wt pr d).
Proof. unfold trySupersedeDepBump. safe_steps. Qed.
Lemma tryAutoMerge_safe b c pr d : safe P b c (tryAutoMerge wt pr d).
Proof. unfold tryAutoMerge. safe_steps. Qed.
Lemma maybeLabelTrivial_safe b c pr : safe P b c (maybeLabelTrivial wt pr).
Proof. unfold maybeLabelTrivial. safe_steps. Qed.
Lemma carry_safe b c id sha : safe P b c (carry id sha).
Proof. unfold carry. safe_steps. Qed.
Lemma record_published_safe b c id sha : safe P b c (record_published id sha).
Proof. unfold record_published. safe_steps; apply carry_safe. Qed.
#[local] Hint Resolve LoadCursor_safe SaveCursor_safe fetchPRDetails_safe tryUpdateBranch_safe
  trySupersedeDepBump_safe tryAutoMerge_safe maybeLabelTrivial_safe carry_safe record_published_safe : safe.

Lemma qualifies_safe b c pr d : safe P b c (qualifiesForMechanicalOverride wt pr d).
Proof. unfold qualifiesForMechanicalOverride. safe_steps. Qed.
#[local] Hint Resolve qualifies_safe : safe.
Lemma tryOverride_safe c pr d : safe P None c (tryOverride wt pr d).
Proof. unfold tryOverride. safe_steps. Qed.
Lemma publishMechanical_safe c pr d id : safe P None c (publishMechanical pr d id).
Proof. unfold publishMechanical. safe_steps. Qed.
#[local] Hint Resolve publishMechanical_safe : safe.
Lemma tryMechanicalOverride_safe c pr d : safe P None c (tryMechanicalOverride wt pr d).
Proof. unfold tryMechanicalOverride. safe_steps. Qed.
#[local] Hint Resolve tryMechanicalOverride_safe tryOverride_safe : safe.
Lemma mechanicalOverrideOutcome_safe c pr d : safe P None c (mechanicalOverrideOutcome wt pr d).
Proof. unfold mechanicalOverrideOutcome. safe_steps. Qed.

(** The two uses of the coalescer, with the clock just read. *)
Lemma admitReview_safe b c pr d : safe P b c (admitReview wt pr d).
Proof.
  unfold admitReview. apply safe_now; [done|]. intros t. apply safe_method; [typeclasses eauto|].
  intros σ [_ Ht]. by apply ms_admit.
Qed.
#[local] Hint Resolve admitReview_safe mechanicalOverrideOutcome_safe : safe.

Lemma publishReviewOutcome_safe c pr d id : safe P None c (publishReviewOutcome wt pr d id).
Proof.
  unfold publishReviewOutcome. apply safe_bind; [done|apply admitReview_safe|]. intros []; [|safe_steps..].
  apply safe_bind; [done|eauto with safe|]. intros []; [|safe_steps].
  apply safe_now; [done|]. intros t. apply safe_bind; [typeclasses eauto| |].
  - apply safe_method; [typeclasses eauto|]. intros σ [_ Ht]. by apply ms_mark.
  - intros []. eapply safe_weaken; [|apply safe_bind; [exact HP|apply record_published_safe|intros; by apply safe_ret]].
    by intros σ [].
Qed.
#[local] Hint Resolve publishReviewOutcome_safe : safe.

Lemma overrideOrReview_safe c pr d id : safe P None c (overrideOrReview wt pr d id).
Proof. unfold overrideOrReview. safe_steps. Qed.
#[local] Hint Resolve overrideOrReview_safe : safe.
Lemma processFetchedPR_safe c pr d : safe P None c (processFetchedPR wt pr d).
Proof. unfold processFetchedPR. safe_steps. Qed.
Lemma labelTrivial_safe b c pr : safe P b c (labelTrivial wt pr).
Proof. unfold labelTrivial. safe_steps. Qed.
#[local] Hint Resolve processFetchedPR_safe labelTrivial_safe : safe.
Lemma processPR_safe c pr : safe P None c (processPR wt pr).
Proof. unfold processPR. safe_steps. Qed.
#[local] Hint Resolve processPR_safe : safe.
Lemma processPRs_loop_safe c prs b : safe P None c (processPRs_loop wt prs b).
Proof. revert b. induction prs; intros b; simpl; safe_steps. Qed.
#[local] Hint Resolve processPRs_loop_safe : safe.
Lemma processPRs_safe c prs : safe P None c (processPRs wt prs).
Proof. unfold processPRs. safe_steps. Qed.
Lemma processLabeledPR_safe b c pr : safe P b c (processLabeledPR wt pr).
Proof. unfold processLabeledPR. safe_steps. Qed.
#[local] Hint Resolve processPRs_safe processLabeledPR_safe : safe.
Lemma processLabeledPRs_loop_safe b c prs : safe P b c (processLabeledPRs_loop wt prs).
Proof. induction prs; simpl; safe_steps. Qed.
Lemma fetchLabeledPRs_safe b c fuel : safe P b c (fetchLabeledPRs wt fuel).
Proof. unfold fetchLabeledPRs. safe_step; [|safe_steps]. apply paginate_safe; [done|]. intros p. safe_steps. Qed.
Lemma fetchAllPRs_safe b c fuel since : safe P b c (fetchAllPRs wt fuel since).
Proof. unfold fetchAllPRs. safe_step; [|safe_steps]. apply paginate_safe; [done|]. intros p. safe_steps. Qed.
#[local] Hint Resolve processLabeledPRs_loop_safe fetchLabeledPRs_safe fetchAllPRs_safe : safe.
Lemma processLabeledPRs_safe b c fuel : safe P b c (processLabeledPRs wt fuel).
Proof. unfold processLabeledPRs. safe_steps. Qed.
Lemma rateLimit_safe b c : safe P b c rateLimitRemainingForGauge.
Proof. unfold rateLimitRemainingForGauge. safe_steps. Qed.
#[local] Hint Resolve processLabeledPRs_safe rateLimit_safe : safe.

Context (Scan : nat -> M St (option unit)).
Lemma poll_cycle_safe fuel :
  (forall n, safe P None false (Scan n)) -> safe P None false (poll_cycle Scan wt fuel).
Proof. intros Hs. unfold poll_cycle. safe_steps. Qed.

Lemma Poll_safe fuel :
  (forall n, safe P None false (Scan n)) -> safe P None false (Poll Scan wt fuel).
Proof.
  intros Hs. pose proof (poll_cycle_safe fuel Hs). unfold Poll. safe_steps.
Qed.
End any.
End watcher.

(** ** The scan *)
Section scan.
Context `{K : KV St Hd It} `{C : RecordCodec} `{UT : UnicodeTables} `{U : UUID} `{G : GitIgnore}.
Context (hold : Duration) (cfg : policy) (sc : unreviewedScanner).
Context (owned : memo) (i : tid).
Context `{Pub : TaskPublisher St} `{SP : !SafePublisher hold cfg owned i Pub}.

Abbreviation safe := (safe hold cfg owned i).

Section any.
Context (P : shared St -> Prop) `{HP : !Stable P}.

Lemma fetchAllOpenPRs_safe b c fuel : safe P b c (fetchAllOpenPRs sc fuel).
Proof. unfold fetchAllOpenPRs. safe_step; [|safe_steps]. apply paginate_safe; [done|]. intros p. safe_steps. Qed.
Lemma cachedReviewed_safe b pr : safe P b true (cachedReviewed pr).
Proof. unfold cachedReviewed. safe_steps. Qed.
Lemma parked_safe b c pr d : safe P b c (parked sc pr d).
Proof. unfold parked. safe_steps. Qed.
#[local] Hint Resolve fetchAllOpenPRs_safe cachedReviewed_safe parked_safe : safe.
Lemma qualify_safe b pr now : safe P b true (qualify sc pr now).
Proof. unfold qualify. safe_steps. Qed.
#[local] Hint Resolve qualify_safe : safe.
Lemma qualify_loop_safe b prs now acc : safe P b true (qualify_loop sc prs now acc).
Proof. revert acc. induction prs; intros acc; simpl; safe_steps. Qed.
Lemma retry_one_safe x now : safe P None true (retry_one sc x now).
Proof. unfold retry_one. safe_steps. Qed.
#[local] Hint Resolve qualify_loop_safe retry_one_safe : safe.
Lemma retry_safe cs now : safe P None true (retry sc cs now).
Proof. induction cs; simpl; safe_steps. Qed.
Lemma pruneState_safe b prs : safe P b true (pruneState prs).
Proof. unfold pruneState. safe_steps. Qed.
#[local] Hint Resolve retry_safe pruneState_safe : safe.
Lemma scan_body_safe fuel : safe P None true (scan_body sc fuel).
Proof. unfold scan_body. safe_steps. Qed.

(** The mutex is taken if it is free and given back. *)
Lemma Scan_safe fuel : safe P None false (Scan sc fuel).
Proof.
  unfold Scan. destruct (Logins _) as [|lg lgs]; [safe_steps|]. intros l σ HI Hk Hm HPs.
  apply wpc_bind, wpc_act. intros σ1 Hr1 Hk1. pose proof (mode_rely _ _ _ _ _ Hr1 Hm) as Hm1.
  split; [simpl; intros E; by apply Hm1 in E|]. intros locked l2 σ2 [-> Hat] Hc2 σ3 Hr3 Hk3.
  destruct (sh_scan σ1) as [j|] eqn:Hsc; destruct Hat as [-> ->].
  { apply wpc_ret. intros σ4 Hr4 _. apply undisturbed_None. by repeat (eapply mode_rely; [done|]). }
  assert (mode i None true (put_scan (Some i) σ1)) as Hm2 by (destruct Hm1; by split).
  apply wpc_bind. eapply wpc_mono; [apply scan_body_safe; [apply Hr3|done|by eapply mode_rely|]|].
  { eapply HP; [apply Hr3|]. eapply HP; [exact Hc2|]. eapply HP; [apply Hr1|done]. }
  intros r l4 σ4 HI4 Hk4 [Hm4 _]. apply wpc_bind, wpc_act. intros σ5 Hr5 Hk5.
  pose proof (mode_rely _ _ _ _ _ Hr5 Hm4) as Hm5. split; [by apply Hm5|].
  intros [] l6 σ6 [-> ->] _ σ7 Hr7 _. apply wpc_ret. intros σ8 Hr8 _. apply undisturbed_None.
  eapply mode_rely; [exact Hr8|]. eapply mode_rely; [exact Hr7|]. by destruct Hm5.
Qed.
End any.
End scan.

(** ** The consumed command, inside the consumer's transaction *)
Section executor.
Context `{K : KV St Hd It} `{C : RecordCodec} `{CL : !RecordCodecLaws C} `{UT : UnicodeTables}
  `{G : GitIgnore} `{U : UUID} `{L : Payloads Event} `{PU : PRURL}.
Context (hold : Duration) (cfg : policy).
Context (owned : memo) (i : tid) (c : bool).
Context (taskCreationFilter : TaskCreationFilter) (trustDecision : Trust.Trust)
  (mechanicalOverrideAuthors : list string).
Implicit Types σ : shared St.

Abbreviation safe := (safe hold cfg owned i).
Abbreviation wpc := (wpc hold cfg owned i).
Abbreviation held := (mode i (Some true) c).

(** What a computation that writes the store under the lock gives back. *)
Abbreviation holding m := (forall l σ, Inv σ -> known owned σ -> held σ -> wpc m (fun _ _ σ' => held σ') l σ).

Lemma safe_holding {A} (m : M St A) : safe (fun _ => True) (Some true) c m -> holding m.
Proof. intros Hm l σ HI Hk Hmd. eapply wpc_mono; [by apply Hm|]. by intros ? ? ? _ _ [? _]. Qed.

Lemma holding_bind {A B} (m : M St A) (k : A -> M St B) : holding m -> (forall a, holding (k a)) -> holding (m ≫= k).
Proof.
  intros Hm Hk l σ HI Hkn Hmd. apply wpc_bind. eapply wpc_mono; [by apply Hm|].
  intros a l' σ' HI' Hkn' Hmd'. by apply Hk.
Qed.

Lemma holding_ret {A} (a : A) : holding (mret a : M St A).
Proof. apply safe_holding. by apply safe_ret. Qed.

Lemma deriveTaskID_safe P `{!Stable P} b info cmd head : safe P b c (deriveTaskID info cmd head).
Proof. unfold deriveTaskID. safe_steps. Qed.
Lemma applyFilter_safe P `{!Stable P} b info d : safe P b c (applyFilter taskCreationFilter info d).
Proof. unfold applyFilter. safe_steps. Qed.
Lemma applyTrust_safe P `{!Stable P} b d : safe P b c (applyTrust trustDecision d).
Proof. unfold applyTrust. safe_steps. Qed.
Lemma defer_safe P `{!Stable P} b cmd info d :
  safe P b c (deferWebhookMechanicalOverride mechanicalOverrideAuthors cmd info d).
Proof.
  unfold deferWebhookMechanicalOverride. safe_step; [safe_steps|]. safe_step; [|safe_steps].
  apply safe_method; [done|]. intros σ _. apply ms_release.
Qed.

Lemma deriveTaskID_no_send info cmd head : quiet_code (deriveTaskID info cmd head : M St _).
Proof. unfold deriveTaskID. unfold quiet_code; every_steps. Qed.

(** The head was looked up, at entry [m] of the log, in the store [s]. *)
Definition vetted (head : RetryGuardPR) (m : nat) (s : St) σ : Prop :=
  looked_at owned i head m σ /\ exists t, t <= now_of σ /\ suppressed t head s <> Ok true.

#[local] Instance vetted_quiet head m s : Quiet i (vetted head m s).
Proof.
  intros σ σ' Hq [Hl (t & Ht & Hs)]. split; [by eapply looked_at_quiet|]. exists t. split; [|done].
  pose proof (cm_now _ _ (proj1 Hq)). lia.
Qed.

Lemma suppressForOverride_wpc head l σ :
  Inv σ -> known owned σ -> held σ ->
  wpc (suppressForOverride head) (fun r _ σ' => undisturbed i (Some true) c σ σ' /\
    (r = None -> exists m, vetted head m (sh_db σ) σ')) l σ.
Proof.
  intros HI Hk Hm. unfold suppressForOverride.
  change (now ← call Now; r ← gets_db (SuppressedTx now head);
    match r with
    | Err _ => mret None
    | Ok false => mret None
    | Ok true => call (IncPRPublished "override_owns_sha");; mret (Some ErrCommandObjectSkipped)
    end) with
    (r ← (now ← call Now; gets_db (SuppressedTx now head));
    match r with
    | Err _ => mret None
    | Ok false => mret None
    | Ok true => call (IncPRPublished "override_owns_sha");; mret (Some ErrCommandObjectSkipped)
    end : M St (option error)).
  apply wpc_bind. eapply wpc_mono; [by apply (wpc_timed_read _ _ _ _ (Some true) c)|].
  intros r l1 σ1 HI1 Hk1 [Hu (t & m & σ2 & -> & Ht & Hdb & Hent & Hal & Hk2 & Hr)].
  assert (SuppressedTx t head (sh_db σ2) <> Ok true -> vetted head m (sh_db σ) σ1) as Hlook.
  { intros Hs. eapply vetted_quiet; [by apply rely_quiet|]. split; [by eapply unsuppressed_looked|].
    exists t. by rewrite <- Hdb. }
  assert (forall (r : option error) l, (r = None -> vetted head m (sh_db σ) σ1) ->
    wpc (mret r) (fun r _ σ' => undisturbed i (Some true) c σ σ' /\
      (r = None -> exists m, vetted head m (sh_db σ) σ')) l σ1) as Hret.
  { intros r l' Hl. apply wpc_ret. intros σ3 Hr3 _. split; [by eapply undisturbed_rely|].
    intros Hn. exists m. eapply vetted_quiet; [by apply rely_quiet|auto]. }
  destruct (SuppressedTx t head _) as [[]|]; [|apply Hret; intros _; by apply Hlook..].
  apply wpc_bind. eapply wpc_mono; [apply (safe_call _ _ _ _ (fun _ => True) (Some true) c); try done; apply Hu|].
  intros [] l3 σ3 _ _ Hu3. apply wpc_ret. intros σ4 Hr4 _. split; [|done].
  eapply undisturbed_rely; [|done]. by eapply undisturbed_trans.
Qed.

(** What is left of a state where the store [s] was looked at: the locks, the
    look-up, and an excuse if [x] asks for one. *)
Definition guarded (head : RetryGuardPR) (m : nat) (s : St) (x : bool) σ : Prop :=
  held σ /\ sh_db σ = s /\ vetted head m s σ /\ (x = true -> excused cfg i head m s σ).

Lemma guarded_rely head m s x σ σ' : rely i σ σ' -> guarded head m s x σ -> guarded head m s x σ'.
Proof.
  intros Hr (Hm & Hdb & Hv & Hx). split_and!; [by eapply mode_rely| | |].
  - by rewrite (mode_db _ _ _ _ _ Hm Hr).
  - eapply vetted_quiet; [by apply rely_quiet|done].
  - intros Hxt. eapply excused_stable; [apply Hr|auto].
Qed.

#[local] Instance excuse_quiet head m s (x : bool) : Quiet i (fun σ => x = true -> excused cfg i head m s σ).
Proof. intros σ σ' [Hc _] H Hx. eapply excused_stable; [exact Hc|auto]. Qed.

Lemma wpc_guarded {A} (n : M St A) head m s x l σ :
  quiet_code n -> safe (fun _ => True) (Some true) c n -> Inv σ -> known owned σ ->
  guarded head m s x σ -> wpc n (fun _ _ σ' => guarded head m s x σ') l σ.
Proof.
  intros Hq Hn HI Hk (Hm & Hdb & Hv & Hx).
  eapply wpc_mono; [eapply (wpc_quiet _ _ _ _ _ _
    (fun σ => vetted head m s σ /\ (x = true -> excused cfg i head m s σ))); [done|done|by apply Hn]|].
  intros a l' σ' _ _ [[Hm' Hdb'] [Hv' Hx']]. split_and!; try done. by rewrite Hdb' by done.
Qed.

Lemma ret_guarded {A} (r : A) (x : A -> bool) head m s l σ :
  guarded head m s (x r) σ -> wpc (mret r) (fun r _ σ' => guarded head m s (x r) σ') l σ.
Proof. intros Hg. apply wpc_ret. intros σ' Hr _. by eapply guarded_rely. Qed.

Definition passed {A} (r : A * option error) : bool := match snd r with None => true | Some _ => false end.

(** Asking GitHub is an excuse, or the review is not published. *)
Lemma decideFresh_wpc head record age m s l σ :
  Inv σ -> known owned σ -> guarded head m s false σ ->
  wpc (decideFresh (pl_logins cfg) head record age) (fun r _ σ' => guarded head m s (passed r) σ') l σ.
Proof.
  intros HI Hk Hg. unfold decideFresh. apply wpc_bind, wpc_act. intros σ1 Hr1 _. split; [done|].
  pose proof (guarded_rely _ _ _ _ _ _ Hr1 Hg) as (Hm1 & Hdb1 & Hv1 & _).
  intros r l2 σ2 (_ & -> & ->) Hc2 σ3 Hr3 Hk3.
  set (ev := Ev (ListReviews (pr_Owner head) (pr_Repo head) (pr_Number head)) r) in *.
  assert (forall x, (x = true -> excuses (pl_logins cfg) head ev) -> guarded head m s x σ3) as Hg3.
  { intros x Hx. eapply guarded_rely; [exact Hr3|]. split_and!; [by destruct Hm1|done| |].
    - eapply vetted_quiet; [|exact Hv1].
      by apply (quiet_atomic i (Request (ListReviews (pr_Owner head) (pr_Repo head) (pr_Number head))) l σ1 r l).
    - intros Hxt. right. exists (length (sh_trace σ1)), ev.
      destruct Hv1 as [[[t Ht] _ _] _]. apply lookup_lt_Some in Ht. split_and!; [done| |auto].
      simpl. by rewrite lookup_app_r, Nat.sub_diag by done. }
  destruct r as [reviews|e]; [destruct (has_verdict _ _ _) eqn:Hv|].
  - apply (ret_guarded _ passed), Hg3. intros _. right. by exists reviews.
  - apply wpc_bind. eapply wpc_mono; [apply (wpc_guarded _ head m s false); [by unfold quiet_code; every_steps|safe_steps|apply Hr3|done|by apply Hg3]|].
    intros [] l4 σ4 _ _ Hg4. by apply (ret_guarded _ passed).
  - apply (ret_guarded _ passed), Hg3. intros _. left. by exists e.
Qed.

Lemma guard_Check_wpc head m s l σ :
  Inv σ -> known owned σ -> guarded head m s false σ ->
  wpc (guard_Check (pl_logins cfg) head) (fun r _ σ' => guarded head m s (passed r) σ') l σ.
Proof.
  intros HI Hk Hg. unfold guard_Check. apply wpc_bind, wpc_act. intros σ1 Hr1 _.
  pose proof (guarded_rely _ _ _ _ _ _ Hr1 Hg) as Hg1. pose proof Hg1 as (Hm1 & Hdb1 & Hv1 & _). split.
  { left. split; [by apply Hm1|]. destruct (proj1 Hr1) as [[_ Hok Hst _] _ _ _ _]. by split. }
  intros r l2 σ2 (-> & -> & ->) _ σ3 Hr3 Hk3. simpl in *.
  assert (put_db (sh_db σ1) σ1 = σ1) as Heq by by destruct σ1. rewrite Heq in Hr3.
  pose proof (guarded_rely _ _ _ _ _ _ Hr3 Hg1) as Hg3. rewrite Hdb1. clear Heq.
  assert (forall σ' x, guarded head m s false σ' ->
    (x = true -> forall t0, holds retryGuardBucketName (retryGuardKey head) t0 s -> t0 + Hour < now_of σ') ->
    guarded head m s x σ') as Hold.
  { intros σ' x (? & ? & ? & _) Hx. split_and!; try done. intros Hxt. left. by apply Hx. }
  destruct (readRecord head s) as [[record|]|e] eqn:Hrec.
  - apply wpc_bind, wpc_now. intros σ4 σ5 Hr4 Hr5 Hk5. cbv zeta.
    assert (guarded head m s false σ5 /\ now_of σ4 <= now_of σ5) as [Hg5 Hn5].
    { split; [|apply (cm_now _ _ (proj1 Hr5))]. eapply guarded_rely; [exact Hr5|].
      destruct (guarded_rely _ _ _ _ _ _ Hr4 Hg3) as (Hm4 & Hdb4 & Hv4 & _).
      split_and!; [by destruct Hm4|done| |done].
      eapply vetted_quiet; [|exact Hv4]. apply (quiet_atomic i (Request Now) l σ4 (now_of σ4) l); [done| |done].
      apply common_same; try done; [apply Hr4|apply (proj1 Hr4)|by eexists]. }
    destruct (retryGuardStaleAfter <? _) eqn:Hage.
    + apply (ret_guarded _ passed), Hold; [done|]. intros _ t0 Hh.
      apply Z.lt_nge. intros Hge. destruct (readRecord_holds head t0 (now_of σ4) s Hh) as (r & Hr & Hle); [lia|].
      rewrite Hrec in Hr. injection Hr as <-. lia.
    + by apply decideFresh_wpc; [apply Hr5|..].
  - apply (ret_guarded _ passed), Hold; [done|]. intros _ t0 Hh.
    destruct (readRecord_holds head t0 t0 s Hh) as (r & Hr & _); [unfold Hour, Minute, Second; lia|]. congruence.
  - apply (ret_guarded _ passed). by apply Hold.
Qed.

Definition admitted (cmd : TriggerPRReviewCommand) (r : option error) : bool :=
  match r with None => Force cmd | Some _ => false end.

Lemma checkRetryGuard_wpc cmd head m s l σ :
  Inv σ -> known owned σ -> guarded head m s false σ ->
  wpc (checkRetryGuard (pl_logins cfg) cmd head) (fun r _ σ' => guarded head m s (admitted cmd r) σ') l σ.
Proof.
  intros HI Hk Hg. unfold checkRetryGuard. destruct (Force cmd) eqn:Hf; cbn [negb].
  - apply wpc_bind. eapply wpc_mono; [by apply guard_Check_wpc|]. intros r l2 σ2 _ _ Hg2.
    apply (ret_guarded _ (admitted cmd)). unfold passed, admitted in *. rewrite Hf. by destruct (snd r).
  - apply (ret_guarded _ (admitted cmd)). unfold admitted. by rewrite Hf.
Qed.

(** The send: the head was looked up in the very store the goroutine holds. *)
Lemma publishCreateCommand_wpc info cmd d tr id ex m s l σ :
  Inv σ -> known owned σ -> guarded (newRetryGuardPR info d) m s (Force cmd) σ ->
  wpc (publishCreateCommand (pl_task cfg) info cmd d tr id ex) (fun _ _ σ' => held σ') l σ.
Proof.
  intros HI Hk (Hm & <- & [Hl Ht] & Hx). unfold publishCreateCommand. cbv zeta. apply wpc_bind.
  eapply wpc_mono; [by apply (send_review_wpc _ _ _ _ (Some true) c (executor_pr info cmd d) d id tr (Force cmd) ex m)|].
  intros sent l2 σ2 HI2 Hk2 [Hm2 _]. refine (safe_holding _ _ l2 σ2 HI2 Hk2 Hm2). safe_steps.
Qed.

Lemma publishTriggered_holding cmd info d tr :
  holding (publishTriggered (pl_task cfg) (pl_logins cfg) cmd info d tr).
Proof.
  intros l σ HI Hk Hm. unfold publishTriggered. set (head := newRetryGuardPR info d). cbv zeta.
  apply wpc_bind. eapply wpc_mono; [by apply suppressForOverride_wpc|].
  intros r l1 σ1 HI1 Hk1 [[Hm1 Hdb1] Hlook]. destruct r as [e|]; [by apply holding_ret|].
  destruct (Hlook eq_refl) as [m Hv]. specialize (Hdb1 ltac:(done)).
  assert (guarded head m (sh_db σ) false σ1) as Hg1 by by split_and!.
  apply wpc_bind. eapply wpc_mono; [by apply checkRetryGuard_wpc|].
  intros r l2 σ2 HI2 Hk2 Hg2. destruct r as [e|]; [apply holding_ret; [done|done|apply Hg2]|]. simpl in Hg2.
  apply wpc_bind. eapply wpc_mono; [apply (wpc_guarded _ head m (sh_db σ) (Force cmd));
    [apply deriveTaskID_no_send|by apply (deriveTaskID_safe (fun _ => True))|done..]|].
  intros id l3 σ3 HI3 Hk3 Hg3.
  apply wpc_bind. eapply wpc_mono; [apply (wpc_guarded _ head m (sh_db σ) (Force cmd));
    [apply ReviewIgnoreExclusion_no_send|by apply (ReviewIgnoreExclusion_safe _ _ _ _ (fun _ => True))|done..]|].
  intros ex l4 σ4 HI4 Hk4 Hg4.
  apply wpc_bind. eapply wpc_mono; [eapply publishCreateCommand_wpc; [done|done|exact Hg4]|].
  intros err l5 σ5 HI5 Hk5 Hm5. destruct err as [e|]; [by apply holding_ret|].
  apply wpc_bind. eapply wpc_mono; [apply (wpc_timed_write _ _ _ _ c (fun now => RecordPublish now head id)); [|done]|].
  { apply RecordPublish_recorder. }
  intros [] l6 σ6 HI6 Hk6 Hm6. by apply holding_ret.
Qed.

Lemma run_holding data :
  holding (runTriggerPRReview taskCreationFilter trustDecision mechanicalOverrideAuthors (pl_task cfg) (pl_logins cfg) data).
Proof.
  unfold runTriggerPRReview. destruct (unmarshalAndValidate data) as [cmd|e]; [|apply holding_ret].
  destruct (ParsePRURL _) as [info|e]; [|apply holding_ret].
  apply holding_bind; [apply safe_holding; safe_steps|]. intros [d|e]; [|apply holding_ret].
  apply holding_bind; [apply safe_holding; by apply applyFilter_safe|].
  intros [skip [e|]]; [destruct skip; apply holding_ret|]. destruct skip; [apply holding_ret|].
  apply holding_bind; [apply safe_holding; by apply applyTrust_safe|]. intros [tr|e]; [|apply holding_ret].
  apply holding_bind; [apply safe_holding; by apply defer_safe|]. intros [e|]; [apply holding_ret|].
  apply publishTriggered_holding.
Qed.

Lemma status_holding data : holding (runSetDoNotMergeStatus data : M St (option error)).
Proof. apply safe_holding. unfold runSetDoNotMergeStatus. safe_steps. Qed.
End executor.

(** ** The HTTP handlers *)
Section handlers.
Context `{K : KV St Hd It} `{C : RecordCodec} `{CL : !RecordCodecLaws C} `{UT : UnicodeTables}
  `{L : Payloads Event} `{PU : PRURL} `{J : WebhookCodec} `{B : BoolParser}.
Context (hold : Duration) (cfg : policy) (secret : string).
Context (owned : memo) (i : tid).

Abbreviation safe := (safe hold cfg owned i).

Section any.
Context (P : shared St -> Prop) `{HP : !Stable P} (b : option bool) (c : bool).

Lemma trigger_SendCommand_safe cmd : safe P b c (trigger_SendCommand cmd).
Proof. unfold trigger_SendCommand. safe_steps. Qed.
Lemma status_SendCommand_safe cmd : safe P b c (status_SendCommand cmd).
Proof. unfold status_SendCommand. safe_steps. Qed.
#[local] Hint Resolve trigger_SendCommand_safe status_SendCommand_safe : safe.

Lemma postDoNotMergeStatus_safe payload : safe P b c (postDoNotMergeStatus payload).
Proof. unfold postDoNotMergeStatus, sendDoNotMergeStatus. safe_steps. Qed.

Lemma shouldDispatch_safe payload : we_HTMLURL payload <> "" -> safe P b c (shouldDispatch hold payload).
Proof.
  intros Hu. unfold shouldDispatch. safe_step; [|safe_steps]. cbv zeta. safe_step; [safe_steps|].
  apply safe_now; [done|]. intros t. apply safe_bind; [typeclasses eauto| |intros; safe_steps].
  apply safe_method; [typeclasses eauto|]. intros σ [_ Ht]. by apply ms_push.
Qed.

Lemma dispatchReview_safe start payload key : safe P b c (dispatchReview start payload key).
Proof.
  unfold dispatchReview. safe_step; [safe_steps|]. safe_step; [|safe_steps].
  apply safe_now; [done|]. intros t. apply safe_bind; [typeclasses eauto| |intros; safe_steps].
  - apply safe_method; [typeclasses eauto|]. intros σ [_ Ht]. by apply ms_mark.
  - unfold writeWebhookDispatched. safe_steps.
Qed.
#[local] Hint Resolve postDoNotMergeStatus_safe dispatchReview_safe : safe.

Lemma handlePullRequest_safe start body : safe P b c (handlePullRequest hold start body).
Proof.
  unfold handlePullRequest. destruct (unmarshal_webhook body) as [payload|]; [|safe_steps].
  destruct (String.eqb_spec (we_HTMLURL payload) ""); [safe_steps|].
  pose proof (shouldDispatch_safe payload ltac:(done)).
  unfold writeWebhookAck, writeWebhookDispatched. safe_steps.
Qed.
#[local] Hint Resolve handlePullRequest_safe : safe.

Lemma webhook_ServeHTTP_safe req : safe P b c (webhook_ServeHTTP hold secret req).
Proof. unfold webhook_ServeHTTP, writeWebhookAck. safe_steps. Qed.
Lemma trigger_ServeHTTP_safe url force : safe P b c (trigger_ServeHTTP url force).
Proof. unfold trigger_ServeHTTP. safe_steps. Qed.
Lemma Dispatch_safe url : safe P b c (Dispatch url).
Proof. unfold Dispatch. safe_steps. Qed.
End any.
End handlers.
