(* ===== verification/ProcessProofs.v ===== *)
(** * ProcessProofs: what holds of every interleaving of the program *)
From S2P Require Import Prelude Coalesce CoalesceProofs GoStrings KV MemDB Ledger LedgerProofs Records Types GitHubApi Titles Trust Filters SizeGate Commands World Code Publisher CursorFile Watcher Scanner RetryGuard Executor Crypto Handlers Config Concurrent Process RelyGuarantee Safety Goroutines.
Local Open Scope Z_scope.

(** The consumer's own books are in buckets of their own. *)
Definition keeps_ledgers `{K : KV St Hd It} (f : St -> St) : Prop :=
  forall s, kv_ok s -> kv_ok (f s) /\ forall n, ledger_bucket n -> kv_view (f s) !! n = kv_view s !! n.

Section process.
Context `{K : KV St Hd It} `{C : RecordCodec} `{CL : !RecordCodecLaws C} `{UT : UnicodeTables}
  `{G : GitIgnore} `{U : UUID} `{J : CursorCodec} `{L : Payloads Event} `{PU : PRURL}
  `{WC : WebhookCodec} `{B : BoolParser}.
Context (W : wiring) (secret : string) (bookkeeping : operation -> Event -> St -> St).
Hypothesis books : forall op data, keeps_ledgers (bookkeeping op data).
Implicit Types σ : shared St.

Abbreviation hold := (hold_of W).
Abbreviation cfg := (mkPolicy (w_task W) (Logins (w_unreviewed W))).
Abbreviation goroutine := (goroutine W secret bookkeeping).
Abbreviation fire := (fire W).
Abbreviation process_step := (process_step W secret bookkeeping).
Abbreviation reachable := (reachable W secret bookkeeping).

Lemma bookkeeping_recorder op data : recorder (fun _ => bookkeeping op data).
Proof.
  intros now s Hok Hst. destruct (books op data s Hok) as [Hok' Hv].
  assert (forall n k, ledger_bucket n -> ledger_view n (bookkeeping op data s) !! k = ledger_view n s !! k) as Hlv.
  { intros n k Hn. rewrite !ledger_view_lookup. by rewrite Hv. }
  split; [done| |].
  - intros n k r Hn. rewrite Hlv by done. by apply Hst.
  - intros n k t0 Hn _ [_ (r & Hr & Ht)]. split; [done|]. exists r. by rewrite Hlv.
Qed.

(** ** The goroutines are safe *)
Section safe.
Context (owned : memo) (i : tid).

Abbreviation safe := (safe hold cfg owned i).
Abbreviation wpc := (wpc hold cfg owned i).

Lemma pollOnce_safe P `{!Stable P} fuel : safe P None false (pollOnce W fuel).
Proof.
  unfold pollOnce, publisher_of. apply Poll_safe; [typeclasses eauto|done|].
  intros n. apply Scan_safe; [typeclasses eauto|done].
Qed.

Lemma runPollLoop_safe P `{!Stable P} fuel wakes : safe P None false (runPollLoop W fuel wakes).
Proof.
  pose proof pollOnce_safe. induction wakes as [|[] ws IH]; simpl; safe_steps.
Qed.

Lemma serveHTTP_safe P `{!Stable P} fuel req : safe P None false (serveHTTP W secret fuel req).
Proof.
  pose proof pollOnce_safe. pose proof webhook_ServeHTTP_safe. pose proof trigger_ServeHTTP_safe.
  unfold serveHTTP. safe_steps.
Qed.

(** A command runs under the store's lock, which it gives back. *)
Lemma execute_holding c op data l σ : Inv σ -> known owned σ -> mode i (Some true) c σ ->
  wpc (execute W op data) (fun _ _ σ' => mode i (Some true) c σ') l σ.
Proof. destruct op; [by apply run_holding|by apply status_holding]. Qed.

Lemma consume_safe P `{!Stable P} c op data : safe P None c (consume W bookkeeping op data).
Proof.
  intros l σ HI Hk Hm _. eapply wpc_mono; [eapply (wpc_transaction _ _ _ _ true c _ (fun _ _ => True)); try done|].
  - intros σ1 Hc1 Hk1 Hm1. apply wpc_bind.
    eapply wpc_mono; [apply execute_holding; [apply Hc1|done|done]|]. intros r l2 σ2 HI2 Hk2 Hm2.
    apply wpc_bind, wpc_act. intros σ3 Hr3 Hk3. pose proof (mode_rely _ _ _ _ _ Hr3 Hm2) as Hm3. split.
    + left. split; [by apply Hm3|]. destruct Hr3 as [[[_ Hok Hst _] _ _ _ _] _].
      by apply (bookkeeping_recorder op data (now_of σ3)).
    + intros [] l4 σ4 (_ & -> & ->) _ σ5 Hr5 _. apply wpc_ret. intros σ6 Hr6 _. split; [|done].
      eapply mode_rely; [exact Hr6|]. eapply mode_rely; [exact Hr5|]. by destruct Hm3.
  - intros ? ? σ' _ _ [? _]. by apply undisturbed_None.
Qed.

Lemma consumeAll_safe P `{!Stable P} c cmds : safe P None c (consumeAll W bookkeeping cmds).
Proof. pose proof consume_safe. induction cmds as [|[op data] cmds IH]; simpl; safe_steps. Qed.

Lemma goroutine_safe m : goroutine m -> safe (fun _ => True) None false m.
Proof. intros []; [by apply runPollLoop_safe|by apply serveHTTP_safe|by apply consumeAll_safe]. Qed.

(** Requests alone leave what is the goroutine's. *)
Definition request_only A (o : action St A) : Prop :=
  match o with Request q => forall σ, may_request cfg owned i q σ | _ => False end.
Abbreviation requests_only := (every request_only).

Lemma wpc_requests {A} (m : M St A) (P : shared St -> Prop) l σ :
  requests_only m -> (forall σ1 σ2, rely i σ1 σ2 -> P σ1 -> P σ2) ->
  (forall σ1 ev, P σ1 -> P (log i ev σ1)) -> P σ -> wpc m (fun _ _ σ' => P σ') l σ.
Proof.
  intros Hm HP Hl. revert l σ Hm. induction m as [a|A' o k IH]; intros l σ Hm HPs σ1 Hr1 Hk1.
  - by eapply HP.
  - destruct Hm as [Ho Hm]. destruct o; try done. split; [by apply Ho|].
    intros b l' σ2 (_ & -> & ->). apply IH; [done|]. apply Hl. by eapply HP.
Qed.

Lemma Dispatch_requests url : requests_only (Dispatch url).
Proof.
  every_steps.
Qed.
End safe.

(** The callback of a timer: its timer and then its flight stay its own. *)
Lemma fire_wpc owned t cb l σ :
  Inv σ -> known owned σ -> mode (Fire t) None false σ ->
  spent t (sh_coal σ) -> timers (sh_coal σ) !! t = Some (start cb) ->
  wpc hold cfg owned (Fire t) (fire t cb) (fun _ _ σ' => mode (Fire t) None false σ') l σ.
Proof.
  intros HI Hk Hm Hsp Ht. unfold fire. apply wpc_bind, wpc_act. intros σ1 Hr1 Hk1.
  pose proof (mode_rely _ _ _ _ _ Hr1 Hm) as Hm1.
  assert (timers (sh_coal σ1) !! t = Some (start cb)) as Ht1.
  { rewrite <- Ht. by apply Hr1. }
  split; [by apply (ms_enter _ _ _ t (start cb))|].
  intros r l2 σ2 (-> & -> & ->) _ σ3 Hr3 Hk3.
  set (c2 := snd (fire_enter t cb (sh_coal σ1))) in *.
  assert (mode (Fire t) None false (put_coal c2 σ1)) as Hm2 by (destruct Hm1; by split).
  pose proof (mode_rely _ _ _ _ _ Hr3 Hm2) as Hm3.
  destruct (fst (fire_enter t cb (sh_coal σ1))) as [head|] eqn:Hhead.
  2: { apply wpc_ret. intros σ4 Hr4 _. by eapply mode_rely. }
  set (fl := mkFlight t (cb_key cb) (cb_url cb) head).
  assert (fl ∈ flights c2) as Hfl.
  { unfold c2, fire_enter in *. destruct (fire_begin _ _ _) as [o c']. simpl in *. subst o.
    simpl. apply list_elem_of_here. }
  assert (forall σ1 σ2, rely (Fire t) σ1 σ2 -> (fl ∈ flights (sh_coal σ1)) -> fl ∈ flights (sh_coal σ2)) as Hkeep.
  { intros s1 s2 [_ Ho]. by apply (ow_flight _ _ _ Ho). }
  unfold dispatch_held. apply wpc_bind. eapply wpc_mono.
  { apply (wpc_requests owned (Fire t) _ (fun σ => mode (Fire t) None false σ /\ (fl ∈ flights (sh_coal σ)))).
    - apply Dispatch_requests.
    - intros s1 s2 Hr [Hms Hf]. split; [by eapply mode_rely|by eapply Hkeep].
    - intros s1 ev [Hms Hf]. split; [destruct Hms; by split|done].
    - split; [done|]. by eapply Hkeep. }
  intros d l4 σ4 HI4 Hk4 [Hm4 Hfl4].
  assert (forall ok now l' σ', Inv σ' -> mode (Fire t) None false σ' -> (fl ∈ flights (sh_coal σ')) ->
    (ok = true -> now <= now_of σ') ->
    wpc hold cfg owned (Fire t) (coalescer_call (fun c => (tt, fire_leave hold fl ok now c)))
      (fun _ _ σ2 => mode (Fire t) None false σ2) l' σ') as Hleave.
  { intros ok now l' σ' HI' Hm' Hf' Hnow. apply wpc_act. intros σ5 Hr5 Hk5. split.
    - apply ms_leave; [done|by eapply Hkeep|]. intros Hok. specialize (Hnow Hok).
      pose proof (cm_now _ _ (proj1 Hr5)). unfold now_of in *. lia.
    - intros [] l6 σ6 (_ & _ & ->) _ σ7 Hr7 _. eapply mode_rely; [exact Hr7|].
      destruct (mode_rely _ _ _ _ _ Hr5 Hm'). by split. }
  destruct d as [[]|e]; [|by apply Hleave].
  apply wpc_bind, wpc_now. intros σ5 σ6 Hr5 Hr6 _.
  apply Hleave; [apply Hr6| | |intros _; apply Hr6].
  - eapply mode_rely; [exact Hr6|]. destruct (mode_rely _ _ _ _ _ Hr5 Hm4). by split.
  - eapply Hkeep; [exact Hr6|]. simpl. by eapply Hkeep.
Qed.

#[local] Instance process_safe : SafeProgram hold cfg goroutine fire.
Proof.
  split.
  - intros owned n m Hm. by apply goroutine_safe.
  - intros owned t cb l σ. apply fire_wpc.
Qed.

Definition unowned : memo := mkMemo (fun _ _ => False) 0.

Lemma unowned_known σ : known unowned σ.
Proof. by intros _ head t0. Qed.

Lemma initial_ok p : initial p -> pool_ok hold cfg unowned p.
Proof.
  intros [Hth [Hok Hv] Hrw (now & Hnow & Hco) Hsc _]. destruct p as [σ ths]. simpl in *. subst ths.
  split; simpl; try done.
  - split; [rewrite Hco; intros t cb; simpl; by rewrite lookup_empty|done| |left; apply Hrw].
    intros n k r _. rewrite ledger_view_lookup, Hv, lookup_empty. done.
  - intros i _. destruct Hrw as [Hw Hr]. split; rewrite ?Hw, ?Hr, ?Hsc; split; try done; set_solver.
Qed.

Lemma reachable_ok p : reachable p -> pool_ok hold cfg unowned p.
Proof.
  intros (p0 & Hi & Hs). apply (pool_sound_rtc _ _ goroutine fire unowned p0 p); [by apply initial_ok|done|].
  intros q _ _. apply unowned_known.
Qed.

Lemma reachable_step p p' : reachable p -> rtc process_step p p' -> reachable p'.
Proof. intros (p0 & Hi & Hs) Hs'. exists p0. split; [done|]. by etrans. Qed.

Lemma run_common p p' : reachable p -> rtc process_step p p' -> common (p_shared p) (p_shared p').
Proof.
  intros Hp%reachable_ok Hs. eapply (pool_sound_rtc _ _ goroutine fire unowned p p'); [done|exact Hs|].
  intros q _ _. apply unowned_known.
Qed.

(** ** Locks *)

Lemma api_inhabited {A} (q : api A) : inhabited A.
Proof. destruct q; repeat constructor. Qed.
Lemma request_inhabited {A} (q : request A) : inhabited A.
Proof. destruct q; try by repeat econstructor. by eapply api_inhabited. Qed.

Lemma request_answered {A} (q : request A) σ : exists a, answers q σ a.
Proof.
  destruct (request_inhabited q) as [a]. destruct q; try (by exists a). by exists (now_of σ).
Qed.

Definition can_step (i : tid) (th : thread St) σ : Prop := exists th' σ', advance i th σ th' σ'.

Definition finished (th : thread St) : Prop := match th_code th with Ret _ => True | Act _ _ => False end.

Definition holds_store (i : tid) σ : Prop := rw_writer (sh_rw σ) = Some i \/ i ∈ rw_readers (sh_rw σ).

(** A goroutine that waits for the store. *)
Definition waits_for_store (th : thread St) : Prop := exists w k, th_code th = Act (Lock w) k.

Lemma advance_by i th σ {A} (o : action St A) k a l σ' :
  th_code th = Act o k -> atomic i o (th_local th) σ a l σ' -> can_step i th σ.
Proof.
  intros Hc Hat. exists (mkThread (k a) l), σ'. unfold advance. rewrite Hc. by exists a.
Qed.

(** Whatever is allowed can be done, but for a lock another goroutine has. *)
Lemma allowed_steps i th σ : ~ finished th -> waits_for_store th \/ can_step i th σ.
Proof.
  unfold finished. destruct (th_code th) as [[]|A o k] eqn:Hc; [done|]. intros _.
  destruct o as [A q|A f|A f|A f| | |w|w|A f].
  - right. destruct (request_answered q σ) as [a Ha]. by eapply advance_by.
  - right. by eapply advance_by.
  - right. by eapply advance_by.
  - right. by eapply advance_by.
  - right. destruct (sh_scan σ) as [j|] eqn:Hs.
    + eapply advance_by; [done|]. simpl. rewrite Hs. by split.
    + eapply advance_by; [done|]. simpl. rewrite Hs. by split.
  - right. eapply (advance_by _ _ _ _ _ tt); [done|]. by split.
  - left. by exists w, k.
  - right. destruct w; eapply (advance_by _ _ _ _ _ tt); try done; by split.
  - right. by eapply advance_by.
Qed.

(** The next action of a goroutine is allowed now; at its end it has no lock. *)
Lemma thread_now owned p i th : pool_ok hold cfg owned p -> p_threads p !! i = Some th ->
  match th_code th with
  | Ret _ => mode i None false (p_shared p)
  | Act o _ => allowed hold cfg owned i o (p_shared p)
  end.
Proof.
  intros Hok Hth. pose proof (po_thread _ _ _ _ Hok i th Hth) as Ht. unfold thread_ok in Ht.
  pose proof (rely_refl i _ (po_inv _ _ _ _ Hok)) as Hr. pose proof (po_known _ _ _ _ Hok) as Hk.
  destruct (th_code th); [by apply Ht|]. by destruct (Ht _ Hr Hk).
Qed.

Lemma holder_steps p j : pool_ok hold cfg unowned p -> holds_store j (p_shared p) ->
  exists th, p_threads p !! j = Some th /\ can_step j th (p_shared p).
Proof.
  intros Hok Hj. destruct (p_threads p !! j) as [th|] eqn:Hth.
  2: { destruct (po_idle _ _ _ _ Hok j Hth) as [Hw Hr _]. destruct Hj as [Hj|Hj]; [by apply Hw in Hj|by apply Hr in Hj]. }
  exists th. split; [done|].
  pose proof (thread_now _ _ _ _ Hok Hth) as Ht.
  destruct (allowed_steps j th (p_shared p)) as [(w & k & Hc)|?]; [|rewrite Hc in Ht|done].
  - intros Hf. unfold finished in Hf. destruct (th_code th); [|done]. destruct Ht as [Hw Hr _].
    destruct Hj as [Hj|Hj]; [by apply Hw in Hj|by apply Hr in Hj].
  - destruct Ht as [Hw Hr]. by destruct Hj.
Qed.

(** (C5) No deadlock. In every reachable state of the process, a goroutine that is
    not finished can take its next step, or it waits for the store while
    another goroutine that holds it can take its next step: no goroutine asks
    for the store while it has it, none ends with it, and none that has it
    waits for anything else. *)
Theorem no_deadlock p i th :
  reachable p -> p_threads p !! i = Some th -> ~ finished th ->
  can_step i th (p_shared p) \/
  waits_for_store th /\ exists j th', j <> i /\ holds_store j (p_shared p) /\
    p_threads p !! j = Some th' /\ can_step j th' (p_shared p).
Proof.
  intros Hp Hth Hf. apply reachable_ok in Hp as Hok.
  destruct (allowed_steps i th (p_shared p) Hf) as [Hw|]; [|by left]. pose proof Hw as (w & k & Hc).
  pose proof (thread_now _ _ _ _ Hok Hth) as Ht.
  rewrite Hc in Ht. destruct Ht as [Hnw Hnr].
  assert (forall j, holds_store j (p_shared p) -> waits_for_store th /\ exists j th', j <> i /\
    holds_store j (p_shared p) /\ p_threads p !! j = Some th' /\ can_step j th' (p_shared p)) as Hother.
  { intros j Hj. split; [done|]. destruct (holder_steps p j Hok Hj) as (th' & ? & ?). exists j, th'.
    split_and!; try done. intros ->. by destruct Hj. }
  destruct (rw_writer (sh_rw (p_shared p))) as [j|] eqn:Hwr; [right; apply (Hother j); by left|].
  destruct w.
  - destruct (decide (rw_readers (sh_rw (p_shared p)) = ∅)) as [He|He].
    + left. eapply (advance_by _ _ _ _ _ tt); [exact Hc|]. by split.
    + right. apply set_choose_L in He as [j Hj]. apply (Hother j). by right.
  - left. eapply (advance_by _ _ _ _ _ tt); [exact Hc|]. by split.
Qed.

(** (C13) No data race. Of two goroutines about to use the store at the same time,
    both only read it; and two goroutines are never about to use the
    scanner's maps at the same time. *)
Theorem race_free p i j thi thj :
  reachable p -> i <> j -> p_threads p !! i = Some thi -> p_threads p !! j = Some thj ->
  (forall A (f : St -> A * St) k B (g : St -> B * St) k',
     th_code thi = Act (Access f) k -> th_code thj = Act (Access g) k' ->
     (forall s, snd (f s) = s) /\ forall s, snd (g s) = s) /\
  forall A (f : scanner_maps -> A * scanner_maps) k B (g : scanner_maps -> B * scanner_maps) k',
    th_code thi = Act (Maps f) k -> th_code thj = Act (Maps g) k' -> False.
Proof.
  intros Hp Hij Hi Hj. apply reachable_ok in Hp as Hok. pose proof (po_inv _ _ _ _ Hok) as HI.
  pose proof (thread_now _ _ _ _ Hok Hi) as Hti. pose proof (thread_now _ _ _ _ Hok Hj) as Htj.
  destruct HI as [_ _ _ Hrw]. split.
  - intros A f k A' g k' Hci Hcj. rewrite Hci in Hti. rewrite Hcj in Htj.
    destruct Hti as [[Hwi _]|[Hri Hf]], Htj as [[Hwj _]|[Hrj Hg]]; [congruence| | |done].
    + destruct Hrw as [Hrw|Hrw]; [congruence|set_solver].
    + destruct Hrw as [Hrw|Hrw]; [congruence|set_solver].
  - intros A f k A' g k' Hci Hcj. rewrite Hci in Hti. rewrite Hcj in Htj.
    simpl in *. congruence.
Qed.

(** ** A goroutine left alone *)

(** No other goroutine has a lock. *)
Record alone (i : tid) σ : Prop := mkAlone {
  al_writer : rw_writer (sh_rw σ) = None \/ rw_writer (sh_rw σ) = Some i;
  al_readers j : (j ∈ rw_readers (sh_rw σ)) -> j = i;
  al_scan : sh_scan σ = None \/ sh_scan σ = Some i }.

(** The world that the goroutine sees; [past] is what was logged before. *)
Record sees {E} (i : tid) (past : list (tid * event)) (w : World E St) (l : local) σ : Prop := mkSees {
  se_db : db w = sh_db σ;
  se_coal : coal w = sh_coal σ;
  se_maps : maps w = sh_maps σ;
  se_loc : loc w = l;
  se_trace : sh_trace σ = past ++ (pair i <$> trace w) }.

Lemma alone_step {E} `{EN : Env E} owned i past {A} (o : action St A) (w : World E St) l σ :
  (forall e, fst (serve Now e) = now_of σ) -> allowed hold cfg owned i o σ -> alone i σ -> sees i past w l σ ->
  exists l' σ', atomic i o l σ (fst (perform o w)) l' σ' /\
    alone i σ' /\ sees i past (snd (perform o w)) l' σ' /\ now_of σ' = now_of σ.
Proof.
  intros Hnow Ha [Hw Hr Hs] [Hdb Hco Hma Hlo Htr].
  destruct o as [A q|A f|A f|A f| | |wr|wr|A f]; simpl.
  - assert (answers q σ (fst (serve q (env w)))) as Hans by (destruct q; try done; apply Hnow).
    destruct (serve q (env w)) as [a e]. eexists _, _. split; [by split|]. split; [by split|].
    split; [split; try done; simpl; by rewrite Htr, fmap_app, app_assoc|done].
  - subst l. destruct (f (loc w)) as [a l'] eqn:Hf. exists l', σ. split; [done|].
    split; [by split|]. split; [by split|done].
  - destruct (f (coal w)) as [a c'] eqn:Hf. rewrite Hco in Hf. simpl in Ha. eexists _, _.
    split; [by rewrite Hf|]. rewrite Hf in *. split; [by split|]. split; [by split|].
    apply (mv_clock _ _ _ (method_moves _ _ _ _ Ha)).
  - destruct (f (maps w)) as [a x] eqn:Hf. rewrite Hma in Hf. eexists _, _.
    split; [by rewrite Hf|]. split; [by split|]. by split.
  - simpl in Ha. destruct Hs as [Hs|Hs]; [|done]. exists l, (put_scan (Some i) σ). rewrite Hs.
    split; [done|]. split; [split; [done|done|by right]|]. by split.
  - exists l, (put_scan None σ). split; [done|]. split; [split; [done|done|by left]|]. by split.
  - destruct Ha as [Hnw Hnr]. destruct Hw as [Hw|Hw]; [|done].
    assert (rw_readers (sh_rw σ) = ∅) as He.
    { apply set_eq. intros j. split; [|set_solver]. intros Hj. pose proof (Hr j Hj). by subst j. }
    exists l. destruct wr; eexists; (split; [by split|]); (split; [split; simpl; [|set_solver|done]|by split]).
    + by right.
    + by left.
  - exists l. destruct wr; eexists; (split; [by split|]); (split; [split; simpl; [|set_solver|done]|by split]).
    + by left.
    + done.
  - destruct (f (db w)) as [a s] eqn:Hf. rewrite Hdb in Hf. eexists _, _.
    split; [by rewrite Hf|]. split; [by split|]. by split.
Qed.

Lemma alone_runs {E} `{EN : Env E} i past (m : M St unit) Q (w : World E St) l σ ths :
  Inv σ ->
  (forall e, fst (serve Now e) = now_of σ) -> wpc hold cfg unowned i m Q l σ -> alone i σ -> sees i past w l σ ->
  exists l' σ', rtc process_step (mkPool σ (<[i := mkThread m l]> ths)) (mkPool σ' (<[i := mkThread (Ret tt) l']> ths)) /\
    sees i past (snd (runM m w)) l' σ'.
Proof.
  revert w l σ. induction m as [[]|A o k IH]; intros w l σ HI Hnow Hm Hal Hse; [by exists l, σ|].
  destruct (Hm σ (rely_refl _ _ HI) (unowned_known σ)) as [Ha Hn].
  destruct (alone_step unowned i past o w l σ Hnow Ha Hal Hse) as (l1 & σ1 & Hat & Hal1 & Hse1 & Hnow1).
  destruct (allowed_guar _ _ _ _ _ _ _ _ _ _ HI Ha Hat) as [Hc _].
  simpl. destruct (perform o w) as [b w1]. simpl in *.
  destruct (IH b w1 l1 σ1) as (l' & σ' & Hs & Hse'); [apply Hc| |by apply Hn|done|done|].
  { intros e. by rewrite Hnow1. }
  exists l', σ'. split; [|done]. eapply rtc_l; [|exact Hs].
  rewrite <- (insert_insert_eq ths i (mkThread (k b) l1) (mkThread (Act o k) l)).
  apply (p_act _ _ i (mkThread (Act o k) l) (mkThread (k b) l1)); [apply lookup_insert_eq|]. by exists b.
Qed.

(** A goroutine left alone runs to its end. Wherever the process is, a
    goroutine that no other goroutine's lock is in the way of can take all
    its steps to the end without another taking any; and if time stands still
    it does to the store, the coalescer, the scanner's maps, its variables and
    the trace what [runM] says. What is proved of [runM] is so of the process.
    (That its steps come to an end is a matter of the lists the loops are
    given; the content is that no lock stops it and that the two semantics
    agree.) *)
Theorem goroutine_left_alone {E} `{EN : Env E} p i m past (w : World E St) l :
  reachable p -> p_threads p !! i = Some (mkThread m l) -> alone i (p_shared p) ->
  sees i past w l (p_shared p) -> (forall e, fst (serve Now e) = now_of (p_shared p)) ->
  exists p' l', rtc process_step p p' /\
    p_threads p' = <[i := mkThread (Ret tt) l']> (p_threads p) /\
    sees i past (snd (runM m w)) l' (p_shared p').
Proof.
  intros Hp Hth Hal Hse Hnow. apply reachable_ok in Hp. destruct p as [σ ths]. simpl in *.
  destruct (alone_runs i past m (fun _ _ σ' => mode i None false σ') w l σ ths)
    as (l' & σ' & Hs & Hse'); [apply Hp|done|exact (po_thread _ _ _ _ Hp i _ Hth)|done|done|].
  exists (mkPool σ' (<[i := mkThread (Ret tt) l']> ths)), l'. split; [|done].
  by rewrite <- (insert_id ths i (mkThread m l)) at 1.
Qed.

(** ** Overrides and reviews *)

(** The goroutine is about to send a command. *)
Definition sending (th : thread St) (cmd : CreateCommand) : Prop :=
  exists k, th_code th = Act (Request (SendCreate cmd)) k.

(** [cmd] is the review of the head of [pr], as a forced command's or not. *)
Definition reviews (cmd : CreateCommand) (pr : PullRequest) (d : PRDetails) (forced : bool) : Prop :=
  exists id tr ex, cmd = BuildCreateCommand pr d id (w_task W) tr forced ex.

Lemma sending_review owned p i th cmd :
  pool_ok hold cfg owned p -> p_threads p !! i = Some th -> sending th cmd -> is_review cmd = true ->
  may_review cfg owned i cmd (p_shared p).
Proof.
  intros Hok Hth [k Hc] Hrev. pose proof (thread_now _ _ _ _ Hok Hth) as Ht. rewrite Hc in Ht.
  destruct Ht as [Ho|Hm]; [|done]. unfold is_review, is_override in *.
  apply bool_decide_eq_true in Hrev, Ho. congruence.
Qed.

(** What the store of [p0] says about overrides, remembered from then on. *)
Definition found_at (p0 : pool St) : memo :=
  mkMemo (fun head t0 => holds overrideLedgerBucketName (overrideLedgerKey head) t0 (sh_db (p_shared p0)))
    (length (sh_trace (p_shared p0))).

Lemma found_before p0 q : common (p_shared q) (p_shared p0) -> known (found_at p0) (p_shared q).
Proof. intros Hc Hlt. pose proof (prefix_length _ _ (cm_trace _ _ Hc)). simpl in Hlt. lia. Qed.
Lemma found_after p0 q : common (p_shared p0) (p_shared q) -> known (found_at p0) (p_shared q).
Proof. intros Hc _ head t0 Hh Hle. apply (cm_holds _ _ Hc); [by left|done|done]. Qed.

Lemma found_ok p0 p : reachable p0 -> rtc process_step p0 p -> pool_ok hold cfg (found_at p0) p.
Proof.
  intros Hp0 Hs. pose proof Hp0 as (q0 & Hi & Hs0).
  assert (reachable q0) as Hq0 by by exists q0.
  assert (common (p_shared q0) (p_shared p0)) as Hc0 by by apply run_common.
  assert (pool_ok hold cfg (found_at p0) q0) as Hok0.
  { destruct (reachable_ok q0 Hq0) as [HI _ _ Hid _]. destruct Hi as [Hth _ _ _ _]. split; [done|by apply found_before| |done|].
    - intros i th. by rewrite Hth, lookup_empty.
    - intros t th. by rewrite Hth, lookup_empty. }
  destruct (pool_sound_rtc _ _ goroutine fire (found_at p0) q0 p0 Hok0 Hs0) as [_ Hok].
  { intros q Hq Hq'. apply found_before, run_common; [by eapply reachable_step|done]. }
  destruct (pool_sound_rtc _ _ goroutine fire (found_at p0) p0 p Hok Hs) as [_ ?]; [|done].
  intros q Hq _. by apply found_after, run_common.
Qed.

(** (C2) An override owns its head for every goroutine. In every interleaving,
    whoever sends a review, poll, scan or command, looked its head up in the
    same publish: entry [m] of the log is the clock reading of the look-up, and
    no task was sent by the goroutine since. If the look-up came after a state
    [p0] whose store has an override of the head, the hour of that record is
    over, whatever the others did meanwhile. *)
Theorem override_owns_head_everywhere p0 p i th cmd :
  reachable p0 -> rtc process_step p0 p ->
  p_threads p !! i = Some th -> sending th cmd -> is_review cmd = true ->
  exists pr d forced m t, reviews cmd pr d forced /\
    sh_trace (p_shared p) !! m = Some (i, Ev Now t) /\
    (forall k ev, (m < k)%nat -> sh_trace (p_shared p) !! k = Some (i, ev) -> ~ sends_task ev) /\
    ((length (sh_trace (p_shared p0)) <= m)%nat -> forall t0,
       holds overrideLedgerBucketName (overrideLedgerKey (guard_pr pr d)) t0 (sh_db (p_shared p0)) ->
       t0 + Hour < now_of (p_shared p)).
Proof.
  intros Hp Hs Hth Hse Hrev. pose proof (found_ok _ _ Hp Hs) as Hok.
  destruct (sending_review _ _ _ _ _ Hok Hth Hse Hrev) as (pr & d & id & tr & f & ex & m & -> & [[t Ht] Hal Hcl] & _).
  exists pr, d, f, m, t. split_and!; [by exists id, tr, ex|done|done|]. intros Hm t0 Hh. by apply (Hcl Hm).
Qed.

(** (C6) A command is decided and sent in one piece. While a command runs, it has
    the store to itself. A review it sends is of a head that the store, at the
    very moment it is sent, has no override of the last hour of; and if the
    command was forced, it has no review of the last hour of it either, or
    GitHub was asked since the look-up [m] and answered with an error or with
    a reviewer's verdict on the head. *)
Theorem command_is_atomic p i th cmd :
  reachable p -> p_threads p !! i = Some th -> sending th cmd -> is_review cmd = true ->
  rw_writer (sh_rw (p_shared p)) = Some i ->
  exists pr d forced m, reviews cmd pr d forced /\
    (forall t0, holds overrideLedgerBucketName (overrideLedgerKey (guard_pr pr d)) t0 (sh_db (p_shared p)) ->
       t0 + Hour < now_of (p_shared p)) /\
    (forall k ev, (m < k)%nat -> sh_trace (p_shared p) !! k = Some (i, ev) -> ~ sends_task ev) /\
    (forced = true ->
       (forall t0, holds retryGuardBucketName (retryGuardKey (guard_pr pr d)) t0 (sh_db (p_shared p)) ->
          t0 + Hour < now_of (p_shared p)) \/
       exists k ev, (m < k)%nat /\ sh_trace (p_shared p) !! k = Some (i, ev) /\
         excuses (Logins (w_unreviewed W)) (guard_pr pr d) ev).
Proof.
  intros Hp Hth Hse Hrev Hw. apply reachable_ok in Hp.
  destruct (sending_review _ _ _ _ _ Hp Hth Hse Hrev) as (pr & d & id & tr & f & ex & m & -> & [_ Hal _] & Hsup).
  destruct (Hsup Hw) as [(t & Hle & Hno) Hx]. exists pr, d, f, m. split_and!; [by exists id, tr, ex| |done|exact Hx].
  intros t0 Hh. apply Z.lt_nge. intros Hge. apply Hno. eapply suppressed_holds; [done|lia].
Qed.
End process.
