(* ===== verification/Interleaving.v ===== *)
(** * Interleaving: what is proved of a computation holds among all others

    The theorems about the poll, the scan, the consumer and the handlers are
    about a computation and what it may meet ([Sched], World.v). Here the
    pool of Process.v is shown to be no worse company than [among]: whatever
    the other goroutines, the timers and the clock do between the steps of a
    goroutine, a computation it works through ends as was proved of it, its
    own log entries being the segment. *)
From S2P Require Import Prelude Coalesce CoalesceProofs GoStrings KV MemDB Ledger LedgerProofs Records Types GitHubApi Titles Trust Filters SizeGate Commands World Code Publisher CursorFile Watcher Scanner RetryGuard Executor Crypto Handlers Config Concurrent Process RelyGuarantee Safety Goroutines ProcessProofs.
Local Open Scope Z_scope.

(** ** Computations that keep their locks *)

(** [b], [c]: the goroutine has the store, the scan mutex, and keeps it. *)
Definition keeps_action {St} (b c : bool) A (o : action St A) : Prop :=
  match o with
  | Lock _ | Unlock _ => b = false
  | TryLock | UnlockScan => c = false
  | _ => True
  end.

Abbreviation keeps_locks b c := (every (keeps_action b c)).

Lemma keeps_unlocked {St A} (m : M St A) : keeps_locks false false m.
Proof. induction m as [a|B o k IH]; [done|]. split; [by destruct o|done]. Qed.

(** [code] begins with [m] and goes on with [k]. *)
Inductive starts_with {St A B} (k : A -> M St B) : M St A -> M St B -> Prop :=
| starts_ret a : starts_with k (Ret a) (k a)
| starts_act {X} (o : action St X) n n' :
    (forall x, starts_with k (n x) (n' x)) -> starts_with k (Act o n) (Act o n').

Lemma starts_bind {St A B} (m : M St A) (k : A -> M St B) : starts_with k m (m ≫= k).
Proof. unfold mbind, M_bind. induction m as [a|X o n IH]; simpl; by constructor. Qed.

(** However deep in the program the computation is called. *)
Lemma starts_inside {St A B D} (m : M St A) (k : A -> M St B) (k' : B -> M St D) code :
  starts_with k m code -> starts_with (fun a => k a ≫= k') m (code ≫= k').
Proof. unfold mbind, M_bind. induction 1; simpl; by constructor. Qed.

Section process.
Context `{K : KV St Hd It} `{C : RecordCodec} `{CL : !RecordCodecLaws C} `{UT : UnicodeTables}
  `{G : GitIgnore} `{U : UUID} `{J : CursorCodec} `{L : Payloads Event} `{PU : PRURL}
  `{WC : WebhookCodec} `{B : BoolParser}.
Context (W : wiring) (secret : string) (bookkeeping : operation -> Event -> St -> St).
Hypothesis books : forall op data, keeps_ledgers (bookkeeping op data).
Implicit Types σ : shared St.

Abbreviation process_step := (process_step W secret bookkeeping).
Abbreviation reachable := (reachable W secret bookkeeping).

(** The world a goroutine has before it touched anything. *)
Definition view (l : local) σ : World unit St :=
  mkWorld tt [] (sh_db σ) (sh_coal σ) l (sh_maps σ).

(** What the goroutine [i] logged between two pools. *)
Definition did (i : tid) (p : pool St) (s : list event) (q : pool St) : Prop :=
  mine i (sh_trace (p_shared q)) = mine i (sh_trace (p_shared p)) ++ (pair i <$> s).

Section company.
Context {A : Type} (i : tid) (b c : bool) (k : A -> M St unit)
  (Q : A -> list event -> World unit St -> Prop) (p0 : pool St).

(** The locks are held and what they guard is as the goroutine left it. *)
Record in_hand (w : World unit St) σ : Prop := mkInHand {
  ih_store : b = true -> holds_store i σ /\ db w = sh_db σ;
  ih_scan : c = true -> sh_scan σ = Some i /\ maps w = sh_maps σ }.

(** The goroutine is at [m], before [k], and did [s] since [p0]. *)
Record midway (m : M St A) (s : list event) (w : World unit St) (p : pool St) : Prop := mkMidway {
  mw_code : exists code, p_threads p !! i = Some (mkThread code (loc w)) /\ starts_with k m code;
  mw_wp : wp (SC:=among b c) m (fun a s' w' => Q a (s ++ s') w') w;
  mw_keeps : keeps_locks b c m;
  mw_log : did i p0 s p;
  mw_hand : in_hand w (p_shared p) }.

(** Somebody else's step. *)
Lemma in_hand_own w σ σ' : own i σ σ' -> in_hand w σ -> in_hand w σ'.
Proof.
  intros Ho [Hs Hc]. split.
  - intros Hb. destruct (Hs Hb) as [Hh Hdb]. split; [|by rewrite (ow_db _ _ _ Ho)].
    unfold holds_store. by rewrite (ow_writer _ _ _ Ho), (ow_reader _ _ _ Ho).
  - intros Hb. destruct (Hc Hb) as [Hh Hm]. split; [by apply (ow_scan _ _ _ Ho)|].
    by rewrite (ow_maps _ _ _ Ho).
Qed.

(** The goroutine's own step is one [among] foresees. *)
Lemma atomic_may {X} (o : action St X) (w : World unit St) σ x l' σ' :
  keeps_action b c X o -> in_hand w σ -> atomic i o (loc w) σ x l' σ' ->
  exists w', may (SC:=among b c) o w x w' /\ loc w' = l' /\ in_hand w' σ' /\
    mine i (sh_trace σ') = mine i (sh_trace σ) ++ (pair i <$> logged o x).
Proof.
  intros Hk [Hs Hc] Hat.
  destruct o as [X q|X f|X f|X f| | |wr|wr|X f]; simpl in *.
  - destruct Hat as (_ & -> & ->). eexists. split; [exists tt; by split|]. split; [done|]. split; [by split|].
    simpl. by rewrite mine_snoc, decide_True.
  - destruct Hat as (-> & -> & ->). eexists. split; [by split|]. split; [done|].
    rewrite app_nil_r. by split; [split|].
  - destruct Hat as (-> & -> & ->). eexists. split; [exists (sh_coal σ); by split|]. split; [done|].
    rewrite app_nil_r. by split; [split|].
  - destruct Hat as (-> & -> & ->). eexists. split.
    { exists (sh_maps σ). split; [|by split]. destruct c; [|done]. by destruct Hc as [_ ->]. }
    split; [done|]. rewrite app_nil_r. split; [|done]. split; [done|]. intros Hb. by destruct (Hc Hb).
  - destruct Hat as [-> Hat]. exists w. split; [done|]. split; [done|].
    destruct (sh_scan σ); destruct Hat as [_ ->]; rewrite app_nil_r; (split; [|done]); (split; [done|]); by rewrite Hk.
  - destruct Hat as [-> ->]. exists w. split; [done|]. split; [done|]. rewrite app_nil_r.
    split; [|done]. split; [done|]. by rewrite Hk.
  - exists w. destruct wr; destruct Hat as (_ & -> & ->); (split; [done|]); (split; [done|]); rewrite app_nil_r;
      (split; [|done]); (split; [by rewrite Hk|done]).
  - exists w. destruct wr; destruct Hat as (-> & ->); (split; [done|]); (split; [done|]); rewrite app_nil_r;
      (split; [|done]); (split; [by rewrite Hk|done]).
  - destruct Hat as (-> & -> & ->). eexists. split.
    { exists (sh_db σ). split; [|by split]. destruct b; [|done]. by destruct Hs as [_ ->]. }
    split; [done|]. rewrite app_nil_r. split; [|done]. split; [|done]. intros Hb. by destruct (Hs Hb).
Qed.

Lemma midway_step m s w p p' : reachable p -> process_step p p' -> midway m s w p ->
  (exists a, m = Ret a) \/ exists m' s' w', midway m' s' w' p'.
Proof.
  intros Hp Hst [(code & Hcode & Hsw) Hwp Hk Hlog Hh]. apply (reachable_ok W secret bookkeeping books) in Hp.
  destruct (step_seen _ _ _ _ _ _ _ _ _ Hp Hst Hcode) as [(th' & Had & Hth)|[Ho Hth]].
  - destruct Hsw as [a|X o n n' Hsw]; [left; by exists a|right]. destruct Had as (x & Hat & Hn).
    destruct Hk as [Ha Hk]. destruct (atomic_may o w _ x _ _ Ha Hh Hat) as (w' & Hm & Hl & Hh' & Htr).
    exists (n x), (s ++ logged o x), w'. split; [|eapply wp_mono; [by apply Hwp|]|done| |done].
    + exists (n' x). split; [|done]. rewrite Hth. f_equal. destruct th' as [co lo]. simpl in *. by subst.
    + cbn beta. intros a' s' w2. by rewrite app_assoc.
    + unfold did in *. by rewrite Htr, Hlog, fmap_app, app_assoc.
  - right. exists m, s, w. split; [by exists code|done|done| |by eapply in_hand_own].
    unfold did in *. by rewrite (ow_trace _ _ _ Ho).
Qed.

Lemma midway_run m s w p p' : reachable p -> rtc process_step p p' -> midway m s w p ->
  (exists m' s' w', midway m' s' w' p') \/
  exists q a s' w', rtc process_step p q /\ rtc process_step q p' /\ midway (Ret a) s' w' q.
Proof.
  intros Hp H. revert m s w Hp. induction H as [p|p q p' Hst Hs IH]; intros m s w Hp Hm; [left; eauto|].
  destruct (midway_step m s w p q Hp Hst Hm) as [[a ->]|(m' & s' & w' & Hm')].
  - right. exists p, a, s, w. split; [done|]. split; [by eapply rtc_l|done].
  - destruct (IH m' s' w') as [?|(r & a & s2 & w2 & Hr & Hr' & Hm2)]; [|done|by left|].
    + eapply reachable_step; [done|]. by apply rtc_once.
    + right. exists r, a, s2, w2. split; [by eapply rtc_l|done].
Qed.
End company.

(** Proved of one, true among all. Let a goroutine of the process be at a
    computation [m], with the store or the scan mutex in hand if [m] keeps
    them, and let [wp] say of [m], whatever it may meet among others, that it
    ends in [Q]. Then along every run of the process, whatever the other
    goroutines, the timers and the clock do, the goroutine is still inside
    [m], bound for [Q] with what it did so far, or it left [m] at some point
    of the run with a result for which [Q] holds of exactly the requests it
    made meanwhile, of its own variables and, where it kept a lock, of what
    the lock guards. *)
Theorem proved_alone_holds_among {A} i b c (m : M St A) k Q p p' code l :
  reachable p -> rtc process_step p p' ->
  p_threads p !! i = Some (mkThread code l) -> starts_with k m code -> keeps_locks b c m ->
  (b = true -> holds_store i (p_shared p)) -> (c = true -> sh_scan (p_shared p) = Some i) ->
  wp (SC:=among b c) m Q (view l (p_shared p)) ->
  (exists X (o : action St X) n s w, did i p s p' /\
     (exists code', p_threads p' !! i = Some (mkThread code' (loc w)) /\ starts_with k (Act o n) code') /\
     wp (SC:=among b c) (Act o n) (fun a s' w' => Q a (s ++ s') w') w) \/
  exists q a s w, rtc process_step p q /\ rtc process_step q p' /\ did i p s q /\
    p_threads q !! i = Some (mkThread (k a) (loc w)) /\ Q a s w /\
    (b = true -> db w = sh_db (p_shared q)) /\ (c = true -> maps w = sh_maps (p_shared q)).
Proof.
  intros Hp Hs Hi Hsw Hk Hb Hc Hwp.
  assert (midway i b c k Q p m [] (view l (p_shared p)) p) as Hm.
  { split; [by exists code|done|done|by unfold did; rewrite app_nil_r|]. split; [intros E; by split; [apply Hb|]|].
    intros E. by split; [apply Hc|]. }
  destruct (midway_run i b c k Q p m [] _ p p' Hp Hs Hm) as [(m' & s & w & Hm')|(q & a & s & w & Hq & Hq' & Hm')].
  - destruct m' as [a|X o n].
    + right. exists p', a, s, w. destruct Hm' as [(co & Hco & Hend) Hw _ Hl [Hst Hsc]]. simpl in Hw. rewrite app_nil_r in Hw.
      inversion Hend; simplify_eq. split_and!; try done; intros E; [by apply Hst|by apply Hsc].
    + left. exists X, o, n, s, w. by destruct Hm'.
  - right. exists q, a, s, w. destruct Hm' as [(co & Hco & Hend) Hw _ Hl [Hst Hsc]]. simpl in Hw. rewrite app_nil_r in Hw.
    inversion Hend; simplify_eq. split_and!; try done; intros E; [by apply Hst|by apply Hsc].
Qed.
End process.
