(* ===== verification/Messages.v ===== *)
(** * Messages: what the process hands Kafka, its consumer can read

    The process writes to the topics it reads: the webhook, the trigger
    endpoint and the trailing dispatch send commands that the consumer of the
    same process decodes. Here is that every command any goroutine ever sent
    is one the consumer accepts, for the PR it names. *)
From S2P Require Import Prelude Coalesce CoalesceProofs GoStrings KV MemDB Ledger LedgerProofs Records Types GitHubApi Titles Trust Filters SizeGate Commands World Code Publisher CursorFile Watcher Scanner Tame RetryGuard Executor Crypto Handlers Config Concurrent Process RelyGuarantee Safety Goroutines ProcessProofs.
Local Open Scope Z_scope.

Section messages.
Context `{K : KV St Hd It} `{C : RecordCodec} `{UT : UnicodeTables}
  `{G : GitIgnore} `{U : UUID} `{J : CursorCodec} `{L : Payloads Event} `{PU : PRURL}
  `{WC : WebhookCodec} `{B : BoolParser}.
Context (W : wiring) (secret : string) (bookkeeping : operation -> Event -> St -> St).

Abbreviation process_step := (process_step W secret bookkeeping).
Abbreviation reachable := (reachable W secret bookkeeping).

(** A command is sent only valid, and as an event the codec could encode. *)
Definition polite A (o : action St A) : Prop :=
  match o with
  | Request q =>
      match q with
      | SendTrigger cmd => Validate_trigger cmd = Ok tt /\ is_Some (ParseEvent_trigger cmd)
      | SendStatus cmd => Validate_status cmd = Ok tt /\ is_Some (ParseEvent_status cmd)
      | _ => True
      end
  | _ => True
  end.

Lemma tame_polite {A} (m : M St A) : every tame m -> every polite m.
Proof. apply every_mono. intros X []; try done. by destruct q. Qed.

Lemma trigger_SendCommand_polite cmd : every polite (trigger_SendCommand cmd).
Proof.
  unfold trigger_SendCommand. destruct (Validate_trigger cmd) as [[]|] eqn:Hv; [|every_steps].
  destruct (ParseEvent_trigger cmd) eqn:Hp; [|every_steps]. apply every_act. by split; [|eexists].
Qed.
Lemma status_SendCommand_polite cmd : every polite (status_SendCommand cmd).
Proof.
  unfold status_SendCommand. destruct (Validate_status cmd) as [[]|] eqn:Hv; [|every_steps].
  destruct (ParseEvent_status cmd) eqn:Hp; [|every_steps]. apply every_act. by split; [|eexists].
Qed.
Hint Resolve trigger_SendCommand_polite status_SendCommand_polite : every.

Lemma poll_cycle_polite fuel : every polite (poll_cycle (P:=publisher_of W) (Scan (P:=publisher_of W) (w_scanner W)) (w_watcher W) fuel).
Proof.
  pose proof (fun wt f s => tame_polite _ (fetchAllPRs_tame (St:=St) wt f s)) as H1.
  pose proof (fun wt f => tame_polite _ (processLabeledPRs_tame (St:=St) wt f)) as H2.
  pose proof (fun wt prs => tame_polite _ (processPRs_tame (Pub:=publisher_of W) wt prs)) as H3.
  pose proof (fun sc f => tame_polite _ (Scan_tame (Pub:=publisher_of W) sc f)) as H4.
  unfold poll_cycle. every_steps.
Qed.
Hint Resolve poll_cycle_polite : every.

Lemma runPollLoop_polite fuel wakes : every polite (runPollLoop W fuel wakes).
Proof. induction wakes; cbn [runPollLoop]; every_steps. Qed.

Lemma consumeAll_polite cmds : every polite (consumeAll W bookkeeping cmds).
Proof. induction cmds; cbn [consumeAll]; every_steps. Qed.

Lemma goroutine_polite m : goroutine W secret bookkeeping m -> every polite m.
Proof. intros []; [apply runPollLoop_polite|every_steps|apply consumeAll_polite]. Qed.

Lemma fire_polite t cb : every polite (fire W t cb : M St unit).
Proof. every_steps. Qed.

(** ** Every log entry comes from code *)

(** What the code of every goroutine keeps to, the log shows. *)
Record kept (P : forall A, action St A -> Prop) (p : pool St) : Prop := mkKept {
  kp_threads i th : p_threads p !! i = Some th -> every P (th_code th);
  kp_trace : Forall (fun e => event_ok P (snd e)) (sh_trace (p_shared p)) }.

Lemma advance_kept (P : forall A, action St A -> Prop) i th σ th' σ' : advance i th σ th' σ' -> every P (th_code th) ->
  every P (th_code th') /\
  (sh_trace σ' = sh_trace σ \/ exists ev, sh_trace σ' = sh_trace σ ++ [(i, ev)] /\ event_ok P ev).
Proof.
  unfold advance. destruct (th_code th) as [a|A o k]; [done|]. intros (b & Hat & ->) [Ho Hk].
  split; [apply Hk|]. destruct o as [X q|X f|X f|X f| | |[]|[]|X f]; simpl in Hat; destruct_and?;
    try (left; by subst); [right; eexists; by subst|left; by destruct (sh_scan σ); destruct_and?; subst].
Qed.

Lemma kept_reachable (P : forall A, action St A -> Prop) p :
  (forall m, goroutine W secret bookkeeping m -> every P m) -> (forall t cb, every P (fire W t cb : M St unit)) ->
  reachable p -> kept P p.
Proof.
  intros Hg Hf (p0 & Hi & Hs). revert Hs. apply (rtc_ind_r (kept P)).
  - destruct Hi as [Hth _ _ _ _ Htr]. split; [|by rewrite Htr]. intros i th. by rewrite Hth, lookup_empty.
  - clear p. intros p p' _ Hst [Hths Htr].
    destruct Hst as [i th th' σ σ' ths Hi' Had|n m σ ths Hm Hn|t σ ths Ht|t cb σ ths Ht Hst Hdue]; simpl in *.
    + destruct (advance_kept P i th σ th' σ' Had (Hths i th Hi')) as [Hc Ht]. split; simpl.
      * intros j thj [[<- <-]|[_ Hj]]%lookup_insert_Some; [done|by eapply Hths].
      * destruct Ht as [->|(ev & -> & Hev)]; [done|]. apply Forall_app. split; [done|]. by constructor.
    + split; [|done]. simpl. intros j thj [[<- <-]|[_ Hj]]%lookup_insert_Some; [by apply Hg|by eapply Hths].
    + by split.
    + split; [|done]. simpl. intros j thj [[<- <-]|[_ Hj]]%lookup_insert_Some; [apply Hf|by eapply Hths].
Qed.

Lemma reachable_polite p : reachable p -> kept polite p.
Proof. apply kept_reachable; [apply goroutine_polite|apply fire_polite]. Qed.

Lemma validate_url_github url : validate_url url = Ok tt ->
  exists info, ParsePRURL url = Ok info /\ pi_Platform info = PlatformGitHub.
Proof.
  unfold validate_url. destruct (url =?s ""); [done|]. destruct (ParsePRURL url) as [info|]; [|done].
  intros H. exists info. split; [done|]. destruct (pi_Platform info =?s PlatformGitHub) eqn:Hq; [by bool_props|done].
Qed.

(** (C10) No command is lost on the way to its executor. Every command that any
    goroutine of the process ever handed Kafka, whether Kafka took it or not,
    names a pull request on GitHub and has an event the consumer decodes back
    to it: the executor of a review command goes on to ask GitHub for that
    pull request, and the executor of a status command makes exactly its one
    attempt to post the commit status. None is skipped as malformed. *)
Theorem commands_understood `{LL : !PayloadLaws L} {E} `{SC : Sched E St} p i (w : World E St) : reachable p ->
  (forall cmd r, ((i, Ev (SendTrigger cmd) r) ∈ sh_trace (p_shared p)) ->
     exists data info, ParseEvent_trigger cmd = Some data /\ ParsePRURL (tc_URL cmd) = Ok info /\
       pi_Platform info = PlatformGitHub /\
       wp (execute W OpTriggerPRReview data) (fun _ s _ => exists details s',
         s = Ev (GetPRDetails (pi_Owner info) (pi_Repo info) (pi_Number info)) details :: s') w) /\
  (forall cmd r, ((i, Ev (SendStatus cmd) r) ∈ sh_trace (p_shared p)) ->
     exists data info, ParseEvent_status cmd = Some data /\ ParsePRURL (sc_URL cmd) = Ok info /\
       pi_Platform info = PlatformGitHub /\
       wp (execute W OpSetDoNotMergeStatus data) (fun _ s _ => exists answer,
         s = [Ev (PostCommitStatus (pi_Owner info) (pi_Repo info) (sc_HeadSHA cmd)
                (if Blocked cmd then CommitStateFailure else CommitStateSuccess) DoNotMergeStatusContext) answer]) w).
Proof.
  intros [_ Htr]%reachable_polite. rewrite Forall_forall in Htr. split; intros cmd r Hin.
  - destruct (Htr _ Hin) as [Hv [data Hdata]]. destruct (validate_url_github _ Hv) as (info & Hi & Hg).
    exists data, info. split_and!; [done..|]. simpl. unfold runTriggerPRReview, unmarshalAndValidate.
    rewrite (trigger_roundtrip _ _ Hdata), Hv, Hi. wp_step. wp_step.
    apply wp_any. intros. by do 2 eexists.
  - destruct (Htr _ Hin) as [Hv [data Hdata]]. pose proof Hv as Hu. unfold Validate_status in Hu.
    destruct (validate_url (sc_URL cmd)) as [[]|] eqn:Hurl; [|done].
    destruct (validate_url_github _ Hurl) as (info & Hi & Hg).
    exists data, info. split_and!; [done..|]. simpl. unfold runSetDoNotMergeStatus.
    rewrite (status_roundtrip _ _ Hdata), Hv, Hi. cbn zeta. do 3 wp_step. by eexists.
Qed.
End messages.
