(* ===== verification/HeldHeads.v ===== *)
(** * HeldHeads: the coalescer in the running process

    CoalesceProofs.v studies the coalescer as a transition system of its own.
    Here every step of the pool is shown to be a step of that system or to
    leave the coalescer alone, so what holds of its runs holds of the process;
    and a head that is held always has the timer, or the goroutine, that will
    dispatch it. *)
From S2P Require Import Prelude Coalesce CoalesceProofs GoStrings KV Ledger LedgerProofs Records Types GitHubApi Titles Trust Filters SizeGate Commands World Publisher CursorFile Watcher Scanner RetryGuard Executor Crypto Handlers Config Concurrent Process RelyGuarantee Safety Goroutines ProcessProofs.
Local Open Scope Z_scope.

Section held.
Context `{K : KV St Hd It} `{C : RecordCodec} `{CL : !RecordCodecLaws C} `{UT : UnicodeTables}
  `{G : GitIgnore} `{U : UUID} `{J : CursorCodec} `{L : Payloads Event} `{PU : PRURL}
  `{WC : WebhookCodec} `{B : BoolParser}.
Context (W : wiring) (secret : string) (bookkeeping : operation -> Event -> St -> St).
Hypothesis books : forall op data, keeps_ledgers (bookkeeping op data).

Abbreviation hold := (hold_of W).
Abbreviation process_step := (process_step W secret bookkeeping).
Abbreviation reachable := (reachable W secret bookkeeping).
Abbreviation coal_of p := (sh_coal (p_shared p)).

(** The runtime gives a started timer its turn within a hold window, whatever
    time a method that runs now has read. *)
Definition timely (p : pool St) : Prop :=
  forall now, now <= now_of (p_shared p) -> prompt hold now (coal_of p).

Inductive timely_run : nat -> pool St -> Prop :=
| timely_initial p : initial p -> timely_run 0 p
| timely_step n p p' : timely_run n p -> timely p -> process_step p p' -> timely_run (S n) p'.

Lemma timely_reachable n p : timely_run n p -> reachable p.
Proof.
  induction 1 as [p Hi|n p p' _ (p0 & Hi & Hs) _ Hst]; [by exists p|].
  exists p0. split; [done|]. by eapply rtc_r.
Qed.

(** ** Every step is one of the transition system *)

Lemma land_split fl fls : (fl ∈ fls) -> exists l1 l2, fls = l1 ++ fl :: l2 /\ land fl fls = l1 ++ l2.
Proof.
  induction fls as [|x fls IH]; [by intros ?%elem_of_nil|]. simpl. intros Hin.
  destruct (decide (x = fl)) as [->|Hne]; [by exists [], fls|].
  apply elem_of_cons in Hin as [?|(l1 & l2 & -> & ->)%IH]; [congruence|]. by exists (x :: l1), l2.
Qed.

Lemma method_is_step i c c' : (forall now, now <= clock c -> prompt hold now c) ->
  method_step hold i c c' -> exists l, CoalesceProofs.step hold c l c'.
Proof.
  intros Hp [k head url now Hu Hn|k head pushAt now Hn|k head now Hn|k head|t cb _ Ht Hs|fl ok now _ Hin Hn].
  - destruct (Push hold k head url now c) as [b c1] eqn:E. exists (LPush k head url now b).
    constructor; [done|done|by apply Hp|done].
  - destruct (Admit hold k head pushAt now c) as [d c1] eqn:E. exists (LAdmit k head pushAt now d).
    constructor; [done|by apply Hp|done].
  - eexists. by constructor.
  - eexists. by constructor.
  - unfold fire_enter. destruct (fire_begin _ _ _) as [[h|] c1] eqn:E; simpl; eexists;
      [by apply (step_FireBegin_dispatch _ c t cb)|by apply (step_FireBegin _ c t cb)].
  - destruct (land_split fl (flights c) Hin) as (l1 & l2 & Hf & Hl). unfold fire_leave. rewrite Hl.
    destruct ok; eexists; [apply step_FireEnd; [done|by apply Hn]|].
    change (fire_end hold (fl_key fl) (fl_url fl) (fl_head fl) false now)
      with (fire_end hold (fl_key fl) (fl_url fl) (fl_head fl) false (clock c)).
    by apply step_FireEnd.
Qed.

(** An action of a goroutine is a method, or it leaves the coalescer alone. *)
Lemma advance_coal i th (σ : shared St) th' σ' : advance i th σ th' σ' ->
  sh_coal σ' = sh_coal σ \/
  exists A (f : coalescer -> A * coalescer) k, th_code th = Act (Method f) k /\
    th_code th' = k (fst (f (sh_coal σ))) /\ sh_coal σ' = snd (f (sh_coal σ)).
Proof.
  unfold advance. destruct (th_code th) as [|A o k]; [done|]. intros (b & Hat & Hc).
  destruct o as [A q|A f|A f|A f| | |[]|[]|A f]; simpl in Hat;
    try (left; by destruct_and?; subst).
  - right. exists A, f, k. destruct Hat as (-> & _ & ->). by split_and!.
  - destruct Hat as [_ Hat]. left. by destruct (sh_scan σ); destruct Hat as [_ ->].
Qed.

Lemma coalescer_step p p' : reachable p -> timely p -> process_step p p' ->
  coal_of p' = coal_of p \/ exists l, CoalesceProofs.step hold (coal_of p) l (coal_of p').
Proof.
  intros Hr%reachable_ok Ht Hs; [|done].
  destruct Hs as [i th th' σ σ' ths Hi Had|n m σ ths _ _|t σ ths Hle|t cb σ ths Hcb Hst Hdue]; simpl in *.
  - destruct (advance_coal _ _ _ _ _ Had) as [?|(A & f & k & Hc & _ & ->)]; [by left|right].
    pose proof (thread_now _ _ _ _ _ Hr Hi) as Ha. rewrite Hc in Ha. by eapply method_is_step.
  - by left.
  - right. eexists. by constructor.
  - right. exists (LExpire t). by apply step_Expire.
Qed.

Lemma coalescer_run n p : timely_run n p ->
  exists tr, (length tr <= n)%nat /\ CoalesceProofs.run hold tr (coal_of p).
Proof.
  induction 1 as [p Hi|n p p' Hr (tr & Hl & Hrun) Ht Hs].
  - destruct (it_coal p Hi) as (now & ? & ->). exists []. split; [done|]. by constructor.
  - destruct (coalescer_step p p') as [->|[l Hst]]; [by eapply timely_reachable|done|done| |].
    + exists tr. split; [lia|done].
    + exists (l :: tr). simpl. split; [lia|]. by eapply run_step.
Qed.

(** (C9) The process refines the coalescer's transition system. In every
    interleaving of polls, requests, commands and timers, the coalescer is in
    a state that one of its own runs reaches, of no more steps than the
    process made; and each step of the process is a step of it, or does not
    touch it. What is proved of the runs holds of the process. *)
Theorem process_refines_coalescer n p :
  timely_run n p ->
  exists tr, (length tr <= n)%nat /\ CoalesceProofs.run hold tr (coal_of p) /\
    (timely p -> forall p', process_step p p' ->
       coal_of p' = coal_of p \/ exists l, CoalesceProofs.step hold (coal_of p) l (coal_of p')).
Proof.
  intros Hr. destruct (coalescer_run n p Hr) as (tr & Hl & Hrun). exists tr. split_and!; [done..|].
  intros Ht p' Hs. by eapply coalescer_step; [eapply timely_reachable|..].
Qed.

(** ** The goroutine of a started timer *)

(** A timer the runtime has started has its goroutine, which has not begun. *)
Definition callbacks_run (p : pool St) : Prop :=
  forall t cb, timers (coal_of p) !! t = Some cb -> cb_started cb = true ->
    exists cb0, cb = start cb0 /\ p_threads p !! Fire t = Some (mkThread (fire W t cb0) local0).

Lemma fire_enter_timers t cb c : timers (snd (fire_enter t cb c)) = delete t (timers c).
Proof.
  unfold fire_enter, fire_begin. destruct (entries _ !! _) as [e|]; [|done]. by destruct (negb _).
Qed.

Lemma fire_advance t cb (σ : shared St) th' σ' : advance (Fire t) (mkThread (fire W t cb) local0) σ th' σ' <->
  sh_coal σ' = snd (fire_enter t cb (sh_coal σ)) /\ σ' = put_coal (sh_coal σ') σ /\
  th' = mkThread match fst (fire_enter t cb (sh_coal σ)) with
                 | Some head => dispatch_held W (mkFlight t (cb_key cb) (cb_url cb) head)
                 | None => mret tt
                 end local0.
Proof.
  unfold advance, fire, coalescer_call. rewrite act_eq. simpl. destruct th' as [c' l']. simpl. split.
  - intros (b & (-> & -> & ->) & ->). split_and!; [done|done|]. by destruct (fst _).
  - intros (-> & Hσ & [= -> ->]). exists (fst (fire_enter t cb (sh_coal σ))).
    split_and!; [done|done|done|]. by destruct (fst _).
Qed.

Lemma callbacks_step p p' : reachable p -> callbacks_run p -> process_step p p' -> callbacks_run p'.
Proof.
  intros Hr%reachable_ok Hcb Hs; [|done]. intros u cb Hu Hst.
  destruct Hs as [i th th' σ σ' ths Hi Had|n m σ ths _ Hn|t σ ths Hle|t cb1 σ ths Hcb1 Hst1 Hdue]; simpl in *.
  - assert (timers (sh_coal σ) !! u = Some cb) as Hu0.
    { destruct (advance_coal _ _ _ _ _ Had) as [He|(A & f & k & Hc & _ & He)]; [by rewrite <- He|].
      pose proof (thread_now _ _ _ _ _ Hr Hi) as Ha. rewrite Hc in Ha.
      rewrite He in Hu. by eapply (mv_started _ _ _ (method_moves _ _ _ _ Ha)). }
    destruct (Hcb u cb Hu0 Hst) as (cb0 & -> & Hth). exists cb0. split; [done|].
    destruct (decide (i = Fire u)) as [->|Hne]; [|by rewrite lookup_insert_ne].
    simpl in Hth. rewrite Hth in Hi. injection Hi as <-. apply fire_advance in Had as (He & _ & _).
    by rewrite He, fire_enter_timers, lookup_delete_eq in Hu.
  - destruct (Hcb u cb Hu Hst) as (cb0 & ? & ?). exists cb0. by rewrite lookup_insert_ne.
  - by apply Hcb.
  - apply lookup_insert_Some in Hu as [[<- <-]|[Hne Hu]].
    + exists cb1. by rewrite lookup_insert_eq.
    + destruct (Hcb u cb Hu Hst) as (cb0 & ? & ?). exists cb0. rewrite lookup_insert_ne; [done|congruence].
Qed.

Lemma callbacks_reachable p : reachable p -> callbacks_run p.
Proof.
  intros (p0 & Hi & Hs). assert (reachable p0) as Hr0 by by exists p0.
  assert (callbacks_run p0) as Hc0.
  { destruct (it_coal p0 Hi) as (now & _ & Hco). intros t cb. rewrite Hco. simpl. by rewrite lookup_empty. }
  clear Hi. induction Hs as [|p0 p1 p Hst Hs IH]; [done|]. apply IH.
  - destruct Hr0 as (q & ? & ?). exists q. split; [done|]. by eapply rtc_r.
  - by eapply callbacks_step.
Qed.

(** ** A held head is dispatched *)

(** What the runtime does for one timer, and nobody else meanwhile: time
    passes, the timer expires and its goroutine starts, the goroutine takes an
    action. No other goroutine moves and none starts. *)
Inductive timer_step (t : timer_id) : pool St -> pool St -> Prop :=
| ts_tick now σ ths :
    now_of σ <= now -> timer_step t (mkPool σ ths) (mkPool (put_coal (set_clock now (sh_coal σ)) σ) ths)
| ts_expire cb σ ths :
    timers (sh_coal σ) !! t = Some cb -> cb_started cb = false -> cb_due cb <= now_of σ ->
    timer_step t (mkPool σ ths)
      (mkPool (put_coal (start_callback t cb (sh_coal σ)) σ) (<[Fire t := mkThread (fire W t cb) local0]> ths))
| ts_act th th' σ σ' ths :
    ths !! Fire t = Some th -> advance (Fire t) th σ th' σ' ->
    timer_step t (mkPool σ ths) (mkPool σ' (<[Fire t := th']> ths)).

Lemma timer_step_process t p p' : timer_step t p p' -> process_step p p'.
Proof. intros []; [by apply p_tick|by apply p_expire|by eapply p_act]. Qed.

(** The steps that lead to the goroutine of a timer. *)
Lemma timer_goes_off p t cb : reachable p -> timers (coal_of p) !! t = Some cb ->
  exists p' cb0, rtc (timer_step t) p p' /\ sh_trace (p_shared p') = sh_trace (p_shared p) /\ cb_key cb0 = cb_key cb /\ cb_url cb0 = cb_url cb /\
    cb_generation cb0 = cb_generation cb /\
    p_threads p' !! Fire t = Some (mkThread (fire W t cb0) local0) /\
    entries (coal_of p') = entries (coal_of p) /\ flights (coal_of p') = flights (coal_of p).
Proof.
  intros Hr Ht. destruct (cb_started cb) eqn:Hs.
  - destruct (callbacks_reachable p Hr t cb Ht Hs) as (cb0 & -> & Hth). exists p, cb0. by split_and!.
  - destruct p as [σ ths]. simpl in *. set (now := Z.max (now_of σ) (cb_due cb)).
    eexists (mkPool _ _), cb. split.
    + eapply rtc_l; [apply (ts_tick t now); lia|]. eapply rtc_l; [|apply rtc_refl].
      apply (ts_expire t cb); [done|done|]. simpl. unfold now_of. simpl. lia.
    + simpl. rewrite lookup_insert_eq. by split_and!.
Qed.

(** (C14) A held head is dispatched. In every state the process reaches, in less
    than 2^64 steps and with the runtime giving started timers their turn in
    time, a PR with a held head has a timer that is not lost: the runtime alone,
    by letting time pass and running this timer's goroutine while every other
    goroutine stands still and nothing is delivered, comes to the dispatch of
    exactly the head and URL that are held. *)
Theorem held_head_reaches_dispatch n p k :
  timely_run n p -> Z.of_nat n < 2 ^ 64 -> pendingURL (entry_of k (coal_of p)) <> "" ->
  exists t p', rtc (timer_step t) p p' /\ sh_trace (p_shared p') = sh_trace (p_shared p) /\
    let fl := mkFlight t k (pendingURL (entry_of k (coal_of p))) (pendingHead (entry_of k (coal_of p))) in
    flights (coal_of p') = fl :: flights (coal_of p) /\
    p_threads p' !! Fire t = Some (mkThread (dispatch_held W fl) local0).
Proof.
  intros Hr Hn Hp. pose proof (timely_reachable _ _ Hr) as Hre.
  destruct (coalescer_run n p Hr) as (tr & Hl & Hrun).
  assert (Z.of_nat (length tr) < 2 ^ 64) as Hlen by lia.
  pose proof (run_inv hold tr _ Hrun Hlen) as HI.
  pose proof (entry_of_ok (Z.of_nat (length tr)) (coal_of p) k ltac:(lia) HI) as [_ Hok].
  destruct (timer (entry_of k (coal_of p))) as [t|] eqn:Htm; [|done].
  destruct Hok as (_ & cb & Hcb & Hk).
  destruct (inv_live _ _ HI t cb Hcb) as (_ & e & He & Hlive).
  assert (entry_of k (coal_of p) = e) as Hek by (unfold entry_of; by rewrite Hk in He; rewrite He).
  rewrite Hek in *. destruct Hlive as [(_ & Hg & Hu)|(_ & Hne & _)]; [|done].
  destruct (timer_goes_off p t cb Hre Hcb) as (p1 & cb0 & Hs & Htr & Hk0 & Hu0 & Hg0 & Hth & Hent & Hfl).
  destruct p1 as [σ1 ths1]. simpl in *.
  assert (fst (fire_enter t cb0 (sh_coal σ1)) = Some (pendingHead e) /\
    flights (snd (fire_enter t cb0 (sh_coal σ1))) =
      mkFlight t k (pendingURL e) (pendingHead e) :: flights (coal_of p)) as [Hf1 Hf2].
  { unfold fire_enter, fire_begin. simpl. rewrite Hent, Hk0, Hg0, He, Hg, Z.eqb_refl. simpl.
    by rewrite Hu0, Hk, Hu, Hfl. }
  assert (exists th' σ', advance (Fire t) (mkThread (fire W t cb0) local0) σ1 th' σ' /\
    th' = mkThread (dispatch_held W (mkFlight t k (pendingURL e) (pendingHead e))) local0 /\
    sh_coal σ' = snd (fire_enter t cb0 (sh_coal σ1)) /\ sh_trace σ' = sh_trace σ1) as (th' & σ' & Had & -> & Hco & Htr').
  { eexists _, (put_coal (snd (fire_enter t cb0 (sh_coal σ1))) σ1).
    split; [by apply fire_advance|]. by rewrite Hf1, Hk0, Hu0, Hk, Hu. }
  exists t, (mkPool σ' (<[Fire t := mkThread (dispatch_held W (mkFlight t k (pendingURL e) (pendingHead e))) local0]> ths1)).
  split; [|simpl; rewrite Hco, Htr'; by rewrite lookup_insert_eq].
  eapply rtc_r; [exact Hs|]. by eapply ts_act.
Qed.
End held.
