(* ===== verification/Schedules.v ===== *)
(** * Schedules: running pools on given schedules

    An executable scheduler: whose turn it is, what the requests made in the
    turn are answered, when time passes and which timer goes off. What it
    computes are steps of the process, so a schedule shows that a state is
    reachable. *)
From S2P Require Import Prelude Coalesce CoalesceProofs GoStrings KV MemDB Ledger LedgerProofs Records Types GitHubApi Titles Trust Filters SizeGate Commands World Publisher CursorFile Watcher DemoEnv Scanner RetryGuard Executor ExecutorProofs Crypto Handlers HandlersProofs Config Concurrent Process RelyGuarantee Safety Goroutines ProcessProofs HeldHeads.
Local Open Scope Z_scope.

(** ** The scheduler *)
Section scheduler.
Context `{K : KV St Hd It} `{C : RecordCodec} `{UT : UnicodeTables}
  `{G : GitIgnore} `{U : UUID} `{J : CursorCodec} `{L : Payloads Event} `{PU : PRURL}
  `{WC : WebhookCodec} `{B : BoolParser}.
Context (W : wiring) (secret : string) (bookkeeping : operation -> Event -> St -> St).

Abbreviation process_step := (process_step W secret bookkeeping).

Definition reply (e : demo) {A} (q : request A) : shared St -> A :=
  match q in request A return shared St -> A with
  | Now => fun σ => now_of σ
  | q => fun _ => fst (demo_serve q e)
  end.

(** [None]: the action has to wait. *)
Definition try (i : tid) (e : demo) {A} (o : action St A) (l : local) (σ : shared St)
  : option (A * local * shared St) :=
  match o in action _ A return option (A * local * shared St) with
  | Request q => let a := reply e q σ in Some (a, l, log i (Ev q a) σ)
  | Local f => Some (fst (f l), snd (f l), σ)
  | Method f => Some (fst (f (sh_coal σ)), l, put_coal (snd (f (sh_coal σ))) σ)
  | Maps f => Some (fst (f (sh_maps σ)), l, put_maps (snd (f (sh_maps σ))) σ)
  | TryLock =>
      match sh_scan σ with
      | None => Some (true, l, put_scan (Some i) σ)
      | Some _ => Some (false, l, σ)
      end
  | UnlockScan => Some (tt, l, put_scan None σ)
  | Lock w =>
      match rw_writer (sh_rw σ) with
      | Some _ => None
      | None =>
          if w then
            if decide (rw_readers (sh_rw σ) = ∅) then Some (tt, l, put_rw (mkRW (Some i) ∅) σ) else None
          else Some (tt, l, put_rw (mkRW None ({[i]} ∪ rw_readers (sh_rw σ))) σ)
      end
  | Unlock true => Some (tt, l, put_rw (mkRW None (rw_readers (sh_rw σ))) σ)
  | Unlock false =>
      Some (tt, l, put_rw (mkRW (rw_writer (sh_rw σ)) (rw_readers (sh_rw σ) ∖ {[i]})) σ)
  | Access f => Some (fst (f (sh_db σ)), l, put_db (snd (f (sh_db σ))) σ)
  end.

Lemma try_atomic i e {A} (o : action St A) l σ a l' σ' :
  try i e o l σ = Some (a, l', σ') -> atomic i o l σ a l' σ'.
Proof.
  destruct o as [A q|A f|A f|A f| | |w|[]|A f]; simpl.
  - intros [= <- <- <-]. split; [by destruct q|done].
  - by intros [= <- <- <-].
  - by intros [= <- <- <-].
  - by intros [= <- <- <-].
  - destruct (sh_scan σ); by intros [= <- <- <-].
  - by intros [= <- <- <-].
  - unfold rw_free. destruct (rw_writer _); [done|].
    destruct w; [case_decide; [|done]|]; by intros [= <- <- <-].
  - by intros [= <- <- <-].
  - by intros [= <- <- <-].
  - by intros [= <- <- <-].
Qed.

Definition next (i : tid) (e : demo) (p : pool St) : option (pool St) :=
  match p_threads p !! i with
  | Some th =>
      match th_code th with
      | Ret _ => None
      | Act o k =>
          match try i e o (th_local th) (p_shared p) with
          | Some (a, l, σ) => Some (mkPool σ (<[i := mkThread (k a) l]> (p_threads p)))
          | None => None
          end
      end
  | None => None
  end.

Inductive work : Type :=
| WPoll (fuel : nat) (wakes : list wake)
| WHttp (fuel : nat) (req : http_request)
| WConsume (commands : list (operation * Event)).

Definition code_of (x : work) : M St unit :=
  match x with
  | WPoll fuel wakes => runPollLoop W fuel wakes
  | WHttp fuel req => serveHTTP W secret fuel req
  | WConsume commands => consumeAll W bookkeeping commands
  end.

(** One step, while the coalescer's map is small enough not to be pruned. *)
Inductive turn : Type := Turn (i : tid) (e : demo) | Begin (n : nat) (x : work) | Tick (t : DateTime) | GoesOff (t : timer_id).

Definition take_turn (x : turn) (p : pool St) : option (pool St) :=
  let σ := p_shared p in
  if (size (entries (sh_coal σ)) <=? maxEntries)%nat then
    match x with
    | Turn i e => next i e p
    | Begin n x =>
        match p_threads p !! Go n with
        | None => Some (mkPool σ (<[Go n := mkThread (code_of x) local0]> (p_threads p)))
        | Some _ => None
        end
    | Tick t => if now_of σ <=? t then Some (mkPool (put_coal (set_clock t (sh_coal σ)) σ) (p_threads p)) else None
    | GoesOff t =>
        match timers (sh_coal σ) !! t with
        | Some cb =>
            if negb (cb_started cb) && (cb_due cb <=? now_of σ) then
              Some (mkPool (put_coal (start_callback t cb (sh_coal σ)) σ)
                (<[Fire t := mkThread (fire W t cb) local0]> (p_threads p)))
            else None
        | None => None
        end
    end
  else None.

Lemma take_turn_step x p p' : take_turn x p = Some p' -> process_step p p' /\ timely W p.
Proof.
  unfold take_turn. destruct (Nat.leb_spec (size (entries (sh_coal (p_shared p)))) maxEntries) as [Hs|]; [|done].
  intros H. split.
  2: { intros now _. apply prompt_small. unfold maxEntries in Hs. lia. }
  destruct p as [σ ths]. simpl in *. destruct x as [i e|n x|t|t].
  - unfold next in H. simpl in H. destruct (ths !! i) as [th|] eqn:Hi; [|done].
    destruct (th_code th) as [|A o k] eqn:Hc; [done|].
    destruct (try i e o (th_local th) σ) as [[[a l] σ']|] eqn:Ht; [|done]. injection H as <-.
    eapply p_act; [exact Hi|]. unfold advance. rewrite Hc. exists a. split; [|done]. by eapply try_atomic.
  - destruct (ths !! Go n) eqn:Hn; [done|]. injection H as <-. apply p_spawn; [|done]. destruct x; constructor.
  - destruct (Z.leb_spec (now_of σ) t); [|done]. injection H as <-. by apply p_tick.
  - destruct (timers _ !! t) as [cb|] eqn:Ht; [|done]. destruct (negb _ && _) eqn:Hg; [|done].
    injection H as <-. bool_props. by apply p_expire.
Qed.

(** A goroutine's turns until it is where [stop] says, ends or has to wait. *)
Inductive play : Type :=
| Once (x : turn)
| Until (stop : forall A, action St A -> bool) (i : tid) (e : demo).

Definition stopped (stop : forall A, action St A -> bool) (i : tid) (p : pool St) : bool :=
  match p_threads p !! i with
  | Some th => match th_code th with Ret _ => true | Act o _ => stop _ o end
  | None => true
  end.

Fixpoint repeat_turn (stop : forall A, action St A -> bool) (i : tid) (e : demo) (fuel n : nat) (p : pool St)
  : nat * pool St :=
  match fuel with
  | O => (n, p)
  | S fuel =>
      if stopped stop i p then (n, p)
      else match take_turn (Turn i e) p with
           | Some p' => repeat_turn stop i e fuel (S n) p'
           | None => (n, p)
           end
  end.

Fixpoint play_all (xs : list play) (n : nat) (p : pool St) : option (nat * pool St) :=
  match xs with
  | [] => Some (n, p)
  | Once x :: xs => match take_turn x p with Some p' => play_all xs (S n) p' | None => None end
  | Until stop i e :: xs => let '(n', p') := repeat_turn stop i e 1000 n p in play_all xs n' p'
  end.

Lemma repeat_turn_run stop i e fuel n p n' p' : repeat_turn stop i e fuel n p = (n', p') ->
  rtc process_step p p' /\ (timely_run W secret bookkeeping n p -> timely_run W secret bookkeeping n' p').
Proof.
  revert n p. induction fuel as [|fuel IH]; intros n p; simpl; [by intros [= <- <-]|].
  destruct (stopped stop i p); [by intros [= <- <-]|].
  destruct (take_turn (Turn i e) p) as [p1|] eqn:E; [|by intros [= <- <-]].
  apply take_turn_step in E as [Hs Ht]. intros [Hr Hi]%IH. split; [by eapply rtc_l|].
  intros Hn. apply Hi. by eapply timely_step.
Qed.

Lemma play_all_run xs n p n' p' : play_all xs n p = Some (n', p') ->
  rtc process_step p p' /\ (timely_run W secret bookkeeping n p -> timely_run W secret bookkeeping n' p').
Proof.
  revert n p. induction xs as [|[x|stop i e] xs IH]; intros n p; cbn [play_all]; [by intros [= <- <-]| |].
  - destruct (take_turn x p) as [p1|] eqn:E; [|done].
    apply take_turn_step in E as [Hs Ht]. intros [Hr Hi]%IH. split; [by eapply rtc_l|].
    intros Hn. apply Hi. by eapply timely_step.
  - destruct (repeat_turn stop i e 1000 n p) as [n1 p1] eqn:E. apply repeat_turn_run in E as [Hs Ht].
    intros [Hr Hi]%IH. split; [by etrans|]. auto.
Qed.
End scheduler.

(** ** A small process *)

Definition demo_unreviewed : UnreviewedConfig := mkUnreviewedConfig ["pr-reviewer"] (2 * Hour) 3.
Definition demo_scanner : unreviewedScanner :=
  mkScanner "bborbe" NewDraftFilter (production_trust ["updater[bot]"]) "override-review" 1000 100 demo_unreviewed.
Definition demo_wiring : wiring :=
  mkWiring (5 * Minute) demo_watcher demo_scanner demo_config demo_unreviewed (mkCredentials 1 1 "").
#[export] Instance demo_bool : BoolParser := {| ParseBoolDefault s := s =?s "true" |}.

Abbreviation demo_event := (TriggerPRReviewCommand + SetDoNotMergeStatusCommand)%type.

(** A consumer whose books are elsewhere. *)
Definition demo_books (op : operation) (data : demo_event) (s : memDB) : memDB := s.
Lemma demo_books_ok op data : keeps_ledgers (demo_books op data).
Proof. intros s Hs. by split. Qed.

Definition demo_pool : pool memDB :=
  mkPool (mkShared NewMemDB (mkRW None ∅) (NewCoalescer (10 * Hour)) (mkMaps ∅ ∅) None []) ∅.

Lemma demo_initial : initial demo_pool.
Proof.
  split; simpl; [done| |done| |done|done].
  - split; [apply NewMemDB_kv_ok|]. apply map_eq. intros n. by rewrite NewMemDB_kv_empty, lookup_empty.
  - exists (10 * Hour). split; [by vm_compute|done].
Qed.

Abbreviation demo_plays := (list (play (St:=memDB) (Event:=demo_event))).

Definition play_from (p : pool memDB) (xs : demo_plays) : nat * pool memDB :=
  default (O, p) (play_all demo_wiring "key" demo_books xs 0 p).
Definition demo_play (xs : demo_plays) : pool memDB := snd (play_from demo_pool xs).

Lemma play_from_steps p xs : rtc (process_step demo_wiring "key" demo_books) p (snd (play_from p xs)).
Proof. unfold play_from. destruct (play_all _ _ _ _ _ _) as [[n q]|] eqn:E; [|done]. by apply play_all_run in E as [? _]. Qed.

Lemma demo_play_run xs : timely_run demo_wiring "key" demo_books (fst (play_from demo_pool xs)) (demo_play xs).
Proof.
  unfold demo_play, play_from. destruct (play_all _ _ _ _ _ _) as [[n p]|] eqn:E; simpl.
  - apply play_all_run in E as [_ H]. apply H. apply timely_initial, demo_initial.
  - apply timely_initial, demo_initial.
Qed.

Lemma demo_play_reachable xs : reachable demo_wiring "key" demo_books (demo_play xs).
Proof. eapply timely_reachable, demo_play_run. Qed.

(** What was sent, and by whom. *)
Definition sent (p : pool memDB) : list (tid * CreateCommand) :=
  flat_map (fun '(i, ev) =>
    match creates [ev] with
    | [(cmd, true)] => [(i, cmd)]
    | _ => []
    end) (sh_trace (p_shared p)).

Definition to_send : forall A, action memDB A -> bool := fun _ o =>
  match o with Request (SendCreate _) => true | _ => false end.
Definition to_end : forall A, action memDB A -> bool := fun _ _ => false.

(** What a goroutine is about to do, as a test. *)
Definition next_is (test : forall A, action memDB A -> bool) (p : pool memDB) (i : tid) : bool :=
  match p_threads p !! i with
  | Some th => match th_code th with Act o _ => test _ o | Ret _ => false end
  | None => false
  end.

Lemma next_is_live test p i : next_is test p i = true ->
  exists th, p_threads p !! i = Some th /\ ~ finished th.
Proof.
  unfold next_is, finished. destruct (p_threads p !! i) as [th|]; [|done].
  intros H. exists th. split; [done|]. destruct (th_code th); [done|by intros []].
Qed.

Definition to_review : forall A, action memDB A -> bool := fun _ o =>
  match o with Request (SendCreate cmd) => is_review cmd | _ => false end.

Lemma next_is_review p i : next_is to_review p i = true ->
  exists th cmd, p_threads p !! i = Some th /\ sending th cmd /\ is_review cmd = true.
Proof.
  unfold next_is, sending. destruct (p_threads p !! i) as [th|]; [|done].
  destruct (th_code th) as [|A [B q|B f|B f|B f| | |w|w|B f] k] eqn:Hc; try done.
  destruct q; try done. intros H. exists th, cmd. split_and!; try done. rewrite Hc. by eexists.
Qed.

(** A goroutine that has to wait. *)
Definition waits (p : pool memDB) (i : tid) : bool :=
  next_is (fun _ o => match o with Lock _ => true | _ => false end) p i.
