(* ===== verification/ProcessExamples.v ===== *)
(** * ProcessExamples: schedules of a small process

    A poll, a check, commands and deliveries for one PR, on the in-memory
    store: the instances of the theorems about interleavings, and two
    schedules that show what the ledger of the overrides does not rule out. *)
From S2P Require Import Prelude Coalesce CoalesceProofs GoStrings KV MemDB Ledger LedgerProofs Records Types GitHubApi Titles Trust Filters SizeGate Commands World Code Publisher CursorFile Watcher DemoEnv Scanner RetryGuard Executor ExecutorProofs Crypto Handlers HandlersProofs Config Concurrent Process RelyGuarantee Safety Goroutines ProcessProofs Interleaving Messages HeldHeads Schedules.
Local Open Scope Z_scope.

(** ** Surroundings *)

(** GitHub shows a mechanical bump. *)
Definition demo_gh_bump : demo := demo_surrounding demo_opted_in demo_bump.
(** It shows a change to the code, with or without the override label. *)
Definition demo_code : list PRFile := [mkPRFile "main.go" "+x" 1].
Definition demo_gh_code : demo := demo_surrounding demo_opted_in demo_code.
Definition demo_labelled_pr : PullRequest :=
  mkPullRequest 1 7 "bborbe" "errors" "bump deps" "https://github.com/bborbe/errors/pull/7" ""
    "updater[bot]" false 1000 ["override-review"].
Definition demo_gh_labelled : demo :=
  mkDemo (10 * Hour) false [demo_labelled_pr] demo_pr_details demo_opted_in demo_code [] true ∅.
(** It shows an older head of the PR. *)
Definition demo_old_details : PRDetails :=
  mkPRDetails "older" "https://github.com/bborbe/errors.git" "master" "fix/update-go-1"
    "bborbe/errors" "bborbe/errors" "updater[bot]" "bump deps" false 1000 [] 4 1 "clean".
Definition demo_gh_old : demo :=
  mkDemo (10 * Hour) false [demo_pr_1] demo_old_details demo_opted_in demo_code [] true ∅.

Definition demo_check : http_request := mkHttpRequest "/check" "" "" (mkWebhookRequest None "" "").
Definition demo_delivery : http_request := mkHttpRequest "/webhook/github-pr" "" "" demo_request.
Definition demo_review_command : operation * demo_event := (OpTriggerPRReview, inl (demo_cmd false false)).

(** ** Commands and polls *)

(** The consumer is about to send the review its command asks for; the poll
    sent the override and waits for the store to record it. *)
Definition demo_contention : demo_plays :=
  [Once (Begin 0 (WConsume [demo_review_command])); Once (Begin 1 (WPoll 5 [Ticked]));
   Until to_send (Go 0) demo_gh_bump; Until to_end (Go 1) demo_gh_bump].

Lemma no_deadlock_witness :
  let p := demo_play demo_contention in
  waits p (Go 1) = true /\ exists th, p_threads p !! Go 1 = Some th /\
    (can_step (Go 1) th (p_shared p) \/
     waits_for_store th /\ exists j th', j <> Go 1 /\ holds_store j (p_shared p) /\
       p_threads p !! j = Some th' /\ can_step j th' (p_shared p)).
Proof.
  cbn zeta. assert (waits (demo_play demo_contention) (Go 1) = true) as Hw by (vm_compute; reflexivity).
  split; [exact Hw|]. destruct (next_is_live _ _ _ Hw) as (th & Hth & Hf). exists th. split; [exact Hth|].
  apply (no_deadlock demo_wiring "key" demo_books demo_books_ok _ _ th);
    [apply demo_play_reachable|exact Hth|exact Hf].
Defined.

Lemma race_free_witness :
  let p := demo_play demo_contention in
  exists th0 th1, p_threads p !! Go 0 = Some th0 /\ p_threads p !! Go 1 = Some th1 /\
    forall A (f : scanner_maps -> A * scanner_maps) k B (g : scanner_maps -> B * scanner_maps) k',
      th_code th0 = Act (Maps f) k -> th_code th1 = Act (Maps g) k' -> False.
Proof.
  cbn zeta.
  destruct (next_is_live to_send (demo_play demo_contention) (Go 0)) as (th0 & H0 & _); [vm_compute; reflexivity|].
  destruct (next_is_live (fun _ _ => true) (demo_play demo_contention) (Go 1)) as (th1 & H1 & _); [vm_compute; reflexivity|].
  exists th0, th1. split_and!; [exact H0|exact H1|].
  apply (race_free demo_wiring "key" demo_books demo_books_ok (demo_play demo_contention) (Go 0) (Go 1));
    [apply demo_play_reachable|discriminate|exact H0|exact H1].
Defined.

Lemma command_is_atomic_witness :
  let p := demo_play demo_contention in
  rw_writer (sh_rw (p_shared p)) = Some (Go 0) /\
  exists th cmd, p_threads p !! Go 0 = Some th /\ sending th cmd /\
  exists pr d forced, reviews demo_wiring cmd pr d forced /\ forall t0,
    holds overrideLedgerBucketName (overrideLedgerKey (guard_pr pr d)) t0 (sh_db (p_shared p)) ->
    t0 + Hour < now_of (p_shared p).
Proof.
  cbn zeta.
  assert (rw_writer (sh_rw (p_shared (demo_play demo_contention))) = Some (Go 0)) as Hw by (vm_compute; reflexivity).
  split; [exact Hw|].
  destruct (next_is_review (demo_play demo_contention) (Go 0)) as (th & cmd & Hth & Hs & Hr); [vm_compute; reflexivity|].
  exists th, cmd. split; [exact Hth|]. split; [exact Hs|].
  destruct (command_is_atomic demo_wiring "key" demo_books demo_books_ok _ (Go 0) th cmd
    (demo_play_reachable demo_contention) Hth Hs Hr Hw) as (pr & d & f & _ & Hc & Ho & _).
  exists pr, d, f. split; [exact Hc|exact Ho].
Defined.

(** A consumer alone, while time stands still. *)
#[local] Instance demo_still : Env unit := {| serve A q e := (fst (demo_serve q demo_gh_bump), e) |}.
Definition demo_alone : World unit memDB :=
  mkWorld tt [] NewMemDB (NewCoalescer (10 * Hour)) local0 (mkMaps ∅ ∅).

Lemma goroutine_left_alone_witness :
  let code := code_of demo_wiring "key" demo_books (WConsume [demo_review_command]) in
  let p := demo_play [Once (Begin 0 (WConsume [demo_review_command]))] in
  length (creates (trace (snd (runM code demo_alone)))) = 1%nat /\
  exists p', rtc (process_step demo_wiring "key" demo_books) p p' /\
    sh_trace (p_shared p') = pair (Go 0) <$> trace (snd (runM code demo_alone)).
Proof.
  cbn zeta. split; [vm_compute; reflexivity|].
  destruct (goroutine_left_alone demo_wiring "key" demo_books demo_books_ok
    (demo_play [Once (Begin 0 (WConsume [demo_review_command]))]) (Go 0)
    (code_of demo_wiring "key" demo_books (WConsume [demo_review_command])) [] demo_alone local0)
    as (p' & l' & Hs & _ & Hse).
  - apply demo_play_reachable.
  - reflexivity.
  - split; [by left|intros j Hj; by apply elem_of_empty in Hj|by left].
  - split; reflexivity.
  - intros e. reflexivity.
  - exists p'. split; [exact Hs|]. exact (se_trace _ _ _ _ _ Hse).
Defined.

(** The consumer has the store, the poll goes to work, and the command is
    executed as it would be alone. *)
Definition demo_locked : demo_plays :=
  [Once (Begin 0 (WConsume [demo_review_command])); Once (Turn (Go 0) demo_gh_bump)].
Definition demo_executes : demo_plays :=
  [Once (Begin 1 (WPoll 5 [Ticked])); Until to_send (Go 1) demo_gh_bump; Until to_end (Go 0) demo_gh_bump].

Lemma execute_keeps_store : keeps_locks true false (execute demo_wiring OpTriggerPRReview (inl (demo_cmd false false)) : M memDB _).
Proof. every_steps. Qed.

Lemma proved_alone_holds_among_witness :
  let p := demo_play demo_locked in
  let p' := snd (play_from p demo_executes) in
  let data := inl (demo_cmd false false) : demo_event in
  rw_writer (sh_rw (p_shared p)) = Some (Go 0) /\
  exists q r s w, rtc (process_step demo_wiring "key" demo_books) p q /\
    rtc (process_step demo_wiring "key" demo_books) q p' /\ did (Go 0) p s q /\ db w = sh_db (p_shared q) /\
    executed NewDraftFilter (production_trust ["updater[bot]"]) ["updater[bot]"] demo_config
      ["pr-reviewer"] data r s (view local0 (p_shared p)) w.
Proof.
  cbn zeta. split; [vm_compute; reflexivity|].
  set (data := inl (demo_cmd false false) : demo_event).
  set (code := ((execute demo_wiring OpTriggerPRReview data ≫= fun r =>
      modify_db (demo_books OpTriggerPRReview data);; mret r) ≫= fun r => act (Unlock true);; mret r) ≫=
    fun _ : option error => mret tt : M memDB unit).
  assert (p_threads (demo_play demo_locked) !! Go 0 = Some (mkThread code local0)) as Hcode by reflexivity.
  destruct (proved_alone_holds_among demo_wiring "key" demo_books demo_books_ok (Go 0) true false
    (execute demo_wiring OpTriggerPRReview data) _ _ (demo_play demo_locked)
    (snd (play_from (demo_play demo_locked) demo_executes)) code local0
    (demo_play_reachable demo_locked) (play_from_steps _ demo_executes) Hcode
    (starts_inside _ _ _ _ (starts_inside _ _ _ _ (starts_bind _ _))) execute_keeps_store
    ltac:(by left) ltac:(done)
    (wp_mono _ _ _ _ (run_wp (SC:=among true false) NewDraftFilter (production_trust ["updater[bot]"])
       ["updater[bot]"] demo_config ["pr-reviewer"] data (view local0 (p_shared (demo_play demo_locked))))
       (fun r s w H => proj1 (proj2 H))))
    as [(X & o & n & s & w & _ & (code' & Hc & Hsw) & _)|(q & r & s & w & Hq & Hq' & Hdid & _ & He & Hdb & _)].
  - exfalso.
    assert (next_is (fun _ _ => true) (snd (play_from (demo_play demo_locked) demo_executes)) (Go 0) = false)
      as Hx by (vm_compute; reflexivity).
    unfold next_is in Hx. rewrite Hc in Hx. inversion Hsw. subst code'. discriminate Hx.
  - exists q, r, s, w. split; [exact Hq|]. split; [exact Hq'|]. split; [exact Hdid|]. split; [by apply Hdb|exact He].
Defined.

(** A poll sends the override and records it. Two hours later the consumer,
    which runs since before, is about to send the review for a command. *)
Definition demo_owned : demo_plays :=
  [Once (Begin 2 (WConsume [demo_review_command])); Once (Begin 1 (WPoll 5 [Ticked])); Until to_end (Go 1) demo_gh_bump].
Definition demo_later : demo_plays := [Once (Tick (12 * Hour)); Until to_send (Go 2) demo_gh_bump].

Lemma override_owns_head_everywhere_witness :
  let p0 := demo_play demo_owned in
  let p := snd (play_from p0 demo_later) in
  suppressed (now_of (p_shared p0)) (guard_pr demo_pr_1 demo_pr_details) (sh_db (p_shared p0)) = Ok true /\
  exists th cmd, p_threads p !! Go 2 = Some th /\ sending th cmd /\
  exists pr d forced m t, reviews demo_wiring cmd pr d forced /\
    sh_trace (p_shared p) !! m = Some (Go 2, Ev Now t) /\
    ((length (sh_trace (p_shared p0)) <= m)%nat -> forall t0,
      holds overrideLedgerBucketName (overrideLedgerKey (guard_pr pr d)) t0 (sh_db (p_shared p0)) ->
      t0 + Hour < now_of (p_shared p)).
Proof.
  cbn zeta. split; [vm_compute; reflexivity|].
  destruct (next_is_review (snd (play_from (demo_play demo_owned) demo_later)) (Go 2))
    as (th & cmd & Hth & Hs & Hr); [vm_compute; reflexivity|].
  exists th, cmd. split; [exact Hth|]. split; [exact Hs|].
  destruct (override_owns_head_everywhere demo_wiring "key" demo_books demo_books_ok
    (demo_play demo_owned) (snd (play_from (demo_play demo_owned) demo_later)) (Go 2) th cmd
    (demo_play_reachable demo_owned) (play_from_steps _ demo_later) Hth Hs Hr)
    as (pr & d & f & m & t & Hc & Hm & _ & Ho).
  exists pr, d, f, m, t. split; [exact Hc|]. split; [exact Hm|exact Ho].
Defined.

(** The same command while the override is in force sends nothing. *)
Example demo_owned_command :
  sent (snd (play_from (demo_play demo_owned)
    [Until to_end (Go 2) demo_gh_bump])) =
  sent (demo_play demo_owned).
Proof. vm_compute. reflexivity. Qed.

(** The commands of a delivery reach their executors. *)
Definition demo_delivered : demo_plays :=
  [Once (Begin 1 (WHttp 5 demo_delivery)); Until to_end (Go 1) demo_gh_bump].

Lemma commands_understood_witness :
  let p := demo_play demo_delivered in
  sh_trace (p_shared p) !! 3%nat = Some (Go 1, Ev (SendTrigger (demo_cmd false true)) (Ok tt)) /\
  exists data details s', ParseEvent_trigger (demo_cmd false true) = Some data /\
    trace (snd (runM (execute demo_wiring OpTriggerPRReview data) (demo_start demo_opted_in demo_bump))) =
      Ev (GetPRDetails "bborbe" "errors" 7) details :: s'.
Proof.
  cbn zeta. assert (sh_trace (p_shared (demo_play demo_delivered)) !! 3%nat =
    Some (Go 1, Ev (SendTrigger (demo_cmd false true)) (Ok tt))) as H3 by (vm_compute; reflexivity).
  split; [exact H3|].
  destruct (commands_understood demo_wiring "key" demo_books (SC:=solo) (demo_play demo_delivered) (Go 1)
    (demo_start demo_opted_in demo_bump) (demo_play_reachable _)) as [H _].
  destruct (H (demo_cmd false true) (Ok tt) (list_elem_of_lookup_2 _ _ _ H3)) as (data & info & Hd & Hi & _ & Hr).
  apply wp_alone in Hr as (s & Ht & details & s' & Hs). exists data, details, s'. split; [exact Hd|].
  vm_compute in Hi. injection Hi as <-. rewrite Ht. exact Hs.
Defined.

(** ** Held heads *)

(** A poll reviews the PR; a second later a delivery brings a new head. *)
Definition demo_held : demo_plays :=
  [Once (Begin 1 (WPoll 5 [Ticked])); Until to_end (Go 1) demo_gh_old; Once (Tick (10 * Hour + Second));
   Once (Begin 2 (WHttp 5 demo_delivery)); Until to_end (Go 2) demo_gh_code].

Lemma process_refines_coalescer_witness :
  exists tr, CoalesceProofs.run (hold_of demo_wiring) tr (sh_coal (p_shared (demo_play demo_held))).
Proof.
  destruct (process_refines_coalescer demo_wiring "key" demo_books demo_books_ok _ _ (demo_play_run demo_held))
    as (tr & _ & Hr & _).
  exists tr. exact Hr.
Defined.

Lemma held_head_reaches_dispatch_witness :
  let p := demo_play demo_held in
  exists t p', rtc (timer_step demo_wiring t) p p' /\
    flights (sh_coal (p_shared p')) =
      [mkFlight t (mkKey "bborbe" "errors" 7) "https://github.com/bborbe/errors/pull/7" "0123abcd"].
Proof.
  cbn zeta.
  destruct (held_head_reaches_dispatch demo_wiring "key" demo_books demo_books_ok _ _ (mkKey "bborbe" "errors" 7)
    (demo_play_run demo_held)) as (t & p' & Hs & _ & Hf & _); [vm_compute; reflexivity|vm_compute; discriminate|].
  exists t, p'. split; [exact Hs|]. rewrite Hf. vm_compute. reflexivity.
Defined.

(** ** What the ledger does not rule out *)

(** The consumer found no override; the poll sends one before the consumer
    sends its review, and records it only after the command. *)
Example override_sent_then_review :
  (fun '(i, cmd) => (i, is_review cmd)) <$>
    sent (snd (play_from (demo_play demo_contention) [Until to_end (Go 0) demo_gh_bump; Until to_end (Go 1) demo_gh_bump])) =
  [(Go 1, false); (Go 0, true)].
Proof. vm_compute. reflexivity. Qed.

(** Two polls overlap: the publisher looks the head up, and only later sends.
    In between, a check sends the label's override and records it; the review
    goes out for a head that an override on the ledger owns. *)
Definition demo_overlap : demo_plays :=
  [Once (Begin 1 (WPoll 5 [Ticked])); Until to_send (Go 1) demo_gh_code;
   Once (Begin 2 (WHttp 5 demo_check)); Until to_end (Go 2) demo_gh_labelled].

Example owned_head_reviewed :
  let p := demo_play demo_overlap in
  suppressed (now_of (p_shared p)) (guard_pr demo_pr_1 demo_pr_details) (sh_db (p_shared p)) = Ok true /\
  next_is to_review p (Go 1) = true /\
  (fun '(i, cmd) => (i, is_review cmd)) <$> sent (snd (play_from p [Until to_end (Go 1) demo_gh_code])) =
    [(Go 2, false); (Go 1, true)].
Proof. vm_compute. repeat split. Qed.
